(* ===== verification/_CoqProject ===== *)
-Q . S2P
Prelude.v
ArithUint.v
Version.v
Params.v
Subsidy.v
Primitives.v
Chain.v
Asert.v
Pow.v
Sha256.v
Merkle.v
Serialize.v
Block.v
Script.v
Genesis.v
Networks.v
AuxPow.v
CoinsMap.v
Coins.v
CoinsDB.v
Headers.v
AssumeValid.v
TxCheck.v
Undo.v
SigOps.v
BlockCheck.v
ScriptChecks.v
CuckooCache.v
ScriptCache.v
CheckQueue.v
Connect.v
ConnectOk.v
Ledger.v
History.v
Regtest.v
RpcDocs.v
