(* ===== verification/Prelude.v ===== *)
(** * A verification of the qbit consensus core

    qbit is a fork of Bitcoin Core whose blocks come in two lanes: _permissionless_ blocks, mined on
    their own header, and _AuxPoW_ blocks, mined on the header of a parent chain that commits to
    them.  This library models the part of the node that decides which headers and blocks exist,
    how they are named, ordered, weighed, encoded and checked, how the set of unspent coins is
    cached and stored, and how blocks are connected to it and disconnected from it, and proves it
    correct.  Paths below are relative to [src/].

    ** The program and the files that model it

    The data come first.  A block header carries a version word that says its lane; a block is a
    header, the merged-mining payload its version announces, and transactions.

    - [ArithUint.v]: [src/arith_uint256.{h,cpp}].  A [base_uint<BITS>] is its list of 32-bit
      digits [pn]; each operator is the digit loop of the source.
    - [Version.v]: the version word of [src/primitives/pureheader.h].
    - [Params.v]: [src/consensus/params.h], [src/consensus/amount.h], the future-time limits of
      [src/chain.h] and the main network values of [src/kernel/chainparams.cpp].
    - [Primitives.v]: the records of [src/primitives/] and [src/auxpow.h].
    - [Serialize.v]: the primitives of [src/serialize.h].  A stream is the list of bytes left; a
      [format] is the pair of a writer and a reader with its laws.
    - [Block.v]: the wire format of transactions, headers, payloads and blocks
      ([src/primitives/transaction.h], [src/primitives/block.h], [src/auxpow.h]), their hashes and
      the block Merkle roots.
    - [Script.v]: script numbers, the push operators and [GetScriptOp] of
      [src/script/script.{h,cpp}].
    - [Networks.v]: the parameters of the four test networks of [src/kernel/chainparams.cpp], with
      the options of the regression-test network.

    Everything is named by hashes.

    - [Sha256.v]: the portable SHA-256 of [src/crypto/sha256.cpp], streaming and batched, and the
      hashers of [src/hash.h].  The batched hasher calls 2-, 4- and 8-lane routines the processor
      may have; they are the class [MultiWay] with the laws [MultiWayLaws], and every theorem of a
      client holds for every lawful set of lanes.
    - [Merkle.v]: [src/consensus/merkle.cpp] and [CheckMerkleBranch] of [src/auxpow.cpp].

    The rules work on the index of all known headers.

    - [Chain.v]: [src/chain.{h,cpp}] and [BlockManager::AddToBlockIndex] of
      [src/node/blockstorage.cpp].  [m_block_index] owns the entries and never moves them, so a
      [CBlockIndex*] is the key of its entry and a dereference is a lookup that can fail.
    - [Asert.v] and [Pow.v]: [src/pow.cpp].  [Asert.v] has the wide-word target arithmetic,
      [Pow.v] the choice of the next target per lane and the checks on it.
    - [Subsidy.v]: [GetBlockSubsidy] of [src/validation.cpp].
    - [AuxPow.v]: [src/auxpow.{h,cpp}] and [src/auxpow_validation.cpp].
    - [Genesis.v]: the genesis blocks of [src/kernel/chainparams.cpp].
    - [Headers.v]: the acceptance of headers in [src/validation.cpp], from [CheckBlockHeader] to
      [ProcessNewBlockHeaders], as steps of a [ChainstateManager] that holds the index and the best
      header.

    Blocks spend coins.  A view of the coins is the class [CCoinsView], the interface of
    [src/coins.h], with the laws [CoinsViewLaws]; a cache is a view on a view.

    - [CoinsMap.v]: the cache entries of [src/coins.h] with the doubly linked list that threads the
      flagged ones.  The pointers of the list are modelled as the code has them.
    - [Coins.v]: [CCoinsViewCache] of [src/coins.cpp] on any view, itself an instance of the class.
    - [CoinsDB.v]: [CCoinsViewDB] of [src/txdb.cpp] on a store that writes batches atomically (the
      class [CDBWrapper] with [CDBWrapperLaws]), also an instance.
    - [TxCheck.v]: [src/consensus/tx_check.cpp] and the lock times and input checks of
      [src/consensus/tx_verify.cpp].
    - [SigOps.v]: the counting of signature operations in [src/script/script.cpp],
      [src/script/interpreter.cpp] and [src/consensus/tx_verify.cpp], and
      [src/consensus/restricted_outputs.h].
    - [BlockCheck.v]: [CheckBlock], [ContextualCheckBlock], the witness commitment and its
      construction, in [src/validation.cpp].

    The chainstate joins them: a block that passed the checks is connected to the coins of its
    parent, or disconnected from its own.

    - [AssumeValid.v]: the rule by which [ConnectBlock] skips scripts, [CanSkipScriptChecks] of
      [src/validation.cpp].
    - [Undo.v]: [UpdateCoins], [ApplyTxInUndo] and [DisconnectBlock] of [src/validation.cpp], with
      the records of [src/undo.h] and [AccessByTxid] of [src/coins.cpp].
    - [ScriptChecks.v]: [CScriptCheck], [ValidationCache] and [CheckInputScripts] of
      [src/validation.cpp], inline and deferred.  The cache of verified transactions is the class
      [ScriptExecutionCache] with [ScriptExecutionCacheLaws].
    - [CuckooCache.v], Module [Cuckoo]: [src/cuckoocache.h], a table whose elements have eight places
      and are collected by epochs; [ScriptCache.v] makes it an instance of that class.
    - [CheckQueue.v], Module [Queue]: [src/checkqueue.h], with the critical sections of its threads
      as the steps of a relation that any scheduler may interleave.
    - [Connect.v]: [GetBlockScriptFlags] and [ConnectBlock] of [src/validation.cpp], and
      [WriteBlockUndo] of [src/node/blockstorage.cpp].  [ConnectOk.v] states the rules a block has to
      meet over a map of coins and shows that the code decides them.
    - [Ledger.v]: the coins of a chain of blocks as a function of the chain, with its invariant.
    - [History.v]: a node over time.  Headers arrive, blocks are connected, rejected or disconnected,
      and scripts are checked, in any order ([node_run]).  [Regtest.v] runs such a node on the
      regression-test network; it has the instances of the theorems of [History.v].

    Beside the node:

    - [RpcDocs.v]: the script of the RPC reference page, [doc/rpc/assets/rpcdocs.js], on a store of
      DOM elements shared by its event handlers.

    [Prelude.v], this file, has the shared notations, tactics and lemmas.

    ** Conventions

    A machine integer is a [Z]: [wrap w] is the value of an unsigned [w]-bit conversion, [swrap w]
    of a signed one, [in_u w] and [in_s w] are the ranges, and [sarith w] is signed arithmetic,
    undefined outside the range.  A definition that can fail an [assert], throw, overflow a signed
    integer, dereference null or index out of range returns an [option] whose [None] is that event;
    a result that the source itself makes optional is an inner [option].  [assert! c; k] and
    [let! x := e in k] sequence such steps.  A [uint256] is its 32 bytes in memory order.

    ** What the theorems show

    - Difficulty ([Pow.v], [Asert.v]): difficulty selection is total on every index the node can
      build; under the cadence rules the target of a lane depends on that lane only; ASERT is the
      exact fixed-point formula, monotone in the elapsed time; the check on adjacent headers used by
      header synchronisation accepts what selection returns.
    - The index ([Chain.v]): an invariant kept by every insertion; the skip-list walk is the plain
      walk along [pprev]; every entry holds the totals of its branch; [SetTip], [FindFork] and
      [LastCommonAncestor] compute paths and greatest common ancestors.
    - Headers ([Headers.v], [Networks.v]): acceptance is characterised with every rejection; every
      header of a reachable index satisfies the rules against its parent; the median time never
      falls along a branch; the network parameters are in the ranges the other theorems assume.
    - Coins ([CoinsMap.v], [Coins.v], [CoinsDB.v]): a stack of caches over a database behaves as one
      map from outpoints to coins under any sequence of operations, flushes included, and a write
      that is cut short between batches leaves a database that says so and that mixes only the two
      states.
    - Transactions and blocks ([TxCheck.v], [SigOps.v], [BlockCheck.v]): the context-free check is
      characterised exactly; lock times, once satisfied, stay satisfied; a block that passed the
      checks is fixed by its hash with its witnesses; a commitment built by the node is accepted.
    - The chainstate ([ConnectOk.v], [Ledger.v], [History.v]): at every node that can arise
      [ConnectBlock] terminates without a failed assertion and decides exactly the rules; the coins
      depend on the best block alone, whatever was connected and disconnected before; the best block
      can always be disconnected; the coins are never worth more than the subsidies; transaction
      identifiers are unique in the chain, which is why the search for repeated outputs may be
      skipped; cached script results never change a verdict.
    - Skipped scripts ([AssumeValid.v]): they are skipped exactly under the documented rule, and the
      comparison of work and time without wide products is exact.
    - The check queue ([CheckQueue.v]): for every number of workers and every interleaving,
      [Complete] returns, and it returns an error exactly when a check of the round has one, which is
      what [ConnectOk.v] assumes of it ([queue_correct]).
    - The cuckoo cache ([CuckooCache.v]): no access leaves the table, an insertion loses at most one
      element, a lookup finds exactly the elements of the table, and the epochs keep room in it.
      Two theorems show limits of the set-up: from 95,443,718 slots on the epoch size wraps, and from
      [2^32 - 7] slots on the flags get no memory.
    - Hashing ([Sha256.v], [Merkle.v]): streaming and batched hashing compute the function of the
      standard, whatever the division into writes or lanes; the Merkle root with its mutation flag
      fixes the list of leaves, the one-pass algorithm agrees with the level-by-level one, and a
      branch proves membership at one position.
    - Encoding ([Serialize.v], [Block.v], [Script.v]): every object has exactly one encoding and is
      read back from it; truncated input is refused; the block hash fixes header and transactions.
    - Merged mining ([AuxPow.v]): validation is characterised exactly, one parent header secures at
      most one block of a chain id, and a payload built as documented is accepted.
    - Money ([Subsidy.v]): the subsidy never rises, and the main network never issues more than its
      cap.
    - Genesis ([Genesis.v]): the hashes asserted for all five networks are those of the blocks the
      constructors build.
    - Arithmetic ([ArithUint.v], [Version.v]): the digit loops are arithmetic modulo [2^BITS],
      division is exact, and compact targets and version words are round trips.
    - The page ([RpcDocs.v]): under any sequence of user events the page shows what an abstract
      switch shows, and touches nothing else.

    SHA-256 is not assumed to be injective, which it is not.  Where a theorem says that a hash fixes
    its argument it assumes [no_collision] of the strings hashed in the two computations it
    compares, which is the event a collision search would have to produce.  [History.v] assumes the
    same of the transactions that occur and of the entries of their script checks, none of which is
    the null entry that a new table holds.

    [Chain.v] and [Pow.v] are proved for every hash function [GetHash] on headers; the node uses
    [HeaderGetHash] of [Block.v].  Insertion assumes that a header is not its own parent.

    ** Bounds and fuel

    Loops that are not structural take fuel, and the theorems show that it suffices, never only that
    the result is right if there is one.  The walks of [Chain.v] take at most the height of their start plus
    one, because each step lowers the height; the loops of [MerkleComputation] take the 32 levels of
    its array; [ComputeMerkleRoot] takes the number of leaves, which each level halves;
    [CScriptNum::serialize] and the variable-length integers take the number of digits of the
    widest argument; a pass over the flagged entries of a coins cache takes the size of the map;
    script loops take the length of the script; [AccessByTxid] takes the number of outputs a block
    can have; the digit loops of [ArithUint.v] run over the width.

    ** Not modelled

    The script interpreter with its signature checks is an argument of the connection of blocks, as
    are the contents of the block and undo files, the outcome of their writes, and the solution of a
    signet block: they depend on signature libraries outside the repository's own sources or on the
    disk.  The choice of the chain to activate, snapshots, witness pruning, the memory pool, the
    wallet, the network, the RPC server and the graphical interface are not modelled: they depend on
    LevelDB, sockets, clocks and the notifications between them.  The destructor of the check queue
    is left out, and of the coins cache the counter of its memory use, which no operation reads.  The hardware
    SHA-256 routines are intrinsics and assembly, and enter as [MultiWay].  Text output (debug
    messages, [ToString], hexadecimal and JSON) is left out throughout. *)

From stdpp Require Export list numbers option.
From Stdlib Require Export ZArith Lia Btauto.

#[local] Open Scope Z_scope.

(** ** Control flow of the C++ code *)

Declare Scope qbit_scope.
Delimit Scope qbit_scope with qbit.

(** [assert(c)] of the source aborts the process: the model returns [None]. *)
Notation "'assert!' c ; k" := (if c then k else None)
  (at level 200, c at level 100, k at level 200, right associativity) : qbit_scope.
Notation "'let!' x := e 'in' k" := (match e with Some x => k | None => None end)
  (at level 200, x binder, e at level 100, k at level 200, right associativity) : qbit_scope.

#[local] Open Scope qbit_scope.

(** ** Machine integers *)

(** Unsigned arithmetic wraps modulo [2^w]. *)
Definition wrap (w z : Z) : Z := z mod 2 ^ w.

(** Conversion to a signed [w]-bit integer: two's complement. *)
Definition swrap (w z : Z) : Z := (z + 2 ^ (w - 1)) mod 2 ^ w - 2 ^ (w - 1).

Definition in_u (w z : Z) : Prop := 0 <= z < 2 ^ w.
Definition in_s (w z : Z) : Prop := - 2 ^ (w - 1) <= z < 2 ^ (w - 1).

Definition in_sb (w z : Z) : bool := (- 2 ^ (w - 1) <=? z) && (z <? 2 ^ (w - 1)).

(** Signed arithmetic that overflows is undefined in C++: the model returns [None]. *)
Definition sarith (w z : Z) : option Z := if in_sb w z then Some z else None.

(** Truncating division and remainder: a zero divisor and [MIN / -1] are undefined. *)
Definition squot (w a b : Z) : option Z := assert! negb (b =? 0); sarith w (Z.quot a b).
Definition srem (w a b : Z) : option Z := let! _ := squot w a b in Some (Z.rem a b).

Lemma wrap_range w z : 0 <= w -> in_u w (wrap w z).
Proof. intros; apply Z.mod_pos_bound; lia. Qed.

Lemma wrap_small w z : in_u w z -> wrap w z = z.
Proof. intros; apply Z.mod_small; assumption. Qed.

Lemma wrap_land w z : 0 <= w -> wrap w z = Z.land z (Z.ones w).
Proof. intros; unfold wrap; rewrite Z.land_ones by lia; reflexivity. Qed.

Lemma in_sb_spec w z : in_sb w z = true <-> in_s w z.
Proof. unfold in_sb, in_s; rewrite andb_true_iff, Z.leb_le, Z.ltb_lt; reflexivity. Qed.

Lemma sarith_ok w z : in_s w z -> sarith w z = Some z.
Proof. intros H; unfold sarith; rewrite (proj2 (in_sb_spec w z) H); reflexivity. Qed.

Lemma sarith_some w z r : sarith w z = Some r -> r = z /\ in_s w z.
Proof.
  unfold sarith; destruct (in_sb w z) eqn:E; intros H; simplify_eq.
  split; [reflexivity | apply in_sb_spec, E].
Qed.

Lemma swrap_small w z : 0 < w -> in_s w z -> swrap w z = z.
Proof.
  unfold in_s, swrap; intros Hw H.
  assert (2 ^ w = 2 * 2 ^ (w - 1)) by (rewrite <- Z.pow_succ_r by lia; f_equal; lia).
  rewrite Z.mod_small; lia.
Qed.

(** ** Powers of two and bits *)

Lemma pow2_pos w : 0 <= w -> 0 < 2 ^ w.
Proof. intros; lia. Qed.

Lemma pow2_split a b : 0 <= a -> 0 <= b -> 2 ^ (a + b) = 2 ^ a * 2 ^ b.
Proof. intros; apply Z.pow_add_r; lia. Qed.

Lemma testbit_above w z i : in_u w z -> 0 <= w <= i -> Z.testbit z i = false.
Proof.
  intros Hz Hi; rewrite <- (wrap_small w z Hz); unfold wrap.
  apply Z.mod_pow2_bits_high; lia.
Qed.

Lemma testbit_wrap w z i :
  0 <= w -> 0 <= i -> Z.testbit (wrap w z) i = (i <? w) && Z.testbit z i.
Proof.
  intros Hw Hi; unfold wrap; destruct (Z.ltb_spec i w).
  - rewrite Z.mod_pow2_bits_low by lia; reflexivity.
  - rewrite Z.mod_pow2_bits_high by lia; reflexivity.
Qed.

(** Operands with no common bit: [|] is [+]. *)
Lemma lor_add_disjoint x y w :
  0 <= w -> in_u w x -> 0 <= y -> Z.lor x (y * 2 ^ w) = x + y * 2 ^ w.
Proof.
  intros Hw Hx Hy; symmetry.
  rewrite <- Z.lxor_lor, Z.add_nocarry_lxor; [reflexivity | |].
  all: apply Z.bits_inj'; intros i Hi; rewrite Z.land_spec, Z.bits_0.
  all: rewrite <- Z.shiftl_mul_pow2, Z.shiftl_spec by lia.
  all: destruct (Z.lt_ge_cases i w);
    [ rewrite (Z.testbit_neg_r y) by lia; btauto
    | rewrite (testbit_above w x i) by (auto || lia); reflexivity ].
Qed.

(** ** Positional numbers: little-endian lists of [w]-bit digits *)

Fixpoint lval (w : Z) (l : list Z) : Z :=
  match l with
  | [] => 0
  | x :: t => x + 2 ^ w * lval w t
  end.

(** The first [n] base-[2^w] digits of [z]. *)
Fixpoint digits (w : Z) (n : nat) (z : Z) : list Z :=
  match n with
  | O => []
  | S n => wrap w z :: digits w n (Z.shiftr z w)
  end.

Create HintDb limbs.

Definition limbs (w : Z) (l : list Z) : Prop := Forall (in_u w) l.

(** Array access of the source: in range wherever the code reads or writes. *)
Definition get (l : list Z) (i : nat) : Z := nth i l 0.
Definition set (l : list Z) (i : nat) (x : Z) : list Z := <[i := x]> l.

Section Positional.
Context (w : Z) (Hw : 0 < w).

Lemma limbs_cons x l : limbs w (x :: l) <-> in_u w x /\ limbs w l.
Proof. apply Forall_cons_iff. Qed.

Lemma limbs_app l k : limbs w (l ++ k) <-> limbs w l /\ limbs w k.
Proof. apply Forall_app. Qed.

Lemma limbs_replicate n x : in_u w x -> limbs w (replicate n x).
Proof. intros; apply Forall_replicate; assumption. Qed.

Lemma limbs_get l i : limbs w l -> in_u w (get l i).
Proof.
  intros H; unfold get; destruct (Nat.lt_ge_cases i (length l)).
  - apply (proj1 (List.Forall_forall _ _) H), nth_In; assumption.
  - rewrite nth_overflow by assumption; red; lia.
Qed.

Lemma limbs_set l i x : limbs w l -> in_u w x -> limbs w (set l i x).
Proof. intros; apply Forall_insert; assumption. Qed.

Lemma lval_range l : limbs w l -> in_u (w * Z.of_nat (length l)) (lval w l).
Proof.
  unfold in_u; induction l as [|x l IH]; intros H; cbn [lval length].
  - rewrite Z.mul_0_r; lia.
  - apply limbs_cons in H as [Hx Hl]; specialize (IH Hl).
    rewrite Nat2Z.inj_succ, Z.mul_succ_r, Z.add_comm, pow2_split by lia.
    unfold in_u in Hx; pose proof (pow2_pos w); nia.
Qed.

Lemma lval_nonneg l : limbs w l -> 0 <= lval w l.
Proof. intros H; apply lval_range in H; unfold in_u in H; lia. Qed.

Lemma lval_app l k : lval w (l ++ k) = lval w l + 2 ^ (w * Z.of_nat (length l)) * lval w k.
Proof.
  induction l as [|x l IH]; cbn [lval length app].
  - rewrite Z.mul_0_r; lia.
  - rewrite IH, Nat2Z.inj_succ, Z.mul_succ_r, (Z.add_comm (w * _)), pow2_split by lia; ring.
Qed.

Lemma lval_zero n : lval w (replicate n 0) = 0.
Proof. induction n as [|n IH]; cbn; [|rewrite IH]; lia. Qed.

Lemma length_digits n z : length (digits w n z) = n.
Proof. revert z; induction n; intros; cbn; [|rewrite IHn]; reflexivity. Qed.

Lemma limbs_digits n z : limbs w (digits w n z).
Proof.
  revert z; induction n; intros; cbn; constructor; [apply wrap_range; lia | apply IHn].
Qed.

Lemma lval_digits n z : lval w (digits w n z) = wrap (w * Z.of_nat n) z.
Proof.
  unfold wrap; revert z; induction n as [|n IH]; intros z; cbn [lval digits].
  - rewrite Z.mul_0_r, Z.mod_1_r; reflexivity.
  - rewrite IH, Z.shiftr_div_pow2, Nat2Z.inj_succ, Z.mul_succ_r, Z.add_comm, (Z.add_comm (w * _)),
      pow2_split by lia.
    unfold wrap; rewrite Z.rem_mul_r by lia; lia.
Qed.

Lemma lval_inj l k :
  length l = length k -> limbs w l -> limbs w k -> lval w l = lval w k -> l = k.
Proof.
  revert k; induction l as [|x l IH]; intros [|y k] Hlen Hl Hk E; try discriminate; auto.
  apply limbs_cons in Hl as [Hx Hl]; apply limbs_cons in Hk as [Hy Hk].
  cbn [lval] in E; unfold in_u in *.
  assert (x = y).
  { rewrite <- (Z.mod_small x (2 ^ w)), <- (Z.mod_small y (2 ^ w)) by lia.
    rewrite <- (Z_mod_plus_full x (lval w l)), <- (Z_mod_plus_full y (lval w k)).
    f_equal; lia. }
  subst y; f_equal; apply IH; auto.
  pose proof (pow2_pos w); nia.
Qed.

Lemma digits_lval l n : limbs w l -> length l = n -> digits w n (lval w l) = l.
Proof.
  intros Hl <-; apply lval_inj; auto using length_digits, limbs_digits.
  rewrite lval_digits, wrap_small; auto using lval_range.
Qed.

Lemma lval_testbit l i :
  limbs w l -> 0 <= i ->
  Z.testbit (lval w l) i = Z.testbit (get l (Z.to_nat (i / w))) (i mod w).
Proof.
  revert i; induction l as [|x l IH]; intros i Hl Hi; cbn [lval].
  - unfold get; rewrite nth_overflow by (cbn; lia); rewrite !Z.bits_0; reflexivity.
  - apply limbs_cons in Hl as [Hx Hl].
    rewrite Z.mul_comm, <- (lor_add_disjoint x (lval w l) w), Z.lor_spec by
      (auto using lval_nonneg; lia).
    rewrite <- Z.shiftl_mul_pow2, Z.shiftl_spec by lia.
    destruct (Z.lt_ge_cases i w).
    + rewrite (Z.testbit_neg_r (lval w l)), orb_false_r by lia.
      rewrite Z.div_small, Z.mod_small by lia; reflexivity.
    + rewrite (testbit_above w x i) by (auto || lia); cbn [orb].
      rewrite IH by (auto || lia).
      replace i with (i - w + 1 * w) at 3 4 by lia.
      rewrite Z.div_add, Z.mod_add by lia.
      rewrite Z2Nat.inj_add by (try apply Z.div_pos; lia).
      replace (Z.to_nat 1) with 1%nat by reflexivity.
      rewrite Nat.add_1_r; reflexivity.
Qed.

Lemma lval_get_div l i :
  limbs w l -> get l i = wrap w (lval w l / 2 ^ (w * Z.of_nat i)).
Proof.
  intros Hl; symmetry; apply Z.bits_inj'; intros n Hn.
  rewrite testbit_wrap, <- Z.shiftr_div_pow2, Z.shiftr_spec, lval_testbit by (auto; lia).
  destruct (Z.ltb_spec n w).
  - rewrite (Z.mul_comm w), Z.div_add, Z.mod_add, Z.div_small, Z.mod_small by lia.
    rewrite Z.add_0_l, Nat2Z.id; reflexivity.
  - symmetry; apply (testbit_above w); auto using limbs_get; lia.
Qed.
End Positional.

Lemma length_set l i x : length (set l i x) = length l.
Proof. apply length_insert. Qed.

Lemma get_set_eq l i x : (i < length l)%nat -> get (set l i x) i = x.
Proof.
  intros; unfold get, set; rewrite nth_lookup, list_lookup_insert_eq by assumption; reflexivity.
Qed.

Lemma get_set_ne l i j x : i <> j -> get (set l i x) j = get l j.
Proof. intros; unfold get, set; rewrite !nth_lookup, list_lookup_insert_ne by assumption; reflexivity. Qed.

Lemma get_replicate n x i : (i < n)%nat -> get (replicate n x) i = x.
Proof. intros; unfold get; rewrite nth_lookup, lookup_replicate_2 by assumption; reflexivity. Qed.

Lemma get_overflow l i : (length l <= i)%nat -> get l i = 0.
Proof. intros; apply nth_overflow; assumption. Qed.

Lemma get_map_seq (f : nat -> Z) n i : (i < n)%nat -> get (map f (seq 0 n)) i = f i.
Proof.
  intros Hi; unfold get; rewrite (nth_indep _ 0 (f 0%nat)) by (rewrite length_map, length_seq; exact Hi).
  rewrite map_nth, seq_nth by exact Hi; reflexivity.
Qed.

Lemma get_ext l k :
  length l = length k -> (forall i, (i < length l)%nat -> get l i = get k i) -> l = k.
Proof. intros Hlen H; apply (nth_ext l k 0 0); auto. Qed.

(** Checks a property of the numbers below [n] by cases. *)
Lemma byte_cases n (P : Z -> bool) m :
  forallb P (map Z.of_nat (seq 0 n)) = true -> 0 <= m < Z.of_nat n -> P m = true.
Proof.
  intros Hall Hm; rewrite forallb_forall in Hall; apply Hall, in_map_iff.
  exists (Z.to_nat m); rewrite in_seq; lia.
Qed.

#[export] Hint Resolve wrap_range limbs_get limbs_set limbs_digits lval_nonneg lval_range : limbs.
#[export] Hint Extern 4 (_ <= _) => lia : limbs.
#[export] Hint Extern 4 (_ < _) => lia : limbs.

Section PositionalUpdates.
Context (w : Z) (Hw : 0 < w).

Lemma lval_set l i x :
  (i < length l)%nat ->
  lval w (set l i x) = lval w l + 2 ^ (w * Z.of_nat i) * (x - get l i).
Proof.
  revert i; induction l as [|y l IH]; intros i Hi; cbn [length] in Hi; [lia|].
  destruct i as [|i].
  - unfold set, get; cbn; rewrite Z.mul_0_r, Z.pow_0_r; lia.
  - change (set (y :: l) (S i) x) with (y :: set l i x).
    change (get (y :: l) (S i)) with (get l i); cbn [lval].
    rewrite IH, Nat2Z.inj_succ, Z.mul_succ_r, (Z.add_comm (w * _)), pow2_split by lia; ring.
Qed.

Lemma lval_take_S l i :
  (i < length l)%nat ->
  lval w (take (S i) l) = lval w (take i l) + 2 ^ (w * Z.of_nat i) * get l i.
Proof.
  intros Hi.
  destruct (lookup_lt_is_Some_2 l i Hi) as [x Hx].
  rewrite (take_S_r l i x Hx), lval_app, length_take_le by lia; cbn.
  unfold get; rewrite nth_lookup, Hx; cbn; lia.
Qed.

Lemma lval_take_drop l i :
  (i <= length l)%nat ->
  lval w l = lval w (take i l) + 2 ^ (w * Z.of_nat i) * lval w (drop i l).
Proof.
  intros Hi; rewrite <- (take_drop i l) at 1.
  rewrite lval_app, length_take_le by lia; reflexivity.
Qed.

Lemma limbs_take l i : limbs w l -> limbs w (take i l).
Proof. apply Forall_take. Qed.

Lemma limbs_drop l i : limbs w l -> limbs w (drop i l).
Proof. apply Forall_drop. Qed.

(** A digit list that differs from [z] by a multiple of the modulus is [z] reduced. *)
Lemma lval_mod_unique l z c :
  limbs w l -> z = lval w l + 2 ^ (w * Z.of_nat (length l)) * c ->
  lval w l = wrap (w * Z.of_nat (length l)) z.
Proof.
  intros Hl ->; unfold wrap; rewrite Z.mul_comm, Z_mod_plus_full.
  symmetry; apply Z.mod_small, lval_range; assumption.
Qed.
End PositionalUpdates.

(** One step of a digit loop: a 64-bit accumulator leaves its low word and carries its high word. *)
Lemma carry_split n :
  in_u 64 n ->
  wrap 64 n = n /\ in_u 32 (Z.land n 0xffffffff) /\ 0 <= Z.shiftr n 32 < 2 ^ 32 /\
  n = Z.land n 0xffffffff + 2 ^ 32 * Z.shiftr n 32.
Proof.
  intros Hn; change 0xffffffff with (Z.ones 32).
  rewrite Z.land_ones, Z.shiftr_div_pow2 by lia; unfold in_u in *.
  repeat split; try (apply wrap_small; assumption).
  1-2: apply Z.mod_pos_bound; lia.
  - apply Z.div_pos; lia.
  - apply Z.div_lt_upper_bound; lia.
  - rewrite Z.add_comm; apply Z.div_mod; lia.
Qed.

#[export] Hint Resolve limbs_take limbs_drop : limbs.

Lemma lor_range w x y : 0 <= w -> in_u w x -> in_u w y -> in_u w (Z.lor x y).
Proof.
  intros Hw Hx Hy; rewrite <- (wrap_small w x Hx), <- (wrap_small w y Hy).
  replace (Z.lor _ _) with (wrap w (Z.lor x y)); [apply wrap_range; assumption|].
  apply Z.bits_inj'; intros i Hi.
  rewrite !Z.lor_spec, !testbit_wrap, Z.lor_spec by assumption; btauto.
Qed.

Lemma shiftr_range w x s : 0 <= s -> in_u w x -> in_u w (Z.shiftr x s).
Proof.
  intros Hs [H0 H1]; rewrite Z.shiftr_div_pow2 by assumption; split; [apply Z.div_pos; lia|].
  apply Z.le_lt_trans with x; [apply Z.div_le_upper_bound; [lia|] | assumption].
  pose proof (pow2_pos s Hs); nia.
Qed.

Lemma limbs_of_get w l : (forall j, (j < length l)%nat -> in_u w (get l j)) -> limbs w l.
Proof.
  intros H; apply List.Forall_forall; intros x Hx.
  destruct (In_nth l x 0 Hx) as (j & Hj & <-); apply H; assumption.
Qed.

(** ** Bit length *)

(** Position of the highest set bit plus one; 0 for 0. *)
Definition bitlen (z : Z) : Z := if z =? 0 then 0 else Z.log2 z + 1.

Lemma bitlen_spec z : 0 < z -> 2 ^ (bitlen z - 1) <= z < 2 ^ bitlen z /\ 0 < bitlen z.
Proof.
  intros Hz; unfold bitlen; destruct (Z.eqb_spec z 0); [lia|].
  pose proof (Z.log2_spec z Hz); pose proof (Z.log2_nonneg z).
  replace (Z.log2 z + 1 - 1) with (Z.log2 z) by lia; rewrite Z.add_1_r; lia.
Qed.

Lemma bitlen_unique z n : 0 < n -> 2 ^ (n - 1) <= z < 2 ^ n -> bitlen z = n.
Proof.
  intros Hn Hz; pose proof (pow2_pos (n - 1) ltac:(lia)).
  unfold bitlen; destruct (Z.eqb_spec z 0); [lia|].
  rewrite (Z.log2_unique z (n - 1)); [lia | lia |].
  replace (Z.succ (n - 1)) with n by lia; assumption.
Qed.

Lemma bitlen_nonneg z : 0 <= bitlen z.
Proof. unfold bitlen; case_match; [lia | pose proof (Z.log2_nonneg z); lia]. Qed.

Lemma bitlen_zero z : 0 <= z -> bitlen z = 0 -> z = 0.
Proof. intros Hz E; destruct (Z.eq_dec z 0); [assumption|]; destruct (bitlen_spec z); lia. Qed.

Lemma bitlen_le z n : 0 <= n -> in_u n z -> bitlen z <= n.
Proof.
  intros Hn [H0 H1]; destruct (Z.eq_dec z 0) as [->|]; [exact Hn|].
  destruct (bitlen_spec z) as [[H2 H3] H4]; [lia|].
  assert (bitlen z - 1 < n); [|lia].
  apply (Z.pow_lt_mono_r_iff 2); lia.
Qed.

Lemma bitlen_shift lo hi m :
  0 <= m -> in_u m lo -> 0 < hi -> bitlen (lo + 2 ^ m * hi) = m + bitlen hi.
Proof.
  intros Hm [H0 H1] Hhi; destruct (bitlen_spec hi Hhi) as [[H2 H3] H4].
  apply bitlen_unique; [lia|].
  rewrite <- Z.add_sub_assoc, !pow2_split by lia.
  split; [|apply Z.lt_le_trans with (2 ^ m * (hi + 1))]; nia.
Qed.

(** Tests of one bit. *)
Lemma land_pow2_eqb x n : 0 <= n -> (Z.land x (2 ^ n) =? 0) = negb (Z.testbit x n).
Proof.
  intros Hn.
  replace (Z.land x (2 ^ n)) with (if Z.testbit x n then 2 ^ n else 0).
  - destruct (Z.testbit x n); [|reflexivity].
    apply Z.eqb_neq; pose proof (pow2_pos n Hn); lia.
  - apply Z.bits_inj'; intros i Hi; rewrite Z.land_spec, Z.pow2_bits_eqb by assumption.
    destruct (Z.eqb_spec n i) as [<-|]; destruct (Z.testbit x n) eqn:E;
      rewrite ?Z.pow2_bits_eqb, ?Z.bits_0, ?E by assumption; rewrite ?Z.eqb_refl, ?andb_false_r; auto.
    apply Z.eqb_neq; assumption.
Qed.

Lemma testbit_top x n : 0 <= n -> in_u (n + 1) x -> Z.testbit x n = (2 ^ n <=? x).
Proof.
  unfold in_u; intros Hn Hx; rewrite pow2_split in Hx by lia.
  rewrite Z.testbit_eqb by assumption; destruct (Z.leb_spec (2 ^ n) x).
  - rewrite <- (Z.div_unique x (2 ^ n) 1 (x - 2 ^ n)) by lia; reflexivity.
  - rewrite Z.div_small by lia; reflexivity.
Qed.

Lemma land_high_zero n x m : 0 <= n -> in_u n x -> Z.land x (m * 2 ^ n) = 0.
Proof.
  intros Hn Hx; apply Z.bits_inj'; intros i Hi.
  rewrite Z.land_spec, Z.bits_0, <- Z.shiftl_mul_pow2, Z.shiftl_spec by lia.
  destruct (Z.lt_ge_cases i n).
  - rewrite (Z.testbit_neg_r m) by lia; apply andb_false_r.
  - rewrite (testbit_above n x) by (auto; lia); reflexivity.
Qed.

(** Clearing the low [s] bits. *)
Definition trunc (s z : Z) : Z := z / 2 ^ s * 2 ^ s.

Lemma trunc_0 z : trunc 0 z = z.
Proof. unfold trunc; rewrite Z.pow_0_r, Z.div_1_r; lia. Qed.

Lemma trunc_le s z : 0 <= s -> trunc s z <= z < trunc s z + 2 ^ s.
Proof.
  intros Hs; unfold trunc; pose proof (pow2_pos s Hs).
  pose proof (Z.div_mod z (2 ^ s) ltac:(lia)); pose proof (Z.mod_pos_bound z (2 ^ s) ltac:(lia)); lia.
Qed.

Lemma bitlen_trunc s z : 0 <= s < bitlen z -> 0 < z -> bitlen (trunc s z) = bitlen z.
Proof.
  intros Hs Hz; destruct (bitlen_spec z Hz) as [[H1 H2] H3].
  pose proof (trunc_le s z ltac:(lia)); apply bitlen_unique; [lia|]; split; [|lia].
  unfold trunc; replace (2 ^ (bitlen z - 1)) with (2 ^ (bitlen z - 1 - s) * 2 ^ s) in *
    by (rewrite <- pow2_split by lia; f_equal; lia).
  apply Z.mul_le_mono_nonneg_r; [lia|]; apply Z.div_le_lower_bound; lia.
Qed.
