(* ===== verification/ArithUint.v ===== *)
(** Unsigned big integers: [src/src/arith_uint256.h] and [src/src/arith_uint256.cpp].

    A [base_uint<BITS>] is the list of its [BITS / 32] digits [pn], least significant
    first, each a [uint32_t].  The operations are the digit loops of the source; the
    theorems say that they compute on the number [val pn] modulo [2^BITS]. *)

From S2P Require Import Prelude.

#[local] Open Scope Z_scope.
#[local] Open Scope qbit_scope.

(** ** Data *)

Definition base_uint : Type := list Z.

(** The number a digit list stands for. *)
Definition val (a : base_uint) : Z := lval 32 a.

Definition wf (WIDTH : nat) (a : base_uint) : Prop := length a = WIDTH /\ limbs 32 a.

(** [base_uint()] and [base_uint(uint64_t)]. *)
Definition zero (WIDTH : nat) : base_uint := replicate WIDTH 0.

Definition of_u64 (WIDTH : nat) (b : Z) : base_uint :=
  wrap 32 b :: wrap 32 (Z.shiftr b 32) :: replicate (WIDTH - 2) 0.

(** ** Operations *)

Definition bnot (a : base_uint) : base_uint := map (fun x => wrap 32 (Z.lnot x)) a.

(** [operator++]: [while (i < WIDTH && ++pn[i] == 0) i++]. *)
Fixpoint incr (a : base_uint) : base_uint :=
  match a with
  | [] => []
  | x :: t => let x' := wrap 32 (x + 1) in if x' =? 0 then x' :: incr t else x' :: t
  end.

(** [operator--]: [while (i < WIDTH && --pn[i] == max) i++]. *)
Fixpoint decr (a : base_uint) : base_uint :=
  match a with
  | [] => []
  | x :: t => let x' := wrap 32 (x - 1) in if x' =? 2 ^ 32 - 1 then x' :: decr t else x' :: t
  end.

Definition neg (a : base_uint) : base_uint := incr (bnot a).

Fixpoint add_loop (a b : base_uint) (carry : Z) : base_uint :=
  match a, b with
  | x :: a, y :: b =>
      let n := wrap 64 (carry + x + y) in
      Z.land n 0xffffffff :: add_loop a b (Z.shiftr n 32)
  | _, _ => []
  end.

Definition add (a b : base_uint) : base_uint := add_loop a b 0.

Definition sub (a b : base_uint) : base_uint := add a (neg b).

(** [operator*=(uint32_t)]. *)
Fixpoint mul32_loop (a : base_uint) (b32 carry : Z) : base_uint :=
  match a with
  | [] => []
  | x :: a =>
      let n := wrap 64 (carry + b32 * x) in
      Z.land n 0xffffffff :: mul32_loop a b32 (Z.shiftr n 32)
  end.

Definition mul32 (a : base_uint) (b32 : Z) : base_uint := mul32_loop a b32 0.

(** [operator*=]: the inner loop over [i] with [i + j < WIDTH]; [a] holds the digits
    [j .. WIDTH-1] of the accumulator and [x] is [pn[j]]. *)
Fixpoint mul_row (a b : base_uint) (x carry : Z) : base_uint :=
  match a, b with
  | y :: a, z :: b =>
      let n := wrap 64 (carry + y + x * z) in
      Z.land n 0xffffffff :: mul_row a b x (Z.shiftr n 32)
  | _, _ => []
  end.

Definition mul (pn b : base_uint) : base_uint :=
  foldl (fun a j => take j a ++ mul_row (drop j a) b (get pn j) 0)
        (zero (length pn)) (seq 0 (length pn)).

(** [operator<<=]. *)
Definition shl_step (a : base_uint) (k : nat) (shift : Z) (pn : base_uint) (i : nat) : base_uint :=
  let W := length a in
  let pn := if (i + k + 1 <? W)%nat && negb (shift =? 0)
            then set pn (i + k + 1) (Z.lor (get pn (i + k + 1)) (Z.shiftr (get a i) (32 - shift)))
            else pn in
  if (i + k <? W)%nat
  then set pn (i + k) (Z.lor (get pn (i + k)) (wrap 32 (Z.shiftl (get a i) shift)))
  else pn.

Definition shl (a : base_uint) (shift : Z) : base_uint :=
  foldl (shl_step a (Z.to_nat (shift / 32)) (shift mod 32)) (zero (length a)) (seq 0 (length a)).

(** [operator>>=]. *)
Definition shr_step (a : base_uint) (k : nat) (shift : Z) (pn : base_uint) (i : nat) : base_uint :=
  let pn := if (k + 1 <=? i)%nat && negb (shift =? 0)
            then set pn (i - k - 1) (Z.lor (get pn (i - k - 1)) (wrap 32 (Z.shiftl (get a i) (32 - shift))))
            else pn in
  if (k <=? i)%nat
  then set pn (i - k) (Z.lor (get pn (i - k)) (Z.shiftr (get a i) shift))
  else pn.

Definition shr (a : base_uint) (shift : Z) : base_uint :=
  foldl (shr_step a (Z.to_nat (shift / 32)) (shift mod 32)) (zero (length a)) (seq 0 (length a)).

(** [CompareTo]: digits from the most significant one, here [i] counts down to 0. *)
Fixpoint compare_loop (a b : base_uint) (i : nat) : Z :=
  match i with
  | O => 0
  | S i => if get a i <? get b i then -1 else if get b i <? get a i then 1 else compare_loop a b i
  end.

Definition CompareTo (a b : base_uint) : Z := compare_loop a b (length a).

Definition ltb (a b : base_uint) : bool := CompareTo a b <? 0.
Definition gtb (a b : base_uint) : bool := 0 <? CompareTo a b.
Definition geb (a b : base_uint) : bool := 0 <=? CompareTo a b.
Definition leb (a b : base_uint) : bool := CompareTo a b <=? 0.

(** [EqualTo(uint64_t)]. *)
Definition EqualTo (a : base_uint) (b : Z) : bool :=
  forallb (fun x => x =? 0) (drop 2 a) && (get a 1 =? Z.shiftr b 32) && (get a 0 =? Z.land b 0xffffffff).

(** [operator==] compares the digit arrays. *)
Definition eqb (a b : base_uint) : bool := bool_decide (a = b).

(** [bits()]. *)
Fixpoint bits_digit (x : Z) (nbits : nat) : Z :=
  match nbits with
  | O => 1
  | S n => if negb (Z.land x (Z.shiftl 1 (Z.of_nat nbits)) =? 0) then Z.of_nat nbits + 1 else bits_digit x n
  end.

Fixpoint bits_loop (a : base_uint) (pos : nat) : Z :=
  match pos with
  | O => 0
  | S p => if negb (get a p =? 0) then 32 * Z.of_nat p + bits_digit (get a p) 31 else bits_loop a p
  end.

Definition bits (a : base_uint) : Z := bits_loop a (length a).

Definition GetLow64 (a : base_uint) : Z := Z.lor (get a 0) (Z.shiftl (get a 1) 32).

(** [operator/=]: the [while (shift >= 0)] loop; [n] is [shift + 1]. *)
Fixpoint div_loop (num div q : base_uint) (n : nat) : base_uint :=
  match n with
  | O => q
  | S shift =>
      let '(num, q) :=
        if geb num div
        then (sub num div,
              set q (shift / 32) (Z.lor (get q (shift / 32)) (Z.shiftl 1 (Z.of_nat (shift mod 32)))))
        else (num, q) in
      div_loop num (shr div 1) q shift
  end.

(** [None]: the source throws [uint_error]. *)
Definition div (a b : base_uint) : option base_uint :=
  let num_bits := bits a in
  let div_bits := bits b in
  if div_bits =? 0 then None
  else if num_bits <? div_bits then Some (zero (length a))
  else let shift := num_bits - div_bits in
       Some (div_loop a (shl b shift) (zero (length a)) (Z.to_nat (shift + 1))).

(** ** [arith_uint256] *)

Definition W256 : nat := 8.

Definition arith_uint256 (b : Z) : base_uint := of_u64 W256 b.

Record compact := { target : base_uint; fNegative : bool; fOverflow : bool }.

Definition SetCompact (nCompact : Z) : compact :=
  let nSize := Z.shiftr nCompact 24 in
  let nWord0 := Z.land nCompact 0x007fffff in
  let '(nWord, r) :=
    if nSize <=? 3
    then let nWord := Z.shiftr nWord0 (8 * (3 - nSize)) in (nWord, arith_uint256 nWord)
    else (nWord0, shl (arith_uint256 nWord0) (8 * (nSize - 3))) in
  {| target := r;
     fNegative := negb (nWord =? 0) && negb (Z.land nCompact 0x00800000 =? 0);
     fOverflow := negb (nWord =? 0) && ((34 <? nSize) || ((0xff <? nWord) && (33 <? nSize))
                                        || ((0xffff <? nWord) && (32 <? nSize))) |}.

Definition GetCompact (a : base_uint) (negative : bool) : option Z :=
  let nSize := (bits a + 7) / 8 in
  let nCompact := if nSize <=? 3
                  then wrap 32 (wrap 64 (Z.shiftl (GetLow64 a) (8 * (3 - nSize))))
                  else wrap 32 (GetLow64 (shr a (8 * (nSize - 3)))) in
  let '(nCompact, nSize) := if negb (Z.land nCompact 0x00800000 =? 0)
                            then (Z.shiftr nCompact 8, nSize + 1) else (nCompact, nSize) in
  assert! Z.land nCompact (wrap 32 (Z.lnot 0x007fffff)) =? 0;
  assert! nSize <? 256;
  let nCompact := Z.lor nCompact (wrap 32 (Z.shiftl nSize 24)) in
  Some (Z.lor nCompact (if negative && negb (Z.land nCompact 0x007fffff =? 0) then 0x00800000 else 0)).

(** [ReadLE32] and [WriteLE32] of [src/src/crypto/common.h]. *)
Definition WriteLE32 (x : Z) : list Z := digits 8 4 x.
Definition ReadLE32 (bytes : list Z) : Z := lval 8 (take 4 bytes).

(** A [uint256] is its 32 bytes. *)
Definition ArithToUint256 (a : base_uint) : list Z := concat (map WriteLE32 a).

Definition UintToArith256 (b : list Z) : base_uint :=
  map (fun x => ReadLE32 (drop (4 * x) b)) (seq 0 W256).

(** ** Addition, subtraction, negation *)

Lemma wf_length W a : wf W a -> length a = W.
Proof. intros [H _]; exact H. Qed.

Lemma wf_limbs W a : wf W a -> limbs 32 a.
Proof. intros [_ H]; exact H. Qed.

#[export] Hint Resolve wf_length wf_limbs : limbs.

Lemma val_range W a : wf W a -> in_u (32 * Z.of_nat W) (val a).
Proof. intros [<- H]; apply lval_range; [lia | exact H]. Qed.

Lemma val_inj W a b : wf W a -> wf W b -> val a = val b -> a = b.
Proof. intros [Ha La] [Hb Lb]; apply lval_inj; auto with limbs; congruence. Qed.

Lemma wf_digits W z : wf W (digits 32 W z).
Proof. split; [apply length_digits | apply limbs_digits; lia]. Qed.

Lemma val_digits W z : val (digits 32 W z) = wrap (32 * Z.of_nat W) z.
Proof. apply lval_digits; lia. Qed.

Lemma wf_zero W : wf W (zero W).
Proof. split; [apply length_replicate | apply limbs_replicate; red; lia]. Qed.

Lemma val_zero W : val (zero W) = 0.
Proof. apply lval_zero. Qed.

Lemma wf_of_u64 W b : (2 <= W)%nat -> in_u 64 b -> wf W (of_u64 W b).
Proof.
  intros HW Hb; split.
  - cbn [of_u64 length]; rewrite length_replicate; lia.
  - do 2 (apply limbs_cons; split; [apply wrap_range; lia|]).
    apply limbs_replicate; red; lia.
Qed.

Lemma val_of_u64 W b : (2 <= W)%nat -> in_u 64 b -> val (of_u64 W b) = b.
Proof.
  intros HW Hb; unfold val, of_u64; cbn [lval]; rewrite lval_zero.
  unfold wrap; rewrite Z.shiftr_div_pow2 by lia; unfold in_u in Hb.
  rewrite (Z.mod_small (b / 2 ^ 32)).
  - pose proof (Z.div_mod b (2 ^ 32)); lia.
  - split; [apply Z.div_pos | apply Z.div_lt_upper_bound]; lia.
Qed.

Lemma add_loop_spec a b carry :
  limbs 32 a -> limbs 32 b -> length a = length b -> 0 <= carry <= 1 ->
  length (add_loop a b carry) = length a /\ limbs 32 (add_loop a b carry) /\
  exists c, val a + val b + carry = val (add_loop a b carry) + 2 ^ (32 * Z.of_nat (length a)) * c.
Proof.
  revert b carry; induction a as [|x a IH]; intros [|y b] carry Ha Hb Hl Hc; try discriminate.
  - repeat split; [constructor|]; exists carry; cbn; lia.
  - apply limbs_cons in Ha as [Hx Ha]; apply limbs_cons in Hb as [Hy Hb]; cbn [add_loop length val lval].
    assert (Hn : in_u 64 (carry + x + y)) by (unfold in_u in *; lia).
    destruct (carry_split _ Hn) as (-> & Hlo & Hhi & E).
    set (n := carry + x + y) in *; set (hi := Z.shiftr n 32) in *; set (lo := Z.land n _) in *.
    assert (Hc' : 0 <= hi <= 1) by (unfold in_u in *; lia).
    destruct (IH b hi Ha Hb ltac:(injection Hl; auto) Hc') as (IH1 & IH2 & c & IH3).
    repeat split; [congruence | constructor; auto |].
    exists c; rewrite Nat2Z.inj_succ, Z.mul_succ_r, Z.add_comm, pow2_split by lia.
    unfold val in IH3; lia.
Qed.

Lemma wf_add W a b : wf W a -> wf W b -> wf W (add a b).
Proof.
  intros [Ha La] [Hb Lb].
  destruct (add_loop_spec a b 0 La Lb ltac:(congruence) ltac:(lia)) as (H1 & H2 & _).
  split; [unfold add; congruence | exact H2].
Qed.

Lemma val_add W a b :
  wf W a -> wf W b -> val (add a b) = wrap (32 * Z.of_nat W) (val a + val b).
Proof.
  intros [Ha La] [Hb Lb].
  destruct (add_loop_spec a b 0 La Lb ltac:(congruence) ltac:(lia)) as (H1 & H2 & c & H3).
  rewrite <- Ha, <- H1; apply (lval_mod_unique 32 ltac:(lia) _ _ c H2).
  unfold add; rewrite H1; unfold val in *; lia.
Qed.

Lemma wrap_lnot w x : 0 <= w -> in_u w x -> wrap w (Z.lnot x) = 2 ^ w - 1 - x.
Proof.
  unfold in_u, wrap, Z.lnot, Z.pred; intros Hw Hx.
  replace (- x + -1) with (2 ^ w - 1 - x + (-1) * 2 ^ w) by lia.
  rewrite Z_mod_plus_full, Z.mod_small; lia.
Qed.

Lemma bnot_spec a :
  limbs 32 a -> length (bnot a) = length a /\ limbs 32 (bnot a) /\
  val (bnot a) = 2 ^ (32 * Z.of_nat (length a)) - 1 - val a.
Proof.
  induction a as [|x a IH]; intros Ha.
  - repeat split; constructor.
  - apply limbs_cons in Ha as [Hx Ha]; destruct (IH Ha) as (H1 & H2 & H3).
    cbn [bnot map length val lval].
    repeat split; [unfold bnot in H1; congruence | constructor; [apply wrap_range; lia | exact H2] |].
    rewrite wrap_lnot by (auto; lia).
    rewrite Nat2Z.inj_succ, Z.mul_succ_r, Z.add_comm, pow2_split by lia.
    unfold val, bnot in H3; rewrite H3; ring.
Qed.

Lemma incr_spec a :
  limbs 32 a -> length (incr a) = length a /\ limbs 32 (incr a) /\
  exists c, val a + 1 = val (incr a) + 2 ^ (32 * Z.of_nat (length a)) * c.
Proof.
  induction a as [|x a IH]; intros Ha.
  - repeat split; [constructor|]; exists 1; reflexivity.
  - apply limbs_cons in Ha as [Hx Ha]; destruct (IH Ha) as (H1 & H2 & c & H3).
    cbn [incr val lval]; unfold wrap; destruct (Z.eqb_spec ((x + 1) mod 2 ^ 32) 0) as [E|E].
    + assert (x = 2 ^ 32 - 1).
      { unfold in_u in Hx; destruct (Z.eq_dec x (2 ^ 32 - 1)); auto.
        rewrite Z.mod_small in E; lia. }
      cbn [length lval]; rewrite E; repeat split; [congruence | constructor; [red; lia | exact H2] |].
      exists c; rewrite Nat2Z.inj_succ, Z.mul_succ_r, Z.add_comm, pow2_split by lia.
      unfold val in H3; subst x; lia.
    + assert (x + 1 < 2 ^ 32).
      { unfold in_u in Hx; destruct (Z.eq_dec x (2 ^ 32 - 1)); [|lia].
        subst x; exfalso; apply E; reflexivity. }
      unfold in_u in Hx; rewrite Z.mod_small by lia.
      repeat split; [constructor; [red; lia | exact Ha] |].
      exists 0; cbn [lval]; lia.
Qed.

Lemma wf_neg W a : wf W a -> wf W (neg a).
Proof.
  intros [Ha La]; destruct (bnot_spec a La) as (H1 & H2 & _).
  destruct (incr_spec (bnot a) H2) as (H3 & H4 & _).
  split; [unfold neg; congruence | exact H4].
Qed.

Lemma val_neg W a : wf W a -> val (neg a) = wrap (32 * Z.of_nat W) (- val a).
Proof.
  intros [Ha La]; destruct (bnot_spec a La) as (H1 & H2 & H3).
  destruct (incr_spec (bnot a) H2) as (H4 & H5 & c & H6).
  rewrite <- Ha, <- H1, <- H4; apply (lval_mod_unique 32 ltac:(lia) _ _ (c - 1) H5).
  rewrite H4; unfold neg, val in *; rewrite H1, H3 in *; lia.
Qed.

Lemma wf_sub W a b : wf W a -> wf W b -> wf W (sub a b).
Proof. intros; apply wf_add; auto using wf_neg. Qed.

Lemma val_sub W a b :
  wf W a -> wf W b -> val (sub a b) = wrap (32 * Z.of_nat W) (val a - val b).
Proof.
  intros Ha Hb; unfold sub; rewrite (val_add W), (val_neg W) by auto using wf_neg.
  unfold wrap; rewrite Zplus_mod_idemp_r; reflexivity.
Qed.

(** ** Multiplication *)

Lemma mul32_loop_spec a b32 carry :
  limbs 32 a -> in_u 32 b32 -> in_u 32 carry ->
  length (mul32_loop a b32 carry) = length a /\ limbs 32 (mul32_loop a b32 carry) /\
  exists c, val a * b32 + carry = val (mul32_loop a b32 carry) + 2 ^ (32 * Z.of_nat (length a)) * c.
Proof.
  intros Ha Hb; revert carry; induction a as [|x a IH]; intros carry Hc.
  - repeat split; [constructor|]; exists carry; cbn; lia.
  - apply limbs_cons in Ha as [Hx Ha]; cbn [mul32_loop length val lval].
    assert (Hn : in_u 64 (carry + b32 * x)) by (unfold in_u in *; nia).
    destruct (carry_split _ Hn) as (-> & Hlo & Hhi & E).
    destruct (IH Ha _ Hhi) as (IH1 & IH2 & c & IH3).
    repeat split; [congruence | constructor; auto |].
    exists c; rewrite Nat2Z.inj_succ, Z.mul_succ_r, (Z.add_comm (32 * _)), pow2_split by lia.
    unfold val in IH3; lia.
Qed.

Lemma mul_row_spec a b x carry :
  limbs 32 a -> limbs 32 b -> in_u 32 x -> in_u 32 carry -> (length a <= length b)%nat ->
  length (mul_row a b x carry) = length a /\ limbs 32 (mul_row a b x carry) /\
  exists c, val a + x * val b + carry = val (mul_row a b x carry) + 2 ^ (32 * Z.of_nat (length a)) * c.
Proof.
  intros Ha Hb Hx; revert b carry Hb; induction a as [|y a IH]; intros b carry Hb Hc Hl.
  - repeat split; [constructor|]; exists (x * val b + carry); cbn; lia.
  - destruct b as [|z b]; cbn [length] in Hl; [lia|].
    apply limbs_cons in Ha as [Hy Ha]; apply limbs_cons in Hb as [Hz Hb]; cbn [mul_row length val lval].
    assert (Hn : in_u 64 (carry + y + x * z)) by (unfold in_u in *; nia).
    destruct (carry_split _ Hn) as (-> & Hlo & Hhi & E).
    destruct (IH Ha b _ Hb Hhi ltac:(lia)) as (IH1 & IH2 & c & IH3).
    repeat split; [congruence | constructor; auto |].
    exists c; rewrite Nat2Z.inj_succ, Z.mul_succ_r, (Z.add_comm (32 * _)), pow2_split by lia.
    unfold val in IH3; lia.
Qed.

Lemma mul_loop_spec W pn b n :
  wf W pn -> wf W b -> (n <= W)%nat ->
  let r := foldl (fun a j => take j a ++ mul_row (drop j a) b (get pn j) 0) (zero W) (seq 0 n) in
  wf W r /\ exists c, val (take n pn) * val b = val r + 2 ^ (32 * Z.of_nat W) * c.
Proof.
  intros [Hp Lp] [Hb Lb]; induction n as [|n IH]; intros Hn; cbn zeta.
  - split; [apply wf_zero|]; exists 0; rewrite take_0; cbn [seq foldl]; rewrite val_zero; cbn; lia.
  - rewrite seq_S, foldl_app; cbn [foldl Nat.add].
    destruct (IH ltac:(lia)) as [[Hr Lr] [c E]]; set (acc := foldl _ _ _) in *.
    assert (Hd : length (drop n acc) = (W - n)%nat) by (rewrite length_drop; congruence).
    destruct (mul_row_spec (drop n acc) b (get pn n) 0) as (M1 & M2 & c' & M3); auto with limbs;
      [red; lia | lia |].
    assert (Ht : length (take n acc) = n) by (rewrite length_take; lia).
    split; [split|].
    + rewrite length_app, Ht, M1, Hd; lia.
    + apply limbs_app; auto with limbs.
    + exists (c + c'); unfold val in *; rewrite lval_app, Ht, lval_take_S by lia.
      rewrite (lval_take_drop 32 ltac:(lia) acc n) in E by lia.
      replace (32 * Z.of_nat W) with (32 * Z.of_nat n + 32 * Z.of_nat (W - n)) in * by lia.
      rewrite Hd in M3; rewrite pow2_split in * by lia.
      rewrite Z.mul_add_distr_r, E, <- Z.mul_assoc, Z.mul_add_distr_l.
      replace (lval 32 (mul_row _ _ _ _)) with (lval 32 (drop n acc) + get pn n * lval 32 b
        - 2 ^ (32 * Z.of_nat (W - n)) * c') by lia; ring.
Qed.

Lemma wf_mul W a b : wf W a -> wf W b -> wf W (mul a b).
Proof.
  intros Ha Hb; destruct (mul_loop_spec W a b W Ha Hb ltac:(lia)) as [H _].
  unfold mul; rewrite (wf_length W a Ha); exact H.
Qed.

Lemma val_mul W a b :
  wf W a -> wf W b -> val (mul a b) = wrap (32 * Z.of_nat W) (val a * val b).
Proof.
  intros Ha Hb; pose proof (wf_length W a Ha) as Hl.
  destruct (mul_loop_spec W a b W Ha Hb ltac:(lia)) as [[H1 H2] [c H3]].
  rewrite take_ge in H3 by lia; unfold mul; rewrite Hl.
  set (r := foldl _ _ _) in *; rewrite <- H1 in H3 |- *.
  exact (lval_mod_unique 32 ltac:(lia) _ _ c H2 H3).
Qed.

(** ** Order *)

Lemma compare_loop_spec W a b i :
  wf W a -> wf W b -> (i <= W)%nat ->
  compare_loop a b i = (match val (take i a) ?= val (take i b) with Lt => -1 | Eq => 0 | Gt => 1 end).
Proof.
  intros [Ha La] [Hb Lb]; induction i as [|i IH]; intros Hi; cbn [compare_loop]; [reflexivity|].
  rewrite IH by lia; unfold val; rewrite !lval_take_S by lia.
  pose proof (lval_range 32 ltac:(lia) (take i a) ltac:(auto with limbs)) as Ra.
  pose proof (lval_range 32 ltac:(lia) (take i b) ltac:(auto with limbs)) as Rb.
  rewrite !length_take_le in Ra, Rb by lia; unfold in_u in Ra, Rb.
  set (p := 2 ^ (32 * Z.of_nat i)) in *; set (va := lval 32 _) in *; set (vb := lval 32 _) in *.
  destruct (Z.ltb_spec (get a i) (get b i)).
  - replace (_ ?= _) with Lt; [reflexivity|]; symmetry; apply Z.compare_lt_iff; nia.
  - destruct (Z.ltb_spec (get b i) (get a i)).
    + replace (_ ?= _) with Gt; [reflexivity|]; symmetry; apply Z.compare_gt_iff; nia.
    + replace (get b i) with (get a i) by lia; rewrite !(Z.add_comm _ (p * _)), Z.add_compare_mono_l; reflexivity.
Qed.

Lemma CompareTo_spec W a b :
  wf W a -> wf W b ->
  CompareTo a b = (match val a ?= val b with Lt => -1 | Eq => 0 | Gt => 1 end).
Proof.
  intros Ha Hb; unfold CompareTo; rewrite (wf_length W a Ha), (compare_loop_spec W) by auto.
  rewrite !take_ge by (rewrite ?(wf_length W a Ha), ?(wf_length W b Hb); lia); reflexivity.
Qed.

Section Comparisons.
Context (W : nat) (a b : base_uint) (Ha : wf W a) (Hb : wf W b).

Lemma ltb_spec : ltb a b = (val a <? val b).
Proof. unfold ltb, Z.ltb; rewrite (CompareTo_spec W) by auto; destruct (val a ?= val b); reflexivity. Qed.

Lemma gtb_spec : gtb a b = (val b <? val a).
Proof.
  unfold gtb, Z.ltb; rewrite (CompareTo_spec W), (Z.compare_antisym (val a)) by auto.
  destruct (val a ?= val b); reflexivity.
Qed.

Lemma geb_spec : geb a b = (val b <=? val a).
Proof.
  unfold geb, Z.leb; rewrite (CompareTo_spec W), (Z.compare_antisym (val a)) by auto.
  destruct (val a ?= val b); reflexivity.
Qed.

Lemma leb_spec : leb a b = (val a <=? val b).
Proof. unfold leb, Z.leb; rewrite (CompareTo_spec W) by auto; destruct (val a ?= val b); reflexivity. Qed.

Lemma eqb_spec : eqb a b = (val a =? val b).
Proof.
  unfold eqb; destruct (Z.eqb_spec (val a) (val b)) as [E|E].
  - apply bool_decide_eq_true, (val_inj W); auto.
  - apply bool_decide_eq_false; congruence.
Qed.
End Comparisons.

Lemma forallb_zero l : limbs 32 l -> forallb (fun x => x =? 0) l = (lval 32 l =? 0).
Proof.
  induction l as [|x l IH]; intros H; [reflexivity|].
  apply limbs_cons in H as [Hx Hl]; cbn [forallb lval]; rewrite IH by assumption.
  pose proof (lval_nonneg 32 ltac:(lia) l Hl); unfold in_u in Hx.
  destruct (Z.eqb_spec x 0), (Z.eqb_spec (lval 32 l) 0), (Z.eqb_spec (x + 2 ^ 32 * lval 32 l) 0);
    cbn; auto; lia.
Qed.

Lemma EqualTo_spec W a b :
  (2 <= W)%nat -> wf W a -> in_u 64 b -> EqualTo a b = (val a =? b).
Proof.
  intros HW [Ha La] Hb; unfold EqualTo.
  destruct a as [|x [|y a]]; cbn [length] in Ha; try lia.
  apply limbs_cons in La as [Hx La]; apply limbs_cons in La as [Hy La].
  cbn [drop]; rewrite drop_0, forallb_zero by assumption; change (get _ 1) with y; change (get _ 0) with x.
  change 0xffffffff with (Z.ones 32); rewrite Z.land_ones, Z.shiftr_div_pow2 by lia.
  pose proof (lval_nonneg 32 ltac:(lia) a La); unfold val; cbn [lval].
  assert (0 <= b / 2 ^ 32 < 2 ^ 32) by
    (unfold in_u in Hb; split; [apply Z.div_pos | apply Z.div_lt_upper_bound]; lia).
  pose proof (Z.div_mod b (2 ^ 32) ltac:(lia)); pose proof (Z.mod_pos_bound b (2 ^ 32) ltac:(lia)).
  generalize dependent (b / 2 ^ 32); generalize dependent (b mod 2 ^ 32); intros lo Hlo hi Hhi Eb.
  unfold in_u in *; apply eq_true_iff_eq; rewrite !andb_true_iff, !Z.eqb_eq; lia.
Qed.

(** ** Shifts *)

Lemma length_shl_step a k s pn i : length (shl_step a k s pn i) = length pn.
Proof. unfold shl_step; repeat case_match; rewrite ?length_set; reflexivity. Qed.

Lemma length_shr_step a k s pn i : length (shr_step a k s pn i) = length pn.
Proof. unfold shr_step; repeat case_match; rewrite ?length_set; reflexivity. Qed.

Lemma length_foldl_step (f : base_uint -> nat -> base_uint) l pn :
  (forall pn i, length (f pn i) = length pn) -> length (foldl f pn l) = length pn.
Proof. intros Hf; revert pn; induction l as [|i l IH]; intros; cbn; [|rewrite IH, Hf]; reflexivity. Qed.

Ltac nat_bool :=
  repeat match goal with
  | |- context [(?x <? ?y)%nat] => destruct (Nat.ltb_spec x y)
  | |- context [(?x <=? ?y)%nat] => destruct (Nat.leb_spec x y)
  | |- context [(?x =? ?y)%nat] => destruct (Nat.eqb_spec x y)
  end; try lia; cbn [andb orb negb].

Ltac get_set :=
  repeat first [ rewrite get_set_eq by (rewrite ?length_set; lia) | rewrite get_set_ne by lia ].

(** The two contributions to digit [j] once digits [0 .. n-1] were shifted in. *)
Lemma shl_loop_get a k s n j :
  (j < length a)%nat ->
  get (foldl (shl_step a k s) (zero (length a)) (seq 0 n)) j =
  Z.lor (if (k <=? j)%nat && (j <? n + k)%nat then wrap 32 (Z.shiftl (get a (j - k)) s) else 0)
        (if negb (s =? 0) && ((k + 1 <=? j)%nat && (j <? n + k + 1)%nat)
         then Z.shiftr (get a (j - k - 1)) (32 - s) else 0).
Proof.
  intros Hj; induction n as [|n IH].
  - cbn [seq foldl]; unfold zero; rewrite get_replicate by lia.
    nat_bool; rewrite ?andb_false_r, ?Z.lor_diag; reflexivity.
  - rewrite seq_S, foldl_app; cbn [foldl Nat.add].
    pose proof (length_foldl_step (shl_step a k s) (seq 0 n) (zero (length a))
                  (length_shl_step a k s)) as Hlen.
    unfold zero in Hlen; rewrite length_replicate in Hlen; fold (zero (length a)) in Hlen.
    set (pn := foldl _ _ _) in *; unfold shl_step.
    destruct (Nat.eq_dec j (n + k)) as [->|N1]; [|destruct (Nat.eq_dec j (n + k + 1)) as [->|N2]].
    all: destruct (s =? 0), (Nat.ltb_spec (n + k + 1) (length a)), (Nat.ltb_spec (n + k) (length a));
      cbn [andb negb] in *; try lia; get_set; rewrite IH; nat_bool;
      rewrite ?Z.lor_0_l, ?Z.lor_0_r, ?(Nat.add_sub n k); auto using Z.lor_comm;
      do 2 f_equal; lia.
Qed.

Lemma shr_loop_get a k s n j :
  (n <= length a)%nat -> (j < length a)%nat ->
  get (foldl (shr_step a k s) (zero (length a)) (seq 0 n)) j =
  Z.lor (if (j + k <? n)%nat then Z.shiftr (get a (j + k)) s else 0)
        (if negb (s =? 0) && (j + k + 1 <? n)%nat
         then wrap 32 (Z.shiftl (get a (j + k + 1)) (32 - s)) else 0).
Proof.
  intros Hn Hj; induction n as [|n IH].
  - cbn [seq foldl]; unfold zero; rewrite get_replicate by lia.
    nat_bool; rewrite ?andb_false_r, ?Z.lor_diag; reflexivity.
  - rewrite seq_S, foldl_app; cbn [foldl Nat.add].
    pose proof (length_foldl_step (shr_step a k s) (seq 0 n) (zero (length a))
                  (length_shr_step a k s)) as Hlen.
    unfold zero in Hlen; rewrite length_replicate in Hlen; fold (zero (length a)) in Hlen.
    specialize (IH ltac:(lia)); set (pn := foldl _ _ _) in *; unfold shr_step.
    destruct (Nat.eq_dec (j + k) n) as [<-|N1]; [|destruct (Nat.eq_dec (j + k + 1) n) as [<-|N2]].
    1: replace (j + k - k)%nat with j by lia.
    2: replace (j + k + 1 - k - 1)%nat with j by lia.
    all: destruct (s =? 0), (Nat.leb_spec (k + 1) (j + k)); cbn [andb negb] in *; try lia.
    all: nat_bool; get_set; rewrite ?IH; nat_bool;
      rewrite ?Z.lor_0_l, ?Z.lor_0_r; auto using Z.lor_comm; do 2 f_equal; lia.
Qed.

(** Digit [j] of a shifted number; digits outside the number are 0. *)
Definition shl_digit (a : list Z) (k : nat) (s : Z) (j : nat) : Z :=
  Z.lor (if (k <=? j)%nat then wrap 32 (Z.shiftl (get a (j - k)) s) else 0)
        (if (k + 1 <=? j)%nat then Z.shiftr (get a (j - k - 1)) (32 - s) else 0).

Definition shr_digit (a : list Z) (k : nat) (s : Z) (j : nat) : Z :=
  Z.lor (Z.shiftr (get a (j + k)) s) (wrap 32 (Z.shiftl (get a (j + k + 1)) (32 - s))).

Section ShiftDigits.
Context (a : list Z) (La : limbs 32 a) (k : nat) (s : Z) (Hs : 0 <= s < 32).

Lemma shl_digit_range j : in_u 32 (shl_digit a k s j).
Proof.
  unfold shl_digit; apply lor_range; [lia|case_match..].
  1: apply wrap_range; lia.
  2: apply shiftr_range; auto with limbs; lia.
  all: red; lia.
Qed.

Lemma shr_digit_range j : in_u 32 (shr_digit a k s j).
Proof. apply lor_range; [lia | apply shiftr_range; auto with limbs; lia | apply wrap_range; lia]. Qed.

Lemma shl_digit_bit j b :
  0 <= b < 32 ->
  Z.testbit (shl_digit a k s j) b =
  if s <=? b then (k <=? j)%nat && Z.testbit (get a (j - k)) (b - s)
  else (k + 1 <=? j)%nat && Z.testbit (get a (j - k - 1)) (b + 32 - s).
Proof.
  intros Hb; unfold shl_digit; rewrite Z.lor_spec.
  assert (E : forall x, in_u 32 x -> s <= b -> Z.testbit (Z.shiftr x (32 - s)) b = false)
    by (intros; rewrite Z.shiftr_spec by lia; apply (testbit_above 32); auto; lia).
  assert (F : forall x, Z.testbit (wrap 32 (Z.shiftl x s)) b = Z.testbit x (b - s))
    by (intros; rewrite testbit_wrap, Z.shiftl_spec, (proj2 (Z.ltb_lt b 32)) by lia; reflexivity).
  destruct (Z.leb_spec s b).
  - destruct (k <=? j)%nat, (k + 1 <=? j)%nat; rewrite ?F, ?E, ?Z.bits_0 by auto with limbs;
      rewrite ?orb_false_r; reflexivity.
  - destruct (k <=? j)%nat, (k + 1 <=? j)%nat;
      rewrite ?F, ?Z.bits_0, ?(Z.testbit_neg_r _ (b - s)), ?Z.shiftr_spec by lia; cbn [orb andb];
      rewrite ?Z.add_sub_assoc; reflexivity.
Qed.

Lemma shr_digit_bit j b :
  0 <= b < 32 ->
  Z.testbit (shr_digit a k s j) b =
  if b + s <? 32 then Z.testbit (get a (j + k)) (b + s) else Z.testbit (get a (j + k + 1)) (b + s - 32).
Proof.
  intros Hb; unfold shr_digit.
  rewrite Z.lor_spec, Z.shiftr_spec, testbit_wrap, Z.shiftl_spec, (proj2 (Z.ltb_lt b 32)) by lia.
  replace (b - (32 - s)) with (b + s - 32) by lia; cbn [andb].
  destruct (Z.ltb_spec (b + s) 32).
  - rewrite (Z.testbit_neg_r _ (b + s - 32)) by lia; apply orb_false_r.
  - rewrite (testbit_above 32 (get a (j + k))) by (auto with limbs; lia); reflexivity.
Qed.

Lemma lval_shl_digits l :
  (forall j, (j < length l)%nat -> get l j = shl_digit a k s j) ->
  lval 32 l = wrap (32 * Z.of_nat (length l)) (Z.shiftl (lval 32 a) (32 * Z.of_nat k + s)).
Proof.
  intros Hl.
  assert (Ll : limbs 32 l) by (apply limbs_of_get; intros; rewrite Hl by auto; apply shl_digit_range).
  apply Z.bits_inj'; intros p Hp; rewrite testbit_wrap, Z.shiftl_spec, lval_testbit by (auto; lia).
  pose proof (Z.div_mod p 32 ltac:(lia)); pose proof (Z.mod_pos_bound p 32 ltac:(lia)).
  pose proof (Z.div_pos p 32 Hp ltac:(lia)); set (j := p / 32) in *; set (b := p mod 32) in *.
  destruct (Z.ltb_spec p (32 * Z.of_nat (length l))); cbn [andb].
  2: rewrite get_overflow by lia; apply Z.bits_0.
  rewrite Hl, shl_digit_bit by lia.
  destruct (Z.lt_ge_cases (p - (32 * Z.of_nat k + s)) 0).
  - rewrite (Z.testbit_neg_r (lval 32 a)) by lia.
    destruct (Z.leb_spec s b); nat_bool; reflexivity.
  - rewrite lval_testbit by (auto; lia); destruct (Z.leb_spec s b).
    + rewrite <- (Z.div_unique (p - (32 * Z.of_nat k + s)) 32 (j - Z.of_nat k) (b - s)) by lia.
      rewrite <- (Z.mod_unique (p - (32 * Z.of_nat k + s)) 32 (j - Z.of_nat k) (b - s)) by lia.
      nat_bool; do 2 f_equal; lia.
    + rewrite <- (Z.div_unique (p - (32 * Z.of_nat k + s)) 32 (j - Z.of_nat k - 1) (b + 32 - s)) by lia.
      rewrite <- (Z.mod_unique (p - (32 * Z.of_nat k + s)) 32 (j - Z.of_nat k - 1) (b + 32 - s)) by lia.
      nat_bool; do 2 f_equal; lia.
Qed.

Lemma lval_shr_digits l :
  length l = length a -> (forall j, (j < length l)%nat -> get l j = shr_digit a k s j) ->
  lval 32 l = Z.shiftr (lval 32 a) (32 * Z.of_nat k + s).
Proof.
  intros Hlen Hl.
  assert (Ll : limbs 32 l) by (apply limbs_of_get; intros; rewrite Hl by auto; apply shr_digit_range).
  apply Z.bits_inj'; intros p Hp; rewrite Z.shiftr_spec, !lval_testbit by (auto; lia).
  pose proof (Z.div_mod p 32 ltac:(lia)); pose proof (Z.mod_pos_bound p 32 ltac:(lia)).
  pose proof (Z.div_pos p 32 Hp ltac:(lia)); set (j := p / 32) in *; set (b := p mod 32) in *.
  assert (E : get l (Z.to_nat j) = shr_digit a k s (Z.to_nat j)).
  { destruct (Nat.lt_ge_cases (Z.to_nat j) (length l)); [apply Hl; assumption|].
    unfold shr_digit; rewrite !get_overflow by lia; rewrite Z.shiftr_0_l, Z.shiftl_0_l; reflexivity. }
  rewrite E, shr_digit_bit by lia; destruct (Z.ltb_spec (b + s) 32).
  - rewrite <- (Z.div_unique (p + (32 * Z.of_nat k + s)) 32 (j + Z.of_nat k) (b + s)) by lia.
    rewrite <- (Z.mod_unique (p + (32 * Z.of_nat k + s)) 32 (j + Z.of_nat k) (b + s)) by lia.
    do 2 f_equal; lia.
  - rewrite <- (Z.div_unique (p + (32 * Z.of_nat k + s)) 32 (j + Z.of_nat k + 1) (b + s - 32)) by lia.
    rewrite <- (Z.mod_unique (p + (32 * Z.of_nat k + s)) 32 (j + Z.of_nat k + 1) (b + s - 32)) by lia.
    do 2 f_equal; lia.
Qed.
End ShiftDigits.

Lemma shift_index shift :
  0 <= shift -> 32 * Z.of_nat (Z.to_nat (shift / 32)) + shift mod 32 = shift /\ 0 <= shift mod 32 < 32.
Proof.
  intros Hs; pose proof (Z.div_pos shift 32 Hs ltac:(lia)); pose proof (Z.mod_pos_bound shift 32 ltac:(lia)).
  pose proof (Z.div_mod shift 32 ltac:(lia)); lia.
Qed.

Lemma length_shl a shift : length (shl a shift) = length a.
Proof. unfold shl; rewrite length_foldl_step by apply length_shl_step; apply length_replicate. Qed.

Lemma length_shr a shift : length (shr a shift) = length a.
Proof. unfold shr; rewrite length_foldl_step by apply length_shr_step; apply length_replicate. Qed.

Lemma get_shl a shift j :
  limbs 32 a -> 0 <= shift -> (j < length a)%nat ->
  get (shl a shift) j = shl_digit a (Z.to_nat (shift / 32)) (shift mod 32) j.
Proof.
  intros La Hs Hj; destruct (shift_index shift Hs) as [_ Hr].
  unfold shl; rewrite shl_loop_get by assumption; unfold shl_digit.
  set (k := Z.to_nat (shift / 32)); set (s := shift mod 32) in *.
  f_equal; [nat_bool; reflexivity|].
  destruct (Z.eqb_spec s 0) as [E|]; nat_bool; auto; rewrite E.
  rewrite Z.shiftr_div_pow2, Z.div_small; auto; [apply limbs_get; [lia|assumption] | lia].
Qed.

Lemma get_shr a shift j :
  limbs 32 a -> 0 <= shift -> (j < length a)%nat ->
  get (shr a shift) j = shr_digit a (Z.to_nat (shift / 32)) (shift mod 32) j.
Proof.
  intros La Hs Hj; destruct (shift_index shift Hs) as [_ Hr].
  unfold shr; rewrite shr_loop_get by lia; unfold shr_digit.
  set (k := Z.to_nat (shift / 32)); set (s := shift mod 32) in *.
  f_equal.
  - nat_bool; auto; rewrite get_overflow, Z.shiftr_0_l by lia; reflexivity.
  - destruct (Z.eqb_spec s 0) as [E|]; cbn [negb andb].
    + rewrite E, Z.sub_0_r, Z.shiftl_mul_pow2 by lia; unfold wrap; rewrite Z_mod_mult; reflexivity.
    + nat_bool; auto; rewrite get_overflow, Z.shiftl_0_l by lia; reflexivity.
Qed.

Lemma wf_shl W a shift : wf W a -> 0 <= shift -> wf W (shl a shift).
Proof.
  intros [Ha La] Hs; split; [rewrite length_shl; exact Ha|].
  apply limbs_of_get; rewrite length_shl; intros j Hj; rewrite get_shl by assumption.
  apply shl_digit_range; [exact La | apply shift_index, Hs].
Qed.

Lemma wf_shr W a shift : wf W a -> 0 <= shift -> wf W (shr a shift).
Proof.
  intros [Ha La] Hs; split; [rewrite length_shr; exact Ha|].
  apply limbs_of_get; rewrite length_shr; intros j Hj; rewrite get_shr by assumption.
  apply shr_digit_range; [exact La | apply shift_index, Hs].
Qed.

Lemma val_shl W a shift :
  wf W a -> 0 <= shift -> val (shl a shift) = wrap (32 * Z.of_nat W) (Z.shiftl (val a) shift).
Proof.
  intros [Ha La] Hs; destruct (shift_index shift Hs) as [E Hr].
  unfold val; rewrite (lval_shl_digits a La (Z.to_nat (shift / 32)) (shift mod 32) Hr).
  - rewrite length_shl, Ha, E; reflexivity.
  - rewrite length_shl; intros; apply get_shl; assumption.
Qed.

Lemma val_shr W a shift : wf W a -> 0 <= shift -> val (shr a shift) = Z.shiftr (val a) shift.
Proof.
  intros [Ha La] Hs; destruct (shift_index shift Hs) as [E Hr].
  unfold val; rewrite (lval_shr_digits a La (Z.to_nat (shift / 32)) (shift mod 32) Hr).
  - rewrite E; reflexivity.
  - apply length_shr.
  - rewrite length_shr; intros; apply get_shr; assumption.
Qed.

(** ** Bit length and low words *)

Lemma bits_digit_spec x n :
  0 < x < 2 ^ (Z.of_nat n + 1) -> bits_digit x n = bitlen x.
Proof.
  induction n as [|n IH]; intros Hx; cbn [bits_digit].
  - symmetry; apply bitlen_unique; cbn in *; lia.
  - rewrite Z.shiftl_1_l.
    rewrite land_pow2_eqb, negb_involutive, testbit_top by (unfold in_u; lia).
    destruct (Z.leb_spec (2 ^ Z.of_nat (S n)) x).
    + symmetry; apply bitlen_unique; rewrite ?Z.add_simpl_r; lia.
    + apply IH; rewrite Nat2Z.inj_succ in *; lia.
Qed.

Lemma bits_loop_spec W a i : wf W a -> (i <= W)%nat -> bits_loop a i = bitlen (val (take i a)).
Proof.
  intros [Ha La]; induction i as [|i IH]; intros Hi; cbn [bits_loop]; [reflexivity|].
  unfold val in *; rewrite lval_take_S by lia.
  pose proof (limbs_get 32 ltac:(lia) a i La) as Hg.
  destruct (Z.eqb_spec (get a i) 0) as [->|Hne]; cbn [negb].
  - rewrite IH, Z.mul_0_r, Z.add_0_r by lia; reflexivity.
  - rewrite bits_digit_spec by (unfold in_u in Hg; cbn; lia).
    rewrite bitlen_shift; [reflexivity | lia | | unfold in_u in Hg; lia].
    pose proof (lval_range 32 ltac:(lia) (take i a) ltac:(auto with limbs)) as H.
    rewrite length_take_le in H by lia; exact H.
Qed.

Lemma bits_spec W a : wf W a -> bits a = bitlen (val a).
Proof.
  intros Ha; unfold bits; rewrite (wf_length W a Ha), (bits_loop_spec W) by auto.
  rewrite take_ge by (rewrite (wf_length W a Ha); lia); reflexivity.
Qed.

Lemma GetLow64_spec W a : (2 <= W)%nat -> wf W a -> GetLow64 a = wrap 64 (val a).
Proof.
  intros HW [Ha La]; unfold GetLow64.
  destruct a as [|x [|y a]]; cbn [length] in Ha; try lia.
  apply limbs_cons in La as [Hx La]; apply limbs_cons in La as [Hy La].
  change (get _ 1) with y; change (get _ 0) with x; unfold in_u in *.
  rewrite Z.shiftl_mul_pow2, lor_add_disjoint by (unfold in_u; lia).
  unfold val, wrap; cbn [lval].
  replace (x + 2 ^ 32 * (y + 2 ^ 32 * lval 32 a)) with (x + y * 2 ^ 32 + lval 32 a * 2 ^ 64) by lia.
  rewrite Z_mod_plus_full, Z.mod_small; lia.
Qed.

(** ** Division *)

Lemma set_bit_spec W q s :
  wf W q -> (s < 32 * W)%nat -> Z.testbit (val q) (Z.of_nat s) = false ->
  let q' := set q (s / 32) (Z.lor (get q (s / 32)) (Z.shiftl 1 (Z.of_nat (s mod 32)))) in
  wf W q' /\ val q' = val q + 2 ^ Z.of_nat s.
Proof.
  intros [Hq Lq] Hs Hb; cbn zeta.
  pose proof (Nat.div_mod_eq s 32) as Es; pose proof (Nat.mod_upper_bound s 32 ltac:(lia)) as Hm.
  set (i := (s / 32)%nat) in *; set (m := (s mod 32)%nat) in *.
  unfold val in Hb; rewrite lval_testbit in Hb by (auto; lia).
  replace (Z.of_nat s / 32) with (Z.of_nat i) in Hb by (apply (Z.div_unique _ _ _ (Z.of_nat m)); lia).
  replace (Z.of_nat s mod 32) with (Z.of_nat m) in Hb by (apply (Z.mod_unique _ _ (Z.of_nat i)); lia).
  rewrite Nat2Z.id in Hb; rewrite Z.shiftl_1_l.
  pose proof (limbs_get 32 ltac:(lia) q i Lq) as Hg.
  assert (E : Z.lor (get q i) (2 ^ Z.of_nat m) = get q i + 2 ^ Z.of_nat m).
  { symmetry; rewrite <- Z.lxor_lor, Z.add_nocarry_lxor; [reflexivity|..];
      apply Z.eqb_eq; rewrite land_pow2_eqb, Hb by lia; reflexivity. }
  split; [split|].
  - rewrite length_set; exact Hq.
  - apply limbs_set; [exact Lq|]; apply lor_range; [lia | exact Hg |].
    split; [lia | apply Z.pow_lt_mono_r; lia].
  - unfold val; rewrite lval_set, E by lia.
    replace (get q i + 2 ^ Z.of_nat m - get q i) with (2 ^ Z.of_nat m) by lia.
    rewrite <- pow2_split by lia; do 2 f_equal; lia.
Qed.

Lemma div_loop_spec W num div q n B :
  wf W num -> wf W div -> wf W q -> (n <= 32 * W)%nat -> 0 < B ->
  (n <> 0%nat -> val div = B * 2 ^ (Z.of_nat n - 1)) ->
  val num < B * 2 ^ Z.of_nat n -> val q mod 2 ^ Z.of_nat n = 0 ->
  wf W (div_loop num div q n) /\ val (div_loop num div q n) = val q + val num / B.
Proof.
  intros Hnum Hdiv Hq Hn HB; revert num div q Hnum Hdiv Hq Hn.
  induction n as [|n IH]; intros num div q Hnum Hdiv Hq Hn Ediv Hlt Hmod; cbn [div_loop].
  { split; [exact Hq|]; pose proof (val_range W num Hnum) as Hr; unfold in_u in Hr.
    rewrite Z.div_small by (cbn in Hlt; lia); lia. }
  specialize (Ediv ltac:(lia)); rewrite Nat2Z.inj_succ, Z.pow_succ_r in * by lia.
  replace (Z.succ (Z.of_nat n) - 1) with (Z.of_nat n) in Ediv by lia.
  pose proof (val_range W num Hnum) as Rnum; unfold in_u in Rnum.
  pose proof (pow2_pos (Z.of_nat n) ltac:(lia)) as Hp.
  assert (Hsh : n <> 0%nat -> val (shr div 1) = B * 2 ^ (Z.of_nat n - 1)).
  { intros; rewrite (val_shr W), Ediv, Z.shiftr_div_pow2 by (auto; lia).
    replace (Z.of_nat n) with (Z.succ (Z.of_nat n - 1)) at 1 by lia.
    rewrite Z.pow_succ_r, Z.mul_assoc, (Z.mul_comm B), <- Z.mul_assoc by lia.
    change (2 ^ 1) with 2; rewrite Z.mul_comm, Z.div_mul by lia; reflexivity. }
  assert (Hq2 : val q mod 2 ^ Z.of_nat n = 0).
  { apply Z.mod_divide in Hmod; [|lia]; destruct Hmod as [t ->].
    rewrite Z.mul_assoc; apply Z.mod_mul; lia. }
  rewrite (geb_spec W) by auto; destruct (Z.leb_spec (val div) (val num)).
  - assert (Hb : Z.testbit (val q) (Z.of_nat n) = false).
    { rewrite Z.testbit_false by lia; apply Z.mod_divide in Hmod; [|lia]; destruct Hmod as [t ->].
      rewrite Z.mul_assoc, Z.div_mul, Z.mod_mul by lia; reflexivity. }
    destruct (set_bit_spec W q n Hq ltac:(lia) Hb) as [Hq' Eq'].
    assert (Esub : val (sub num div) = val num - B * 2 ^ Z.of_nat n).
    { rewrite (val_sub W), wrap_small by (auto; unfold in_u; lia); lia. }
    destruct (IH (sub num div) (shr div 1) _ (wf_sub W _ _ Hnum Hdiv) (wf_shr W _ 1 Hdiv ltac:(lia)) Hq')
      as [Hw E]; auto; try lia.
    + rewrite Eq', Z.add_mod, Hq2, Z.mod_same by lia; reflexivity.
    + split; [exact Hw|]; rewrite E, Eq', Esub.
      replace (val num - B * 2 ^ Z.of_nat n) with (val num + - 2 ^ Z.of_nat n * B) by lia.
      rewrite Z.div_add by lia; lia.
  - apply IH; auto using wf_shr with lia.
Qed.

Lemma div_spec W a b :
  wf W a -> wf W b ->
  match div a b with
  | None => val b = 0
  | Some q => val b <> 0 /\ wf W q /\ val q = val a / val b
  end.
Proof.
  intros Ha Hb; unfold div; rewrite (bits_spec W a Ha), (bits_spec W b Hb), (wf_length W a Ha).
  pose proof (val_range W a Ha) as Ra; pose proof (val_range W b Hb) as Rb.
  pose proof (bitlen_le (val a) (32 * Z.of_nat W) ltac:(lia) Ra) as La; pose proof (bitlen_nonneg (val a)).
  destruct (Z.eqb_spec (bitlen (val b)) 0) as [E|E].
  { apply bitlen_zero; unfold in_u in Rb; lia. }
  assert (Hb0 : 0 < val b).
  { unfold in_u in Rb; destruct (Z.eq_dec (val b) 0) as [F|]; [|lia]; rewrite F in E; cbn in E; lia. }
  destruct (bitlen_spec (val b) Hb0) as [[B1 B2] B3]; unfold in_u in Ra.
  destruct (Z.ltb_spec (bitlen (val a)) (bitlen (val b))) as [Hlt|Hge].
  - split; [lia|]; split; [apply wf_zero|]; rewrite val_zero.
    destruct (Z.eq_dec (val a) 0) as [->|]; [rewrite Z.div_0_l; lia|].
    destruct (bitlen_spec (val a)) as [[A1 A2] A3]; [lia|].
    rewrite Z.div_small; [reflexivity|]; split; [lia|].
    apply Z.lt_le_trans with (2 ^ bitlen (val a)); [lia|].
    apply Z.le_trans with (2 ^ (bitlen (val b) - 1)); [apply Z.pow_le_mono_r; lia | lia].
  - set (shift := bitlen (val a) - bitlen (val b)) in *.
    assert (Es : val (shl b shift) = val b * 2 ^ shift).
    { rewrite (val_shl W), Z.shiftl_mul_pow2 by (auto; lia); apply wrap_small; split; [nia|].
      apply Z.lt_le_trans with (2 ^ bitlen (val b) * 2 ^ shift); [pose proof (pow2_pos shift); nia|].
      rewrite <- pow2_split by lia; apply Z.pow_le_mono_r; lia. }
    destruct (div_loop_spec W a (shl b shift) (zero W) (Z.to_nat (shift + 1)) (val b))
      as [Hw Ev]; auto using wf_zero, wf_shl.
    + apply wf_shl; auto; lia.
    + lia.
    + intros _; rewrite Es; do 2 f_equal; lia.
    + rewrite Z2Nat.id by lia.
      destruct (Z.eq_dec (val a) 0) as [->|]; [pose proof (pow2_pos (shift + 1)); nia|].
      destruct (bitlen_spec (val a)) as [[A1 A2] A3]; [lia|].
      apply Z.lt_le_trans with (2 ^ bitlen (val a)); [lia|].
      apply Z.le_trans with (2 ^ (bitlen (val b) - 1) * 2 ^ (shift + 1)).
      * rewrite <- pow2_split by lia; apply Z.pow_le_mono_r; lia.
      * apply Z.mul_le_mono_nonneg_r; lia.
    + rewrite val_zero; apply Z.mod_0_l; pose proof (pow2_pos (Z.of_nat (Z.to_nat (shift + 1)))); lia.
    + rewrite Ev, val_zero; split; [lia | split; [exact Hw | lia]].
Qed.

(** ** The compact encoding, as numbers *)

(** The number a compact word denotes, and the compact word of a number. *)
Definition of_compact (c : Z) : Z :=
  let size := c / 2 ^ 24 in
  let word := c mod 2 ^ 23 in
  if size <=? 3 then word / 2 ^ (8 * (3 - size)) else word * 2 ^ (8 * (size - 3)).

Definition compact_size (z : Z) : Z := (bitlen z + 7) / 8.

Definition compact_mantissa (z : Z) : Z :=
  let size := compact_size z in
  if size <=? 3 then z * 2 ^ (8 * (3 - size)) else z / 2 ^ (8 * (size - 3)).

Definition compact_of (z : Z) : Z :=
  let man := compact_mantissa z in
  if 2 ^ 23 <=? man then man / 2 ^ 8 + 2 ^ 24 * (compact_size z + 1) else man + 2 ^ 24 * compact_size z.

Lemma W256_ge : (2 <= W256)%nat.
Proof. unfold W256; lia. Qed.

Lemma wf_arith b : in_u 64 b -> wf W256 (arith_uint256 b).
Proof. intros; apply wf_of_u64; [apply W256_ge | assumption]. Qed.

Lemma val_arith b : in_u 64 b -> val (arith_uint256 b) = b.
Proof. intros; apply val_of_u64; [apply W256_ge | assumption]. Qed.

Lemma val_range256 a : wf W256 a -> in_u 256 (val a).
Proof. intros H; exact (val_range W256 a H). Qed.

Lemma compact_size_spec z :
  0 <= z -> 0 <= compact_size z /\ bitlen z <= 8 * compact_size z <= bitlen z + 7.
Proof.
  intros; pose proof (bitlen_nonneg z); unfold compact_size.
  pose proof (Z.div_mod (bitlen z + 7) 8 ltac:(lia)); pose proof (Z.mod_pos_bound (bitlen z + 7) 8 ltac:(lia)).
  lia.
Qed.

Lemma compact_mantissa_range z : 0 <= z -> 0 <= compact_mantissa z < 2 ^ 24.
Proof.
  intros Hz; destruct (compact_size_spec z Hz) as (S0 & S1 & S2); unfold compact_mantissa.
  assert (Hlt : z < 2 ^ (8 * compact_size z)).
  { destruct (Z.eq_dec z 0) as [->|]; [apply pow2_pos; lia|].
    destruct (bitlen_spec z) as [[_ H] _]; [lia|].
    apply Z.lt_le_trans with (2 ^ bitlen z); [lia | apply Z.pow_le_mono_r; lia]. }
  destruct (Z.leb_spec (compact_size z) 3).
  - pose proof (pow2_pos (8 * (3 - compact_size z)) ltac:(lia)); split; [nia|].
    replace (2 ^ 24) with (2 ^ (8 * compact_size z) * 2 ^ (8 * (3 - compact_size z)))
      by (rewrite <- pow2_split by lia; f_equal; lia).
    nia.
  - split; [apply Z.div_pos; lia|]; apply Z.div_lt_upper_bound; [lia|].
    rewrite <- pow2_split by lia; replace (8 * (compact_size z - 3) + 24) with (8 * compact_size z) by lia.
    exact Hlt.
Qed.

Lemma SetCompact_wf c : in_u 32 c -> wf W256 (target (SetCompact c)).
Proof.
  intros Hc; unfold SetCompact.
  change 0x007fffff with (Z.ones 23); rewrite Z.land_ones by lia.
  pose proof (Z.mod_pos_bound c (2 ^ 23) ltac:(lia)).
  destruct (Z.leb_spec (Z.shiftr c 24) 3); cbn [target].
  - apply wf_arith; apply shiftr_range; [lia | red; lia].
  - apply wf_shl; [apply wf_arith; red; lia | lia].
Qed.

Lemma SetCompact_val c : in_u 32 c -> val (target (SetCompact c)) = wrap 256 (of_compact c).
Proof.
  intros Hc; unfold SetCompact, of_compact.
  change 0x007fffff with (Z.ones 23); rewrite Z.land_ones, Z.shiftr_div_pow2 by lia.
  pose proof (Z.mod_pos_bound c (2 ^ 23) ltac:(lia)).
  destruct (Z.leb_spec (c / 2 ^ 24) 3); cbn [target].
  - assert (Hs : in_u 64 (Z.shiftr (c mod 2 ^ 23) (8 * (3 - c / 2 ^ 24)))) by (apply shiftr_range; [lia | red; lia]).
    rewrite val_arith by exact Hs; rewrite Z.shiftr_div_pow2 in Hs |- * by lia.
    symmetry; apply wrap_small; unfold in_u in *; lia.
  - rewrite (val_shl W256), val_arith, Z.shiftl_mul_pow2 by (try apply wf_arith; unfold in_u; lia).
    reflexivity.
Qed.

Lemma SetCompact_overflow c : in_u 32 c -> fOverflow (SetCompact c) = (2 ^ 256 <=? of_compact c).
Proof.
  intros Hc; unfold SetCompact, of_compact.
  change 0x007fffff with (Z.ones 23); rewrite Z.land_ones, !Z.shiftr_div_pow2 by lia.
  pose proof (Z.mod_pos_bound c (2 ^ 23) ltac:(lia)) as Hw; set (word := c mod 2 ^ 23) in *.
  assert (Hsz : 0 <= c / 2 ^ 24 < 256).
  { unfold in_u in Hc; split; [apply Z.div_pos | apply Z.div_lt_upper_bound]; lia. }
  set (size := c / 2 ^ 24) in *.
  destruct (Z.leb_spec size 3); cbn [fOverflow].
  - rewrite !(proj2 (Z.ltb_ge _ size)), !andb_false_r by lia; symmetry; apply Z.leb_gt.
    pose proof (shiftr_range 23 word (8 * (3 - size)) ltac:(lia) Hw) as R.
    rewrite Z.shiftr_div_pow2 in R by lia; unfold in_u in R; lia.
  - assert (E : 2 ^ 256 = 2 ^ (8 * (35 - size)) * 2 ^ (8 * (size - 3)) \/ 35 < size).
    { destruct (Z.lt_ge_cases 35 size); [right; assumption | left].
      rewrite <- pow2_split by lia; f_equal; lia. }
    pose proof (pow2_pos (8 * (size - 3)) ltac:(lia)).
    assert (T : (2 ^ 256 <=? word * 2 ^ (8 * (size - 3))) =
                (if 35 <=? size then negb (word =? 0) else 2 ^ (8 * (35 - size)) <=? word)).
    { destruct (Z.leb_spec 35 size).
      - assert (2 ^ 256 <= 2 ^ (8 * (size - 3))) by (apply Z.pow_le_mono_r; lia).
        destruct (Z.eqb_spec word 0) as [->|]; [reflexivity|]; apply Z.leb_le; nia.
      - destruct E as [->|]; [|lia]; apply eq_true_iff_eq; rewrite !Z.leb_le.
        symmetry; apply Z.mul_le_mono_pos_r; assumption. }
    rewrite T; destruct (Z.leb_spec 35 size).
    + rewrite (proj2 (Z.ltb_lt 34 size)), andb_true_r by lia; reflexivity.
    + rewrite (proj2 (Z.ltb_ge 34 size)) by lia; cbn [orb].
      assert (size = 34 \/ size = 33 \/ size <= 32) as [->|[->|Hle]] by lia.
      * cbn -[Z.eqb Z.ltb Z.leb]; destruct (Z.eqb_spec word 0), (Z.ltb_spec 0xff word), (Z.ltb_spec 0xffff word),
          (Z.leb_spec (2 ^ (8 * (35 - 34))) word); cbn in *; auto; lia.
      * cbn -[Z.eqb Z.ltb Z.leb]; destruct (Z.eqb_spec word 0), (Z.ltb_spec 0xff word), (Z.ltb_spec 0xffff word),
          (Z.leb_spec (2 ^ (8 * (35 - 33))) word); cbn in *; auto; lia.
      * rewrite !(proj2 (Z.ltb_ge _ size)), !andb_false_r by lia; symmetry; apply Z.leb_gt.
        apply Z.lt_le_trans with (2 ^ 24); [lia | apply Z.pow_le_mono_r; lia].
Qed.

(** The tail of [GetCompact]: sign-bit normalisation, the two assertions, and packing. *)
Lemma compact_pack man size :
  0 <= man < 2 ^ 24 -> 0 <= size <= 32 ->
  (let '(nCompact, nSize) := if negb (Z.land man 0x00800000 =? 0)
                             then (Z.shiftr man 8, size + 1) else (man, size) in
   assert! Z.land nCompact (wrap 32 (Z.lnot 0x007fffff)) =? 0;
   assert! nSize <? 256;
   let nCompact := Z.lor nCompact (wrap 32 (Z.shiftl nSize 24)) in
   Some (Z.lor nCompact (if false && negb (Z.land nCompact 0x007fffff =? 0) then 0x00800000 else 0)))
  = Some (if 2 ^ 23 <=? man then man / 2 ^ 8 + 2 ^ 24 * (size + 1) else man + 2 ^ 24 * size).
Proof.
  intros Hm Hs; change 0x00800000 with (2 ^ 23).
  rewrite land_pow2_eqb, negb_involutive, testbit_top by (unfold in_u; lia).
  rewrite Z.shiftr_div_pow2 by lia; change (wrap 32 (Z.lnot 0x007fffff)) with (511 * 2 ^ 23).
  assert (P : forall x y, in_u 23 x -> 0 <= y <= 33 ->
    (assert! Z.land x (511 * 2 ^ 23) =? 0; assert! y <? 256;
     let nCompact := Z.lor x (wrap 32 (Z.shiftl y 24)) in
     Some (Z.lor nCompact (if false && negb (Z.land nCompact 0x007fffff =? 0) then 2 ^ 23 else 0)))
    = Some (x + 2 ^ 24 * y)).
  { intros x y Hx Hy; rewrite land_high_zero, Z.eqb_refl, (proj2 (Z.ltb_lt y 256)) by (auto; lia).
    cbn zeta; cbn [andb]; unfold in_u in Hx.
    rewrite Z.lor_0_r, Z.shiftl_mul_pow2, wrap_small, lor_add_disjoint, Z.mul_comm by (unfold in_u; lia).
    f_equal; lia. }
  destruct (Z.leb_spec (2 ^ 23) man); apply P; unfold in_u; try lia.
  split; [apply Z.div_pos | apply Z.div_lt_upper_bound]; lia.
Qed.

Lemma compact_size_256 z : in_u 256 z -> 0 <= compact_size z <= 32.
Proof.
  intros Hz; pose proof (bitlen_le z 256 ltac:(lia) Hz).
  destruct (compact_size_spec z); unfold in_u in Hz; lia.
Qed.

Lemma GetCompact_eq a : wf W256 a -> GetCompact a false = Some (compact_of (val a)).
Proof.
  intros Ha; pose proof (val_range256 a Ha) as Ra; pose proof (compact_size_256 _ Ra) as Hs.
  assert (Hn : 0 <= val a) by (unfold in_u in Ra; lia).
  pose proof (compact_mantissa_range (val a) Hn) as Hm.
  unfold compact_of; rewrite <- compact_pack by assumption.
  unfold GetCompact; rewrite (bits_spec W256 a Ha); fold (compact_size (val a)).
  replace (if compact_size (val a) <=? 3 then _ else _) with (compact_mantissa (val a)); [reflexivity|].
  unfold compact_mantissa in *; destruct (Z.leb_spec (compact_size (val a)) 3).
  - assert (Hv : val a < 2 ^ 24).
    { destruct (compact_size_spec (val a) Hn) as (_ & S1 & S2).
      destruct (Z.eq_dec (val a) 0) as [->|]; [lia|].
      destruct (bitlen_spec (val a)) as [[_ H'] _]; [lia|].
      apply Z.lt_le_trans with (2 ^ bitlen (val a)); [lia | apply Z.pow_le_mono_r; lia]. }
    rewrite (GetLow64_spec W256 a W256_ge Ha), (wrap_small 64 (val a)), Z.shiftl_mul_pow2 by (unfold in_u; lia).
    rewrite (wrap_small 64), (wrap_small 32) by (unfold in_u; lia); reflexivity.
  - pose proof (wf_shr W256 a (8 * (compact_size (val a) - 3)) Ha ltac:(lia)) as Hw.
    rewrite (GetLow64_spec W256 _ W256_ge Hw), (val_shr W256 a), Z.shiftr_div_pow2 by (auto; lia).
    rewrite (wrap_small 64), (wrap_small 32) by (unfold in_u; lia); reflexivity.
Qed.

Lemma compact_of_range z : in_u 256 z -> in_u 32 (compact_of z).
Proof.
  intros Hz; pose proof (compact_size_256 z Hz); unfold in_u in Hz.
  pose proof (compact_mantissa_range z ltac:(lia)); unfold compact_of, in_u.
  destruct (Z.leb_spec (2 ^ 23) (compact_mantissa z)); [|lia].
  assert (0 <= compact_mantissa z / 2 ^ 8 < 2 ^ 16) by
    (split; [apply Z.div_pos | apply Z.div_lt_upper_bound]; lia); lia.
Qed.

(** The low bits [GetCompact] drops. *)
Definition compact_shift (z : Z) : Z :=
  let size := if 2 ^ 23 <=? compact_mantissa z then compact_size z + 1 else compact_size z in
  Z.max 0 (8 * (size - 3)).

Lemma of_compact_unpack man size :
  0 <= man < 2 ^ 23 -> 0 <= size ->
  of_compact (man + 2 ^ 24 * size) =
  if size <=? 3 then man / 2 ^ (8 * (3 - size)) else man * 2 ^ (8 * (size - 3)).
Proof.
  intros Hm Hs; unfold of_compact.
  rewrite <- (Z.div_unique (man + 2 ^ 24 * size) (2 ^ 24) size man) by lia.
  rewrite <- (Z.mod_unique (man + 2 ^ 24 * size) (2 ^ 23) (2 * size) man) by lia.
  reflexivity.
Qed.

Lemma of_compact_of z : 0 <= z -> of_compact (compact_of z) = trunc (compact_shift z) z.
Proof.
  intros Hz; pose proof (compact_mantissa_range z Hz) as Hm; destruct (compact_size_spec z Hz) as [S0 _].
  unfold compact_of, compact_shift; destruct (Z.leb_spec (2 ^ 23) (compact_mantissa z)) as [Hbig|Hsmall].
  - rewrite of_compact_unpack by (try (split; [apply Z.div_pos | apply Z.div_lt_upper_bound]); lia).
    unfold compact_mantissa in *; destruct (Z.leb_spec (compact_size z) 3), (Z.leb_spec (compact_size z + 1) 3);
      try lia.
    + rewrite Z.max_l, trunc_0 by lia.
      replace (8 * (3 - compact_size z)) with (8 * (3 - (compact_size z + 1)) + 8) by lia.
      rewrite pow2_split, Z.mul_assoc, Z.div_mul, Z.div_mul by lia; reflexivity.
    + replace (compact_size z) with 3 by lia; cbn; rewrite Z.mul_1_r; reflexivity.
    + rewrite Z.max_r, Z.div_div, <- pow2_split by lia; unfold trunc; do 3 f_equal; lia.
  - rewrite of_compact_unpack by lia.
    unfold compact_mantissa in *; destruct (Z.leb_spec (compact_size z) 3).
    + rewrite Z.max_l, trunc_0, Z.div_mul by lia; reflexivity.
    + rewrite Z.max_r by lia; reflexivity.
Qed.

Lemma compact_of_trunc z : 0 <= z -> compact_of (trunc (compact_shift z) z) = compact_of z.
Proof.
  intros Hz; destruct (Z.eq_dec z 0) as [->|Hne]; [reflexivity|].
  destruct (compact_size_spec z Hz) as (S0 & S1 & S2); destruct (bitlen_spec z) as [_ Hpos]; [lia|].
  pose proof (compact_mantissa_range z Hz) as Hm.
  assert (Eb : compact_size (trunc (compact_shift z) z) = compact_size z).
  { unfold compact_size; rewrite bitlen_trunc; [reflexivity | | lia].
    unfold compact_shift; case_match; lia. }
  unfold compact_of, compact_shift in *; set (man := compact_mantissa z) in *.
  destruct (Z.leb_spec (2 ^ 23) man) as [Hbig|Hsmall].
  - assert (Em : compact_size z <= 2 \/ compact_mantissa (trunc (Z.max 0 (8 * (compact_size z + 1 - 3))) z)
                 = man / 2 ^ 8 * 2 ^ 8).
    { destruct (Z.le_gt_cases (compact_size z) 2) as [|G]; [left; assumption | right].
      unfold compact_mantissa in man |- *; rewrite Eb, Z.max_r by lia; unfold trunc, man.
      destruct (Z.leb_spec (compact_size z) 3).
      - replace (compact_size z) with 3 by lia; cbn; rewrite !Z.mul_1_r; reflexivity.
      - rewrite Z.div_div by lia; replace (8 * (compact_size z + 1 - 3)) with (8 * (compact_size z - 3) + 8) by lia.
        rewrite pow2_split by lia; set (p := 2 ^ (8 * (compact_size z - 3))).
        assert (0 < p) by (apply pow2_pos; lia).
        rewrite (Z.mul_comm p (2 ^ 8)) at 2; rewrite Z.mul_assoc, Z.div_mul by lia; reflexivity. }
    destruct Em as [Hle|Em].
    + rewrite Z.max_l, trunc_0 by lia; fold man; rewrite (proj2 (Z.leb_le _ _) Hbig); reflexivity.
    + rewrite Em, Eb, Z.div_mul by lia.
      replace (2 ^ 23 <=? man / 2 ^ 8 * 2 ^ 8) with true; [reflexivity|].
      symmetry; apply Z.leb_le; pose proof (Z.div_mod man (2 ^ 8) ltac:(lia)).
      pose proof (Z.mod_pos_bound man (2 ^ 8) ltac:(lia)).
      assert (2 ^ 15 <= man / 2 ^ 8) by (apply Z.div_le_lower_bound; lia); lia.
  - replace (compact_mantissa (trunc _ z)) with man.
    + rewrite Eb, (proj2 (Z.leb_gt _ _) Hsmall); reflexivity.
    + unfold compact_mantissa in man |- *; rewrite Eb; unfold man.
      destruct (Z.leb_spec (compact_size z) 3).
      * rewrite Z.max_l, trunc_0 by lia; reflexivity.
      * rewrite Z.max_r by lia; unfold trunc; rewrite Z.div_mul by lia; reflexivity.
Qed.

(** An encoded target never carries the sign bit. *)
Lemma compact_nonneg_flag z : in_u 256 z -> fNegative (SetCompact (compact_of z)) = false.
Proof.
  intros Hz; pose proof (compact_size_256 z Hz); unfold in_u in Hz.
  pose proof (compact_mantissa_range z ltac:(lia)) as Hm.
  assert (B : exists man size, compact_of z = man + 2 ^ 24 * size /\ 0 <= man < 2 ^ 23 /\ 0 <= size).
  { unfold compact_of; destruct (Z.leb_spec (2 ^ 23) (compact_mantissa z)).
    - eexists _, _; split; [reflexivity|]; split; [|lia].
      split; [apply Z.div_pos | apply Z.div_lt_upper_bound]; lia.
    - eexists _, _; split; [reflexivity|]; lia. }
  destruct B as (man & size & -> & Hman & Hsize).
  assert (Hbit : Z.testbit (man + 2 ^ 24 * size) 23 = false).
  { apply Z.testbit_false; [lia|].
    replace ((man + 2 ^ 24 * size) / 2 ^ 23) with (size * 2) by (apply (Z.div_unique _ _ _ man); lia).
    apply Z.mod_mul; lia. }
  unfold SetCompact; change 0x00800000 with (2 ^ 23).
  rewrite land_pow2_eqb, Hbit by lia; case_match; cbn [fNegative]; apply andb_false_r.
Qed.

(** ** Byte order *)

Lemma bytes_of_words a :
  limbs 32 a -> length (ArithToUint256 a) = (4 * length a)%nat /\ limbs 8 (ArithToUint256 a) /\
  lval 8 (ArithToUint256 a) = lval 32 a.
Proof.
  unfold ArithToUint256; induction a as [|x a IH]; intros Ha; [repeat split; constructor|].
  apply limbs_cons in Ha as [Hx Ha]; destruct (IH Ha) as (H1 & H2 & H3); cbn [map concat].
  unfold WriteLE32 at 1 3 5; repeat split.
  - rewrite length_app, length_digits, H1; cbn [length]; lia.
  - apply limbs_app; split; [apply limbs_digits; lia | exact H2].
  - rewrite lval_app, lval_digits, length_digits, H3, wrap_small by (exact Hx || lia); reflexivity.
Qed.

Lemma words_of_bytes n b :
  limbs 8 b -> length b = (4 * n)%nat ->
  limbs 32 (map (fun x => ReadLE32 (drop (4 * x) b)) (seq 0 n)) /\
  lval 32 (map (fun x => ReadLE32 (drop (4 * x) b)) (seq 0 n)) = lval 8 b.
Proof.
  revert b; induction n as [|n IH]; intros b Hb Hl.
  { destruct b; [split; [constructor | reflexivity] | cbn in Hl; lia]. }
  cbn [seq]; rewrite <- seq_shift, map_cons, map_map.
  destruct (IH (drop 4 b)) as [H1 H2]; [apply limbs_drop, Hb | rewrite length_drop; lia |].
  replace (map (fun x => ReadLE32 (drop (4 * S x) b)) (seq 0 n))
    with (map (fun x => ReadLE32 (drop (4 * x) (drop 4 b))) (seq 0 n))
    by (apply map_ext; intros; rewrite drop_drop; do 2 f_equal; lia).
  change (4 * 0)%nat with 0%nat; rewrite drop_0.
  split.
  - apply limbs_cons; split; [|exact H1]; unfold ReadLE32.
    pose proof (lval_range 8 ltac:(lia) (take 4 b) ltac:(apply limbs_take, Hb)) as R.
    rewrite length_take_le in R by lia; exact R.
  - cbn [lval]; rewrite H2, (lval_take_drop 8 ltac:(lia) b 4) by lia; reflexivity.
Qed.

Lemma UintToArith256_spec b :
  limbs 8 b -> length b = 32%nat -> wf W256 (UintToArith256 b) /\ val (UintToArith256 b) = lval 8 b.
Proof.
  intros Hb Hl; destruct (words_of_bytes W256 b Hb Hl) as [H1 H2].
  split; [split|exact H2]; [unfold UintToArith256; rewrite length_map, length_seq; reflexivity | exact H1].
Qed.

Lemma UintToArith256_ArithToUint256 a : wf W256 a -> UintToArith256 (ArithToUint256 a) = a.
Proof.
  intros [Hl Ha]; destruct (bytes_of_words a Ha) as (H1 & H2 & H3).
  destruct (UintToArith256_spec _ H2) as [H4 H5]; [rewrite H1, Hl; reflexivity|].
  apply (val_inj W256); [exact H4 | split; assumption | rewrite H5; exact H3].
Qed.

(** ** Properties *)

(** C38: the digit loops of [base_uint] compute on numbers modulo [2^BITS].  For every
    width, sum, difference, negation, product and both shifts keep the representation
    well formed and denote the corresponding operation on the denoted numbers. *)
Theorem base_uint_refines_modular_arithmetic (W : nat) (a b : base_uint) (shift : Z) :
  wf W a -> wf W b -> 0 <= shift ->
  let M := 2 ^ (32 * Z.of_nat W) in
  (wf W (add a b) /\ val (add a b) = (val a + val b) mod M) /\
  (wf W (sub a b) /\ val (sub a b) = (val a - val b) mod M) /\
  (wf W (neg a) /\ val (neg a) = (- val a) mod M) /\
  (wf W (mul a b) /\ val (mul a b) = (val a * val b) mod M) /\
  (wf W (shl a shift) /\ val (shl a shift) = (val a * 2 ^ shift) mod M) /\
  (wf W (shr a shift) /\ val (shr a shift) = val a / 2 ^ shift).
Proof.
  intros Ha Hb Hs; cbn zeta.
  rewrite <- Z.shiftl_mul_pow2, <- Z.shiftr_div_pow2 by exact Hs.
  repeat split; (eapply wf_length || eapply wf_limbs || idtac);
    eauto using wf_add, wf_sub, wf_neg, wf_mul, wf_shl, wf_shr, val_add, val_sub, val_neg, val_mul,
      val_shl, val_shr.
Qed.

Lemma base_uint_refines_modular_arithmetic_witness :
  val (mul (arith_uint256 (2 ^ 63)) (arith_uint256 12)) = 12 * 2 ^ 63.
Proof.
  refine (eq_trans (proj2 (proj1 (proj2 (proj2 (proj2
    (base_uint_refines_modular_arithmetic W256 (arith_uint256 (2 ^ 63)) (arith_uint256 12) 0 _ _ _)))))) _).
  - apply wf_arith; red; lia.
  - apply wf_arith; red; lia.
  - lia.
  - vm_compute; reflexivity.
Defined.

(** shift-and-subtract division throws exactly on a zero divisor and otherwise returns
    the floor quotient. *)
Theorem base_uint_division_correct (W : nat) (a b : base_uint) :
  wf W a -> wf W b ->
  match div a b with
  | None => val b = 0
  | Some q => val b <> 0 /\ wf W q /\ val q = val a / val b
  end.
Proof. apply div_spec. Qed.

Lemma base_uint_division_correct_witness :
  option_map val (div (arith_uint256 1000003) (arith_uint256 17)) = Some 58823.
Proof.
  pose proof (base_uint_division_correct W256 (arith_uint256 1000003) (arith_uint256 17)
                ltac:(apply wf_arith; red; lia) ltac:(apply wf_arith; red; lia)) as H.
  destruct (div (arith_uint256 1000003) (arith_uint256 17)) as [q|].
  - cbn; f_equal; rewrite (proj2 (proj2 H)); vm_compute; reflexivity.
  - vm_compute in H; discriminate H.
Defined.

(** the comparison loop, [bits], and the two byte-order conversions agree with the
    number: [CompareTo] is the sign of the comparison, [bits] the bit length, and a target
    survives the trip through the 32 little-endian bytes of a [uint256]. *)
Theorem base_uint_order_bits_bytes (a b : base_uint) :
  wf W256 a -> wf W256 b ->
  CompareTo a b = (match val a ?= val b with Lt => -1 | Eq => 0 | Gt => 1 end) /\
  bits a = bitlen (val a) /\
  lval 8 (ArithToUint256 a) = val a /\
  UintToArith256 (ArithToUint256 a) = a.
Proof.
  intros Ha Hb; repeat split.
  - apply (CompareTo_spec W256); assumption.
  - apply (bits_spec W256); assumption.
  - apply bytes_of_words, (wf_limbs W256), Ha.
  - apply UintToArith256_ArithToUint256, Ha.
Qed.

Lemma base_uint_order_bits_bytes_witness :
  CompareTo (arith_uint256 7) (arith_uint256 9) = -1 /\ bits (arith_uint256 7) = 3.
Proof.
  destruct (base_uint_order_bits_bytes (arith_uint256 7) (arith_uint256 9)
              ltac:(apply wf_arith; red; lia) ltac:(apply wf_arith; red; lia)) as (H1 & H2 & _).
  split; [rewrite H1 | rewrite H2]; vm_compute; reflexivity.
Defined.

(** decoding a compact target is exact: the overflow flag is set precisely when the
    denoted number does not fit 256 bits, and otherwise the decoded target is that number. *)
Theorem SetCompact_exact (c : Z) :
  in_u 32 c ->
  wf W256 (target (SetCompact c)) /\
  (fOverflow (SetCompact c) = true <-> 2 ^ 256 <= of_compact c) /\
  (fOverflow (SetCompact c) = false -> val (target (SetCompact c)) = of_compact c).
Proof.
  intros Hc; rewrite (SetCompact_overflow c Hc); split; [apply SetCompact_wf, Hc | split].
  - apply Z.leb_le.
  - intros H; apply Z.leb_gt in H; rewrite (SetCompact_val c Hc); apply wrap_small.
    split; [|exact H]; unfold of_compact; pose proof (Z.mod_pos_bound c (2 ^ 23) ltac:(lia)).
    case_match; [apply Z.div_pos | apply Z.mul_nonneg_nonneg]; lia.
Qed.

Lemma SetCompact_exact_witness : val (target (SetCompact 0x1d00ffff)) = 0xffff * 2 ^ 208.
Proof.
  refine (eq_trans (proj2 (proj2 (SetCompact_exact 0x1d00ffff _)) _) _).
  - red; lia.
  - vm_compute; reflexivity.
  - vm_compute; reflexivity.
Defined.

(** encoding a target never trips the assertions of [GetCompact]; decoding the result
    gives the target with its low [compact_shift] bits cleared, unflagged, and encoding that
    again gives the same compact word. *)
Theorem compact_roundtrip (a : base_uint) :
  wf W256 a ->
  exists c, GetCompact a false = Some c /\ in_u 32 c /\
    fNegative (SetCompact c) = false /\ fOverflow (SetCompact c) = false /\
    val (target (SetCompact c)) = trunc (compact_shift (val a)) (val a) /\
    GetCompact (target (SetCompact c)) false = Some c.
Proof.
  intros Ha; pose proof (val_range256 a Ha) as Ra; exists (compact_of (val a)).
  pose proof (compact_of_range _ Ra) as Rc; unfold in_u in Ra.
  pose proof (of_compact_of (val a) ltac:(lia)) as E.
  assert (Hsh : 0 <= compact_shift (val a)) by (unfold compact_shift; lia).
  pose proof (trunc_le _ (val a) Hsh) as T.
  assert (T0 : 0 <= trunc (compact_shift (val a)) (val a))
    by (unfold trunc; apply Z.mul_nonneg_nonneg; [apply Z.div_pos|]; lia).
  assert (V : val (target (SetCompact (compact_of (val a)))) = trunc (compact_shift (val a)) (val a)).
  { rewrite SetCompact_val, E, wrap_small by (auto; unfold in_u; lia); reflexivity. }
  repeat split; try apply Rc; auto using GetCompact_eq.
  - apply compact_nonneg_flag; unfold in_u; lia.
  - rewrite SetCompact_overflow, E by exact Rc; apply Z.leb_gt; lia.
  - rewrite GetCompact_eq, V, compact_of_trunc by (auto using SetCompact_wf || lia); reflexivity.
Qed.

Lemma compact_roundtrip_witness :
  exists c, GetCompact (arith_uint256 0x123456789a) false = Some c /\
    val (target (SetCompact c)) = 0x1234560000.
Proof.
  destruct (compact_roundtrip (arith_uint256 0x123456789a) ltac:(apply wf_arith; red; lia))
    as (c & H1 & _ & _ & _ & H2 & _).
  exists c; split; [exact H1 | rewrite H2; vm_compute; reflexivity].
Defined.
