(* ===== verification/Version.v ===== *)
(** Block version layout: the constants and [constexpr] functions at the top of
    [src/src/primitives/pureheader.h].

    [nVersion] is an [int32_t], modelled as a signed [Z]; [static_cast<uint32_t>] is
    [wrap 32].  The word is laid out as
    [top_bits:3][chain_id:16][reserved:4][auxpow_flag:1][version_bits:8]. *)

From S2P Require Import Prelude.

#[local] Open Scope Z_scope.

Module Version.

Abbreviation BLOCK_VERSION_TOP_BITS := 0x20000000%Z.
Definition BLOCK_VERSION_TOP_MASK : Z := swrap 32 0xE0000000.
Definition BLOCK_VERSION_CHAIN_ID_MASK : Z := 0x1FFFE000.
Abbreviation BLOCK_VERSION_RESERVED_MASK := 0x00001E00%Z.
Abbreviation BLOCK_VERSION_AUXPOW := 0x00000100%Z.
Abbreviation BLOCK_VERSION_SIGNAL_MASK := 0x000000FF%Z.
Abbreviation BLOCK_VERSION_PERMISSIONLESS_ROLLING_MASK := (wrap 32 BLOCK_VERSION_CHAIN_ID_MASK)%Z.
Definition BLOCK_VERSION_LAYOUT_MASK : Z :=
  Z.lor (Z.lor (Z.lor (wrap 32 BLOCK_VERSION_TOP_MASK) (wrap 32 BLOCK_VERSION_CHAIN_ID_MASK))
               (wrap 32 BLOCK_VERSION_RESERVED_MASK))
        (wrap 32 BLOCK_VERSION_AUXPOW).
Definition BLOCK_VERSION_CHAIN_ID_SHIFT : Z := 13.
Definition BLOCK_VERSION_RESERVED_SHIFT : Z := 9.

Definition HasBIP9TopBitsShape (version : Z) : bool :=
  Z.land version BLOCK_VERSION_TOP_MASK =? BLOCK_VERSION_TOP_BITS.

Definition HasCanonicalVersionLayout (version : Z) : bool :=
  (Z.land (wrap 32 version) BLOCK_VERSION_LAYOUT_MASK =? 0) || HasBIP9TopBitsShape version.

Definition ExtractChainId (version : Z) : Z :=
  wrap 16 (Z.shiftr (Z.land (wrap 32 version) BLOCK_VERSION_CHAIN_ID_MASK) BLOCK_VERSION_CHAIN_ID_SHIFT).

Definition ExtractVersionBits (version : Z) : Z :=
  wrap 8 (Z.land (wrap 32 version) BLOCK_VERSION_SIGNAL_MASK).

Definition IsAuxpowVersion (version : Z) : bool :=
  HasBIP9TopBitsShape version && negb (Z.land version BLOCK_VERSION_AUXPOW =? 0).

Definition GetPermissionlessVersionRollingMask (version : Z) : Z :=
  if HasBIP9TopBitsShape version && negb (IsAuxpowVersion version)
  then BLOCK_VERSION_PERMISSIONLESS_ROLLING_MASK else 0.

Definition ReservedBits (version : Z) : Z :=
  wrap 8 (Z.shiftr (Z.land (wrap 32 version) BLOCK_VERSION_RESERVED_MASK) BLOCK_VERSION_RESERVED_SHIFT).

Definition MakeVersion (chain_id : Z) (auxpow : bool) (version_bits : Z) : Z :=
  Z.lor (Z.lor (Z.lor BLOCK_VERSION_TOP_BITS (Z.shiftl chain_id BLOCK_VERSION_CHAIN_ID_SHIFT))
               (if auxpow then BLOCK_VERSION_AUXPOW else 0))
        version_bits.

(** ** Fields of the word *)

(** Masking a field and shifting it down reads the bits of the field. *)
Lemma field_read x lo n :
  0 <= lo -> 0 <= n -> Z.shiftr (Z.land x (Z.shiftl (Z.ones n) lo)) lo = wrap n (Z.shiftr x lo).
Proof.
  intros Hlo Hn; rewrite Z.shiftr_land, wrap_land by lia; f_equal.
  rewrite Z.shiftr_shiftl_l, Z.sub_diag, Z.shiftl_0_r by lia; reflexivity.
Qed.

Lemma field_mask x lo n :
  0 <= lo -> 0 <= n -> Z.land x (Z.shiftl (Z.ones n) lo) = Z.shiftl (wrap n (Z.shiftr x lo)) lo.
Proof.
  intros Hlo Hn; rewrite <- field_read by lia; apply Z.bits_inj'; intros i Hi.
  rewrite Z.shiftl_spec, Z.land_spec, Z.shiftl_spec by lia.
  destruct (Z.lt_ge_cases i lo).
  - rewrite !(Z.testbit_neg_r _ (i - lo)) by lia; apply andb_false_r.
  - rewrite Z.shiftr_spec, Z.land_spec, Z.shiftl_spec by lia.
    replace (i - lo + lo) with i by lia; reflexivity.
Qed.

Lemma wrap_shiftr x lo n w :
  0 <= lo -> 0 <= n -> lo + n <= w -> wrap n (Z.shiftr (wrap w x) lo) = wrap n (Z.shiftr x lo).
Proof.
  intros; apply Z.bits_inj'; intros i Hi.
  rewrite !testbit_wrap, !Z.shiftr_spec, testbit_wrap by lia.
  destruct (Z.ltb_spec i n); [|reflexivity].
  rewrite (proj2 (Z.ltb_lt (i + lo) w)) by lia; reflexivity.
Qed.

(** A signed word as its fields. *)
Lemma top_bits_read x : in_s 32 x -> HasBIP9TopBitsShape x = (Z.shiftr x 29 =? 1).
Proof.
  intros Hx; unfold HasBIP9TopBitsShape.
  change BLOCK_VERSION_TOP_MASK with (Z.shiftl (-1) 29); change BLOCK_VERSION_TOP_BITS with (Z.shiftl 1 29).
  replace (Z.land x (Z.shiftl (-1) 29)) with (Z.shiftl (Z.shiftr x 29) 29).
  - rewrite !Z.shiftl_mul_pow2 by lia; apply eq_true_iff_eq; rewrite !Z.eqb_eq; lia.
  - apply Z.bits_inj'; intros i Hi; rewrite Z.land_spec, !Z.shiftl_spec by lia.
    destruct (Z.lt_ge_cases i 29).
    + rewrite !(Z.testbit_neg_r _ (i - 29)), andb_false_r by lia; reflexivity.
    + rewrite Z.shiftr_spec, Z.bits_m1, andb_true_r by lia; f_equal; lia.
Qed.

Lemma auxpow_bit_read x : (Z.land x BLOCK_VERSION_AUXPOW =? 0) = negb (Z.testbit x 8).
Proof. apply (land_pow2_eqb x 8); lia. Qed.

Lemma ExtractChainId_read x : ExtractChainId x = wrap 16 (Z.shiftr x 13).
Proof.
  unfold ExtractChainId; change BLOCK_VERSION_CHAIN_ID_MASK with (Z.shiftl (Z.ones 16) 13).
  rewrite field_read, wrap_shiftr by (unfold BLOCK_VERSION_CHAIN_ID_SHIFT; lia).
  apply wrap_small, wrap_range; lia.
Qed.

Lemma ReservedBits_read x : ReservedBits x = wrap 4 (Z.shiftr x 9).
Proof.
  unfold ReservedBits; change BLOCK_VERSION_RESERVED_MASK with (Z.shiftl (Z.ones 4) 9).
  rewrite field_read, wrap_shiftr by (unfold BLOCK_VERSION_RESERVED_SHIFT; lia).
  apply wrap_small; pose proof (wrap_range 4 (Z.shiftr x 9) ltac:(lia)); unfold in_u in *; lia.
Qed.

Lemma ExtractVersionBits_read x : ExtractVersionBits x = wrap 8 x.
Proof.
  unfold ExtractVersionBits; change BLOCK_VERSION_SIGNAL_MASK with (Z.ones 8).
  rewrite <- wrap_land by lia; change (wrap 8 (wrap 8 (wrap 32 x)) = wrap 8 x).
  rewrite (wrap_small 8 (wrap 8 _)) by (apply wrap_range; lia).
  apply (wrap_shiftr x 0 8 32); lia.
Qed.

Lemma MakeVersion_sum chain_id auxpow version_bits :
  in_u 16 chain_id -> in_u 8 version_bits ->
  MakeVersion chain_id auxpow version_bits
  = version_bits + (if auxpow then 1 else 0) * 2 ^ 8 + chain_id * 2 ^ 13 + 1 * 2 ^ 29.
Proof.
  unfold in_u; intros Hc Hv; unfold MakeVersion, BLOCK_VERSION_CHAIN_ID_SHIFT.
  rewrite Z.shiftl_mul_pow2 by lia.
  change BLOCK_VERSION_TOP_BITS with (1 * 2 ^ 29).
  replace (if auxpow then BLOCK_VERSION_AUXPOW else 0) with ((if auxpow then 1 else 0) * 2 ^ 8)
    by (destruct auxpow; reflexivity).
  set (aux := if auxpow then 1 else 0); assert (0 <= aux <= 1) by (destruct auxpow; cbv; split; discriminate).
  transitivity (Z.lor (Z.lor (Z.lor version_bits (aux * 2 ^ 8)) (chain_id * 2 ^ 13)) (1 * 2 ^ 29)).
  { apply Z.bits_inj'; intros i Hi; rewrite !Z.lor_spec; btauto. }
  rewrite (lor_add_disjoint version_bits aux 8) by (unfold in_u; lia).
  rewrite (lor_add_disjoint _ chain_id 13), (lor_add_disjoint _ 1 29) by (unfold in_u; lia); reflexivity.
Qed.

(** Rolling: the bits of [x] outside the rolling mask. *)
Lemma land_fixed x y m : Z.land x (Z.lnot m) = Z.land y (Z.lnot m) ->
  forall i, 0 <= i -> Z.testbit m i = false -> Z.testbit x i = Z.testbit y i.
Proof.
  intros E i Hi Hm; apply (f_equal (fun z => Z.testbit z i)) in E.
  rewrite !Z.land_spec, Z.lnot_spec, Hm, !andb_true_r in E by exact Hi; exact E.
Qed.

(** ** Properties *)

(** a version word built by [MakeVersion] has the canonical layout, and every field
    reads back as it was written. *)
Theorem MakeVersion_roundtrip (chain_id : Z) (auxpow : bool) (version_bits : Z) :
  in_u 16 chain_id -> in_u 8 version_bits ->
  let v := MakeVersion chain_id auxpow version_bits in
  in_s 32 v /\ HasCanonicalVersionLayout v = true /\ IsAuxpowVersion v = auxpow /\
  ExtractChainId v = chain_id /\ ExtractVersionBits v = version_bits /\ ReservedBits v = 0.
Proof.
  intros Hc Hv; cbn zeta; rewrite (MakeVersion_sum _ _ _ Hc Hv); unfold in_u in *.
  set (aux := if auxpow then 1 else 0); assert (0 <= aux <= 1) by (destruct auxpow; cbv; split; discriminate).
  set (v := version_bits + aux * 2 ^ 8 + chain_id * 2 ^ 13 + 1 * 2 ^ 29).
  assert (Rv : in_s 32 v) by (unfold in_s, v; lia).
  assert (Htop : HasBIP9TopBitsShape v = true).
  { rewrite top_bits_read, Z.shiftr_div_pow2 by (auto; lia); apply Z.eqb_eq; symmetry.
    apply (Z.div_unique _ _ _ (version_bits + aux * 2 ^ 8 + chain_id * 2 ^ 13)); unfold v; lia. }
  split; [exact Rv|]; split; [|split; [|split; [|split]]].
  - unfold HasCanonicalVersionLayout; rewrite Htop; apply orb_true_r.
  - unfold IsAuxpowVersion; rewrite Htop, auxpow_bit_read, negb_involutive, Z.testbit_eqb by lia.
    replace (v / 2 ^ 8) with (aux + (chain_id * 2 ^ 4 + 2 ^ 20) * 2) by
      (apply (Z.div_unique _ _ _ version_bits); unfold v; lia).
    rewrite Z_mod_plus_full; unfold aux; destruct auxpow; reflexivity.
  - rewrite ExtractChainId_read, Z.shiftr_div_pow2 by lia; unfold wrap; symmetry.
    replace (v / 2 ^ 13) with (chain_id + 1 * 2 ^ 16) by
      (apply (Z.div_unique _ _ _ (version_bits + aux * 2 ^ 8)); unfold v; lia).
    rewrite Z_mod_plus_full, Z.mod_small; lia.
  - rewrite ExtractVersionBits_read; unfold wrap; symmetry.
    apply (Z.mod_unique _ _ (aux + chain_id * 2 ^ 5 + 2 ^ 21)); unfold v; lia.
  - rewrite ReservedBits_read, Z.shiftr_div_pow2 by lia; unfold wrap.
    replace (v / 2 ^ 9) with (0 + (chain_id + 2 ^ 16) * 2 ^ 4) by
      (apply (Z.div_unique _ _ _ (version_bits + aux * 2 ^ 8)); unfold v; lia).
    rewrite Z_mod_plus_full; reflexivity.
Qed.

Lemma MakeVersion_roundtrip_witness : ExtractChainId (MakeVersion 47 true 4) = 47.
Proof.
  refine (proj1 (proj2 (proj2 (proj2 (MakeVersion_roundtrip 47 true 4 _ _))))); red; lia.
Defined.

(** a miner that changes only the bits of the rolling mask of a permissionless version
    cannot leave the permissionless lane, and cannot touch the deployment signals, the
    reserved bits or the top bits. *)
Theorem permissionless_rolling_keeps_lane (v v' : Z) :
  in_s 32 v -> in_s 32 v' ->
  HasBIP9TopBitsShape v = true -> IsAuxpowVersion v = false ->
  Z.land v (Z.lnot (GetPermissionlessVersionRollingMask v))
  = Z.land v' (Z.lnot (GetPermissionlessVersionRollingMask v)) ->
  HasBIP9TopBitsShape v' = true /\ IsAuxpowVersion v' = false /\
  ExtractVersionBits v' = ExtractVersionBits v /\ ReservedBits v' = ReservedBits v.
Proof.
  intros Rv Rv' Htop Haux E.
  unfold GetPermissionlessVersionRollingMask in E; rewrite Htop, Haux in E; cbn [andb negb] in E.
  assert (B : forall i, 0 <= i -> i < 13 \/ 29 <= i -> Z.testbit v' i = Z.testbit v i).
  { intros i Hi Hr; symmetry; apply (land_fixed _ _ _ E i Hi).
    change BLOCK_VERSION_PERMISSIONLESS_ROLLING_MASK with (Z.shiftl (Z.ones 16) 13).
    rewrite Z.shiftl_spec by lia; destruct Hr; [apply Z.testbit_neg_r; lia | apply Z.ones_spec_high; lia]. }
  assert (Htop' : HasBIP9TopBitsShape v' = true).
  { rewrite top_bits_read in Htop |- * by assumption; apply Z.eqb_eq; apply Z.eqb_eq in Htop.
    rewrite <- Htop; apply Z.bits_inj'; intros i Hi; rewrite !Z.shiftr_spec by lia; apply B; lia. }
  split; [exact Htop'|]; split; [|split].
  - unfold IsAuxpowVersion in *; rewrite Htop, Htop', !auxpow_bit_read, !negb_involutive in *.
    cbn [andb] in *; rewrite (B 8) by lia; exact Haux.
  - rewrite !ExtractVersionBits_read; apply Z.bits_inj'; intros i Hi; rewrite !testbit_wrap by lia.
    destruct (Z.ltb_spec i 8); [cbn [andb]; apply B; lia | reflexivity].
  - rewrite !ReservedBits_read; apply Z.bits_inj'; intros i Hi.
    rewrite !testbit_wrap, !Z.shiftr_spec by lia.
    destruct (Z.ltb_spec i 4); [cbn [andb]; apply B; lia | reflexivity].
Qed.

Lemma permissionless_rolling_keeps_lane_witness :
  IsAuxpowVersion (MakeVersion 31430 false 0) = false.
Proof.
  refine (proj1 (proj2 (permissionless_rolling_keeps_lane (MakeVersion 47 false 0) (MakeVersion 31430 false 0)
    _ _ _ _ _))); vm_compute; try reflexivity; split; congruence.
Defined.

End Version.
