(* ===== verification/Params.v ===== *)
(** Consensus parameters: [src/src/consensus/params.h], [src/src/consensus/amount.h], the
    future-time limits of [src/src/chain.h], and the parameter set of the main network from
    [src/src/kernel/chainparams.cpp].

    [int] and [int64_t] fields are signed [Z]; a [uint256] is the list of its 32 bytes in
    memory order. *)

From S2P Require Import Prelude.

#[local] Open Scope Z_scope.

Abbreviation uint256 := (list Z) (only parsing).

(** [uint256{"..."}]: hexadecimal digits are written most significant byte first, memory
    order is the reverse. *)
Definition uint256_hex (z : Z) : uint256 := digits 8 32 z.

(** ** [consensus/amount.h] *)

Definition COIN : Z := 100000000.
Definition MAX_MONEY : Z := 210000000 * COIN.
Definition MoneyRange (nValue : Z) : bool := (0 <=? nValue) && (nValue <=? MAX_MONEY).

(** ** [consensus/params.h] *)

Definition INT_MAX : Z := 2 ^ 31 - 1.
Definition INT64_MAX : Z := 2 ^ 63 - 1.

Inductive BuriedDeployment :=
  DEPLOYMENT_HEIGHTINCB | DEPLOYMENT_CLTV | DEPLOYMENT_DERSIG | DEPLOYMENT_CSV | DEPLOYMENT_SEGWIT.

Record BIP9Deployment := {
  bit : Z;
  nStartTime : Z;
  nTimeout : Z;
  min_activation_height : Z;
  period : Z;
  threshold : Z }.

Abbreviation NO_TIMEOUT := INT64_MAX.
Abbreviation ALWAYS_ACTIVE := (-1)%Z.
Abbreviation NEVER_ACTIVE := (-2)%Z.

Record ASERTAnchor := {
  anchor_nHeight : Z;
  anchor_nBits : Z;
  anchor_nBitsLegacy : Z;
  anchor_nBitsAuxPow : Z;
  anchor_nAuxPow : Z;
  anchor_nBlockTime : Z }.

Record Params := {
  hashGenesisBlock : uint256;
  nSubsidyInitial : Z;
  nSubsidyStepInterval : Z;
  nSubsidyStepdownNumerator : Z;
  nSubsidyStepdownDenominator : Z;
  script_flag_exceptions : list (uint256 * Z);
  BIP34Height : Z;
  BIP34Hash : uint256;
  BIP65Height : Z;
  BIP66Height : Z;
  CSVHeight : Z;
  SegwitHeight : Z;
  P2MRHeight : Z;
  nP2MRValidationWeightV2Height : Z;
  nFutureBlockTimeV2Height : Z;
  nOuterReservedWitnessHeight : Z;
  MinBIP9WarningHeight : Z;
  vDeployments : list BIP9Deployment;
  powLimit : uint256;
  fPowAllowMinDifficultyBlocks : bool;
  enforce_BIP94 : bool;
  fPowNoRetargeting : bool;
  fRestrictedOutputMode : bool;
  fPowUseASERT : bool;
  nCadenceActivationHeight : Z;
  nAuxpowDisplayCommitmentHeight : Z;
  nPowTargetSpacing : Z;
  nPowTargetSpacingLegacy : Z;
  nPowTargetSpacingAuxPow : Z;
  nPowTargetTimespan : Z;
  nAuxpowChainId : Z;
  nASERTHalfLife : Z;
  asertAnchorParams : ASERTAnchor;
  nMinimumChainWork : uint256;
  defaultAssumeValid : uint256;
  signet_blocks : bool;
  signet_challenge : list Z }.

Section Activation.
Context (params : Params).

Definition CadenceActiveAtHeight (height : Z) : bool := nCadenceActivationHeight params <=? height.
Definition AuxpowDisplayCommitmentActiveAtHeight (height : Z) : bool :=
  nAuxpowDisplayCommitmentHeight params <=? height.
Definition OuterReservedWitnessActiveAtHeight (height : Z) : bool :=
  nOuterReservedWitnessHeight params <=? height.
Definition P2MRValidationWeightV2ActiveAtHeight (height : Z) : bool :=
  nP2MRValidationWeightV2Height params <=? height.
Definition FutureBlockTimeV2ActiveAtHeight (height : Z) : bool :=
  nFutureBlockTimeV2Height params <=? height.

Definition DifficultyAdjustmentInterval : option Z := squot 64 (nPowTargetTimespan params) (nPowTargetSpacing params).

Definition DeploymentHeight (dep : BuriedDeployment) : Z :=
  match dep with
  | DEPLOYMENT_HEIGHTINCB => BIP34Height params
  | DEPLOYMENT_CLTV => BIP65Height params
  | DEPLOYMENT_DERSIG => BIP66Height params
  | DEPLOYMENT_CSV => CSVHeight params
  | DEPLOYMENT_SEGWIT => SegwitHeight params
  end.

(** [src/src/chain.h] *)
Definition MAX_FUTURE_BLOCK_TIME_LEGACY : Z := 2 * 60 * 60.
Definition MAX_FUTURE_BLOCK_TIME_V2 : Z := 10 * 60.

Definition GetMaxFutureBlockTime (height : Z) : Z :=
  if FutureBlockTimeV2ActiveAtHeight height then MAX_FUTURE_BLOCK_TIME_V2 else MAX_FUTURE_BLOCK_TIME_LEGACY.
End Activation.

(** ** The main network ([CMainParams]) *)

Definition QBIT_MAINNET_AUXPOW_CHAIN_ID : Z := 47.

Definition MainParams : Params := {|
  hashGenesisBlock := uint256_hex 0x0000000000004d60aa5d46013991d0a0e2995d89ee98e53068ae196d763e79f2;
  nSubsidyInitial := 210 * COIN;
  nSubsidyStepInterval := 43200;
  nSubsidyStepdownNumerator := 598;
  nSubsidyStepdownDenominator := 625;
  script_flag_exceptions := [];
  BIP34Height := 0;
  BIP34Hash := uint256_hex 0x0000000000004d60aa5d46013991d0a0e2995d89ee98e53068ae196d763e79f2;
  BIP65Height := 0;
  BIP66Height := 0;
  CSVHeight := 0;
  SegwitHeight := 0;
  P2MRHeight := 0;
  nP2MRValidationWeightV2Height := 0;
  nFutureBlockTimeV2Height := 0;
  nOuterReservedWitnessHeight := 0;
  MinBIP9WarningHeight := 0;
  vDeployments :=
    [ {| bit := 0; nStartTime := NEVER_ACTIVE; nTimeout := NO_TIMEOUT; min_activation_height := 0;
         period := 20160; threshold := 19152 |};
      {| bit := 2; nStartTime := ALWAYS_ACTIVE; nTimeout := NO_TIMEOUT; min_activation_height := 0;
         period := 20160; threshold := 19152 |} ];
  powLimit := uint256_hex 0x0000ffffffffffffffffffffffffffffffffffffffffffffffffffffffffffff;
  fPowAllowMinDifficultyBlocks := false;
  enforce_BIP94 := false;
  fPowNoRetargeting := false;
  fRestrictedOutputMode := true;
  fPowUseASERT := true;
  nCadenceActivationHeight := 0;
  nAuxpowDisplayCommitmentHeight := 0;
  nPowTargetSpacing := 60;
  nPowTargetSpacingLegacy := 75;
  nPowTargetSpacingAuxPow := 300;
  nPowTargetTimespan := 14 * 24 * 60 * 60;
  nAuxpowChainId := QBIT_MAINNET_AUXPOW_CHAIN_ID;
  nASERTHalfLife := 2 * 60 * 60;
  asertAnchorParams := {| anchor_nHeight := 0; anchor_nBits := 0x18109c29; anchor_nBitsLegacy := 0x18109c29;
    anchor_nBitsAuxPow := 0x1801ca70; anchor_nAuxPow := 0; anchor_nBlockTime := 1784131083 |};
  nMinimumChainWork := uint256_hex 0;
  defaultAssumeValid := uint256_hex 0;
  signet_blocks := false;
  signet_challenge := [] |}.

(** The main network with another retarget rule or cadence height, as the regression-test network
    options set them. *)
Definition with_rules (p : Params) (asert : bool) (cadence_height : Z) : Params := {|
  hashGenesisBlock := hashGenesisBlock p; nSubsidyInitial := nSubsidyInitial p;
  nSubsidyStepInterval := nSubsidyStepInterval p; nSubsidyStepdownNumerator := nSubsidyStepdownNumerator p;
  nSubsidyStepdownDenominator := nSubsidyStepdownDenominator p;
  script_flag_exceptions := script_flag_exceptions p; BIP34Height := BIP34Height p; BIP34Hash := BIP34Hash p;
  BIP65Height := BIP65Height p; BIP66Height := BIP66Height p; CSVHeight := CSVHeight p;
  SegwitHeight := SegwitHeight p; P2MRHeight := P2MRHeight p;
  nP2MRValidationWeightV2Height := nP2MRValidationWeightV2Height p;
  nFutureBlockTimeV2Height := nFutureBlockTimeV2Height p;
  nOuterReservedWitnessHeight := nOuterReservedWitnessHeight p;
  MinBIP9WarningHeight := MinBIP9WarningHeight p; vDeployments := vDeployments p; powLimit := powLimit p;
  fPowAllowMinDifficultyBlocks := fPowAllowMinDifficultyBlocks p; enforce_BIP94 := enforce_BIP94 p;
  fPowNoRetargeting := fPowNoRetargeting p; fRestrictedOutputMode := fRestrictedOutputMode p;
  fPowUseASERT := asert; nCadenceActivationHeight := cadence_height;
  nAuxpowDisplayCommitmentHeight := nAuxpowDisplayCommitmentHeight p;
  nPowTargetSpacing := nPowTargetSpacing p; nPowTargetSpacingLegacy := nPowTargetSpacingLegacy p;
  nPowTargetSpacingAuxPow := nPowTargetSpacingAuxPow p; nPowTargetTimespan := nPowTargetTimespan p;
  nAuxpowChainId := nAuxpowChainId p; nASERTHalfLife := nASERTHalfLife p;
  asertAnchorParams := asertAnchorParams p; nMinimumChainWork := nMinimumChainWork p;
  defaultAssumeValid := defaultAssumeValid p; signet_blocks := signet_blocks p;
  signet_challenge := signet_challenge p |}.
