(* ===== verification/Subsidy.v ===== *)
(** Block subsidy: [GetBlockSubsidy] of [src/src/validation.cpp].

    The subsidy starts at [nSubsidyInitial] and is multiplied by
    [nSubsidyStepdownNumerator / nSubsidyStepdownDenominator], rounding down, once per
    [nSubsidyStepInterval] blocks. *)

From S2P Require Import Prelude Params.

#[local] Open Scope Z_scope.

(** One iteration of the step-down loop, on [CAmount] (int64); C++ [/] and [%] truncate. *)
Definition subsidy_step (numerator denominator nSubsidy : Z) : Z :=
  Z.quot nSubsidy denominator * numerator + Z.quot (Z.rem nSubsidy denominator * numerator) denominator.

(** [for (step = 0; step < step_count && nSubsidy > 0; ++step)]. *)
Fixpoint subsidy_loop (numerator denominator nSubsidy : Z) (step_count : nat) : Z :=
  match step_count with
  | O => nSubsidy
  | S n => if 0 <? nSubsidy
           then subsidy_loop numerator denominator (subsidy_step numerator denominator nSubsidy) n
           else nSubsidy
  end.

(** [if (!Assume(c)) return 0] returns 0 in release builds. *)
Definition GetBlockSubsidy (nHeight : Z) (params : Params) : Z :=
  if nHeight <? 0 then 0 else
  if negb (0 <? nSubsidyStepInterval params) then 0 else
  if negb (0 <=? nSubsidyStepdownNumerator params) then 0 else
  if negb (0 <? nSubsidyStepdownDenominator params) then 0 else
  if negb (nSubsidyStepdownNumerator params <=? nSubsidyStepdownDenominator params) then 0 else
  if negb (MoneyRange (nSubsidyInitial params)) then 0 else
  let step_count := Z.quot nHeight (nSubsidyStepInterval params) in
  subsidy_loop (nSubsidyStepdownNumerator params) (nSubsidyStepdownDenominator params)
               (nSubsidyInitial params) (Z.to_nat step_count).

(** ** One step *)

Lemma subsidy_step_floor n d s : 0 <= n -> 0 < d -> 0 <= s -> subsidy_step n d s = s * n / d.
Proof.
  intros Hn Hd Hs; unfold subsidy_step.
  rewrite Z.quot_div_nonneg, Z.rem_mod_nonneg by lia.
  pose proof (Z.mod_pos_bound s d Hd).
  rewrite Z.quot_div_nonneg by nia.
  rewrite (Z.div_mod s d) at 3 by lia.
  replace ((d * (s / d) + s mod d) * n) with (s mod d * n + s / d * n * d) by ring.
  rewrite Z.div_add by lia; lia.
Qed.

Lemma subsidy_step_range n d s : 0 <= n <= d -> 0 < d -> 0 <= s -> 0 <= subsidy_step n d s <= s.
Proof.
  intros Hn Hd Hs; rewrite subsidy_step_floor by lia; split; [apply Z.div_pos; nia|].
  apply Z.div_le_upper_bound; nia.
Qed.

Lemma subsidy_step_mono n d s s' :
  0 <= n -> 0 < d -> 0 <= s <= s' -> subsidy_step n d s <= subsidy_step n d s'.
Proof. intros; rewrite !subsidy_step_floor by lia; apply Z.div_le_mono; nia. Qed.

Lemma subsidy_step_zero n d : 0 <= n -> 0 < d -> subsidy_step n d 0 = 0.
Proof. intros; rewrite subsidy_step_floor by lia; rewrite Z.div_0_l by lia; reflexivity. Qed.

(** ** The loop is iteration of the step *)

Section Loop.
Context (n d : Z) (Hn : 0 <= n <= d) (Hd : 0 < d).

Lemma subsidy_loop_iter s k : 0 <= s -> subsidy_loop n d s k = Nat.iter k (subsidy_step n d) s.
Proof.
  revert s; induction k as [|k IH]; intros s Hs; [reflexivity|].
  rewrite <- Nat.add_1_r, Nat.iter_add; change (Nat.iter 1 ?f s) with (f s).
  rewrite Nat.add_1_r; cbn [subsidy_loop]; destruct (Z.ltb_spec 0 s).
  - rewrite IH by (apply subsidy_step_range; lia); reflexivity.
  - replace s with 0 by lia; rewrite subsidy_step_zero by lia.
    clear -Hn Hd; induction k as [|k IH]; [reflexivity|].
    rewrite Nat.iter_succ, <- IH, subsidy_step_zero by lia; reflexivity.
Qed.

Lemma subsidy_loop_range s k : 0 <= s -> 0 <= subsidy_loop n d s k <= s.
Proof.
  intros Hs; rewrite subsidy_loop_iter by exact Hs; induction k as [|k IH]; [cbn; lia | rewrite Nat.iter_succ].
  pose proof (subsidy_step_range n d (Nat.iter k (subsidy_step n d) s)); lia.
Qed.

Lemma subsidy_loop_antitone s k k' :
  0 <= s -> (k <= k')%nat -> subsidy_loop n d s k' <= subsidy_loop n d s k.
Proof.
  intros Hs; induction 1 as [|k' _ IH]; [lia|]; pose proof (subsidy_loop_range s k' Hs) as R.
  rewrite !subsidy_loop_iter in * by exact Hs; rewrite Nat.iter_succ.
  pose proof (subsidy_step_range n d (Nat.iter k' (subsidy_step n d) s)); lia.
Qed.
End Loop.

(** ** Parameters accepted by the [Assume] checks *)

Definition subsidy_params_ok (params : Params) : Prop :=
  0 < nSubsidyStepInterval params /\
  0 <= nSubsidyStepdownNumerator params <= nSubsidyStepdownDenominator params /\
  0 < nSubsidyStepdownDenominator params /\
  0 <= nSubsidyInitial params <= MAX_MONEY.

Definition step_subsidy (params : Params) (k : nat) : Z :=
  subsidy_loop (nSubsidyStepdownNumerator params) (nSubsidyStepdownDenominator params)
               (nSubsidyInitial params) k.

Lemma GetBlockSubsidy_step params h :
  subsidy_params_ok params -> 0 <= h ->
  GetBlockSubsidy h params = step_subsidy params (Z.to_nat (h / nSubsidyStepInterval params)).
Proof.
  intros (Hi & [Hn Hnd] & Hd & Hs) Hh; unfold GetBlockSubsidy.
  rewrite (proj2 (Z.ltb_ge h 0)), (proj2 (Z.ltb_lt _ _) Hi), (proj2 (Z.leb_le _ _) Hn),
    (proj2 (Z.ltb_lt _ _) Hd), (proj2 (Z.leb_le _ _) Hnd) by lia; cbn [negb].
  unfold MoneyRange; rewrite !(proj2 (Z.leb_le _ _)) by lia; cbn [negb andb].
  rewrite Z.quot_div_nonneg by lia; reflexivity.
Qed.

Lemma GetBlockSubsidy_in_range params h : 0 <= GetBlockSubsidy h params <= MAX_MONEY.
Proof.
  unfold GetBlockSubsidy, MoneyRange.
  assert (0 <= MAX_MONEY) by (cbv; discriminate).
  repeat (case_match; [lia|]).
  repeat match goal with H : negb _ = false |- _ => apply negb_false_iff in H end.
  rewrite ?andb_true_iff, ?Z.leb_le, ?Z.ltb_lt in *.
  pose proof (subsidy_loop_range (nSubsidyStepdownNumerator params) (nSubsidyStepdownDenominator params)
    ltac:(lia) ltac:(lia) (nSubsidyInitial params) (Z.to_nat (Z.quot h (nSubsidyStepInterval params))));
    lia.
Qed.

Lemma GetBlockSubsidy_mono_aux params h h' :
  subsidy_params_ok params -> 0 <= h <= h' ->
  MoneyRange (GetBlockSubsidy h params) = true /\
  GetBlockSubsidy h' params <= GetBlockSubsidy h params /\
  (h / nSubsidyStepInterval params = h' / nSubsidyStepInterval params ->
   GetBlockSubsidy h' params = GetBlockSubsidy h params).
Proof.
  intros Hp Hh; pose proof (GetBlockSubsidy_in_range params h) as R.
  split; [unfold MoneyRange; rewrite !(proj2 (Z.leb_le _ _)) by lia; reflexivity|].
  rewrite !GetBlockSubsidy_step by (auto; lia); destruct Hp as (Hi & Hn & Hd & Hs).
  split; [|intros ->; reflexivity].
  apply subsidy_loop_antitone; auto; try lia.
  apply Z2Nat.inj_le; try apply Z.div_pos; try lia; apply Z.div_le_mono; lia.
Qed.

(** ** Emission *)

(** Coins created by the first [n] blocks. *)
Fixpoint emission (params : Params) (n : nat) : Z :=
  match n with
  | O => 0
  | S m => emission params m + GetBlockSubsidy (Z.of_nat m) params
  end.

Fixpoint step_sum (params : Params) (k : nat) : Z :=
  match k with
  | O => 0
  | S m => step_sum params m + step_subsidy params m
  end.

Lemma emission_steps params k j :
  subsidy_params_ok params -> Z.of_nat j <= nSubsidyStepInterval params ->
  emission params (Z.to_nat (nSubsidyStepInterval params) * k + j)
  = nSubsidyStepInterval params * step_sum params k + Z.of_nat j * step_subsidy params k.
Proof.
  intros Hp; pose proof Hp as (Hi & _); revert j.
  induction k as [|k IHk]; intros j; induction j as [|j IHj]; intros Hj.
  - rewrite Nat.mul_0_r; cbn; lia.
  - rewrite Nat.add_succ_r; cbn [emission]; rewrite IHj, GetBlockSubsidy_step by (auto; lia).
    replace (Z.of_nat (_ + j) / _) with 0 by (rewrite Nat.mul_0_r, Z.div_small; lia).
    change (Z.to_nat 0) with 0%nat; rewrite Nat2Z.inj_succ; ring.
  - replace (Z.to_nat (nSubsidyStepInterval params) * S k + 0)%nat with
      (Z.to_nat (nSubsidyStepInterval params) * k + Z.to_nat (nSubsidyStepInterval params))%nat by lia.
    rewrite IHk, Z2Nat.id by lia; cbn [step_sum]; lia.
  - rewrite Nat.add_succ_r; cbn [emission]; rewrite IHj, GetBlockSubsidy_step by (auto; lia).
    replace (Z.of_nat _ / nSubsidyStepInterval params) with (Z.of_nat (S k)) by
      (apply (Z.div_unique _ _ _ (Z.of_nat j)); lia).
    rewrite Nat2Z.id, (Nat2Z.inj_succ j); ring.
Qed.

Lemma emission_mono params n m : (n <= m)%nat -> emission params n <= emission params m.
Proof.
  induction 1 as [|m _ IH]; [lia|]; cbn [emission].
  pose proof (GetBlockSubsidy_in_range params (Z.of_nat m)); lia.
Qed.

(** ** Properties *)

(** the two-part step of the loop is the floor of the exact product, and none of its
    [int64_t] intermediate values overflows. *)
Theorem subsidy_step_exact_no_overflow (numerator denominator nSubsidy : Z) :
  0 <= numerator <= denominator -> 0 < denominator <= INT_MAX -> 0 <= nSubsidy <= MAX_MONEY ->
  subsidy_step numerator denominator nSubsidy = nSubsidy * numerator / denominator /\
  in_s 64 (Z.quot nSubsidy denominator * numerator) /\
  in_s 64 (Z.rem nSubsidy denominator * numerator) /\
  in_s 64 (subsidy_step numerator denominator nSubsidy).
Proof.
  intros Hn Hd Hs; change INT_MAX with 2147483647 in Hd; change MAX_MONEY with 21000000000000000 in Hs.
  split; [apply subsidy_step_floor; lia|].
  pose proof (subsidy_step_range numerator denominator nSubsidy ltac:(lia) ltac:(lia) ltac:(lia)) as R.
  rewrite Z.quot_div_nonneg, Z.rem_mod_nonneg by lia; unfold in_s.
  pose proof (Z.mod_pos_bound nSubsidy denominator ltac:(lia)).
  pose proof (Z.mul_div_le nSubsidy denominator ltac:(lia)).
  pose proof (Z.div_pos nSubsidy denominator ltac:(lia) ltac:(lia)).
  repeat split; nia.
Qed.

Lemma subsidy_step_exact_no_overflow_witness : subsidy_step 598 625 (210 * COIN) = 20092800000.
Proof.
  refine (eq_trans (proj1 (subsidy_step_exact_no_overflow 598 625 (210 * COIN) _ _ _)) _);
    vm_compute; intuition congruence.
Defined.

(** whatever the parameters, the subsidy is a valid amount; with parameters that pass
    the [Assume] checks it never rises with the height and is constant inside a step
    interval. *)
Theorem GetBlockSubsidy_monotone_stepwise (params : Params) (h h' : Z) :
  subsidy_params_ok params -> 0 <= h <= h' ->
  MoneyRange (GetBlockSubsidy h params) = true /\
  GetBlockSubsidy h' params <= GetBlockSubsidy h params /\
  (h / nSubsidyStepInterval params = h' / nSubsidyStepInterval params ->
   GetBlockSubsidy h' params = GetBlockSubsidy h params).
Proof. apply GetBlockSubsidy_mono_aux. Qed.

Lemma MainParams_subsidy_ok : subsidy_params_ok MainParams.
Proof. vm_compute; intuition congruence. Qed.

Lemma GetBlockSubsidy_monotone_stepwise_witness :
  GetBlockSubsidy 43199 MainParams = GetBlockSubsidy 0 MainParams.
Proof.
  refine (proj2 (proj2 (GetBlockSubsidy_monotone_stepwise MainParams 0 43199 MainParams_subsidy_ok _)) _);
    [lia | vm_compute; reflexivity].
Defined.

(** The emission of the main network, factored. *)
Lemma mainnet_subsidy_ends h : 20736000 <= h -> GetBlockSubsidy h MainParams = 0.
Proof.
  intros Hh; pose proof (proj1 (proj2 (GetBlockSubsidy_mono_aux MainParams 20736000 h MainParams_subsidy_ok ltac:(lia)))) as M.
  replace (GetBlockSubsidy 20736000 MainParams) with 0 in M by (vm_compute; reflexivity).
  pose proof (GetBlockSubsidy_in_range MainParams h); lia.
Qed.

Lemma mainnet_emission_final n : (Z.to_nat 20736000 <= n)%nat -> emission MainParams n = 20999999761876800.
Proof.
  induction 1 as [|m Hm IH].
  - replace (Z.to_nat 20736000) with (Z.to_nat (nSubsidyStepInterval MainParams) * 480 + 0)%nat.
    + rewrite emission_steps; [vm_compute; reflexivity | exact MainParams_subsidy_ok | vm_compute; discriminate].
    + change (nSubsidyStepInterval MainParams) with 43200; lia.
  - cbn [emission]; rewrite IH, mainnet_subsidy_ends by lia; reflexivity.
Qed.

Lemma mainnet_emission_bound n : emission MainParams n <= 20999999761876800.
Proof. rewrite <- (mainnet_emission_final (n + Z.to_nat 20736000)%nat) by lia; apply emission_mono; lia. Qed.

(** the main network creates exactly 209,999,997.618768 QBT: no prefix of the chain
    creates more, every chain of at least 20,736,000 blocks creates that amount, which is
    below [MAX_MONEY], and block 20,736,000 is the first with no subsidy. *)
Theorem mainnet_emission_capped :
  (forall n, emission MainParams n <= 20999999761876800 < MAX_MONEY) /\
  (forall n, (Z.to_nat 20736000 <= n)%nat -> emission MainParams n = 20999999761876800) /\
  (forall h, 0 <= h -> GetBlockSubsidy h MainParams = 0 <-> 20736000 <= h).
Proof.
  split; [|split; [exact mainnet_emission_final|]].
  - intros n; split; [apply mainnet_emission_bound | vm_compute; reflexivity].
  - intros h Hh; split; [|apply mainnet_subsidy_ends]; intros Hz; destruct (Z.lt_ge_cases h 20736000); [|assumption].
    pose proof (proj1 (proj2 (GetBlockSubsidy_mono_aux MainParams h 20735999 MainParams_subsidy_ok ltac:(lia)))) as M.
    replace (GetBlockSubsidy 20735999 MainParams) with 1 in M by (vm_compute; reflexivity); lia.
Qed.
