(* ===== verification/Primitives.v ===== *)
(** Transactions, block headers and AuxPoW payloads: the data of
    [src/src/primitives/transaction.h], [src/src/primitives/pureheader.h],
    [src/src/primitives/block.h] and [src/src/auxpow.h].

    A [CScript] and a witness stack item are byte strings; a [uint256] is its 32 bytes. *)

From S2P Require Import Prelude Params Version.

#[local] Open Scope Z_scope.

Abbreviation CScript := (list Z) (only parsing).

(** ** Transactions *)

Record COutPoint := { op_hash : uint256; op_n : Z }.

Definition NULL_INDEX : Z := 2 ^ 32 - 1.

(** [uint256::IsNull]: all bytes are zero. *)
Definition uint256_IsNull (h : uint256) : bool := forallb (fun b => b =? 0) h.

Definition COutPoint_IsNull (o : COutPoint) : bool := uint256_IsNull (op_hash o) && (op_n o =? NULL_INDEX).

Record CTxIn := { prevout : COutPoint; scriptSig : CScript; nSequence : Z; scriptWitness : list (list Z) }.

Definition SEQUENCE_FINAL : Z := 0xffffffff.
Abbreviation MAX_SEQUENCE_NONFINAL := (SEQUENCE_FINAL - 1)%Z.
Abbreviation SEQUENCE_LOCKTIME_DISABLE_FLAG := (Z.shiftl 1 31).
Abbreviation SEQUENCE_LOCKTIME_TYPE_FLAG := (Z.shiftl 1 22).
Abbreviation SEQUENCE_LOCKTIME_MASK := 0x0000ffff.
Abbreviation SEQUENCE_LOCKTIME_GRANULARITY := 9.

Record CTxOut := { nValue : Z; scriptPubKey : CScript }.

Definition CTxOut_IsNull (o : CTxOut) : bool := nValue o =? -1.

(** [CTransaction]; the cached hashes are functions of these fields (see [Block.v]). *)
Record CTransaction := { vin : list CTxIn; vout : list CTxOut; tx_version : Z; nLockTime : Z }.

Definition IsCoinBase (tx : CTransaction) : bool :=
  match vin tx with
  | [i] => COutPoint_IsNull (prevout i)
  | _ => false
  end.

(** [CScriptWitness::IsNull]: the stack is empty. *)
Definition any_witness (ins : list CTxIn) : bool :=
  existsb (fun i => match scriptWitness i with [] => false | _ => true end) ins.

Definition HasWitness (tx : CTransaction) : bool := any_witness (vin tx).

(** [None]: throws, or the final assertion fails. *)
Fixpoint GetValueOut_loop (outs : list CTxOut) (nValueOut : Z) : option Z :=
  match outs with
  | [] => if MoneyRange nValueOut then Some nValueOut else None
  | o :: outs =>
      if negb (MoneyRange (nValue o)) || negb (MoneyRange (nValueOut + nValue o)) then None
      else GetValueOut_loop outs (nValueOut + nValue o)
  end.

Definition GetValueOut (tx : CTransaction) : option Z := GetValueOut_loop (vout tx) 0.

#[export] Instance COutPoint_eq_dec : EqDecision COutPoint.
Proof. solve_decision. Defined.

#[export] Instance CTxIn_eq_dec : EqDecision CTxIn.
Proof. solve_decision. Defined.

#[export] Instance CTxOut_eq_dec : EqDecision CTxOut.
Proof. solve_decision. Defined.

#[export] Instance CTransaction_eq_dec : EqDecision CTransaction.
Proof. solve_decision. Defined.

(** ** Block headers *)

Record CPureBlockHeader := {
  nVersion : Z;
  hashPrevBlock : uint256;
  hashMerkleRoot : uint256;
  nTime : Z;
  nBits : Z;
  nNonce : Z }.

Definition SignalsAuxpow (h : CPureBlockHeader) : bool := Version.IsAuxpowVersion (nVersion h).
Definition GetChainId (h : CPureBlockHeader) : Z := Version.ExtractChainId (nVersion h).
Definition HasReservedVersionBits (h : CPureBlockHeader) : bool := negb (Version.ReservedBits (nVersion h) =? 0).
Definition HasVersionTopBits (h : CPureBlockHeader) : bool :=
  negb (Z.land (nVersion h) Version.BLOCK_VERSION_TOP_MASK =? 0).
Definition IsPermissionless (h : CPureBlockHeader) : bool := negb (SignalsAuxpow h).

Record CAuxPow := {
  coinbase_tx : option CTransaction;
  coinbase_merkle_branch : list uint256;
  coinbase_branch_index : Z;
  chain_merkle_branch : list uint256;
  chain_index : Z;
  parent_block : CPureBlockHeader }.

Record CBlockHeader := { pure : CPureBlockHeader; auxpow : option CAuxPow }.

Definition HasAuxpow (b : CBlockHeader) : bool := match auxpow b with Some _ => true | None => false end.

#[export] Instance CPureBlockHeader_eq_dec : EqDecision CPureBlockHeader.
Proof. solve_decision. Defined.

#[export] Instance CAuxPow_eq_dec : EqDecision CAuxPow.
Proof. solve_decision. Defined.

#[export] Instance CBlockHeader_eq_dec : EqDecision CBlockHeader.
Proof. solve_decision. Defined.

Record CBlock := { header : CBlockHeader; vtx : list CTransaction }.
