(* ===== verification/Chain.v ===== *)
(** The block index: [src/src/chain.h], [src/src/chain.cpp] and
    [BlockManager::AddToBlockIndex] of [src/src/node/blockstorage.cpp].

    [BlockManager::m_block_index] owns every [CBlockIndex] and is keyed by the block hash;
    entries never move, so a [CBlockIndex*] is modelled by the key of the entry it points to
    and [nullptr] by [None].  [CBlockIndex] is copied field by field.

    The hash of a header is a parameter [GetHash] here (it is the double SHA-256 of
    [Block.v]); everything proved in this file holds for every hash function that does not
    map a header to its own [hashPrevBlock]. *)

From stdpp Require Import gmap.
From S2P Require Import Prelude ArithUint Params Version Primitives.

#[local] Open Scope Z_scope.
#[local] Open Scope qbit_scope.

(** ** Data *)

Abbreviation ptr := (list Z) (only parsing).

Abbreviation BLOCK_VALID_TREE := 2%Z.
Abbreviation BLOCK_VALID_MASK := (Z.lor (Z.lor (Z.lor (Z.lor 1 2) 3) 4) 5)%Z.
Abbreviation BLOCK_FAILED_MASK := (Z.lor 32 64)%Z.

Record CBlockIndex := {
  pprev : option ptr;
  pskip : option ptr;
  pprev_permissionless : option ptr;
  pprev_auxpow : option ptr;
  nHeight : Z;
  nFile : Z;
  nDataPos : Z;
  nUndoPos : Z;
  nChainWork : base_uint;
  nTx : Z;
  m_chain_tx_count : Z;
  nAuxPow : Z;
  nStatus : Z;
  bi_header : CBlockHeader; (* nVersion, hashMerkleRoot, nTime, nBits, nNonce, auxpow *)
  nSequenceId : Z;
  nTimeMax : Z }.

Abbreviation BlockMap := (gmap (list Z) CBlockIndex) (only parsing).

Definition bi_nVersion (b : CBlockIndex) : Z := nVersion (pure (bi_header b)).
Definition bi_nTime (b : CBlockIndex) : Z := nTime (pure (bi_header b)).
Definition bi_nBits (b : CBlockIndex) : Z := nBits (pure (bi_header b)).
Definition bi_SignalsAuxpow (b : CBlockIndex) : bool := Version.IsAuxpowVersion (bi_nVersion b).
Definition GetBlockTime (b : CBlockIndex) : Z := bi_nTime b.

(** ** The skip list *)

Definition InvertLowestOne (n : Z) : Z := Z.land n (n - 1).

Definition GetSkipHeight (height : Z) : Z :=
  if height <? 2 then 0
  else if negb (Z.land height 1 =? 0) then InvertLowestOne (InvertLowestOne (height - 1)) + 1
  else InvertLowestOne height.

(** The [while (heightWalk > height)] loop.  [None] is a failed assertion, a dangling
    pointer, or fuel that runs out; the theorems below exclude all three. *)
Fixpoint ancestor_loop (fuel : nat) (idx : BlockMap) (pindexWalk : ptr) (heightWalk height : Z) : option ptr :=
  if heightWalk <=? height then Some pindexWalk
  else match fuel with
  | O => None
  | S fuel =>
      let! b := idx !! pindexWalk in
      let heightSkip := GetSkipHeight heightWalk in
      let heightSkipPrev := GetSkipHeight (heightWalk - 1) in
      match pskip b with
      | Some skip =>
          if (heightSkip =? height) ||
             ((height <? heightSkip) &&
              negb ((heightSkipPrev <? heightSkip - 2) && (height <=? heightSkipPrev)))
          then ancestor_loop fuel idx skip heightSkip height
          else let! prev := pprev b in ancestor_loop fuel idx prev (heightWalk - 1) height
      | None => let! prev := pprev b in ancestor_loop fuel idx prev (heightWalk - 1) height
      end
  end.

(** The inner option is the returned pointer. *)
Definition GetAncestor (idx : BlockMap) (p : ptr) (height : Z) : option (option ptr) :=
  let! b := idx !! p in
  if (nHeight b <? height) || (height <? 0) then Some None
  else let! q := ancestor_loop (Z.to_nat (nHeight b - height)) idx p (nHeight b) height in Some (Some q).

(** [BuildSkip]: the value written to [pskip]. *)
Definition BuildSkip (idx : BlockMap) (prev : ptr) (height : Z) : option (option ptr) :=
  GetAncestor idx prev (GetSkipHeight height).

(** [BuildCadenceLaneLinks]: the values written to [pprev_permissionless] and [pprev_auxpow]. *)
Definition BuildCadenceLaneLinks (idx : BlockMap) (prev : option ptr) : option (option ptr * option ptr) :=
  match prev with
  | None => Some (None, None)
  | Some p =>
      let! b := idx !! p in
      if bi_SignalsAuxpow b then Some (pprev_permissionless b, Some p)
      else Some (Some p, pprev_auxpow b)
  end.

(** [this] is an entry of the index: the result is a pointer to it or to the lane link. *)
Definition GetPreviousBlockForLane (idx : BlockMap) (this : ptr) (auxpow : bool) (min_height : Z)
  : option (option ptr) :=
  let! b := idx !! this in
  if Bool.eqb (bi_SignalsAuxpow b) auxpow then Some (Some this)
  else match (if auxpow then pprev_auxpow b else pprev_permissionless b) with
       | None => Some None
       | Some c => let! cb := idx !! c in
                   Some (if min_height <=? nHeight cb then Some c else None)
       end.

(** ** Work *)

Definition GetBlockProof (bits : Z) : option base_uint :=
  let c := SetCompact bits in
  if fNegative c || fOverflow c || EqualTo (target c) 0 then Some (arith_uint256 0)
  else let! q := div (bnot (target c)) (add (target c) (arith_uint256 1)) in
       Some (add q (arith_uint256 1)).

(** ** [AddToBlockIndex] *)

(** [CBlockIndex(const CBlockHeader&)]. *)
Definition new_CBlockIndex (block : CBlockHeader) : CBlockIndex := {|
  pprev := None; pskip := None; pprev_permissionless := None; pprev_auxpow := None;
  nHeight := 0; nFile := 0; nDataPos := 0; nUndoPos := 0; nChainWork := zero W256;
  nTx := 0; m_chain_tx_count := 0; nAuxPow := 0; nStatus := 0; bi_header := block;
  nSequenceId := 0; nTimeMax := 0 |}.

(** [RaiseValidity]: the new [nStatus]. *)
Definition RaiseValidity (status nUpTo : Z) : Z :=
  if negb (Z.land status BLOCK_FAILED_MASK =? 0) then status
  else if Z.land status BLOCK_VALID_MASK <? nUpTo
  then Z.lor (Z.land status (Z.lnot BLOCK_VALID_MASK)) nUpTo
  else status.

(** The members of [BlockManager] that hold the index in memory. *)
Record BlockManager := {
  m_block_index : BlockMap;
  m_dirty_blockindex : gset (list Z) }.

Section WithHash.
Context (GetHash : CPureBlockHeader -> uint256).

(** The new state, the entry returned, and the new [best_header]. *)
Definition AddToBlockIndex (bm : BlockManager) (block : CBlockHeader) (best_header : option ptr)
  : option (BlockManager * ptr * option ptr) :=
  let idx := m_block_index bm in
  let h := GetHash (pure block) in
  match idx !! h with
  | Some _ => Some (bm, h, best_header)
  | None =>
      let idx1 := <[h := new_CBlockIndex block]> idx in
      let prev := match idx1 !! hashPrevBlock (pure block) with
                  | Some pb => Some (hashPrevBlock (pure block), pb)
                  | None => None end in
      let! height := match prev with Some (_, pb) => sarith 32 (nHeight pb + 1) | None => Some 0 end in
      let! skip := match prev with Some (p, _) => BuildSkip idx1 p height | None => Some None end in
      let! lanes := BuildCadenceLaneLinks idx1 (fst <$> prev) in
      let! proof := GetBlockProof (nBits (pure block)) in
      let b := {|
        pprev := fst <$> prev; pskip := skip;
        pprev_permissionless := fst lanes; pprev_auxpow := snd lanes;
        nHeight := height; nFile := 0; nDataPos := 0; nUndoPos := 0;
        nChainWork := add (match prev with Some (_, pb) => nChainWork pb | None => arith_uint256 0 end) proof;
        nTx := 0; m_chain_tx_count := 0;
        nAuxPow := wrap 64 (match prev with Some (_, pb) => nAuxPow pb | None => 0 end
                            + (if SignalsAuxpow (pure block) then 1 else 0));
        nStatus := RaiseValidity 0 BLOCK_VALID_TREE; bi_header := block; nSequenceId := 0;
        nTimeMax := match prev with
                    | Some (_, pb) => Z.max (nTimeMax pb) (nTime (pure block))
                    | None => nTime (pure block) end |} in
      let! best := match best_header with
                   | None => Some (Some h)
                   | Some bh =>
                       let! bb := idx1 !! bh in
                       Some (if ltb (nChainWork bb) (nChainWork b) then Some h else Some bh)
                   end in
      Some ({| m_block_index := <[h := b]> idx1;
               m_dirty_blockindex := {[h]} ∪ m_dirty_blockindex bm |}, h, best)
  end.
End WithHash.

(** ** The active chain *)

Abbreviation CChain := (list (option (list Z))) (only parsing).

Definition Height (vChain : CChain) : Z := Z.of_nat (length vChain) - 1.

Definition chain_at (vChain : CChain) (h : Z) : option ptr :=
  if (h <? 0) || (Z.of_nat (length vChain) <=? h) then None else mjoin (vChain !! Z.to_nat h).

Definition Tip (vChain : CChain) : option ptr := chain_at vChain (Height vChain).

Definition Contains (idx : BlockMap) (vChain : CChain) (p : ptr) : option bool :=
  let! b := idx !! p in Some (bool_decide (chain_at vChain (nHeight b) = Some p)).

Definition Next (idx : BlockMap) (vChain : CChain) (p : ptr) : option (option ptr) :=
  let! b := idx !! p in
  if bool_decide (chain_at vChain (nHeight b) = Some p) then Some (chain_at vChain (nHeight b + 1)) else Some None.

(** [SetTip]: [resize], then overwrite downwards until an entry already agrees. *)
Fixpoint SetTip_loop (fuel : nat) (idx : BlockMap) (vChain : CChain) (p : option ptr) : option CChain :=
  match p with
  | None => Some vChain
  | Some q =>
      let! b := idx !! q in
      if bool_decide (vChain !! Z.to_nat (nHeight b) = Some (Some q)) then Some vChain
      else match fuel with
           | O => None
           | S fuel => SetTip_loop fuel idx (<[Z.to_nat (nHeight b) := Some q]> vChain) (pprev b)
           end
  end.

Definition SetTip (idx : BlockMap) (vChain : CChain) (block : ptr) : option CChain :=
  let! b := idx !! block in
  let n := Z.to_nat (nHeight b + 1) in
  SetTip_loop n idx (take n vChain ++ replicate (n - length vChain) None) (Some block).

Fixpoint FindFork_loop (fuel : nat) (idx : BlockMap) (vChain : CChain) (p : option ptr) : option (option ptr) :=
  match p with
  | None => Some None
  | Some q =>
      let! c := Contains idx vChain q in
      if c then Some (Some q)
      else match fuel with
           | O => None
           | S fuel => let! b := idx !! q in FindFork_loop fuel idx vChain (pprev b)
           end
  end.

Definition FindFork (idx : BlockMap) (vChain : CChain) (p : option ptr) : option (option ptr) :=
  match p with
  | None => Some None
  | Some q =>
      let! b := idx !! q in
      let! start := if Height vChain <? nHeight b then GetAncestor idx q (Height vChain) else Some (Some q) in
      FindFork_loop (Z.to_nat (nHeight b + 1)) idx vChain start
  end.

(** [LastCommonAncestor]: the final [assert(pa == pb)] is the [None] of unequal pointers. *)
Fixpoint lca_loop (fuel : nat) (idx : BlockMap) (pa pb : option ptr) : option (option ptr) :=
  match pa, pb with
  | Some a, Some b =>
      if bool_decide (a = b) then Some (Some a)
      else match fuel with
           | O => None
           | S fuel => let! ba := idx !! a in let! bb := idx !! b in lca_loop fuel idx (pprev ba) (pprev bb)
           end
  | None, None => Some None
  | _, _ => None
  end.

Definition LastCommonAncestor (idx : BlockMap) (a b : ptr) : option (option ptr) :=
  let! ba := idx !! a in
  let! bb := idx !! b in
  let! pa := if nHeight bb <? nHeight ba then GetAncestor idx a (nHeight bb) else Some (Some a) in
  let! pb := if nHeight ba <? nHeight bb then GetAncestor idx b (nHeight ba) else Some (Some b) in
  lca_loop (Z.to_nat (Z.min (nHeight ba) (nHeight bb) + 1)) idx pa pb.

(** ** Reference notions *)

(** [n] steps along [pprev]. *)
Fixpoint back (idx : BlockMap) (p : ptr) (n : nat) : option ptr :=
  match n with
  | O => Some p
  | S n => let! b := idx !! p in let! q := pprev b in back idx q n
  end.

Definition in_lane (idx : BlockMap) (q : ptr) (aux : bool) : Prop :=
  exists b, idx !! q = Some b /\ bi_SignalsAuxpow b = aux.

(** [r] is the first block of lane [aux] met from [start] along [pprev], [None] if there is none. *)
Definition nearest_lane (idx : BlockMap) (start : option ptr) (aux : bool) (r : option ptr) : Prop :=
  match start with
  | None => r = None
  | Some s =>
      match r with
      | Some q => exists n, back idx s n = Some q /\ in_lane idx q aux /\
                  forall m q', (m < n)%nat -> back idx s m = Some q' -> in_lane idx q' (negb aux)
      | None => forall m q', back idx s m = Some q' -> in_lane idx q' (negb aux)
      end
  end.

(** The links and counters of one entry, relative to the index. *)
Definition entry_ok (idx : BlockMap) (b : CBlockIndex) : Prop :=
  0 <= nHeight b < 2 ^ 31 /\
  match pprev b with
  | None => nHeight b = 0 /\ pskip b = None
  | Some p => exists pb, idx !! p = Some pb /\ nHeight b = nHeight pb + 1 /\
      exists s, pskip b = Some s /\ back idx p (Z.to_nat (nHeight pb - GetSkipHeight (nHeight b))) = Some s
  end /\
  nearest_lane idx (pprev b) false (pprev_permissionless b) /\
  nearest_lane idx (pprev b) true (pprev_auxpow b).

Definition idx_ok (idx : BlockMap) : Prop := forall h b, idx !! h = Some b -> entry_ok idx b.

(** ** Skip heights *)

Lemma InvertLowestOne_range n : 0 < n -> 0 <= InvertLowestOne n <= n - 1.
Proof.
  intros Hn; apply Z.ldiff_le; [lia|]; unfold InvertLowestOne.
  apply Z.bits_inj'; intros i Hi; rewrite Z.ldiff_spec, Z.land_spec, Z.bits_0; btauto.
Qed.

Lemma GetSkipHeight_range h : 0 < h -> 0 <= GetSkipHeight h < h.
Proof.
  intros Hh; unfold GetSkipHeight; destruct (Z.ltb_spec h 2); [lia|].
  pose proof (InvertLowestOne_range h Hh); case_match; [|lia].
  pose proof (InvertLowestOne_range (h - 1) ltac:(lia)) as R.
  destruct (Z.eq_dec (InvertLowestOne (h - 1)) 0) as [->|]; [change (InvertLowestOne 0) with 0; lia|].
  pose proof (InvertLowestOne_range (InvertLowestOne (h - 1)) ltac:(lia)); lia.
Qed.

(** ** Walking back *)

Lemma back_add idx p n m : back idx p (n + m) = (let! q := back idx p n in back idx q m).
Proof.
  revert p; induction n as [|n IH]; intros p; [reflexivity|]; cbn [Nat.add back].
  destruct (idx !! p) as [b|]; [|reflexivity]; destruct (pprev b); [apply IH | reflexivity].
Qed.

Lemma back_height idx p b n :
  idx_ok idx -> idx !! p = Some b -> Z.of_nat n <= nHeight b ->
  exists q bq, back idx p n = Some q /\ idx !! q = Some bq /\ nHeight bq = nHeight b - Z.of_nat n.
Proof.
  intros Hok; revert p b; induction n as [|n IH]; intros p b Hp Hn.
  - exists p, b; repeat split; auto; lia.
  - cbn [back]; rewrite Hp; destruct (Hok p b Hp) as (Hr & Hl & _).
    destruct (pprev b) as [p'|]; [|lia]; destruct Hl as (pb & Hpb & Hh & _).
    destruct (IH p' pb Hpb ltac:(lia)) as (q & bq & H1 & H2 & H3); exists q, bq; repeat split; auto; lia.
Qed.

Lemma back_beyond idx p b n :
  idx_ok idx -> idx !! p = Some b -> nHeight b < Z.of_nat n -> back idx p n = None.
Proof.
  intros Hok; revert p b; induction n as [|n IH]; intros p b Hp Hn; destruct (Hok p b Hp) as (Hr & Hl & _).
  - lia.
  - cbn [back]; rewrite Hp; destruct (pprev b) as [p'|]; [|reflexivity].
    destruct Hl as (pb & Hpb & Hh & _); apply (IH p' pb Hpb); lia.
Qed.

(** ** Growth of the index *)

(** What an entry says about its place in the tree.  The other fields record what validation and
    storage learn about the block later. *)
Definition links (b : CBlockIndex) :=
  (pprev b, pskip b, (pprev_permissionless b, pprev_auxpow b), nHeight b, nChainWork b, nAuxPow b, bi_header b, nTimeMax b).

(** Entries are added, and change in the other fields only. *)
Definition extends (idx idx' : BlockMap) : Prop :=
  forall p b, idx !! p = Some b -> exists b', idx' !! p = Some b' /\ links b' = links b.

#[export] Instance extends_preorder : PreOrder extends.
Proof.
  split; [intros idx p b Hb; eauto|]; intros i1 i2 i3 H12 H23 p b Hb.
  destruct (H12 p b Hb) as (b2 & H2 & E2); destruct (H23 p b2 H2) as (b3 & H3 & E3); exists b3; split; congruence.
Qed.

Lemma subseteq_extends idx idx' : idx ⊆ idx' -> extends idx idx'.
Proof. intros Hs p b Hb; exists b; split; [eapply lookup_weaken; eauto | reflexivity]. Qed.

#[local] Hint Resolve subseteq_extends : core.

Lemma links_eq b b' : links b' = links b ->
  pprev b' = pprev b /\ pskip b' = pskip b /\ pprev_permissionless b' = pprev_permissionless b /\
  pprev_auxpow b' = pprev_auxpow b /\ nHeight b' = nHeight b /\ nChainWork b' = nChainWork b /\
  nAuxPow b' = nAuxPow b /\ bi_header b' = bi_header b /\ nTimeMax b' = nTimeMax b.
Proof. unfold links; intros E; injection E; auto 10. Qed.

(** The entry behind [p] in a larger index, with the fields of [b]. *)
Ltac extended Hext p Hp b' Hp' :=
  let L := fresh "L" in
  destruct (Hext p _ Hp) as (b' & Hp' & L);
  apply links_eq in L as (?Lprev & ?Lskip & ?Lperm & ?Laux & ?Lheight & ?Lwork & ?Lcount & ?Lheader & ?Ltime).

(** A closed index keeps its paths when it grows. *)
Lemma back_mono idx idx' p n :
  idx_ok idx -> extends idx idx' -> is_Some (idx !! p) -> back idx' p n = back idx p n.
Proof.
  intros Hok Hsub; revert p; induction n as [|n IH]; intros p [b Hp]; [reflexivity|].
  extended Hsub p Hp b2 Hp2; cbn [back]; rewrite Hp, Hp2, Lprev.
  destruct (Hok p b Hp) as (_ & Hl & _); destruct (pprev b) as [p'|]; [|reflexivity].
  destruct Hl as (pb & Hpb & _); apply IH; rewrite Hpb; eauto.
Qed.

Lemma back_in idx p n q : idx_ok idx -> is_Some (idx !! p) -> back idx p n = Some q -> is_Some (idx !! q).
Proof.
  intros Hok [b Hp] Hq; destruct (Z.le_gt_cases (Z.of_nat n) (nHeight b)) as [H|H].
  - destruct (back_height idx p b n Hok Hp H) as (q' & bq & H1 & H2 & _).
    rewrite H1 in Hq; simplify_eq; rewrite H2; eauto.
  - rewrite (back_beyond idx p b n Hok Hp H) in Hq; discriminate.
Qed.

Lemma ancestor_loop_spec idx fuel p b height :
  idx_ok idx -> idx !! p = Some b -> 0 <= height <= nHeight b -> nHeight b - height <= Z.of_nat fuel ->
  ancestor_loop fuel idx p (nHeight b) height = back idx p (Z.to_nat (nHeight b - height)).
Proof.
  intros Hok; revert p b; induction fuel as [|fuel IH]; intros p b Hp Hh Hf; cbn [ancestor_loop].
  - rewrite (proj2 (Z.leb_le (nHeight b) height)) by lia.
    replace (nHeight b - height) with 0 by lia; reflexivity.
  - destruct (Z.leb_spec (nHeight b) height).
    { replace (nHeight b - height) with 0 by lia; reflexivity. }
    rewrite Hp; destruct (Hok p b Hp) as (Hr & Hl & _).
    destruct (pprev b) as [p'|] eqn:Epp; [|lia].
    destruct Hl as (pb & Hpb & Hhp & s & -> & Hs).
    assert (Hprev : ancestor_loop fuel idx p' (nHeight b - 1) height = back idx p (Z.to_nat (nHeight b - height))).
    { replace (nHeight b - 1) with (nHeight pb) by lia; rewrite IH by (auto; lia).
      replace (Z.to_nat (nHeight b - height)) with (S (Z.to_nat (nHeight pb - height))) by lia.
      cbn [back]; rewrite Hp, Epp; reflexivity. }
    destruct (_ || _) eqn:Eg; [|exact Hprev].
    pose proof (GetSkipHeight_range (nHeight b) ltac:(lia)) as Rs.
    assert (Hsk : height <= GetSkipHeight (nHeight b)).
    { apply orb_prop in Eg as [E|E]; [apply Z.eqb_eq in E; lia|].
      apply andb_prop in E as [E _]; apply Z.ltb_lt in E; lia. }
    destruct (back_height idx p' pb (Z.to_nat (nHeight pb - GetSkipHeight (nHeight b))) Hok Hpb ltac:(lia))
      as (s' & bs & Hs' & Hbs & Hhs); rewrite Hs in Hs'; simplify_eq.
    replace (GetSkipHeight (nHeight b)) with (nHeight bs) in * by lia.
    rewrite IH by (auto; lia).
    replace (Z.to_nat (nHeight b - height)) with
      (S (Z.to_nat (nHeight pb - nHeight bs) + Z.to_nat (nHeight bs - height)))%nat by lia.
    cbn [back]; rewrite Hp, Epp, back_add, Hs; reflexivity.
Qed.

Lemma GetAncestor_spec idx p b height :
  idx_ok idx -> idx !! p = Some b ->
  GetAncestor idx p height =
  Some (if (nHeight b <? height) || (height <? 0) then None else back idx p (Z.to_nat (nHeight b - height))).
Proof.
  intros Hok Hp; unfold GetAncestor; rewrite Hp; destruct (_ || _) eqn:E; [reflexivity|].
  apply orb_false_elim in E as [E1 E2]; apply Z.ltb_ge in E1, E2.
  rewrite ancestor_loop_spec by (auto; lia).
  destruct (back_height idx p b (Z.to_nat (nHeight b - height)) Hok Hp ltac:(lia)) as (q & bq & -> & _).
  reflexivity.
Qed.

(** ** Lane links *)

Lemma in_lane_mono idx idx' q aux : extends idx idx' -> in_lane idx q aux -> in_lane idx' q aux.
Proof.
  intros Hs (b & H1 & H2); extended Hs q H1 b2 H1'; exists b2; split; [exact H1'|].
  unfold bi_SignalsAuxpow, bi_nVersion in *; rewrite Lheader; exact H2.
Qed.

Lemma nearest_lane_mono idx idx' start aux r :
  idx_ok idx -> extends idx idx' -> (forall s, start = Some s -> is_Some (idx !! s)) ->
  nearest_lane idx start aux r -> nearest_lane idx' start aux r.
Proof.
  intros Hok Hsub Hin; destruct start as [s|]; [|auto]; specialize (Hin s eq_refl); cbn.
  destruct r as [q|].
  - intros (n & H1 & H2 & H3); exists n; rewrite (back_mono idx idx') by auto.
    split; [exact H1|]; split; [eauto using in_lane_mono|].
    intros m q' Hm; rewrite (back_mono idx idx') by auto; eauto using in_lane_mono.
  - intros H m q'; rewrite (back_mono idx idx') by auto; eauto using in_lane_mono.
Qed.

Lemma nearest_lane_step idx p b aux r :
  idx !! p = Some b -> bi_SignalsAuxpow b = negb aux ->
  nearest_lane idx (pprev b) aux r -> nearest_lane idx (Some p) aux r.
Proof.
  intros Hp Hl H.
  assert (H0 : in_lane idx p (negb aux)) by (exists b; auto).
  assert (Hback : forall n, back idx p (S n) = (let! q := pprev b in back idx q n))
    by (intros n; cbn [back]; rewrite Hp; reflexivity).
  unfold nearest_lane in *; destruct (pprev b) as [p'|].
  - destruct r as [q|].
    + destruct H as (n & H1 & H2 & H3); exists (S n); rewrite Hback; repeat split; auto.
      intros [|m] q' Hm E; [cbn in E; simplify_eq; exact H0|].
      rewrite Hback in E; apply (H3 m); [lia | exact E].
    + intros [|m] q' E; [cbn in E; simplify_eq; exact H0|]; rewrite Hback in E; eauto.
  - subst r; intros [|m] q' E; [cbn in E; simplify_eq; exact H0|]; rewrite Hback in E; discriminate.
Qed.

Lemma nearest_lane_here idx p b :
  idx !! p = Some b -> nearest_lane idx (Some p) (bi_SignalsAuxpow b) (Some p).
Proof. intros Hp; exists 0%nat; split; [reflexivity|]; split; [exists b; auto | lia]. Qed.

Lemma BuildCadenceLaneLinks_spec idx prev :
  idx_ok idx -> (forall p, prev = Some p -> is_Some (idx !! p)) ->
  exists l1 l2, BuildCadenceLaneLinks idx prev = Some (l1, l2) /\
    nearest_lane idx prev false l1 /\ nearest_lane idx prev true l2.
Proof.
  intros Hok Hin; destruct prev as [p|]; [|exists None, None; repeat split].
  destruct (Hin p eq_refl) as [b Hp]; cbn [BuildCadenceLaneLinks]; rewrite Hp.
  destruct (Hok p b Hp) as (_ & _ & Hf & Ht); pose proof (nearest_lane_here idx p b Hp) as Hh.
  destruct (bi_SignalsAuxpow b) eqn:E; eexists _, _; (split; [reflexivity|]); split; auto.
  - apply (nearest_lane_step idx p b); auto.
  - apply (nearest_lane_step idx p b); auto.
Qed.

Lemma GetPreviousBlockForLane_spec idx p b aux min_height :
  idx_ok idx -> idx !! p = Some b -> min_height <= nHeight b ->
  exists r, GetPreviousBlockForLane idx p aux min_height = Some r /\
  exists r0, nearest_lane idx (Some p) aux r0 /\
    r = match r0 with
        | Some q => match idx !! q with
                    | Some bq => if min_height <=? nHeight bq then Some q else None
                    | None => None end
        | None => None end.
Proof.
  intros Hok Hp Hmin; unfold GetPreviousBlockForLane; rewrite Hp.
  destruct (Hok p b Hp) as (_ & Hl & Hf & Ht).
  destruct (Bool.eqb (bi_SignalsAuxpow b) aux) eqn:E.
  - apply eqb_prop in E; eexists; split; [reflexivity|]; exists (Some p); subst aux.
    split; [apply nearest_lane_here, Hp|]; rewrite Hp, (proj2 (Z.leb_le _ _) Hmin); reflexivity.
  - apply eqb_false_iff in E.
    assert (En : bi_SignalsAuxpow b = negb aux) by (destruct (bi_SignalsAuxpow b), aux; cbn; congruence).
    set (c := if aux then pprev_auxpow b else pprev_permissionless b).
    assert (Hn : nearest_lane idx (Some p) aux c)
      by (apply (nearest_lane_step idx p b aux c Hp En); unfold c; destruct aux; assumption).
    destruct c as [q|].
    + assert (is_Some (idx !! q)) as [bq Hq].
      { destruct Hn as (n & H1 & _); apply (back_in idx p n); auto; rewrite Hp; eauto. }
      rewrite Hq; eexists; split; [reflexivity|]; exists (Some q); rewrite Hq; auto.
    + eexists; split; [reflexivity|]; exists None; auto.
Qed.

(** ** Adding an entry *)

Lemma entry_ok_mono idx idx' b : idx_ok idx -> extends idx idx' -> entry_ok idx b -> entry_ok idx' b.
Proof.
  intros Hok Hsub (Hr & Hl & Hf & Ht).
  assert (Hin : forall s, pprev b = Some s -> is_Some (idx !! s)).
  { intros s E; rewrite E in Hl; destruct Hl as (pb & H & _); rewrite H; eauto. }
  repeat split; try lia; eauto using nearest_lane_mono.
  destruct (pprev b) as [p|]; [|exact Hl].
  destruct Hl as (pb & H1 & H2 & s & H3 & H4); extended Hsub p H1 pb2 H1'; exists pb2; split; [exact H1'|].
  split; [congruence|]; exists s; split; [exact H3|].
  rewrite Lheight, (back_mono idx idx') by (auto; rewrite H1; eauto); exact H4.
Qed.

Lemma entry_ok_links idx b b' : links b' = links b -> entry_ok idx b -> entry_ok idx b'.
Proof.
  intros L; apply links_eq in L as (L1 & L2 & L3 & L4 & L5 & _); unfold entry_ok.
  rewrite L1, L2, L3, L4, L5; auto.
Qed.

Lemma idx_ok_insert idx h b :
  idx_ok idx -> idx !! h = None -> entry_ok idx b -> idx_ok (<[h := b]> idx).
Proof.
  intros Hok Hh Hb h' b' H'.
  assert (Hsub : idx ⊆ <[h := b]> idx) by (apply insert_subseteq; exact Hh).
  destruct (decide (h = h')) as [<-|Hne].
  - rewrite lookup_insert_eq in H'; simplify_eq; eapply entry_ok_mono; eauto.
  - rewrite lookup_insert_ne in H' by exact Hne; eapply entry_ok_mono; eauto.
Qed.

Lemma entry_ok_new idx block : entry_ok idx (new_CBlockIndex block).
Proof. repeat split; cbn; lia. Qed.

Lemma BuildSkip_spec idx p pb height :
  idx_ok idx -> idx !! p = Some pb -> height = nHeight pb + 1 ->
  exists s, BuildSkip idx p height = Some (Some s) /\
    back idx p (Z.to_nat (nHeight pb - GetSkipHeight height)) = Some s.
Proof.
  intros Hok Hp ->; unfold BuildSkip; rewrite (GetAncestor_spec idx p pb) by auto.
  destruct (Hok p pb Hp) as (Hr & _); pose proof (GetSkipHeight_range (nHeight pb + 1) ltac:(lia)) as R.
  rewrite !(proj2 (Z.ltb_ge _ _)) by lia; cbn [orb].
  destruct (back_height idx p pb (Z.to_nat (nHeight pb - GetSkipHeight (nHeight pb + 1))) Hok Hp ltac:(lia))
    as (s & bs & H & _); exists s; rewrite H; auto.
Qed.

(** ** Work *)

Lemma of_compact_not_max c : in_u 32 c -> of_compact c <> 2 ^ 256 - 1.
Proof.
  intros Hc E; unfold of_compact in E; pose proof (Z.mod_pos_bound c (2 ^ 23) ltac:(lia)) as Hw.
  destruct (Z.leb_spec (c / 2 ^ 24) 3).
  - pose proof (shiftr_range 23 (c mod 2 ^ 23) (8 * (3 - c / 2 ^ 24)) ltac:(lia) Hw) as R.
    rewrite Z.shiftr_div_pow2, E in R by lia; unfold in_u in R; lia.
  - apply (f_equal Z.odd) in E; rewrite Z.odd_mul, Z.odd_pow in E by lia.
    rewrite andb_false_r in E; vm_compute in E; discriminate.
Qed.

Lemma div_complement t : 0 <= t < 2 ^ 256 - 1 -> (2 ^ 256 - 1 - t) / (t + 1) + 1 = 2 ^ 256 / (t + 1).
Proof.
  intros Ht; replace (2 ^ 256 - 1 - t) with (2 ^ 256 + (-1) * (t + 1)) by lia.
  rewrite Z.div_add by lia; lia.
Qed.

Lemma GetBlockProof_spec c :
  in_u 32 c ->
  exists w, GetBlockProof c = Some w /\ wf W256 w /\
    val w = if fNegative (SetCompact c) || fOverflow (SetCompact c) || (of_compact c =? 0) then 0
            else 2 ^ 256 / (of_compact c + 1).
Proof.
  intros Hc; pose proof (SetCompact_wf c Hc) as Hw; pose proof (SetCompact_val c Hc) as Hv.
  pose proof (SetCompact_overflow c Hc) as Ho; pose proof (of_compact_not_max c Hc) as Hm.
  assert (0 <= of_compact c).
  { unfold of_compact; pose proof (Z.mod_pos_bound c (2 ^ 23) ltac:(lia)).
    case_match; [apply Z.div_pos | apply Z.mul_nonneg_nonneg]; lia. }
  unfold GetBlockProof; rewrite (EqualTo_spec W256) by (auto using W256_ge; red; lia).
  destruct (fNegative (SetCompact c)); cbn [orb];
    [eexists; split; [reflexivity|]; split; [apply wf_arith; red; lia | reflexivity]|].
  rewrite Ho; destruct (Z.leb_spec (2 ^ 256) (of_compact c)); cbn [orb];
    [eexists; split; [reflexivity|]; split; [apply wf_arith; red; lia | reflexivity]|].
  rewrite wrap_small in Hv by (red; lia); rewrite Hv; destruct (Z.eqb_spec (of_compact c) 0);
    [eexists; split; [reflexivity|]; split; [apply wf_arith; red; lia | reflexivity]|].
  assert (W1 : wf W256 (arith_uint256 1)) by (apply wf_arith; red; lia).
  assert (V1 : val (add (target (SetCompact c)) (arith_uint256 1)) = of_compact c + 1).
  { rewrite (val_add W256), Hv, val_arith by (auto; red; lia); apply wrap_small; red.
    change (32 * Z.of_nat W256) with 256; lia. }
  destruct (bnot_spec _ (wf_limbs _ _ Hw)) as (B1 & B2 & B3); rewrite (wf_length _ _ Hw) in B1, B3.
  pose proof (div_spec W256 (bnot (target (SetCompact c))) (add (target (SetCompact c)) (arith_uint256 1))
    (conj B1 B2) (wf_add _ _ _ Hw W1)) as D.
  destruct (div _ _) as [q|]; [|rewrite V1 in D; lia]; destruct D as (_ & Wq & Vq).
  eexists; split; [reflexivity|]; split; [apply wf_add; auto|].
  rewrite (val_add W256), val_arith, Vq, V1, B3, Hv by (auto; red; lia).
  change (32 * Z.of_nat W256) with 256; rewrite div_complement by lia.
  apply wrap_small; split; [apply Z.div_pos; lia|]; apply Z.div_lt; lia.
Qed.

(** ** Counters *)

Definition prev_of (idx : BlockMap) (b : CBlockIndex) : option CBlockIndex :=
  let! p := pprev b in idx !! p.

(** Header fields as their C++ types hold them. *)
Definition header_ok (h : CPureBlockHeader) : Prop :=
  in_s 32 (nVersion h) /\ in_u 32 (nTime h) /\ in_u 32 (nBits h) /\ in_u 32 (nNonce h).

Definition data_ok (idx : BlockMap) (b : CBlockIndex) : Prop :=
  wf W256 (nChainWork b) /\ 0 <= nAuxPow b <= nHeight b + 1 /\
  nAuxPow b = from_option nAuxPow 0 (prev_of idx b) + (if bi_SignalsAuxpow b then 1 else 0) /\
  (exists w, GetBlockProof (bi_nBits b) = Some w /\
     val (nChainWork b) = wrap 256 (from_option (fun pb => val (nChainWork pb)) 0 (prev_of idx b) + val w)) /\
  nTimeMax b = from_option (fun pb => Z.max (nTimeMax pb) (bi_nTime b)) (bi_nTime b) (prev_of idx b) /\
  header_ok (pure (bi_header b)).

Definition best_ok (idx : BlockMap) (best : option ptr) : Prop :=
  match best with
  | None => idx = ∅
  | Some h => exists b, idx !! h = Some b /\
      forall h' b', idx !! h' = Some b' -> val (nChainWork b') <= val (nChainWork b)
  end.

(** The invariant of [BlockManager]'s index and best header. *)
Definition index_inv (bm : BlockManager) (best : option ptr) : Prop :=
  let idx := m_block_index bm in
  idx_ok idx /\ (forall h b, idx !! h = Some b -> data_ok idx b) /\ best_ok idx best /\
  m_dirty_blockindex bm ⊆ dom idx.

Lemma data_ok_mono idx idx' b :
  extends idx idx' -> (forall p, pprev b = Some p -> is_Some (idx !! p)) -> data_ok idx b -> data_ok idx' b.
Proof.
  intros Hsub Hin (H1 & H2 & H3 & H4 & H5 & H6).
  assert (E : links <$> prev_of idx' b = links <$> prev_of idx b).
  { unfold prev_of; destruct (pprev b) as [p|]; [|reflexivity].
    destruct (Hin p eq_refl) as [pb Hpb]; destruct (Hsub p pb Hpb) as (pb' & -> & L); rewrite Hpb; cbn; congruence. }
  unfold data_ok; destruct (prev_of idx b) as [pb|], (prev_of idx' b) as [pb'|]; cbn in E; try discriminate E; [|auto 10].
  apply (inj Some), links_eq in E as (_ & _ & _ & _ & _ & E1 & E2 & _ & E3); cbn [from_option] in *.
  rewrite E1, E2, E3; auto 10.
Qed.

Lemma data_ok_links idx b b' : links b' = links b -> data_ok idx b -> data_ok idx b'.
Proof.
  intros L; apply links_eq in L as (L1 & L2 & L3 & L4 & L5 & L6 & L7 & L8 & L9).
  unfold data_ok, prev_of, bi_SignalsAuxpow, bi_nVersion, bi_nBits, bi_nTime; rewrite L1, L5, L6, L7, L8, L9; auto.
Qed.

Lemma entry_prev_in idx b p : entry_ok idx b -> pprev b = Some p -> is_Some (idx !! p).
Proof. intros (_ & Hl & _) E; rewrite E in Hl; destruct Hl as (pb & H & _); rewrite H; eauto. Qed.

Lemma best_ok_insert idx best h b :
  idx !! h = None -> best_ok idx best ->
  best_ok (<[h := b]> idx)
    (match best with
     | Some bh => if from_option (fun bb => val (nChainWork bb)) 0 (idx !! bh) <? val (nChainWork b)
                  then Some h else Some bh
     | None => Some h end).
Proof.
  intros E Hbest; destruct best as [bh|].
  - destruct Hbest as (bb & Hbb & Hm); rewrite Hbb; cbn [from_option].
    destruct (Z.ltb_spec (val (nChainWork bb)) (val (nChainWork b))).
    + exists b; split; [apply lookup_insert_eq|]; intros h' b' [[<- <-]|[Hne H']]%lookup_insert_Some;
        [lia | pose proof (Hm _ _ H'); lia].
    + exists bb; split; [rewrite lookup_insert_ne; congruence|].
      intros h' b' [[<- <-]|[Hne H']]%lookup_insert_Some; [lia | eauto].
  - exists b; split; [apply lookup_insert_eq|]; rewrite Hbest.
    intros h' b' [[<- <-]|[Hne H']]%lookup_insert_Some; [lia | rewrite lookup_empty in H'; discriminate].
Qed.

Lemma dirty_new (dirty known : gset (list Z)) h : h ∉ known -> {[h]} ∪ dirty = dirty ∪ (({[h]} ∪ known) ∖ known).
Proof. set_solver. Qed.

Section AddToBlockIndexSpec.
Context (GetHash : CPureBlockHeader -> uint256).

Definition block_acceptable (idx : BlockMap) (block : CBlockHeader) : Prop :=
  header_ok (pure block) /\ GetHash (pure block) <> hashPrevBlock (pure block) /\
  forall pb, idx !! hashPrevBlock (pure block) = Some pb -> nHeight pb + 1 < 2 ^ 31.

(** The entry [AddToBlockIndex] stores for a new hash. *)
Lemma AddToBlockIndex_new bm block best :
  let idx := m_block_index bm in
  index_inv bm best -> block_acceptable idx block -> idx !! GetHash (pure block) = None ->
  exists b best', AddToBlockIndex GetHash bm block best =
    Some ({| m_block_index := <[GetHash (pure block) := b]> idx;
             m_dirty_blockindex := {[GetHash (pure block)]} ∪ m_dirty_blockindex bm |},
          GetHash (pure block), best') /\
    entry_ok idx b /\ data_ok idx b /\ bi_header b = block /\
    pprev b = (if bool_decide (is_Some (idx !! hashPrevBlock (pure block)))
               then Some (hashPrevBlock (pure block)) else None) /\
    best' = match best with
            | Some bh => if (from_option (fun bb => val (nChainWork bb)) 0 (idx !! bh) <? val (nChainWork b))
                         then Some (GetHash (pure block)) else Some bh
            | None => Some (GetHash (pure block)) end.
Proof.
  intros idx (Hok & Hdata & Hbest & _) (Hhdr & Hself & Hmax) Hnew; pose proof Hhdr as (_ & _ & Rb & _).
  set (h := GetHash (pure block)) in *; set (ph := hashPrevBlock (pure block)) in *.
  unfold AddToBlockIndex; fold idx h ph; rewrite Hnew.
  set (idx1 := <[h := new_CBlockIndex block]> idx).
  assert (Hok1 : idx_ok idx1) by (apply idx_ok_insert; auto using entry_ok_new).
  assert (Hsub1 : idx ⊆ idx1) by (apply insert_subseteq; exact Hnew).
  replace (idx1 !! ph) with (idx !! ph) by (unfold idx1; rewrite lookup_insert_ne by congruence; reflexivity).
  destruct (GetBlockProof_spec (nBits (pure block)) Rb) as (w & Hw & Ww & _).
  assert (Hins : forall b, <[h := b]> idx1 = <[h := b]> idx) by (intros; apply insert_insert_eq).
  assert (Hbh : forall bh, best = Some bh -> exists bb, idx !! bh = Some bb /\ idx1 !! bh = Some bb /\
                 wf W256 (nChainWork bb)).
  { intros bh ->; destruct Hbest as (bb & Hbb & _); exists bb; split; [exact Hbb|].
    split; [eauto using lookup_weaken | apply (Hdata _ _ Hbb)]. }
  assert (Hfin : forall b, wf W256 (nChainWork b) ->
    match best with
    | None => Some (Some h)
    | Some bh => let! bb := idx1 !! bh in Some (if ltb (nChainWork bb) (nChainWork b) then Some h else Some bh)
    end = Some (match best with
            | Some bh => if (from_option (fun bb => val (nChainWork bb)) 0 (idx !! bh) <? val (nChainWork b))
                         then Some h else Some bh
            | None => Some h end)).
  { intros b Wb; destruct best as [bh|]; [|reflexivity].
    destruct (Hbh bh eq_refl) as (bb & -> & -> & Wbb); rewrite (ltb_spec W256) by auto; reflexivity. }
  destruct (idx !! ph) as [pb|] eqn:Eph.
  - destruct (Hok ph pb Eph) as (Hr & _); destruct (Hdata ph pb Eph) as (Wp & Ra & _).
    specialize (Hmax pb eq_refl); rewrite sarith_ok by (unfold in_s; cbn; lia).
    assert (Eph1 : idx1 !! ph = Some pb) by eauto using lookup_weaken.
    destruct (BuildSkip_spec idx1 ph pb (nHeight pb + 1) Hok1 Eph1 eq_refl) as (s & -> & Hs).
    rewrite (back_mono idx idx1) in Hs by (auto; rewrite Eph; eauto).
    destruct (BuildCadenceLaneLinks_spec idx (Some ph) Hok) as (l1 & l2 & Hl & Hl1 & Hl2);
      [intros ? [= <-]; rewrite Eph; eauto|].
    replace (BuildCadenceLaneLinks idx1 (fst <$> Some (ph, pb))) with (Some (l1, l2))
      by (rewrite <- Hl; cbn; rewrite Eph, Eph1; reflexivity).
    rewrite Hw; cbn [fst snd fmap option_fmap option_map].
    rewrite Hfin by (cbn [nChainWork]; apply wf_add; assumption).
    eexists _, _; split; [rewrite Hins; reflexivity|]; split; [|split; [|split; [|split]]]; auto.
    + repeat split; cbn [nHeight pprev pskip pprev_permissionless pprev_auxpow]; auto; try lia.
      exists pb; split; [exact Eph|]; split; [reflexivity|]; eauto.
    + unfold data_ok, prev_of, bi_SignalsAuxpow, bi_nVersion, bi_nBits, bi_nTime; cbn; rewrite Eph; cbn.
      assert (E : wrap 64 (nAuxPow pb + (if SignalsAuxpow (pure block) then 1 else 0))
                  = nAuxPow pb + (if SignalsAuxpow (pure block) then 1 else 0))
        by (apply wrap_small; unfold in_u; destruct (SignalsAuxpow (pure block)); lia).
      rewrite E; split; [apply wf_add; assumption|]; split; [case_match; lia|].
      split; [reflexivity|]; split; [|split; [reflexivity | exact Hhdr]].
      exists w; split; [exact Hw|]; exact (val_add W256 _ _ Wp Ww).
  - destruct (BuildCadenceLaneLinks_spec idx None Hok) as (l1 & l2 & Hl & Hl1 & Hl2); [discriminate|].
    cbn in Hl; simplify_eq; cbn [fmap option_fmap option_map BuildCadenceLaneLinks].
    assert (W0 : wf W256 (arith_uint256 0)) by (apply wf_arith; red; lia).
    rewrite Hw; rewrite Hfin by (cbn [nChainWork]; apply wf_add; assumption).
    eexists _, _; split; [rewrite Hins; reflexivity|]; split; [|split; [|split; [|split]]]; auto.
    + repeat split; cbn; auto; lia.
    + unfold data_ok, prev_of, bi_SignalsAuxpow, bi_nVersion, bi_nBits, bi_nTime;
        cbn [pprev nChainWork nAuxPow nHeight nTimeMax bi_header from_option].
      split; [apply wf_add; assumption|]; rewrite wrap_small by (unfold in_u; destruct (SignalsAuxpow (pure block)); lia).
      split; [destruct (SignalsAuxpow (pure block)); lia|].
      split; [reflexivity|]; split; [|split; [reflexivity | exact Hhdr]].
      exists w; split; [exact Hw|]; rewrite <- (val_arith 0) by (red; lia); exact (val_add W256 _ _ W0 Ww).
Qed.

Lemma AddToBlockIndex_inv bm block best :
  index_inv bm best -> block_acceptable (m_block_index bm) block ->
  exists bm' best', AddToBlockIndex GetHash bm block best = Some (bm', GetHash (pure block), best') /\
    index_inv bm' best' /\ m_block_index bm ⊆ m_block_index bm' /\
    m_dirty_blockindex bm' = m_dirty_blockindex bm ∪ (dom (m_block_index bm') ∖ dom (m_block_index bm)) /\
    exists b, m_block_index bm' !! GetHash (pure block) = Some b /\
      (m_block_index bm !! GetHash (pure block) = None -> bi_header b = block).
Proof.
  intros Hinv Hacc; set (idx := m_block_index bm) in *; destruct (idx !! GetHash (pure block)) as [b0|] eqn:E.
  - exists bm, best; unfold AddToBlockIndex; fold idx; rewrite E; do 3 (split; [auto|]).
    split; [rewrite difference_diag_L, union_empty_r_L; reflexivity|].
    exists b0; split; [reflexivity | discriminate].
  - destruct (AddToBlockIndex_new bm block best Hinv Hacc E) as (b & best' & -> & He & Hd & Hh & _ & Eb).
    fold idx; destruct Hinv as (Hok & Hdata & Hbest & Hdirty); fold idx in Hok, Hdata, Hbest, Hdirty.
    assert (Hsub : idx ⊆ <[GetHash (pure block) := b]> idx) by (apply insert_subseteq; exact E).
    eexists _, _; split; [reflexivity|]; split; [split; [|split; [|split]]|split; [|split]];
      cbn [m_block_index m_dirty_blockindex]; auto.
    + apply idx_ok_insert; auto.
    + intros h' b' H'; destruct (decide (GetHash (pure block) = h')) as [<-|Hne].
      * rewrite lookup_insert_eq in H'; simplify_eq; eapply data_ok_mono; eauto using entry_prev_in.
      * rewrite lookup_insert_ne in H' by exact Hne; eapply data_ok_mono; eauto using entry_prev_in.
    + subst best'; apply best_ok_insert; assumption.
    + rewrite dom_insert_L; apply union_mono_l, Hdirty.
    + apply not_elem_of_dom in E; rewrite dom_insert_L; apply dirty_new, E.
    + exists b; split; [apply lookup_insert_eq | auto].
Qed.

Lemma mark_extends idx p b b' : idx !! p = Some b -> links b' = links b -> extends idx (<[p := b']> idx).
Proof.
  intros Hp L q c Hq; destruct (decide (p = q)) as [<-|Hne].
  - rewrite lookup_insert_eq; exists b'; split; [reflexivity | congruence].
  - rewrite lookup_insert_ne by exact Hne; eauto.
Qed.

Lemma mark_inv bm best p b b' dirty :
  index_inv bm best -> m_block_index bm !! p = Some b -> links b' = links b -> dirty ⊆ dom (m_block_index bm) ->
  index_inv {| m_block_index := <[p := b']> (m_block_index bm); m_dirty_blockindex := dirty |} best.
Proof.
  intros (Hok & Hdata & Hbest & Hdirty) Hp L Hd; set (idx := m_block_index bm) in *.
  pose proof (mark_extends idx p b b' Hp L) as Hext.
  assert (Hcase : forall q c, <[p := b']> idx !! q = Some c -> exists c0, idx !! q = Some c0 /\ links c = links c0).
  { intros q c [[<- <-]|[Hne Hc]]%lookup_insert_Some; eauto. }
  split; [|split; [|split]]; cbn [m_block_index m_dirty_blockindex]; fold idx.
  - intros q c Hc; destruct (Hcase q c Hc) as (c0 & Hc0 & Lc).
    eapply entry_ok_links; [exact Lc|]; eapply entry_ok_mono; eauto.
  - intros q c Hc; destruct (Hcase q c Hc) as (c0 & Hc0 & Lc).
    eapply data_ok_links; [exact Lc|]; eapply data_ok_mono; eauto using entry_prev_in.
  - destruct best as [h|]; [|rewrite Hbest in Hp; rewrite lookup_empty in Hp; discriminate].
    destruct Hbest as (bb & Hbb & Hm); extended Hext h Hbb bb2 Hbb2; exists bb2; split; [exact Hbb2|].
    intros q c Hc; destruct (Hcase q c Hc) as (c0 & Hc0 & Lc); apply links_eq in Lc as (_ & _ & _ & _ & _ & -> & _).
    rewrite Lwork; eauto.
  - rewrite dom_insert_L; set_solver.
Qed.

(** States of the index: headers are added one at a time to an empty index; validation and storage
    change the other fields of an entry, and write dirty entries to disk. *)
Inductive index_reachable : BlockManager -> option ptr -> Prop :=
| reach_init : index_reachable {| m_block_index := ∅; m_dirty_blockindex := ∅ |} None
| reach_add bm best block bm' h best' :
    index_reachable bm best -> block_acceptable (m_block_index bm) block ->
    AddToBlockIndex GetHash bm block best = Some (bm', h, best') ->
    index_reachable bm' best'
| reach_mark bm best p b b' dirty :
    index_reachable bm best -> m_block_index bm !! p = Some b -> links b' = links b ->
    dirty ⊆ dom (m_block_index bm) ->
    index_reachable {| m_block_index := <[p := b']> (m_block_index bm); m_dirty_blockindex := dirty |} best.

Lemma index_reachable_inv bm best : index_reachable bm best -> index_inv bm best.
Proof.
  induction 1 as [|bm best block bm' h best' _ IH Hacc E|bm best p b b' dirty _ IH Hp L Hd].
  - split; [|split; [|split; [reflexivity | apply empty_subseteq]]]; intros h b H;
      cbn in H; rewrite lookup_empty in H; discriminate.
  - destruct (AddToBlockIndex_inv bm block best IH Hacc) as (i & be & E' & Hi & _).
    rewrite E in E'; simplify_eq; exact Hi.
  - exact (mark_inv bm best p b b' dirty IH Hp L Hd).
Qed.
End AddToBlockIndexSpec.

(** ** Ancestors *)

Definition anc (idx : BlockMap) (c p : ptr) : Prop := exists n, back idx p n = Some c.

Lemma anc_refl idx p : anc idx p p.
Proof. exists 0%nat; reflexivity. Qed.

Lemma anc_cases idx c p b :
  idx !! p = Some b -> anc idx c p <-> c = p \/ exists q, pprev b = Some q /\ anc idx c q.
Proof.
  intros Hp; split.
  - intros [[|n] Hn]; [left; injection Hn; auto|]; right; cbn in Hn; rewrite Hp in Hn.
    destruct (pprev b) as [q|]; [|discriminate]; exists q; split; [reflexivity | exists n; exact Hn].
  - intros [->|(q & Hq & n & Hn)]; [apply anc_refl | exists (S n); cbn; rewrite Hp, Hq; exact Hn].
Qed.

Lemma anc_height idx c p b :
  idx_ok idx -> idx !! p = Some b -> anc idx c p ->
  exists bc, idx !! c = Some bc /\ nHeight bc <= nHeight b /\
    back idx p (Z.to_nat (nHeight b - nHeight bc)) = Some c.
Proof.
  intros Hok Hp [n Hn]; destruct (Z.le_gt_cases (Z.of_nat n) (nHeight b)) as [Hle|Hgt].
  - destruct (back_height idx p b n Hok Hp Hle) as (q & bq & H1 & H2 & H3).
    rewrite Hn in H1; simplify_eq; exists bq; repeat split; [exact H2 | lia|].
    replace (Z.to_nat (nHeight b - nHeight bq)) with n by lia; exact Hn.
  - rewrite (back_beyond idx p b n) in Hn by auto; discriminate.
Qed.

(** The ancestors of an ancestor are the ancestors that are not higher. *)
Lemma anc_of_anc idx c q p b bq bc :
  idx_ok idx -> idx !! p = Some b -> anc idx q p -> idx !! q = Some bq -> idx !! c = Some bc ->
  nHeight bc <= nHeight bq -> anc idx c p <-> anc idx c q.
Proof.
  intros Hok Hp Hq Hbq Hbc Hle.
  destruct (anc_height idx q p b Hok Hp Hq) as (bq' & Hbq' & Hle' & Hback); simplify_eq.
  split; intros Hc.
  - destruct (anc_height idx c p b Hok Hp Hc) as (bc' & Hbc' & Hle2 & Hb); simplify_eq.
    exists (Z.to_nat (nHeight bq - nHeight bc)).
    replace (Z.to_nat (nHeight b - nHeight bc)) with
      (Z.to_nat (nHeight b - nHeight bq) + Z.to_nat (nHeight bq - nHeight bc))%nat in Hb by lia.
    rewrite back_add, Hback in Hb; exact Hb.
  - destruct Hc as [m Hm]; exists (Z.to_nat (nHeight b - nHeight bq) + m)%nat.
    rewrite back_add, Hback; exact Hm.
Qed.

(** The lower of two blocks of equal height, as both [LastCommonAncestor] and [FindFork] find it. *)
Lemma GetAncestor_anc idx p b h :
  idx_ok idx -> idx !! p = Some b -> 0 <= h <= nHeight b ->
  exists q bq, GetAncestor idx p h = Some (Some q) /\ idx !! q = Some bq /\ nHeight bq = h /\ anc idx q p.
Proof.
  intros Hok Hp Hh; rewrite (GetAncestor_spec idx p b h Hok Hp).
  destruct (Z.ltb_spec (nHeight b) h), (Z.ltb_spec h 0); try lia; cbn [orb].
  destruct (back_height idx p b (Z.to_nat (nHeight b - h)) Hok Hp ltac:(lia)) as (q & bq & H1 & H2 & H3).
  exists q, bq; rewrite H1; repeat split; auto; [lia | exists (Z.to_nat (nHeight b - h)); exact H1].
Qed.

(** [r] is the deepest common ancestor of [a] and [b]. *)
Definition meet (idx : BlockMap) (a b : option ptr) (r : option ptr) : Prop :=
  forall c, (exists x, a = Some x /\ anc idx c x) /\ (exists y, b = Some y /\ anc idx c y) <->
            exists z, r = Some z /\ anc idx c z.

Lemma entry_pprev idx p b q :
  idx_ok idx -> idx !! p = Some b -> pprev b = Some q ->
  exists bq, idx !! q = Some bq /\ nHeight b = nHeight bq + 1.
Proof. intros Hok Hp Hq; destruct (Hok p b Hp) as (_ & Hl & _); rewrite Hq in Hl; destruct Hl as (pb & ? & ? & _); eauto. Qed.

Lemma anc_below idx c p b q bq :
  idx_ok idx -> idx !! p = Some b -> idx !! q = Some bq -> nHeight b = nHeight bq -> p <> q ->
  anc idx c p -> anc idx c q -> exists p', pprev b = Some p' /\ anc idx c p'.
Proof.
  intros Hok Hp Hq Heq Hne Hcp Hcq.
  apply (anc_cases idx c p b Hp) in Hcp as [->|H]; [|exact H].
  destruct (anc_height idx p q bq Hok Hq Hcq) as (b' & Hb' & _ & Hback); simplify_eq.
  replace (Z.to_nat (nHeight bq - nHeight b)) with 0%nat in Hback by lia; cbn in Hback; congruence.
Qed.

Lemma lca_loop_spec idx fuel a b ba bb :
  idx_ok idx -> idx !! a = Some ba -> idx !! b = Some bb -> nHeight ba = nHeight bb ->
  nHeight ba < Z.of_nat fuel ->
  exists r, lca_loop fuel idx (Some a) (Some b) = Some r /\ meet idx (Some a) (Some b) r.
Proof.
  intros Hok; revert a b ba bb; induction fuel as [|fuel IH]; intros a b ba bb Ha Hb Heq Hf;
    destruct (Hok a ba Ha) as (Hr & Hla & _); [lia|]; cbn [lca_loop].
  destruct (decide (a = b)) as [->|Hne].
  - rewrite bool_decide_eq_true_2 by reflexivity; exists (Some b); split; [reflexivity|].
    intros c; split; [intros [_ H]; exact H | intros H; split; exact H].
  - rewrite bool_decide_eq_false_2, Ha, Hb by exact Hne.
    assert (Hrec : exists r, lca_loop fuel idx (pprev ba) (pprev bb) = Some r /\ meet idx (pprev ba) (pprev bb) r).
    { destruct (Hok b bb Hb) as (Hr' & Hlb & _).
      destruct (pprev ba) as [pa|], (pprev bb) as [pb|].
      - destruct Hla as (xa & ? & ? & _), Hlb as (xb & ? & ? & _); apply (IH pa pb xa xb); auto; lia.
      - destruct Hla as (xa & Hxa & ? & _); destruct (Hok _ _ Hxa) as ((? & ?) & _); lia.
      - destruct Hlb as (xb & Hxb & ? & _); destruct (Hok _ _ Hxb) as ((? & ?) & _); lia.
      - exists None; split; [destruct fuel; reflexivity|]; intros c; split; [intros [(? & [=] & _) _] | intros (? & [=] & _)]. }
    destruct Hrec as (r & -> & Hm); exists r; split; [reflexivity|]; intros c; rewrite <- (Hm c); split.
    + intros [(x & [= <-] & Hx) (y & [= <-] & Hy)]; split.
      * apply (anc_below idx c a ba b bb); auto.
      * apply (anc_below idx c b bb a ba); auto.
    + intros [(x & Hx & Hcx) (y & Hy & Hcy)]; split; eexists; (split; [reflexivity|]);
        [apply (anc_cases idx c a ba Ha) | apply (anc_cases idx c b bb Hb)]; eauto.
Qed.

Lemma meet_lower_l idx a b ba bb q bq r :
  idx_ok idx -> idx !! a = Some ba -> idx !! b = Some bb -> idx !! q = Some bq -> anc idx q a ->
  nHeight bb <= nHeight bq -> meet idx (Some q) (Some b) r -> meet idx (Some a) (Some b) r.
Proof.
  intros Hok Ha Hb Hq Hqa Hle Hm c; rewrite <- (Hm c).
  split; intros [(x & [= <-] & Hx) (y & [= <-] & Hy)]; split; eexists; (split; [reflexivity|]); auto;
    destruct (anc_height idx c b bb Hok Hb Hy) as (bc & Hbc & Hlec & _);
    apply (anc_of_anc idx c q a ba bq bc); auto; lia.
Qed.

Lemma meet_anc idx a b r c :
  meet idx (Some a) (Some b) r -> anc idx c a /\ anc idx c b <-> exists z, r = Some z /\ anc idx c z.
Proof.
  intros Hm; rewrite <- (Hm c); split; [intros [H1 H2]; split; eauto|].
  intros [(x & [= <-] & H1) (y & [= <-] & H2)]; split; assumption.
Qed.

Lemma meet_comm idx a b r : meet idx a b r -> meet idx b a r.
Proof. intros H c; rewrite <- (H c); tauto. Qed.

Lemma LastCommonAncestor_meet idx a b ba bb :
  idx_ok idx -> idx !! a = Some ba -> idx !! b = Some bb ->
  exists r, LastCommonAncestor idx a b = Some r /\ meet idx (Some a) (Some b) r.
Proof.
  intros Hok Ha Hb; unfold LastCommonAncestor; rewrite Ha, Hb.
  destruct (Hok a ba Ha) as (Ra & _), (Hok b bb Hb) as (Rb & _).
  destruct (Z.ltb_spec (nHeight bb) (nHeight ba)), (Z.ltb_spec (nHeight ba) (nHeight bb)); try lia.
  - destruct (GetAncestor_anc idx a ba (nHeight bb) Hok Ha ltac:(lia)) as (q & bq & -> & Hq & Hh & Hanc).
    destruct (lca_loop_spec idx (Z.to_nat (Z.min (nHeight ba) (nHeight bb) + 1)) q b bq bb) as (r & -> & Hm); auto; [lia|].
    exists r; split; [reflexivity|]; eapply meet_lower_l; eauto; lia.
  - destruct (GetAncestor_anc idx b bb (nHeight ba) Hok Hb ltac:(lia)) as (q & bq & -> & Hq & Hh & Hanc).
    destruct (lca_loop_spec idx (Z.to_nat (Z.min (nHeight ba) (nHeight bb) + 1)) a q ba bq) as (r & -> & Hm); auto; [lia|].
    exists r; split; [reflexivity|]; apply meet_comm; eapply (meet_lower_l idx b a bb ba q bq); eauto; [lia | apply meet_comm, Hm].
  - apply lca_loop_spec with (ba := ba) (bb := bb); auto; lia.
Qed.

(** ** The active chain *)

(** [vChain] is the path from the root of [tip] to [tip]. *)
Definition is_chain (idx : BlockMap) (vChain : CChain) (tip : ptr) : Prop :=
  exists b, idx !! tip = Some b /\ length vChain = Z.to_nat (nHeight b + 1) /\
    forall i, (i < length vChain)%nat -> vChain !! i = Some (back idx tip (length vChain - 1 - i)).

(** Every non-null entry of the array is preceded by its own ancestors. *)
Definition coherent (idx : BlockMap) (v : CChain) : Prop :=
  forall i q, v !! i = Some (Some q) -> forall j, (j <= i)%nat -> v !! j = Some (back idx q (i - j)).

Lemma is_chain_coherent idx v tip : is_chain idx v tip -> coherent idx v.
Proof.
  intros (b & _ & _ & Hv) i q Hq j Hj; pose proof (lookup_lt_Some _ _ _ Hq) as Hi.
  rewrite (Hv i Hi) in Hq; injection Hq as Hq; rewrite (Hv j) by lia.
  replace (length v - 1 - j)%nat with ((length v - 1 - i) + (i - j))%nat by lia.
  rewrite back_add, Hq; reflexivity.
Qed.

Lemma coherent_resize idx (v : CChain) n :
  coherent idx v -> coherent idx (take n v ++ replicate (n - length v) None).
Proof.
  intros Hv i q Hq j Hj; apply lookup_app_Some in Hq as [Hq|[_ Hq]].
  - apply lookup_take_Some in Hq as [Hq Hn]; rewrite lookup_app_l, lookup_take_lt.
    + apply (Hv i q Hq j Hj).
    + lia.
    + apply lookup_lt_Some in Hq; rewrite length_take; lia.
  - apply lookup_replicate in Hq as [[=] _].
Qed.

Lemma SetTip_loop_spec idx fuel v q b :
  idx_ok idx -> idx !! q = Some b -> nHeight b < Z.of_nat fuel -> nHeight b < Z.of_nat (length v) ->
  (forall i p, (i <= Z.to_nat (nHeight b))%nat -> v !! i = Some (Some p) ->
     forall j, (j <= i)%nat -> v !! j = Some (back idx p (i - j))) ->
  exists v', SetTip_loop fuel idx v (Some q) = Some v' /\ length v' = length v /\
    (forall i, (Z.to_nat (nHeight b) < i)%nat -> v' !! i = v !! i) /\
    (forall i, (i <= Z.to_nat (nHeight b))%nat -> v' !! i = Some (back idx q (Z.to_nat (nHeight b) - i))).
Proof.
  intros Hok; revert v q b; induction fuel as [|fuel IH]; intros v q b Hq Hf Hlen Hcoh;
    destruct (Hok q b Hq) as (Hr & Hl & _); [lia|]; cbn [SetTip_loop]; rewrite Hq.
  case_bool_decide as Hstop; [exists v; repeat split; auto; intros i Hi; apply (Hcoh _ _ (le_n _) Hstop i Hi)|].
  set (h := Z.to_nat (nHeight b)) in *; set (v1 := <[h := Some q]> v).
  assert (Hv1 : v1 !! h = Some (Some q)) by (apply list_lookup_insert_eq; lia).
  destruct (pprev b) as [p|] eqn:Ep.
  - destruct Hl as (pb & Hpb & Hh & _); destruct (Hok p pb Hpb) as (Hrp & _).
    destruct (IH v1 p pb Hpb) as (v' & -> & Hlen' & Hab & Hbe); [lia | unfold v1; rewrite length_insert; lia | |].
    + intros i x Hi Hx j Hj; unfold v1 in *; rewrite list_lookup_insert_ne in Hx by lia.
      rewrite list_lookup_insert_ne by lia; apply (Hcoh i x ltac:(lia) Hx j Hj).
    + exists v'; split; [reflexivity|]; split; [rewrite Hlen'; apply length_insert|]; split.
      * intros i Hi; rewrite Hab by lia; apply list_lookup_insert_ne; lia.
      * intros i Hi; destruct (decide (i = h)) as [->|Hne].
        -- rewrite Hab by lia; rewrite Hv1, Nat.sub_diag; reflexivity.
        -- rewrite Hbe by lia; replace (h - i)%nat with (S (Z.to_nat (nHeight pb) - i)) by lia.
           cbn [back]; rewrite Hq, Ep; reflexivity.
  - destruct Hl as (H0 & _); exists v1; split; [destruct fuel; reflexivity|].
    split; [apply length_insert|]; split; intros i Hi; [apply list_lookup_insert_ne; lia|].
    replace i with h by lia; rewrite Hv1, Nat.sub_diag; reflexivity.
Qed.

Lemma SetTip_path idx v block b :
  idx_ok idx -> idx !! block = Some b -> coherent idx v ->
  exists v', SetTip idx v block = Some v' /\ is_chain idx v' block.
Proof.
  intros Hok Hb Hv; unfold SetTip; rewrite Hb; set (n := Z.to_nat (nHeight b + 1)).
  destruct (Hok block b Hb) as (Hr & _).
  assert (Hlen : length (take n v ++ replicate (n - length v) None) = n)
    by (rewrite length_app, length_take, length_replicate; lia).
  destruct (SetTip_loop_spec idx n (take n v ++ replicate (n - length v) None) block b)
    as (v' & -> & Hl & _ & Hbe); auto; [lia | lia | |].
  - intros i p _ Hp; apply (coherent_resize idx v n Hv i p Hp).
  - exists v'; split; [reflexivity|]; exists b; split; [exact Hb|]; split; [lia|].
    intros i Hi; rewrite Hbe by lia; do 2 f_equal; lia.
Qed.

Lemma Contains_anc idx v tip q bq :
  idx_ok idx -> is_chain idx v tip -> idx !! q = Some bq ->
  exists c, Contains idx v q = Some c /\ (c = true <-> anc idx q tip).
Proof.
  intros Hok (b & Hb & Hlen & Hv) Hq; unfold Contains; rewrite Hq; eexists; split; [reflexivity|].
  destruct (Hok tip b Hb) as (Rb & _), (Hok q bq Hq) as (Rq & _).
  rewrite bool_decide_eq_true; unfold chain_at.
  destruct (Z.ltb_spec (nHeight bq) 0), (Z.leb_spec (Z.of_nat (length v)) (nHeight bq)); try lia; cbn [orb].
  - split; [discriminate|]; intros Ha; destruct (anc_height idx q tip b Hok Hb Ha) as (bq' & ? & ? & _).
    simplify_eq; lia.
  - rewrite Hv by lia; cbn.
    replace (length v - 1 - Z.to_nat (nHeight bq))%nat with (Z.to_nat (nHeight b - nHeight bq)) by lia.
    split; [intros Hback; eexists; exact Hback|].
    intros Ha; destruct (anc_height idx q tip b Hok Hb Ha) as (bq' & ? & ? & Hback); simplify_eq; exact Hback.
Qed.

Lemma FindFork_loop_spec idx v tip fuel q bq :
  idx_ok idx -> is_chain idx v tip -> idx !! q = Some bq -> nHeight bq < Z.of_nat fuel ->
  exists r, FindFork_loop fuel idx v (Some q) = Some r /\ meet idx (Some q) (Some tip) r.
Proof.
  intros Hok Hc; revert q bq; induction fuel as [|fuel IH]; intros q bq Hq Hf;
    destruct (Hok q bq Hq) as (Hr & Hl & _); [lia|]; cbn [FindFork_loop].
  destruct (Contains_anc idx v tip q bq Hok Hc Hq) as (c & -> & Hcont); destruct c.
  - destruct (proj1 Hcont eq_refl) as [n Hn]; exists (Some q); split; [reflexivity|]; intros c; split.
    + intros [H _]; exact H.
    + intros (z & [= <-] & m & Hm); split; [exists q; split; [reflexivity | exists m; exact Hm]|].
      exists tip; split; [reflexivity|]; exists (n + m)%nat; rewrite back_add, Hn; exact Hm.
  - assert (Hno : ~ anc idx q tip) by (intros H; apply Hcont in H; discriminate).
    rewrite Hq; destruct (pprev bq) as [p|] eqn:Ep.
    + destruct Hl as (pb & Hpb & Hh & _); destruct (IH p pb Hpb ltac:(lia)) as (r & -> & Hm).
      exists r; split; [reflexivity|]; intros c; rewrite <- (Hm c); split.
      * intros [(x & [= <-] & Hx) Hy]; split; [|exact Hy].
        apply (anc_cases idx c q bq Hq) in Hx as [->|(p' & Hp' & Hx)]; [|rewrite Ep in Hp'; eauto].
        destruct Hy as (y & [= <-] & Hy); contradiction.
      * intros [(x & [= <-] & Hx) Hy]; split; [|exact Hy].
        exists q; split; [reflexivity|]; apply (anc_cases idx c q bq Hq); eauto.
    + exists None; split; [destruct fuel; reflexivity|]; intros c; split; [|intros (? & [=] & _)].
      intros [(x & [= <-] & Hx) (y & [= <-] & Hy)].
      apply (anc_cases idx c q bq Hq) in Hx as [->|(p' & Hp' & _)]; [contradiction | congruence].
Qed.

Lemma FindFork_meet idx v tip q bq :
  idx_ok idx -> is_chain idx v tip -> idx !! q = Some bq ->
  exists r, FindFork idx v (Some q) = Some r /\ meet idx (Some q) (Some tip) r.
Proof.
  intros Hok Hc Hq; unfold FindFork; rewrite Hq; pose proof Hc as (bt & Ht & Hlen & _); unfold Height.
  destruct (Hok tip bt Ht) as (Rt & _), (Hok q bq Hq) as (Rq & _).
  destruct (Z.ltb_spec (Z.of_nat (length v) - 1) (nHeight bq)).
  - destruct (GetAncestor_anc idx q bq (Z.of_nat (length v) - 1) Hok Hq ltac:(lia)) as (a & ba & -> & Ha & Hh & Hanc).
    destruct (FindFork_loop_spec idx v tip (Z.to_nat (nHeight bq + 1)) a ba Hok Hc Ha ltac:(lia)) as (r & -> & Hm).
    exists r; split; [reflexivity|]; eapply (meet_lower_l idx q tip bq bt a ba); eauto; lia.
  - apply (FindFork_loop_spec idx v tip _ q bq); auto; lia.
Qed.

(** ** Replaying headers *)

Section Replay.
Context (GetHash : CPureBlockHeader -> uint256).

Definition header_okb (h : CPureBlockHeader) : bool :=
  in_sb 32 (nVersion h) && (0 <=? nTime h) && (nTime h <? 2 ^ 32) && (0 <=? nBits h) && (nBits h <? 2 ^ 32) &&
  (0 <=? nNonce h) && (nNonce h <? 2 ^ 32).

Definition block_acceptableb (idx : BlockMap) (block : CBlockHeader) : bool :=
  header_okb (pure block) && negb (bool_decide (GetHash (pure block) = hashPrevBlock (pure block))) &&
  match idx !! hashPrevBlock (pure block) with Some pb => nHeight pb + 1 <? 2 ^ 31 | None => true end.

(** The index after adding headers in order. *)
Fixpoint replay (bm : BlockManager) (best : option ptr) (blocks : list CBlockHeader)
  : option (BlockManager * option ptr) :=
  match blocks with
  | [] => Some (bm, best)
  | block :: blocks =>
      assert! block_acceptableb (m_block_index bm) block;
      let! r := AddToBlockIndex GetHash bm block best in
      let '(bm, _, best) := r in replay bm best blocks
  end.

Lemma block_acceptableb_ok idx block : block_acceptableb idx block = true -> block_acceptable GetHash idx block.
Proof.
  unfold block_acceptableb, header_okb, block_acceptable, header_ok.
  rewrite !andb_true_iff, negb_true_iff, bool_decide_eq_false, in_sb_spec, !Z.leb_le, !Z.ltb_lt.
  intros [[H1 H2] H3]; split; [unfold in_u; tauto|]; split; [exact H2|].
  intros pb Hpb; rewrite Hpb in H3; lia.
Qed.

Lemma replay_reachable bm best blocks bm' best' :
  index_reachable GetHash bm best -> replay bm best blocks = Some (bm', best') ->
  index_reachable GetHash bm' best'.
Proof.
  revert bm best; induction blocks as [|block blocks IH]; cbn; intros bm best Hr E; [congruence|].
  destruct (block_acceptableb (m_block_index bm) block) eqn:Ea; [|discriminate].
  destruct (AddToBlockIndex GetHash bm block best) as [[[i h] b]|] eqn:Ed; [|discriminate].
  apply (IH i b); [|exact E]; eapply reach_add; eauto using block_acceptableb_ok.
Qed.
End Replay.

(** A six-header tree used by the witnesses: 1 <- 2 <- 3 <- 4 and 2 <- 5 <- 6, with 3 and 6 in the
    AuxPoW lane.  The stand-in hash reads the nonce. *)
Definition example_hash (h : CPureBlockHeader) : uint256 := [nNonce h].
Definition example_header (version prev n : Z) : CBlockHeader :=
  {| pure := {| nVersion := version; hashPrevBlock := [prev]; hashMerkleRoot := []; nTime := 1000 + n;
                nBits := 545259519; nNonce := n |}; auxpow := None |}.
Definition example_headers : list CBlockHeader :=
  [example_header 0 0 1; example_header 0 1 2; example_header 536871168 2 3; example_header 0 3 4;
   example_header 0 2 5; example_header 536871168 5 6].
Definition empty_manager : BlockManager := {| m_block_index := ∅; m_dirty_blockindex := ∅ |}.
Definition example_state : BlockManager * option ptr :=
  default (empty_manager, None) (replay example_hash empty_manager None example_headers).
Definition example_index : BlockMap := m_block_index (fst example_state).

Lemma example_reachable : index_reachable example_hash (fst example_state) (snd example_state).
Proof.
  apply (replay_reachable example_hash empty_manager None example_headers); [constructor|].
  vm_compute; reflexivity.
Qed.

(** ** The blocks of a branch *)

(** The entries from [p] down to its root, [n] at most. *)
Fixpoint path (n : nat) (idx : BlockMap) (p : ptr) : list CBlockIndex :=
  match n with
  | O => []
  | S n => match idx !! p with
           | None => []
           | Some b => b :: match pprev b with Some q => path n idx q | None => [] end
           end
  end.

Definition lineage (idx : BlockMap) (p : ptr) (b : CBlockIndex) : list CBlockIndex :=
  path (Z.to_nat (nHeight b + 1)) idx p.

Definition proof_value (b : CBlockIndex) : Z := from_option val 0 (GetBlockProof (bi_nBits b)).
Definition total_work (l : list CBlockIndex) : Z := foldr (fun b s => proof_value b + s) 0 l.
Definition auxpow_count (l : list CBlockIndex) : Z :=
  foldr (fun b s => (if bi_SignalsAuxpow b then 1 else 0) + s) 0 l.
Definition time_max (l : list CBlockIndex) : Z := foldr (fun b s => Z.max s (bi_nTime b)) 0 l.

Lemma lineage_step idx p b :
  idx_ok idx -> idx !! p = Some b ->
  lineage idx p b = b :: match pprev b with
                         | Some q => match idx !! q with Some bq => lineage idx q bq | None => [] end
                         | None => [] end.
Proof.
  intros Hok Hp; destruct (Hok p b Hp) as (Hr & Hl & _); unfold lineage.
  replace (Z.to_nat (nHeight b + 1)) with (S (Z.to_nat (nHeight b))) by lia; cbn [path]; rewrite Hp; f_equal.
  destruct (pprev b) as [q|]; [|reflexivity]; destruct Hl as (bq & Hq & Hh & _); rewrite Hq, Hh; reflexivity.
Qed.

Lemma lineage_ind idx (P : ptr -> CBlockIndex -> Prop) :
  idx_ok idx ->
  (forall p b, idx !! p = Some b -> pprev b = None -> P p b) ->
  (forall p b q bq, idx !! p = Some b -> pprev b = Some q -> idx !! q = Some bq -> P q bq -> P p b) ->
  forall p b, idx !! p = Some b -> P p b.
Proof.
  intros Hok H0 HS p b Hp; destruct (Hok p b Hp) as (Hr & _).
  remember (Z.to_nat (nHeight b)) as n eqn:En; revert p b Hp Hr En.
  induction n as [|n IH]; intros p b Hp Hr En; destruct (pprev b) as [q|] eqn:Eq; eauto;
    destruct (entry_pprev idx p b q Hok Hp Eq) as (bq & Hq & Hh); destruct (Hok q bq Hq) as (Hrq & _); [lia|].
  eapply HS; eauto; apply IH; auto; lia.
Qed.

Lemma proof_value_of b w : GetBlockProof (bi_nBits b) = Some w -> proof_value b = val w.
Proof. unfold proof_value; intros ->; reflexivity. Qed.

Lemma lineage_totals idx p b :
  idx_ok idx -> (forall h b, idx !! h = Some b -> data_ok idx b) -> idx !! p = Some b ->
  Z.of_nat (length (lineage idx p b)) = nHeight b + 1 /\
  val (nChainWork b) = wrap 256 (total_work (lineage idx p b)) /\
  nAuxPow b = auxpow_count (lineage idx p b) /\ nTimeMax b = time_max (lineage idx p b).
Proof.
  intros Hok Hdata; revert p b; apply (lineage_ind idx _ Hok).
  - intros p b Hp Ep; destruct (Hdata p b Hp) as (_ & _ & Ha & (w & Hw & Hcw) & Ht & _ & (Hn & _) & _).
    destruct (Hok p b Hp) as (_ & Hl & _); rewrite Ep in Hl.
    rewrite (lineage_step idx p b Hok Hp), Ep; unfold prev_of in *; rewrite Ep in *.
    cbn [total_work auxpow_count time_max foldr length from_option] in *; unfold bi_nTime in *.
    rewrite (proof_value_of b w Hw), Z.add_0_r; repeat split; auto; lia.
  - intros p b q bq Hp Ep Hq (IH1 & IH2 & IH3 & IH4).
    destruct (Hdata p b Hp) as (_ & _ & Ha & (w & Hw & Hcw) & Ht & _ & (Hn & _) & _).
    destruct (entry_pprev idx p b q Hok Hp Ep) as (bq' & Hq' & Hh); simplify_eq.
    rewrite (lineage_step idx p b Hok Hp), Ep, Hq; unfold prev_of in *; rewrite Ep, Hq in *.
    cbn [from_option length] in *.
    change (total_work (b :: lineage idx q bq)) with (proof_value b + total_work (lineage idx q bq)).
    change (auxpow_count (b :: lineage idx q bq))
      with ((if bi_SignalsAuxpow b then 1 else 0) + auxpow_count (lineage idx q bq)).
    change (time_max (b :: lineage idx q bq)) with (Z.max (time_max (lineage idx q bq)) (bi_nTime b)).
    rewrite (proof_value_of b w Hw), Hcw, IH2; repeat split; try lia.
    unfold wrap; rewrite Zplus_mod_idemp_l; f_equal; lia.
Qed.

(** ** Properties *)

(** C12: In every index built by [AddToBlockIndex] from the empty index, adding an acceptable
    header (its hash differs from the parent it names and its height fits an [int]) never fails an
    assertion nor follows a dangling pointer; it keeps every existing entry unchanged, stores the
    header under its hash, keeps every link and counter consistent, and the best header it returns
    has the most work.  Exactly the entries added are marked for the next write to disk. *)
Theorem AddToBlockIndex_preserves_index GetHash bm best block :
  index_reachable GetHash bm best -> block_acceptable GetHash (m_block_index bm) block ->
  exists bm' best',
    AddToBlockIndex GetHash bm block best = Some (bm', GetHash (pure block), best') /\
    index_inv bm' best' /\ m_block_index bm ⊆ m_block_index bm' /\
    m_dirty_blockindex bm' = m_dirty_blockindex bm ∪ (dom (m_block_index bm') ∖ dom (m_block_index bm)) /\
    exists b, m_block_index bm' !! GetHash (pure block) = Some b /\
      (m_block_index bm !! GetHash (pure block) = None -> bi_header b = block).
Proof. intros Hr Hacc; apply AddToBlockIndex_inv; [exact (index_reachable_inv _ _ _ Hr) | exact Hacc]. Qed.

Lemma AddToBlockIndex_preserves_index_witness :
  exists bm' best', AddToBlockIndex example_hash (fst example_state) (example_header 536871168 6 7)
      (snd example_state) = Some (bm', [7], best') /\
    index_inv bm' best' /\ example_index ⊆ m_block_index bm'.
Proof.
  destruct (AddToBlockIndex_preserves_index example_hash (fst example_state) (snd example_state)
    (example_header 536871168 6 7) example_reachable) as (bm' & best' & E & Hi & Hs & _).
  - apply block_acceptableb_ok; vm_compute; reflexivity.
  - exists bm', best'; split; [exact E | split; [exact Hi | exact Hs]].
Defined.

(** C13: The skip-list walk of [GetAncestor] terminates, never trips its assertion, and returns
    exactly the block [nHeight - height] steps back along [pprev], [nullptr] when the height is
    negative or above the block. *)
Theorem GetAncestor_follows_pprev GetHash bm best p b height :
  let idx := m_block_index bm in
  index_reachable GetHash bm best -> idx !! p = Some b ->
  GetAncestor idx p height =
    Some (if (nHeight b <? height) || (height <? 0) then None else back idx p (Z.to_nat (nHeight b - height))).
Proof. intros idx Hr; apply GetAncestor_spec, (index_reachable_inv GetHash bm best Hr). Qed.

Lemma GetAncestor_follows_pprev_witness :
  exists b, example_index !! [4] = Some b /\
    GetAncestor example_index [4] 1 =
    Some (if (nHeight b <? 1) || (1 <? 0) then None else back example_index [4] (Z.to_nat (nHeight b - 1))).
Proof.
  eexists; split; [vm_compute; reflexivity|].
  eapply (GetAncestor_follows_pprev example_hash _ _ _ _ _ example_reachable); vm_compute; reflexivity.
Defined.

(** [GetPreviousBlockForLane] returns the nearest block of the requested lane on the branch
    ending in the block itself, or [nullptr] when there is none at or above [min_height]. *)
Theorem GetPreviousBlockForLane_nearest GetHash bm best p b lane min_height :
  let idx := m_block_index bm in
  index_reachable GetHash bm best -> idx !! p = Some b -> min_height <= nHeight b ->
  exists r, GetPreviousBlockForLane idx p lane min_height = Some r /\
  exists r0, nearest_lane idx (Some p) lane r0 /\
    r = match r0 with
        | Some q => match idx !! q with
                    | Some bq => if min_height <=? nHeight bq then Some q else None
                    | None => None end
        | None => None end.
Proof. intros idx Hr; apply GetPreviousBlockForLane_spec, (index_reachable_inv GetHash bm best Hr). Qed.

Lemma GetPreviousBlockForLane_nearest_witness :
  exists r, GetPreviousBlockForLane example_index [4] true 1 = Some r /\
  exists r0, nearest_lane example_index (Some [4]) true r0 /\
    r = match r0 with
        | Some q => match example_index !! q with
                    | Some bq => if 1 <=? nHeight bq then Some q else None
                    | None => None end
        | None => None end.
Proof.
  eapply (GetPreviousBlockForLane_nearest example_hash _ _ _ _ _ _ example_reachable).
  - vm_compute; reflexivity.
  - vm_compute; discriminate.
Defined.

(** Every entry summarises its branch: [nHeight + 1] blocks, [nChainWork] the sum of their
    block proofs modulo 2^256, [nAuxPow] the number of them in the AuxPoW lane, [nTimeMax] their
    latest time. *)
Theorem index_entry_totals GetHash bm best p b :
  let idx := m_block_index bm in
  index_reachable GetHash bm best -> idx !! p = Some b ->
  Z.of_nat (length (lineage idx p b)) = nHeight b + 1 /\
  val (nChainWork b) = wrap 256 (total_work (lineage idx p b)) /\
  nAuxPow b = auxpow_count (lineage idx p b) /\
  nTimeMax b = time_max (lineage idx p b).
Proof.
  intros idx Hr; destruct (index_reachable_inv GetHash bm best Hr) as (Hok & Hdata & _).
  apply lineage_totals; assumption.
Qed.

Lemma index_entry_totals_witness :
  exists b, example_index !! [6] = Some b /\ nAuxPow b = auxpow_count (lineage example_index [6] b).
Proof.
  eexists; split; [vm_compute; reflexivity|].
  eapply (index_entry_totals example_hash _ _ _ _ example_reachable); vm_compute; reflexivity.
Defined.

(** [GetBlockProof] is defined for every [nBits] and is the expected number of hashes,
    2^256 divided by target + 1, or zero for a negative, overflowing or zero target. *)
Theorem GetBlockProof_exact nbits :
  in_u 32 nbits ->
  exists w, GetBlockProof nbits = Some w /\ wf W256 w /\
    val w = if fNegative (SetCompact nbits) || fOverflow (SetCompact nbits) || (of_compact nbits =? 0) then 0
            else 2 ^ 256 / (of_compact nbits + 1).
Proof. exact (GetBlockProof_spec nbits). Qed.

Lemma GetBlockProof_exact_witness :
  exists w, GetBlockProof 486604799 = Some w /\ val w = 4295032833.
Proof.
  destruct (GetBlockProof_exact 486604799) as (w & Hw & _ & Hv); [unfold in_u; lia|].
  exists w; split; [exact Hw|]; rewrite Hv; vm_compute; reflexivity.
Defined.

(** [LastCommonAncestor] always returns, its assertion holds, and its result is the greatest
    lower bound of the two branches: a block is an ancestor of both arguments exactly when it is an
    ancestor of the result, and the result is [nullptr] exactly when they share none. *)
Theorem LastCommonAncestor_greatest GetHash bm best a b :
  let idx := m_block_index bm in
  index_reachable GetHash bm best -> is_Some (idx !! a) -> is_Some (idx !! b) ->
  exists r, LastCommonAncestor idx a b = Some r /\
    forall c, anc idx c a /\ anc idx c b <-> exists z, r = Some z /\ anc idx c z.
Proof.
  intros idx Hr [ba Ha] [bb Hb]; destruct (index_reachable_inv GetHash bm best Hr) as (Hok & _).
  destruct (LastCommonAncestor_meet idx a b ba bb Hok Ha Hb) as (r & -> & Hm).
  exists r; split; [reflexivity|]; intros c; exact (meet_anc idx _ _ r c Hm).
Qed.

Lemma LastCommonAncestor_greatest_witness :
  exists r, LastCommonAncestor example_index [4] [6] = Some r /\
    forall c, anc example_index c [4] /\ anc example_index c [6] <-> exists z, r = Some z /\ anc example_index c z.
Proof.
  apply (LastCommonAncestor_greatest example_hash _ _ [4] [6] example_reachable);
    eexists; vm_compute; reflexivity.
Defined.

(** C34: Starting from the path of any tip, [SetTip] stops at the first entry that already agrees
    and still leaves exactly the path of the new block; on the result [FindFork] returns the greatest
    common ancestor of its argument and the tip. *)
Theorem SetTip_FindFork_correct GetHash bm best vChain old block p :
  let idx := m_block_index bm in
  index_reachable GetHash bm best -> vChain = [] \/ is_chain idx vChain old ->
  is_Some (idx !! block) -> is_Some (idx !! p) ->
  exists vChain', SetTip idx vChain block = Some vChain' /\ is_chain idx vChain' block /\
    exists r, FindFork idx vChain' (Some p) = Some r /\
      forall c, anc idx c p /\ anc idx c block <-> exists z, r = Some z /\ anc idx c z.
Proof.
  intros idx Hr Hold [b Hb] [bp Hp]; destruct (index_reachable_inv GetHash bm best Hr) as (Hok & _).
  assert (Hcoh : coherent idx vChain).
  { destruct Hold as [->|Hc]; [intros i q Hq; discriminate | eapply is_chain_coherent; exact Hc]. }
  destruct (SetTip_path idx vChain block b Hok Hb Hcoh) as (v' & Hv & Hc); exists v'; split; [exact Hv|].
  split; [exact Hc|]; destruct (FindFork_meet idx v' block p bp Hok Hc Hp) as (r & Hf & Hm).
  exists r; split; [exact Hf|]; intros c; exact (meet_anc idx _ _ r c Hm).
Qed.

Lemma SetTip_FindFork_correct_witness :
  exists vChain', SetTip example_index [] [4] = Some vChain' /\ is_chain example_index vChain' [4] /\
    exists r, FindFork example_index vChain' (Some [6]) = Some r /\
      forall c, anc example_index c [6] /\ anc example_index c [4] <-> exists z, r = Some z /\ anc example_index c z.
Proof.
  apply (SetTip_FindFork_correct example_hash _ _ [] [] [4] [6] example_reachable);
    [left; reflexivity | eexists; vm_compute; reflexivity | eexists; vm_compute; reflexivity].
Defined.
