(* ===== verification/Asert.v ===== *)
(** Target arithmetic of [src/src/pow.cpp]: [CalculateRetargetedTarget], the 288-bit
    [WideTarget] helpers and [CalculateASERT].

    A [WideTarget] is nine 32-bit words, least significant first; the loops over its words are
    maps over the word index.  [CalculateASERT] keeps the machine widths of the source: [int64_t]
    arithmetic goes through [sarith 64], whose [None] is signed overflow, the polynomial is
    evaluated modulo 2^64, and [None] is also a failed [assert]. *)

From S2P Require Import Prelude ArithUint.

#[local] Open Scope Z_scope.
#[local] Open Scope qbit_scope.

(** ** Epoch retarget *)

(** The two [Assume]s are no-ops in release builds; division by a zero timespan throws. *)
Definition CalculateRetargetedTarget (old_target : base_uint) (actual_timespan target_timespan : Z)
    (pow_limit : base_uint) : option base_uint :=
  let actual := arith_uint256 (wrap 64 actual_timespan) in
  let target := arith_uint256 (wrap 64 target_timespan) in
  if EqualTo actual 0 then Some (arith_uint256 0)
  else
    let! quotient := div old_target target in
    let remainder := sub old_target (mul quotient target) in
    let! cap := div pow_limit actual in
    if gtb quotient cap then Some pow_limit
    else
      let retarget := mul quotient actual in
      let! remainder_term := div (mul remainder actual) target in
      if gtb retarget (sub pow_limit remainder_term) then Some pow_limit
      else Some (add retarget remainder_term).

(** ** Wide targets *)

Definition WIDE_TARGET_WIDTH : nat := 9.
Definition WIDE_TARGET_BITS : Z := Z.of_nat WIDE_TARGET_WIDTH * 32.
Definition WideTarget : Type := list Z.
Definition WideTarget_zero : WideTarget := replicate WIDE_TARGET_WIDTH 0.

Definition WideTargetAnySet (value : WideTarget) : bool := negb (bool_decide (value = WideTarget_zero)).

Definition ShiftRightWideTarget (value : WideTarget) (shift : Z) : WideTarget :=
  if WIDE_TARGET_BITS <=? shift then WideTarget_zero
  else
    let k := Z.to_nat (shift / 32) in
    let r := shift mod 32 in
    map (fun i =>
      let n := if (i + k <? WIDE_TARGET_WIDTH)%nat
               then let n := Z.shiftr (get value (i + k)) r in
                    if negb (r =? 0) && (i + k + 1 <? WIDE_TARGET_WIDTH)%nat
                    then Z.lor n (wrap 64 (Z.shiftl (get value (i + k + 1)) (32 - r)))
                    else n
               else 0 in
      wrap 32 n) (seq 0 WIDE_TARGET_WIDTH).

Definition ShiftLeftWideTarget (value : WideTarget) (shift : Z) : WideTarget :=
  if WIDE_TARGET_BITS <=? shift then WideTarget_zero
  else
    let k := Z.to_nat (shift / 32) in
    let r := shift mod 32 in
    map (fun i =>
      let n := if (k <=? i)%nat
               then let n := wrap 64 (Z.shiftl (get value (i - k)) r) in
                    if negb (r =? 0) && (k <? i)%nat
                    then Z.lor n (Z.shiftr (get value (i - k - 1)) (32 - r))
                    else n
               else 0 in
      wrap 32 n) (seq 0 WIDE_TARGET_WIDTH).

Definition LeftShiftWideTargetOverflows (original shifted : WideTarget) (shift : Z) : bool :=
  if WIDE_TARGET_BITS <=? shift then WideTargetAnySet original
  else negb (bool_decide (ShiftRightWideTarget shifted shift = original)).

(** The loop over the eight words of [compact], then [result[8]] from the last carry. *)
Fixpoint MultiplyToWideTarget_loop (words : list Z) (factor carry : Z) : WideTarget :=
  match words with
  | [] => [wrap 32 carry]
  | x :: words =>
      let n := wrap 64 (carry + wrap 64 (x * factor)) in
      wrap 32 n :: MultiplyToWideTarget_loop words factor (Z.shiftr n 32)
  end.

Definition MultiplyToWideTarget (value : base_uint) (factor : Z) : WideTarget :=
  let compact := ArithToUint256 value in
  MultiplyToWideTarget_loop (map (fun i => ReadLE32 (drop (4 * i) compact)) (seq 0 8)) factor 0.

Definition WideTargetToArith (value : WideTarget) : base_uint :=
  UintToArith256 (concat (map (fun i => WriteLE32 (get value i)) (seq 0 8))).

(** ** ASERT *)

(** The cubic approximation of 2^(frac/2^16), in 16.16 fixed point. *)
Definition asert_poly (frac : Z) : Z :=
  wrap 64 (195766423245049 * frac + 971821376 * frac * frac + 5127 * frac * frac * frac + 2 ^ 47).

Definition asert_factor (frac : Z) : Z := wrap 32 (65536 + Z.shiftr (asert_poly frac) 48).

(** The shift by a signed amount, with the overflow flag. *)
Definition shift_target (initial_target : WideTarget) (shifts : Z) : WideTarget * bool :=
  if shifts <=? 0 then (ShiftRightWideTarget initial_target (wrap 64 (- shifts)), false)
  else let s := ShiftLeftWideTarget initial_target (wrap 64 shifts) in
       (s, LeftShiftWideTargetOverflows initial_target s (wrap 64 shifts)).

(** The final clamp to [1 .. powLimit]. *)
Definition clamp_target (shifted_target : WideTarget) (overflow : bool) (powLimit : base_uint) : base_uint :=
  let nextTarget := if overflow || negb (get shifted_target 8 =? 0) then powLimit
                    else WideTargetToArith shifted_target in
  if EqualTo nextTarget 0 then arith_uint256 1
  else if gtb nextTarget powLimit then powLimit
  else nextTarget.

Definition CalculateASERT (refTarget : base_uint) (nPowTargetSpacing nTimeDiff nHeightDiff : Z)
    (powLimit : base_uint) (nHalfLife : Z) : option base_uint :=
  assert! gtb refTarget (arith_uint256 0) && leb refTarget powLimit;
  assert! 0 <=? nHeightDiff;
  assert! 0 <? nHalfLife;
  let! ideal := sarith 64 (nPowTargetSpacing * nHeightDiff) in
  let! drift := sarith 64 (nTimeDiff - ideal) in
  let! magnitude := sarith 64 (Z.abs drift) in
  assert! magnitude <? Z.shiftl 1 (63 - 16);
  let! scaled := sarith 64 (drift * 65536) in
  let exponent := Z.quot scaled nHalfLife in
  let shifts := Z.shiftr exponent 16 in
  let frac := wrap 16 exponent in
  let! whole := sarith 64 (shifts * 65536) in
  let! recomposed := sarith 64 (whole + frac) in
  assert! exponent =? recomposed;
  let factor := asert_factor frac in
  let initial_target := MultiplyToWideTarget refTarget factor in
  let! shifts := sarith 64 (shifts - 16) in
  let '(shifted_target, overflow) := shift_target initial_target shifts in
  Some (clamp_target shifted_target overflow powLimit).

(** ** Reference definitions *)

(** The schedule offset in 1/65536 half-lives. *)
Definition asert_exponent (drift halfLife : Z) : Z := Z.quot (drift * 65536) halfLife.

(** The target before clamping: a negative [Z.shiftl] drops low bits. *)
Definition asert_raw (ref exponent : Z) : Z :=
  Z.shiftl (ref * asert_factor (exponent mod 65536)) (exponent / 65536 - 16).

Definition clamp (lo hi z : Z) : Z := Z.max lo (Z.min hi z).

(** ** The fixed-point factor *)

Lemma asert_poly_small frac :
  in_u 16 frac ->
  asert_poly frac = 195766423245049 * frac + 971821376 * frac * frac + 5127 * frac * frac * frac + 2 ^ 47.
Proof.
  unfold in_u; intros Hf; apply wrap_small.
  assert (H2 : 0 <= frac * frac <= 65535 * 65535) by nia.
  assert (H3 : 0 <= frac * frac * frac <= 65535 * 65535 * 65535) by nia.
  unfold in_u; lia.
Qed.

Lemma asert_poly_range frac : in_u 64 (asert_poly frac).
Proof. apply wrap_range; lia. Qed.

Lemma asert_factor_eq frac : asert_factor frac = 65536 + asert_poly frac / 2 ^ 48.
Proof.
  pose proof (asert_poly_range frac) as R; unfold in_u in R; unfold asert_factor.
  rewrite Z.shiftr_div_pow2 by lia; apply wrap_small; split.
  - pose proof (Z.div_pos (asert_poly frac) (2 ^ 48) ltac:(lia) ltac:(lia)); lia.
  - pose proof (Z.div_lt_upper_bound (asert_poly frac) (2 ^ 48) (2 ^ 16) ltac:(lia) ltac:(lia)); lia.
Qed.

Lemma asert_factor_bounds frac : 65536 <= asert_factor frac < 131072.
Proof.
  pose proof (asert_poly_range frac) as R; unfold in_u in R; rewrite asert_factor_eq.
  pose proof (Z.div_pos (asert_poly frac) (2 ^ 48) ltac:(lia) ltac:(lia)).
  pose proof (Z.div_lt_upper_bound (asert_poly frac) (2 ^ 48) (2 ^ 16) ltac:(lia) ltac:(lia)); lia.
Qed.

Lemma asert_factor_mono f g : in_u 16 f -> in_u 16 g -> f <= g -> asert_factor f <= asert_factor g.
Proof.
  intros Hf Hg Hle; rewrite !asert_factor_eq, !asert_poly_small by assumption; unfold in_u in *.
  apply Z.add_le_mono_l, Z.div_le_mono; [lia|].
  assert (f * f <= g * g) by nia; assert (f * f * f <= g * g * g) by nia; lia.
Qed.

Lemma asert_factor_0 : asert_factor 0 = 65536.
Proof. reflexivity. Qed.

(** ** Wide targets as numbers *)

Lemma WIDE_bits : WIDE_TARGET_BITS = 288.
Proof. reflexivity. Qed.

Lemma wrap_lor32 x y : wrap 32 (Z.lor x (wrap 64 y)) = Z.lor (wrap 32 x) (wrap 32 y).
Proof.
  apply Z.bits_inj'; intros i Hi; rewrite Z.lor_spec, !testbit_wrap, Z.lor_spec, testbit_wrap by lia.
  destruct (Z.ltb_spec i 32), (Z.ltb_spec i 64); try lia; btauto.
Qed.

Lemma wrap_wrap32 y : wrap 32 (wrap 64 y) = wrap 32 y.
Proof. rewrite <- (Z.lor_0_l (wrap 64 y)), wrap_lor32; apply Z.lor_0_l. Qed.

Lemma wrap_shiftl32 x : wrap 32 (Z.shiftl x 32) = 0.
Proof. unfold wrap; rewrite Z.shiftl_mul_pow2 by lia; apply Z.mod_mul; lia. Qed.

Lemma wide_digits_wf (f : nat -> Z) :
  (forall i, in_u 32 (f i)) -> wf WIDE_TARGET_WIDTH (map f (seq 0 WIDE_TARGET_WIDTH)).
Proof.
  intros Hf; split; [rewrite length_map, length_seq; reflexivity|].
  apply limbs_of_get; rewrite length_map, length_seq; intros i Hi; rewrite get_map_seq by exact Hi; apply Hf.
Qed.

Lemma wide_range v : wf WIDE_TARGET_WIDTH v -> in_u 288 (val v).
Proof. exact (val_range WIDE_TARGET_WIDTH v). Qed.

Lemma ShiftRightWideTarget_spec v shift :
  wf WIDE_TARGET_WIDTH v -> 0 <= shift ->
  wf WIDE_TARGET_WIDTH (ShiftRightWideTarget v shift) /\
  val (ShiftRightWideTarget v shift) = Z.shiftr (val v) shift.
Proof.
  intros Hv Hs; unfold ShiftRightWideTarget; rewrite WIDE_bits.
  pose proof (wide_range v Hv) as R; unfold in_u in R; destruct Hv as [Hl Lv].
  destruct (Z.leb_spec 288 shift).
  - split; [exact (wf_zero 9)|]; symmetry; transitivity 0; [|reflexivity].
    rewrite Z.shiftr_div_pow2 by lia; apply Z.div_small.
    pose proof (Z.pow_le_mono_r 2 288 shift ltac:(lia) ltac:(lia)); lia.
  - destruct (shift_index shift Hs) as [Hsplit Hr]; set (k := Z.to_nat (shift / 32)) in *.
    set (r := shift mod 32) in *; split; [apply wide_digits_wf; intros; apply wrap_range; lia|].
    unfold val; rewrite <- Hsplit; apply lval_shr_digits; auto.
    rewrite length_map, length_seq; intros j Hj; rewrite get_map_seq by exact Hj; unfold shr_digit.
    assert (G : forall i, wrap 32 (Z.shiftr (get v i) r) = Z.shiftr (get v i) r)
      by (intros; apply wrap_small, shiftr_range; auto with limbs; lia).
    destruct (Nat.ltb_spec (j + k) WIDE_TARGET_WIDTH).
    + destruct (Z.eqb_spec r 0) as [E|E]; cbn [negb andb].
      * rewrite G, E, Z.sub_0_r, wrap_shiftl32, Z.lor_0_r; reflexivity.
      * destruct (Nat.ltb_spec (j + k + 1) WIDE_TARGET_WIDTH); [rewrite wrap_lor32, G; reflexivity|].
        rewrite G, (get_overflow v (j + k + 1)), Z.shiftl_0_l by lia; symmetry; apply Z.lor_0_r.
    + rewrite (get_overflow v (j + k)), (get_overflow v (j + k + 1)), Z.shiftr_0_l, Z.shiftl_0_l by lia; reflexivity.
Qed.

Lemma ShiftLeftWideTarget_spec v shift :
  wf WIDE_TARGET_WIDTH v -> 0 <= shift ->
  wf WIDE_TARGET_WIDTH (ShiftLeftWideTarget v shift) /\
  val (ShiftLeftWideTarget v shift) = wrap 288 (Z.shiftl (val v) shift).
Proof.
  intros Hv Hs; unfold ShiftLeftWideTarget; rewrite WIDE_bits; destruct Hv as [Hl Lv].
  destruct (Z.leb_spec 288 shift).
  - split; [exact (wf_zero 9)|]; symmetry; transitivity 0; [|reflexivity].
    unfold wrap; rewrite Z.shiftl_mul_pow2 by lia; replace shift with (shift - 288 + 288) by lia.
    rewrite pow2_split, Z.mul_assoc by lia; apply Z.mod_mul; lia.
  - destruct (shift_index shift Hs) as [Hsplit Hr]; set (k := Z.to_nat (shift / 32)) in *.
    set (r := shift mod 32) in *; split; [apply wide_digits_wf; intros; apply wrap_range; lia|].
    unfold val; rewrite <- Hsplit.
    erewrite lval_shl_digits; [rewrite length_map, length_seq; reflexivity | auto..].
    rewrite length_map, length_seq; intros j Hj; rewrite get_map_seq by exact Hj; unfold shl_digit.
    assert (G : forall i, in_u 32 (Z.shiftr (get v i) (32 - r)))
      by (intros; apply shiftr_range; auto with limbs; lia).
    destruct (Nat.leb_spec k j); [|rewrite (proj2 (Nat.leb_gt (k + 1) j)) by lia; reflexivity].
    destruct (Z.eqb_spec r 0) as [E|E]; cbn [negb andb].
    + rewrite wrap_wrap32, E, Z.sub_0_r; case_match; rewrite ?Z.lor_0_r; [|reflexivity].
      replace (Z.shiftr (get v (j - k - 1)) 32) with 0; [symmetry; apply Z.lor_0_r|].
      symmetry; rewrite Z.shiftr_div_pow2 by lia; apply Z.div_small; apply (limbs_get 32); auto; lia.
    + destruct (Nat.ltb_spec k j); [rewrite (proj2 (Nat.leb_le (k + 1) j)) by lia
        | rewrite (proj2 (Nat.leb_gt (k + 1) j)), Z.lor_0_r, wrap_wrap32 by lia; reflexivity].
      rewrite Z.lor_comm, wrap_lor32, (wrap_small 32 _ (G _)); apply Z.lor_comm.
Qed.

Lemma wide_eq_dec_spec v w :
  wf WIDE_TARGET_WIDTH v -> wf WIDE_TARGET_WIDTH w -> bool_decide (v = w) = (val v =? val w).
Proof.
  intros Hv Hw; apply eq_true_iff_eq; rewrite bool_decide_eq_true, Z.eqb_eq.
  split; [congruence | apply (val_inj WIDE_TARGET_WIDTH); assumption].
Qed.

Lemma LeftShiftWideTargetOverflows_spec v shift :
  wf WIDE_TARGET_WIDTH v -> 0 <= shift ->
  LeftShiftWideTargetOverflows v (ShiftLeftWideTarget v shift) shift = (2 ^ 288 <=? Z.shiftl (val v) shift).
Proof.
  intros Hv Hs; unfold LeftShiftWideTargetOverflows, WideTargetAnySet; rewrite WIDE_bits.
  pose proof (wide_range v Hv) as R; unfold in_u in R; rewrite Z.shiftl_mul_pow2 by exact Hs.
  pose proof (pow2_pos shift Hs) as P; destruct (Z.leb_spec 288 shift).
  - pose proof (Z.pow_le_mono_r 2 288 shift ltac:(lia) ltac:(lia)).
    rewrite wide_eq_dec_spec by (auto; exact (wf_zero 9)).
    change (val WideTarget_zero) with 0; destruct (Z.eqb_spec (val v) 0) as [->|]; cbn [negb];
      symmetry; [apply Z.leb_gt | apply Z.leb_le]; nia.
  - destruct (ShiftLeftWideTarget_spec v shift Hv Hs) as [W1 V1].
    destruct (ShiftRightWideTarget_spec _ shift W1 Hs) as [W2 V2].
    rewrite wide_eq_dec_spec, V2, V1, Z.shiftr_div_pow2, Z.shiftl_mul_pow2 by auto.
    destruct (Z.leb_spec (2 ^ 288) (val v * 2 ^ shift)).
    + apply negb_true_iff, Z.eqb_neq; intros E.
      pose proof (wrap_range 288 (val v * 2 ^ shift) ltac:(lia)) as [_ B].
      pose proof (Z.div_mod (wrap 288 (val v * 2 ^ shift)) (2 ^ shift) ltac:(lia)) as D.
      pose proof (Z.mod_pos_bound (wrap 288 (val v * 2 ^ shift)) (2 ^ shift) ltac:(lia)).
      rewrite E in D; nia.
    + rewrite wrap_small, Z.div_mul, Z.eqb_refl by (unfold in_u; nia || lia); reflexivity.
Qed.

Lemma MultiplyToWideTarget_loop_spec words factor carry :
  limbs 32 words -> in_u 32 factor -> in_u 32 carry ->
  wf (S (length words)) (MultiplyToWideTarget_loop words factor carry) /\
  val (MultiplyToWideTarget_loop words factor carry) = lval 32 words * factor + carry.
Proof.
  intros Hw Hf; revert carry; induction words as [|x words IH]; intros carry Hc.
  - cbn; rewrite wrap_small by exact Hc; split; [|unfold val; cbn; lia].
    split; [reflexivity | repeat constructor; apply Hc].
  - apply limbs_cons in Hw as [Hx Hw]; cbn [MultiplyToWideTarget_loop length].
    assert (Hp : in_u 64 (x * factor)) by (unfold in_u in *; nia).
    assert (Hn : in_u 64 (carry + x * factor)) by (unfold in_u in *; nia).
    rewrite (wrap_small 64 (x * factor) Hp), (wrap_small 64 _ Hn), Z.shiftr_div_pow2 by lia.
    set (n := carry + x * factor) in *; unfold in_u in Hn.
    assert (Hq : in_u 32 (n / 2 ^ 32)) by (split; [apply Z.div_pos | apply Z.div_lt_upper_bound]; lia).
    destruct (IH Hw _ Hq) as [[L1 L2] V]; split.
    + split; [cbn [length]; congruence | apply limbs_cons; split; [apply wrap_range; lia | exact L2]].
    + unfold val in *; cbn [lval]; rewrite V; unfold wrap.
      pose proof (Z.div_mod n (2 ^ 32) ltac:(lia)); lia.
Qed.

Lemma MultiplyToWideTarget_spec a factor :
  wf W256 a -> in_u 32 factor ->
  wf WIDE_TARGET_WIDTH (MultiplyToWideTarget a factor) /\ val (MultiplyToWideTarget a factor) = val a * factor.
Proof.
  intros Ha Hf; unfold MultiplyToWideTarget.
  change (map _ (seq 0 8)) with (UintToArith256 (ArithToUint256 a)).
  rewrite (UintToArith256_ArithToUint256 a Ha); destruct Ha as [Hl La].
  destruct (MultiplyToWideTarget_loop_spec a factor 0 La Hf) as [W V]; [red; lia|].
  rewrite Hl in W; split; [exact W | rewrite V; unfold val; lia].
Qed.

Lemma take8_wide v : wf WIDE_TARGET_WIDTH v ->
  map (fun i => WriteLE32 (get v i)) (seq 0 8) = map WriteLE32 (take 8 v) /\
  wf W256 (take 8 v) /\ val v = val (take 8 v) + 2 ^ 256 * get v 8 /\ in_u 32 (get v 8).
Proof.
  intros [Hl Lv]; do 9 (destruct v as [|? v]; [discriminate|]); destruct v; [|discriminate].
  repeat (apply limbs_cons in Lv as [? Lv]); split; [reflexivity|]; split.
  - split; [reflexivity|]; repeat (apply limbs_cons; split; [assumption|]); constructor.
  - split; [|assumption]; unfold val; cbn; lia.
Qed.

Lemma WideTargetToArith_spec v :
  wf WIDE_TARGET_WIDTH v ->
  wf W256 (WideTargetToArith v) /\ val (WideTargetToArith v) = wrap 256 (val v) /\
  (get v 8 =? 0) = (val v <? 2 ^ 256).
Proof.
  intros Hv; destruct (take8_wide v Hv) as (E & W & V & R); unfold WideTargetToArith; rewrite E.
  change (concat (map WriteLE32 (take 8 v))) with (ArithToUint256 (take 8 v)).
  rewrite (UintToArith256_ArithToUint256 _ W); pose proof (val_range256 _ W) as RV.
  unfold in_u in *; split; [exact W|]; split.
  - rewrite V; unfold wrap; rewrite Z.mul_comm, Z.mod_add, Z.mod_small by lia; reflexivity.
  - destruct (Z.eqb_spec (get v 8) 0), (Z.ltb_spec (val v) (2 ^ 256)); lia || nia.
Qed.

(** ** ASERT as a formula *)

Lemma shift_clamp_spec v shifts limit :
  wf WIDE_TARGET_WIDTH v -> in_s 64 shifts -> wf W256 limit -> 1 <= val limit ->
  wf W256 (clamp_target (fst (shift_target v shifts)) (snd (shift_target v shifts)) limit) /\
  val (clamp_target (fst (shift_target v shifts)) (snd (shift_target v shifts)) limit) =
  clamp 1 (val limit) (Z.shiftl (val v) shifts).
Proof.
  intros Hv Hs Hlim H1; pose proof (val_range256 limit Hlim) as R; pose proof (wide_range v Hv) as Rv.
  unfold in_s, in_u in *; cbn in Hs.
  assert (Hgen : exists t o, shift_target v shifts = (t, o) /\ wf WIDE_TARGET_WIDTH t /\
    (o = false -> val t = Z.shiftl (val v) shifts) /\ (o = true -> 2 ^ 288 <= Z.shiftl (val v) shifts)).
  { unfold shift_target; destruct (Z.leb_spec shifts 0).
    - rewrite wrap_small by (unfold in_u; lia); destruct (ShiftRightWideTarget_spec v (- shifts) Hv) as [W V]; [lia|].
      eexists _, _; split; [reflexivity|]; split; [exact W|]; split; [|discriminate].
      intros _; rewrite V, Z.shiftr_opp_r; reflexivity.
    - rewrite wrap_small by (unfold in_u; lia); destruct (ShiftLeftWideTarget_spec v shifts Hv) as [W V]; [lia|].
      eexists _, _; split; [reflexivity|]; split; [exact W|].
      rewrite LeftShiftWideTargetOverflows_spec by (auto; lia); split; intros E; [|apply Z.leb_le, E].
      apply Z.leb_gt in E; rewrite V; apply wrap_small; unfold in_u; split; [apply Z.shiftl_nonneg; lia | lia]. }
  destruct Hgen as (t & o & -> & W & E0 & E1); cbn [fst snd]; unfold clamp_target, clamp.
  destruct (WideTargetToArith_spec t W) as (Wa & Va & Vt).
  assert (Hnext : forall n, wf W256 n ->
    let r := if EqualTo n 0 then arith_uint256 1 else if gtb n limit then limit else n in
    wf W256 r /\ val r = Z.max 1 (Z.min (val limit) (val n))).
  { intros n Wn; cbv zeta; rewrite (EqualTo_spec W256), (gtb_spec W256) by (auto using W256_ge; red; lia).
    pose proof (val_range256 n Wn); unfold in_u in *.
    destruct (Z.eqb_spec (val n) 0); [split; [apply wf_arith; red; lia | rewrite val_arith by (red; lia); lia]|].
    destruct (Z.ltb_spec (val limit) (val n)); split; auto; lia. }
  destruct o; cbn [orb].
  - specialize (E1 eq_refl); destruct (Hnext limit Hlim) as [Wr Vr]; split; [exact Wr | rewrite Vr; lia].
  - specialize (E0 eq_refl); rewrite Vt; pose proof (wide_range t W) as Rt; unfold in_u in Rt.
    destruct (Z.ltb_spec (val t) (2 ^ 256)); cbn [negb].
    + destruct (Hnext _ Wa) as [Wr Vr]; split; [exact Wr|].
      rewrite Vr, Va, <- E0, wrap_small by (unfold in_u; lia); reflexivity.
    + destruct (Hnext limit Hlim) as [Wr Vr]; split; [exact Wr | rewrite Vr; lia].
Qed.

(** What the assertions and the [int64_t] arithmetic of [CalculateASERT] require. *)
Definition asert_domain (ref limit spacing timeDiff heightDiff halfLife : Z) : Prop :=
  0 < ref <= limit /\ 0 <= heightDiff /\ 0 < halfLife < 2 ^ 63 /\
  in_s 64 (spacing * heightDiff) /\ Z.abs (timeDiff - spacing * heightDiff) < 2 ^ 47.

Lemma asert_exponent_bound drift halfLife :
  Z.abs drift < 2 ^ 47 -> 0 < halfLife -> Z.abs (asert_exponent drift halfLife) <= 2 ^ 63 - 65536.
Proof.
  intros Hd Hh; unfold asert_exponent.
  assert (Hle : Z.abs (Z.quot (drift * 65536) halfLife) <= Z.abs (drift * 65536)).
  { rewrite <- Z.quot_abs, (Z.abs_eq halfLife) by lia; apply Z.quot_le_upper_bound; nia. }
  lia.
Qed.

Lemma CalculateASERT_spec ref spacing timeDiff heightDiff limit halfLife :
  wf W256 ref -> wf W256 limit -> asert_domain (val ref) (val limit) spacing timeDiff heightDiff halfLife ->
  exists r, CalculateASERT ref spacing timeDiff heightDiff limit halfLife = Some r /\ wf W256 r /\
    val r = clamp 1 (val limit) (asert_raw (val ref) (asert_exponent (timeDiff - spacing * heightDiff) halfLife)).
Proof.
  intros Wr Wl (Href & Hh & Hhl & Hmul & Hd); unfold CalculateASERT.
  assert (W0 : wf W256 (arith_uint256 0)) by (apply wf_arith; red; lia).
  rewrite (gtb_spec W256), (leb_spec W256), val_arith by (auto; red; lia).
  rewrite (proj2 (Z.ltb_lt 0 (val ref))), (proj2 (Z.leb_le (val ref) (val limit))) by lia; cbn [andb].
  rewrite (proj2 (Z.leb_le 0 heightDiff)), (proj2 (Z.ltb_lt 0 halfLife)), (sarith_ok 64 _ Hmul) by lia.
  set (drift := timeDiff - spacing * heightDiff) in *.
  rewrite (sarith_ok 64 drift), (sarith_ok 64 (Z.abs drift)) by (unfold in_s; cbn; lia); change (Z.shiftl 1 (63 - 16)) with (2 ^ 47).
  rewrite (proj2 (Z.ltb_lt _ _) Hd), (sarith_ok 64 (drift * 65536)) by (unfold in_s; cbn; lia).
  pose proof (asert_exponent_bound drift halfLife Hd ltac:(lia)) as He; unfold asert_exponent in *.
  set (e := Z.quot (drift * 65536) halfLife) in *.
  rewrite Z.shiftr_div_pow2 by lia; change (2 ^ 16) with 65536; unfold wrap at 1 2; change (2 ^ 16) with 65536.
  pose proof (Z.div_mod e 65536 ltac:(lia)) as De; pose proof (Z.mod_pos_bound e 65536 ltac:(lia)) as Me.
  rewrite (sarith_ok 64 (e / 65536 * 65536)) by (unfold in_s; cbn; lia).
  rewrite (sarith_ok 64 (e / 65536 * 65536 + e mod 65536)) by (unfold in_s; cbn; lia).
  replace (e / 65536 * 65536 + e mod 65536) with e by lia; rewrite Z.eqb_refl.
  rewrite (sarith_ok 64 (e / 65536 - 16)) by (unfold in_s; cbn; lia).
  pose proof (asert_factor_bounds (e mod 65536)) as Hf.
  destruct (MultiplyToWideTarget_spec ref (asert_factor (e mod 65536)) Wr) as [Wm Vm]; [unfold in_u; lia|].
  destruct (shift_clamp_spec _ (e / 65536 - 16) limit Wm) as [Wc Vc]; [unfold in_s; cbn; lia | auto | lia|].
  destruct (shift_target _ _) as [t o]; cbn [fst snd] in *.
  eexists; split; [reflexivity|]; split; [exact Wc | rewrite Vc, Vm; reflexivity].
Qed.

(** ** Monotonicity and scaling *)

Lemma shiftl_as_div x s n : 0 <= n -> 0 <= s + n -> Z.shiftl x s = x * 2 ^ (s + n) / 2 ^ n.
Proof.
  intros Hn Hs; pose proof (pow2_pos n Hn); destruct (Z.le_gt_cases 0 s).
  - rewrite Z.shiftl_mul_pow2, pow2_split, Z.mul_assoc, Z.div_mul by lia; reflexivity.
  - rewrite <- (Z.opp_involutive s) at 1; rewrite Z.shiftl_opp_r, Z.shiftr_div_pow2 by lia.
    replace (2 ^ n) with (2 ^ (- s) * 2 ^ (s + n)) by (rewrite <- pow2_split by lia; f_equal; lia).
    pose proof (pow2_pos (s + n) Hs); pose proof (pow2_pos (- s) ltac:(lia)).
    rewrite Z.div_mul_cancel_r by lia; reflexivity.
Qed.

Lemma asert_raw_mono ref e e' : 0 <= ref -> e <= e' -> asert_raw ref e <= asert_raw ref e'.
Proof.
  intros Hr He; unfold asert_raw.
  pose proof (Z.div_le_mono e e' 65536 ltac:(lia) He) as Hq.
  pose proof (Z.mod_pos_bound e 65536 ltac:(lia)); pose proof (Z.mod_pos_bound e' 65536 ltac:(lia)).
  set (n := Z.max 0 (16 - e / 65536)).
  rewrite (shiftl_as_div _ (e / 65536 - 16) n), (shiftl_as_div _ (e' / 65536 - 16) n) by lia.
  apply Z.div_le_mono; [apply pow2_pos; lia|]; rewrite <- !Z.mul_assoc; apply Z.mul_le_mono_nonneg_l; [lia|].
  pose proof (asert_factor_bounds (e mod 65536)); pose proof (asert_factor_bounds (e' mod 65536)).
  pose proof (pow2_pos (e / 65536 - 16 + n) ltac:(lia)).
  destruct (Z.eq_dec (e / 65536) (e' / 65536)) as [E|E].
  - rewrite <- E; apply Z.mul_le_mono_nonneg_r; [lia|]; apply asert_factor_mono; unfold in_u; try lia.
    pose proof (Z.div_mod e 65536 ltac:(lia)); pose proof (Z.div_mod e' 65536 ltac:(lia)); lia.
  - pose proof (Z.pow_le_mono_r 2 (1 + (e / 65536 - 16 + n)) (e' / 65536 - 16 + n) ltac:(lia) ltac:(lia)) as P.
    rewrite pow2_split in P by lia; change (2 ^ 1) with 2 in P; nia.
Qed.

Lemma asert_raw_half ref e : asert_raw ref e = asert_raw ref (e + 65536) / 2.
Proof.
  unfold asert_raw; replace ((e + 65536) mod 65536) with (e mod 65536)
    by (rewrite <- (Z.mod_add e 1 65536) by lia; f_equal; lia).
  replace ((e + 65536) / 65536) with (e / 65536 + 1) by (rewrite <- Z.div_add by lia; f_equal; lia).
  set (n := Z.max 0 (16 - e / 65536)).
  rewrite (shiftl_as_div _ (e / 65536 + 1 - 16) n), (shiftl_as_div _ (e / 65536 - 16) (n + 1)) by lia.
  replace (e / 65536 - 16 + (n + 1)) with (e / 65536 + 1 - 16 + n) by lia.
  pose proof (pow2_pos n ltac:(lia)); rewrite (pow2_split n 1), Z.div_div by lia; reflexivity.
Qed.

Lemma asert_raw_0 ref : asert_raw ref 0 = ref.
Proof.
  unfold asert_raw; change (0 mod 65536) with 0; rewrite asert_factor_0; change (0 / 65536 - 16) with (- (16)).
  rewrite Z.shiftl_opp_r, Z.shiftr_div_pow2 by lia; apply Z.div_mul; lia.
Qed.

Lemma asert_exponent_mono d d' h : 0 < h -> d <= d' -> asert_exponent d h <= asert_exponent d' h.
Proof. intros; apply Z.quot_le_mono; lia. Qed.

(** C++ division truncates towards zero, so a whole half-life shifts the exponent by 65536 only
    when both offsets are on the same side of the schedule. *)
Lemma asert_exponent_half d h :
  0 < h -> 0 <= d \/ d + h <= 0 -> asert_exponent (d + h) h = asert_exponent d h + 65536.
Proof.
  intros Hh Hd; unfold asert_exponent.
  replace ((d + h) * 65536) with (d * 65536 + 65536 * h) by ring.
  apply Z.quot_add; [lia|]; nia.
Qed.

(** ** Epoch retarget as a formula *)

Lemma retarget_split old a t : 0 < t -> old * a / t = old / t * a + old mod t * a / t.
Proof.
  intros Ht; pose proof (Z.div_mod old t ltac:(lia)) as D.
  replace (old * a) with (old mod t * a + old / t * a * t) by (rewrite D at 3; ring).
  rewrite Z.div_add by lia; lia.
Qed.

Lemma div_exact W a b : wf W a -> wf W b -> val b <> 0 -> exists q, div a b = Some q /\ wf W q /\ val q = val a / val b.
Proof.
  intros Wa Wb Hb; pose proof (div_spec W a b Wa Wb) as D; destruct (div a b) as [q|]; [|contradiction].
  exists q; split; [reflexivity|]; apply D.
Qed.

Lemma CalculateRetargetedTarget_spec old actual timespan limit :
  wf W256 old -> wf W256 limit -> 0 <= actual < 2 ^ 63 -> 0 < timespan < 2 ^ 63 -> actual <= val limit ->
  exists r, CalculateRetargetedTarget old actual timespan limit = Some r /\ wf W256 r /\
    val r = Z.min (val limit) (val old * actual / timespan).
Proof.
  intros Wo Wl Ha Ht Hal; unfold CalculateRetargetedTarget.
  rewrite !wrap_small by (unfold in_u; lia).
  assert (WA : wf W256 (arith_uint256 actual)) by (apply wf_arith; unfold in_u; lia).
  assert (WT : wf W256 (arith_uint256 timespan)) by (apply wf_arith; unfold in_u; lia).
  assert (VA : val (arith_uint256 actual) = actual) by (apply val_arith; unfold in_u; lia).
  assert (VT : val (arith_uint256 timespan) = timespan) by (apply val_arith; unfold in_u; lia).
  pose proof (val_range256 old Wo) as Ro; pose proof (val_range256 limit Wl) as Rl; unfold in_u in Ro, Rl.
  rewrite (EqualTo_spec W256), VA by (auto using W256_ge; red; lia).
  destruct (Z.eqb_spec actual 0) as [->|Hne].
  { eexists; split; [reflexivity|]; split; [apply wf_arith; red; lia|].
    rewrite val_arith, Z.mul_0_r, Z.div_0_l by (red; lia || lia); lia. }
  destruct (div_exact W256 old _ Wo WT) as (q & -> & Wq & Vq); [lia|].
  destruct (div_exact W256 limit _ Wl WA) as (cap & -> & Wc & Vc); [lia|].
  rewrite VT in Vq; rewrite VA in Vc; rewrite (gtb_spec W256), Vq, Vc by auto.
  pose proof (Z.div_mod (val old) timespan ltac:(lia)) as Dq.
  pose proof (Z.mod_pos_bound (val old) timespan ltac:(lia)) as Mq.
  pose proof (Z.div_mod (val limit) actual ltac:(lia)) as Dc.
  pose proof (Z.mod_pos_bound (val limit) actual ltac:(lia)) as Mc.
  pose proof (Z.div_pos (val old) timespan ltac:(lia) ltac:(lia)) as Pq.
  rewrite (retarget_split (val old) actual timespan) by lia.
  set (Q := val old / timespan) in *; set (R := val old mod timespan) in *.
  assert (0 <= R * actual / timespan < actual)
    by (split; [apply Z.div_pos | apply Z.div_lt_upper_bound]; nia).
  destruct (Z.ltb_spec (val limit / actual) Q); [exists limit; repeat split; try apply Wl; nia|].
  assert (HQA : 0 <= Q * actual <= val limit) by nia.
  assert (VR : val (sub old (mul q (arith_uint256 timespan))) = R).
  { rewrite (val_sub W256), (val_mul W256), Vq, VT by auto using wf_mul.
    change (32 * Z.of_nat W256) with 256; rewrite (wrap_small 256 (Q * timespan)) by (unfold in_u; nia).
    rewrite wrap_small by (unfold in_u; nia); nia. }
  assert (VM : val (mul (sub old (mul q (arith_uint256 timespan))) (arith_uint256 actual)) = R * actual).
  { rewrite (val_mul W256), VR, VA by auto using wf_mul, wf_sub; apply wrap_small.
    change (32 * Z.of_nat W256) with 256; unfold in_u; nia. }
  destruct (div_exact W256 (mul (sub old (mul q (arith_uint256 timespan))) (arith_uint256 actual)) _
    ltac:(auto using wf_mul, wf_sub) WT) as (t & -> & Wt & Vt); [lia|]; rewrite VM, VT in Vt.
  rewrite (gtb_spec W256), (val_mul W256 q), (val_sub W256 limit), Vq, VA, Vt by auto using wf_mul, wf_sub.
  change (32 * Z.of_nat W256) with 256.
  rewrite (wrap_small 256 (Q * actual)), (wrap_small 256 (val limit - _)) by (unfold in_u; lia).
  destruct (Z.ltb_spec (val limit - R * actual / timespan) (Q * actual)).
  - exists limit; repeat split; try apply Wl; lia.
  - eexists; split; [reflexivity|]; split; [auto using wf_add, wf_mul|].
    rewrite (val_add W256), (val_mul W256 q), Vq, VA, Vt by auto using wf_mul.
    change (32 * Z.of_nat W256) with 256; rewrite (wrap_small 256 (Q * actual)), wrap_small by (unfold in_u; lia); lia.
Qed.

(** ** Properties *)

(** C9: Inside the domain its assertions demand, [CalculateASERT] always returns: no assertion
    fails, no [int64_t] operation overflows, and the result is exactly the reference target scaled
    by the fixed-point factor of the schedule offset, shifted, and clamped to 1 .. powLimit. *)
Theorem CalculateASERT_exact ref spacing timeDiff heightDiff limit halfLife :
  wf W256 ref -> wf W256 limit -> asert_domain (val ref) (val limit) spacing timeDiff heightDiff halfLife ->
  exists r, CalculateASERT ref spacing timeDiff heightDiff limit halfLife = Some r /\ wf W256 r /\
    val r = clamp 1 (val limit) (asert_raw (val ref) (asert_exponent (timeDiff - spacing * heightDiff) halfLife)).
Proof. exact (CalculateASERT_spec ref spacing timeDiff heightDiff limit halfLife). Qed.

Lemma CalculateASERT_exact_witness :
  exists r, CalculateASERT (arith_uint256 1000000) 60 7200 0 (arith_uint256 (2 ^ 60)) 7200 = Some r /\ val r = 2000000.
Proof.
  destruct (CalculateASERT_exact (arith_uint256 1000000) 60 7200 0 (arith_uint256 (2 ^ 60)) 7200) as (r & E & _ & V).
  - apply wf_arith; red; lia.
  - apply wf_arith; red; lia.
  - rewrite !val_arith by (red; lia); repeat split; vm_compute; congruence.
  - exists r; split; [exact E | rewrite V; vm_compute; reflexivity].
Defined.

(** ASERT moves the target in the right direction: between two blocks measured from the same
    anchor, the one further behind schedule never gets a smaller target. *)
Theorem CalculateASERT_monotone ref limit halfLife spacing t h spacing' t' h' :
  wf W256 ref -> wf W256 limit ->
  asert_domain (val ref) (val limit) spacing t h halfLife ->
  asert_domain (val ref) (val limit) spacing' t' h' halfLife ->
  t - spacing * h <= t' - spacing' * h' ->
  exists r r', CalculateASERT ref spacing t h limit halfLife = Some r /\
    CalculateASERT ref spacing' t' h' limit halfLife = Some r' /\ val r <= val r'.
Proof.
  intros Wr Wl D D' Hle; destruct (CalculateASERT_spec _ _ _ _ _ _ Wr Wl D) as (r & E & _ & V).
  destruct (CalculateASERT_spec _ _ _ _ _ _ Wr Wl D') as (r' & E' & _ & V'); exists r, r'.
  split; [exact E | split; [exact E'|]]; rewrite V, V'; unfold clamp.
  apply Z.max_le_compat_l, Z.min_le_compat_l, asert_raw_mono; [destruct D as ((? & _) & _); lia|].
  apply asert_exponent_mono; [apply D | exact Hle].
Qed.

Lemma CalculateASERT_monotone_witness :
  exists r r', CalculateASERT (arith_uint256 1000000) 60 100 1 (arith_uint256 (2 ^ 60)) 7200 = Some r /\
    CalculateASERT (arith_uint256 1000000) 60 100 0 (arith_uint256 (2 ^ 60)) 7200 = Some r' /\ val r <= val r'.
Proof.
  apply CalculateASERT_monotone; try (apply wf_arith; red; lia);
    rewrite ?val_arith by (red; lia); repeat split; vm_compute; congruence.
Defined.

(** ASERT has the stated fixed point and half-life: on schedule the target is the anchor's
    target, and a block one half-life later than another on the same side of the schedule has,
    unless it is clamped to the limit, a target whose half (never below 1) is the other's. *)
Theorem CalculateASERT_half_life ref limit halfLife spacing t h :
  wf W256 ref -> wf W256 limit ->
  asert_domain (val ref) (val limit) spacing t h halfLife ->
  asert_domain (val ref) (val limit) spacing (t + halfLife) h halfLife ->
  0 <= t - spacing * h \/ t - spacing * h + halfLife <= 0 ->
  exists r r', CalculateASERT ref spacing t h limit halfLife = Some r /\
    CalculateASERT ref spacing (t + halfLife) h limit halfLife = Some r' /\
    (val r' < val limit -> val r = Z.max 1 (val r' / 2)) /\
    (t = spacing * h -> val r = val ref).
Proof.
  intros Wr Wl D D' Hside; destruct (CalculateASERT_spec _ _ _ _ _ _ Wr Wl D) as (r & E & _ & V).
  destruct (CalculateASERT_spec _ _ _ _ _ _ Wr Wl D') as (r' & E' & _ & V'); exists r, r'.
  split; [exact E | split; [exact E'|]]; destruct D as (Href & _ & Hhl & _).
  replace (t + halfLife - spacing * h) with (t - spacing * h + halfLife) in V' by lia.
  rewrite asert_exponent_half in V' by (auto; lia); split.
  - rewrite V, V', (asert_raw_half (val ref) (asert_exponent _ _)); unfold clamp.
    set (x := asert_raw _ _); intros Hlt; pose proof (Z.div_mod x 2 ltac:(lia)); pose proof (Z.mod_pos_bound x 2 ltac:(lia)).
    destruct (Z.le_gt_cases x 1) as [Hx|Hx]; [|replace (Z.max 1 (Z.min (val limit) x)) with x by lia; lia].
    rewrite (Z.max_l 1 (Z.min (val limit) x)) by lia; change (1 / 2) with 0; lia.
  - intros ->; rewrite V, Z.sub_diag; change (asert_exponent 0 halfLife) with (Z.quot 0 halfLife).
    rewrite Z.quot_0_l, asert_raw_0 by lia; unfold clamp; lia.
Qed.

Lemma CalculateASERT_half_life_witness :
  exists r r', CalculateASERT (arith_uint256 1000000) 60 600 10 (arith_uint256 (2 ^ 60)) 7200 = Some r /\
    CalculateASERT (arith_uint256 1000000) 60 7800 10 (arith_uint256 (2 ^ 60)) 7200 = Some r' /\
    (val r' < val (arith_uint256 (2 ^ 60)) -> val r = Z.max 1 (val r' / 2)) /\
    (600 = 60 * 10 -> val r = val (arith_uint256 1000000)).
Proof.
  apply (CalculateASERT_half_life (arith_uint256 1000000) (arith_uint256 (2 ^ 60)) 7200 60 600 10);
    try (apply wf_arith; red; lia); rewrite ?val_arith by (red; lia);
    [repeat split; vm_compute; congruence | repeat split; vm_compute; congruence | left; lia].
Defined.

(** The overflow-avoiding split of [CalculateRetargetedTarget] computes the plain formula
    min(limit, floor(old * actual / target)) for every old target, without losing a bit. *)
Theorem CalculateRetargetedTarget_exact old actual timespan limit :
  wf W256 old -> wf W256 limit -> 0 <= actual < 2 ^ 63 -> 0 < timespan < 2 ^ 63 -> actual <= val limit ->
  exists r, CalculateRetargetedTarget old actual timespan limit = Some r /\ wf W256 r /\
    val r = Z.min (val limit) (val old * actual / timespan).
Proof. exact (CalculateRetargetedTarget_spec old actual timespan limit). Qed.

Lemma CalculateRetargetedTarget_exact_witness :
  exists r, CalculateRetargetedTarget (arith_uint256 (2 ^ 50 + 7)) 700 600 (arith_uint256 (2 ^ 60)) = Some r /\
    val r = (2 ^ 50 + 7) * 700 / 600.
Proof.
  destruct (CalculateRetargetedTarget_exact (arith_uint256 (2 ^ 50 + 7)) 700 600 (arith_uint256 (2 ^ 60)))
    as (r & E & _ & V); try (apply wf_arith; red; lia); try lia.
  - rewrite val_arith by (red; lia); lia.
  - exists r; split; [exact E | rewrite V; vm_compute; reflexivity].
Defined.
