(* ===== verification/Pow.v ===== *)
(** Proof-of-work rules: the difficulty selection and the proof-of-work check of
    [src/src/pow.cpp], on the block index of [Chain.v] and the target arithmetic of [Asert.v].

    A [const CBlockIndex*] is a key of the index, a [const CBlockHeader*] an optional header.
    [None] is a failed assertion, a null dereference, a division by zero or a signed overflow;
    [std::optional] results ([DeriveTarget]) are an inner [option]. *)

From stdpp Require Import gmap.
From S2P Require Import Prelude ArithUint Params Version Primitives Chain Asert.

#[local] Open Scope Z_scope.
#[local] Open Scope qbit_scope.

(** ** The proof-of-work check *)

Definition DeriveTarget (bits : Z) (pow_limit : uint256) : option base_uint :=
  let c := SetCompact bits in
  if fNegative c || EqualTo (target c) 0 || fOverflow c || gtb (target c) (UintToArith256 pow_limit)
  then None else Some (target c).

Definition CheckProofOfWorkImpl (hash : uint256) (bits : Z) (params : Params) : bool :=
  match DeriveTarget bits (powLimit params) with
  | None => false
  | Some bnTarget => if gtb (UintToArith256 hash) bnTarget then false else true
  end.

(** [EnableFuzzDeterminism] is a build flag of the fuzzers. *)
Definition CheckProofOfWork (EnableFuzzDeterminism : bool) (hash : uint256) (bits : Z) (params : Params) : bool :=
  if EnableFuzzDeterminism then Z.land (get hash 31) 0x80 =? 0
  else CheckProofOfWorkImpl hash bits params.

(** ** Lanes *)

Definition GetCadenceTargetSpacing (params : Params) (auxpow : bool) : Z :=
  if auxpow && (0 <? nPowTargetSpacingAuxPow params) then nPowTargetSpacingAuxPow params
  else if negb auxpow && (0 <? nPowTargetSpacingLegacy params) then nPowTargetSpacingLegacy params
  else nPowTargetSpacing params.

Definition IsCadenceActiveAfter (idx : BlockMap) (pindexPrev : option ptr) (params : Params) : option bool :=
  let! next_height := match pindexPrev with
                      | None => Some 0
                      | Some p => let! b := idx !! p in sarith 32 (nHeight b + 1) end in
  Some (CadenceActiveAtHeight params next_height).

Definition GetNextBlockIsAuxpow (pindexLast : CBlockIndex) (pblock : option CBlockHeader) : bool :=
  match pblock with
  | Some block => Version.IsAuxpowVersion (nVersion (pure block))
  | None => Version.IsAuxpowVersion (bi_nVersion pindexLast)
  end.

(** The candidate's time is past the parent's by more than twice the spacing. *)
Definition min_difficulty_time (pindexLast : CBlockIndex) (pblock : option CBlockHeader) (target_spacing : Z)
  : option bool :=
  match pblock with
  | None => Some false
  | Some block =>
      let! grace := sarith 64 (target_spacing * 2) in
      let! limit := sarith 64 (GetBlockTime pindexLast + grace) in
      Some (limit <? nTime (pure block))
  end.

(** ** Epoch retarget *)

(** The height of the first block of the period that ends in [b]. *)
Definition period_start (params : Params) (b : CBlockIndex) : option Z :=
  let! interval := DifficultyAdjustmentInterval params in
  let! back := sarith 64 (interval - 1) in
  let! first := sarith 64 (nHeight b - back) in
  Some (swrap 32 first).

Definition CalculateNextWorkRequiredLegacy (idx : BlockMap) (pindexLast : ptr) (nFirstBlockTime : Z) (params : Params)
  : option Z :=
  let! b := idx !! pindexLast in
  let! nActualTimespan := sarith 64 (GetBlockTime b - nFirstBlockTime) in
  let quarter := Z.quot (nPowTargetTimespan params) 4 in
  let nActualTimespan := if nActualTimespan <? quarter then quarter else nActualTimespan in
  let! fourfold := sarith 64 (nPowTargetTimespan params * 4) in
  let nActualTimespan := if fourfold <? nActualTimespan then fourfold else nActualTimespan in
  let! old_bits :=
    if enforce_BIP94 params then
      let! nHeightFirst := period_start params b in
      let! pindexFirst := mjoin (GetAncestor idx pindexLast nHeightFirst) in
      let! bf := idx !! pindexFirst in
      Some (bi_nBits bf)
    else Some (bi_nBits b) in
  let! bnNew := CalculateRetargetedTarget (target (SetCompact old_bits)) nActualTimespan
                  (nPowTargetTimespan params) (UintToArith256 (powLimit params)) in
  GetCompact bnNew false.

(** The loop that skips minimum-difficulty blocks; it ends at the root at the latest. *)
Fixpoint skip_min_difficulty (fuel : nat) (idx : BlockMap) (pindex : ptr) (interval limit_bits : Z) : option ptr :=
  let! b := idx !! pindex in
  match pprev b with
  | None => Some pindex
  | Some prev =>
      let! phase := srem 64 (nHeight b) interval in
      if negb (phase =? 0) && (bi_nBits b =? limit_bits)
      then match fuel with O => None | S fuel => skip_min_difficulty fuel idx prev interval limit_bits end
      else Some pindex
  end.

Definition GetNextWorkRequiredLegacy (idx : BlockMap) (pindexLast : ptr) (pblock : option CBlockHeader)
    (params : Params) : option Z :=
  let! nProofOfWorkLimit := GetCompact (UintToArith256 (powLimit params)) false in
  let! cadence_active := IsCadenceActiveAfter idx (Some pindexLast) params in
  let! b := idx !! pindexLast in
  let! next_height := sarith 32 (nHeight b + 1) in
  let! interval := DifficultyAdjustmentInterval params in
  let! phase := srem 64 next_height interval in
  if negb (phase =? 0) then
    if fPowAllowMinDifficultyBlocks params then
      let next_block_is_auxpow := cadence_active && GetNextBlockIsAuxpow b pblock in
      let target_spacing := if cadence_active then GetCadenceTargetSpacing params next_block_is_auxpow
                            else nPowTargetSpacing params in
      let! late := min_difficulty_time b pblock target_spacing in
      if late then Some nProofOfWorkLimit
      else
        let! pindex := skip_min_difficulty (Z.to_nat (nHeight b)) idx pindexLast interval nProofOfWorkLimit in
        let! bq := idx !! pindex in
        Some (bi_nBits bq)
    else Some (bi_nBits b)
  else
    let! nHeightFirst := period_start params b in
    assert! 0 <=? nHeightFirst;
    let! pindexFirst := mjoin (GetAncestor idx pindexLast nHeightFirst) in
    let! bf := idx !! pindexFirst in
    CalculateNextWorkRequiredLegacy idx pindexLast (GetBlockTime bf) params.

(** ** ASERT *)

Record ASERTHeaderState := { state_nHeight : Z; state_nTime : Z; state_nAuxPow : Z }.

Definition GetASERTAnchorBits (params : Params) (auxpow : bool) : Z :=
  let anchor := asertAnchorParams params in
  if auxpow && negb (anchor_nBitsAuxPow anchor =? 0) then anchor_nBitsAuxPow anchor
  else if negb auxpow && negb (anchor_nBitsLegacy anchor =? 0) then anchor_nBitsLegacy anchor
  else anchor_nBits anchor.

Definition GetASERTHeaderState (pindex : CBlockIndex) : ASERTHeaderState :=
  {| state_nHeight := nHeight pindex; state_nTime := GetBlockTime pindex; state_nAuxPow := nAuxPow pindex |}.

Definition GetASERTHeightDiff (pindexPrev : ASERTHeaderState) (auxpow : bool) (params : Params) : option Z :=
  let anchor := asertAnchorParams params in
  assert! anchor_nHeight anchor <=? state_nHeight pindexPrev;
  assert! anchor_nAuxPow anchor <=? state_nAuxPow pindexPrev;
  let nAuxPowDiff := wrap 64 (state_nAuxPow pindexPrev - anchor_nAuxPow anchor) in
  assert! nAuxPowDiff <=? INT64_MAX;
  if auxpow then Some nAuxPowDiff
  else let! d := sarith 64 (state_nHeight pindexPrev - anchor_nHeight anchor) in
       sarith 64 (d - nAuxPowDiff).

(** The overload for the pre-cadence single lane. *)
Definition GetNextASERTWorkRequired_single (pindexPrev : CBlockIndex) (params : Params) : option Z :=
  let anchor := asertAnchorParams params in
  assert! 0 <? anchor_nBits anchor;
  assert! 0 <? nASERTHalfLife params;
  if nHeight pindexPrev <? anchor_nHeight anchor then Some (anchor_nBits anchor)
  else
    let! nTimeDiff := sarith 64 (GetBlockTime pindexPrev - anchor_nBlockTime anchor) in
    let! nHeightDiff := sarith 32 (nHeight pindexPrev - anchor_nHeight anchor) in
    let! next := CalculateASERT (target (SetCompact (anchor_nBits anchor))) (nPowTargetSpacing params)
                   nTimeDiff nHeightDiff (UintToArith256 (powLimit params)) (nASERTHalfLife params) in
    GetCompact next false.

Definition GetNextASERTWorkRequired (pindexPrev : option ASERTHeaderState) (next_block_is_auxpow : bool)
    (params : Params) : option Z :=
  let anchor := asertAnchorParams params in
  let anchor_bits := GetASERTAnchorBits params next_block_is_auxpow in
  let target_spacing := GetCadenceTargetSpacing params next_block_is_auxpow in
  assert! 0 <? anchor_bits;
  assert! 0 <? target_spacing;
  assert! 0 <? nASERTHalfLife params;
  match pindexPrev with
  | None => Some anchor_bits
  | Some s =>
      if state_nHeight s <? anchor_nHeight anchor then Some anchor_bits
      else
        let! nTimeDiff := sarith 64 (state_nTime s - anchor_nBlockTime anchor) in
        let! nHeightDiff := GetASERTHeightDiff s next_block_is_auxpow params in
        let! next := CalculateASERT (target (SetCompact anchor_bits)) target_spacing nTimeDiff nHeightDiff
                       (UintToArith256 (powLimit params)) (nASERTHalfLife params) in
        GetCompact next false
  end.

(** ** Difficulty selection *)

Definition GetNextWorkRequired (idx : BlockMap) (pindexLast : ptr) (pblock : option CBlockHeader) (params : Params)
  : option Z :=
  let! b := idx !! pindexLast in
  if fPowNoRetargeting params then Some (bi_nBits b)
  else
    let! cadence_active := IsCadenceActiveAfter idx (Some pindexLast) params in
    let next_block_is_auxpow := cadence_active && GetNextBlockIsAuxpow b pblock in
    let target_spacing := if cadence_active then GetCadenceTargetSpacing params next_block_is_auxpow
                          else nPowTargetSpacing params in
    let! nProofOfWorkLimit := GetCompact (UintToArith256 (powLimit params)) false in
    let! late := if fPowUseASERT params && fPowAllowMinDifficultyBlocks params
                 then min_difficulty_time b pblock target_spacing else Some false in
    if late then Some nProofOfWorkLimit
    else if negb (fPowUseASERT params) then GetNextWorkRequiredLegacy idx pindexLast pblock params
    else if negb cadence_active then GetNextASERTWorkRequired_single b params
    else
      let! same := GetPreviousBlockForLane idx pindexLast next_block_is_auxpow
                     (anchor_nHeight (asertAnchorParams params)) in
      match same with
      | None => GetNextASERTWorkRequired None next_block_is_auxpow params
      | Some p => let! bp := idx !! p in
                  GetNextASERTWorkRequired (Some (GetASERTHeaderState bp)) next_block_is_auxpow params
      end.

(** [PermittedDifficultyTransition]: the check on adjacent headers used before their context is known. *)
Definition expected_single_lane_bits (params : Params) (prev_height old_block_time : Z) : option Z :=
  let anchor := asertAnchorParams params in
  if anchor_nHeight anchor <=? prev_height then
    let! n_time_diff := sarith 64 (old_block_time - anchor_nBlockTime anchor) in
    let! n_height_diff := sarith 64 (prev_height - anchor_nHeight anchor) in
    let! next := CalculateASERT (target (SetCompact (anchor_nBits anchor))) (nPowTargetSpacing params)
                   n_time_diff n_height_diff (UintToArith256 (powLimit params)) (nASERTHalfLife params) in
    GetCompact next false
  else Some (anchor_nBits anchor).

Definition PermittedASERTTransition (params : Params) (height old_nbits new_nbits : Z)
    (old_block_time new_block_time : option Z) : option bool :=
  let cadence_active := CadenceActiveAtHeight params (swrap 32 height) in
  match DeriveTarget old_nbits (powLimit params), DeriveTarget new_nbits (powLimit params) with
  | Some old_target, Some new_target =>
      let! pow_limit_nbits := GetCompact (UintToArith256 (powLimit params)) false in
      match old_block_time, new_block_time with
      | Some old_time, Some new_time =>
          if negb cadence_active && (0 <? height) then
            let! late := if fPowAllowMinDifficultyBlocks params then
                           let! grace := sarith 64 (nPowTargetSpacing params * 2) in
                           let! limit := sarith 64 (old_time + grace) in
                           Some (limit <? new_time)
                         else Some false in
            if late then Some (new_nbits =? pow_limit_nbits)
            else let! expected_nbits := expected_single_lane_bits params (height - 1) old_time in
                 Some (new_nbits =? expected_nbits)
          else if cadence_active then Some true
          else if fPowAllowMinDifficultyBlocks params && (old_nbits =? pow_limit_nbits) then Some true
          else Some (geb new_target (shr old_target 1))
      | _, _ =>
          if cadence_active then Some true
          else if fPowAllowMinDifficultyBlocks params && (old_nbits =? pow_limit_nbits) then Some true
          else Some (geb new_target (shr old_target 1))
      end
  | _, _ => Some false
  end.

(** A bound of the epoch transition, rounded through the compact encoding. *)
Definition rounded_retarget (params : Params) (old_nbits timespan : Z) : option base_uint :=
  let! t := CalculateRetargetedTarget (target (SetCompact old_nbits)) timespan (nPowTargetTimespan params)
              (UintToArith256 (powLimit params)) in
  let! c := GetCompact t false in
  Some (target (SetCompact c)).

Definition PermittedDifficultyTransition (params : Params) (height old_nbits new_nbits : Z)
    (old_block_time new_block_time : option Z) : option bool :=
  if fPowNoRetargeting params then Some true
  else if fPowUseASERT params
  then PermittedASERTTransition params height old_nbits new_nbits old_block_time new_block_time
  else if fPowAllowMinDifficultyBlocks params then Some true
  else
    let! interval := DifficultyAdjustmentInterval params in
    let! phase := srem 64 height interval in
    if phase =? 0 then
      let smallest_timespan := Z.quot (nPowTargetTimespan params) 4 in
      let! largest_timespan := sarith 64 (nPowTargetTimespan params * 4) in
      let observed_new_target := target (SetCompact new_nbits) in
      let! maximum_new_target := rounded_retarget params old_nbits largest_timespan in
      if ltb maximum_new_target observed_new_target then Some false
      else
        let! minimum_new_target := rounded_retarget params old_nbits smallest_timespan in
        if gtb minimum_new_target observed_new_target then Some false else Some true
    else Some (old_nbits =? new_nbits).

(** ** The proof-of-work check as arithmetic *)

Definition uint256_ok (b : uint256) : Prop := limbs 8 b /\ length b = 32%nat.

(** The number a [uint256] denotes. *)
Definition u256 (b : uint256) : Z := lval 8 b.

Lemma UintToArith256_u256 b : uint256_ok b -> wf W256 (UintToArith256 b) /\ val (UintToArith256 b) = u256 b.
Proof. intros [Lb Hl]; exact (UintToArith256_spec b Lb Hl). Qed.

Lemma u256_range b : uint256_ok b -> in_u 256 (u256 b).
Proof. intros Hb; destruct (UintToArith256_u256 b Hb) as [W <-]; apply val_range256, W. Qed.

Lemma of_compact_nonneg c : in_u 32 c -> 0 <= of_compact c.
Proof.
  unfold in_u, of_compact; intros Hc; pose proof (Z.mod_pos_bound c (2 ^ 23) ltac:(lia)).
  case_match; [apply Z.div_pos | apply Z.mul_nonneg_nonneg]; lia.
Qed.

Lemma DeriveTarget_spec c limit :
  in_u 32 c -> uint256_ok limit ->
  DeriveTarget c limit = if negb (fNegative (SetCompact c)) && (0 <? of_compact c) && (of_compact c <=? u256 limit)
                         then Some (target (SetCompact c)) else None.
Proof.
  intros Hc Hl; destruct (UintToArith256_u256 limit Hl) as [Wl Vl]; pose proof (u256_range limit Hl) as R.
  pose proof (SetCompact_wf c Hc) as W; pose proof (SetCompact_val c Hc) as V; pose proof (of_compact_nonneg c Hc).
  unfold DeriveTarget; rewrite (EqualTo_spec W256), (gtb_spec W256), Vl, V, SetCompact_overflow
    by (auto using W256_ge; red; lia).
  unfold in_u in R; destruct (fNegative (SetCompact c)); [reflexivity|]; cbn [orb negb andb].
  destruct (Z.leb_spec (2 ^ 256) (of_compact c)).
  - rewrite orb_true_r; rewrite (proj2 (Z.leb_gt (of_compact c) (u256 limit))), andb_false_r by lia; reflexivity.
  - rewrite wrap_small by (unfold in_u; lia); rewrite orb_false_r.
    destruct (Z.eqb_spec (of_compact c) 0), (Z.ltb_spec 0 (of_compact c)); try lia; [reflexivity|].
    cbn [orb andb]; destruct (Z.ltb_spec (u256 limit) (of_compact c)), (Z.leb_spec (of_compact c) (u256 limit));
      lia || reflexivity.
Qed.

Lemma DeriveTarget_some c limit t :
  in_u 32 c -> uint256_ok limit -> DeriveTarget c limit = Some t ->
  t = target (SetCompact c) /\ wf W256 t /\ val t = of_compact c /\ 0 < of_compact c <= u256 limit.
Proof.
  intros Hc Hl; rewrite DeriveTarget_spec by assumption; pose proof (u256_range limit Hl) as R.
  match goal with |- (if ?c then _ else _) = _ -> _ => destruct c eqn:E end; [|discriminate].
  intros Hs; apply (inj Some) in Hs; subst t; rewrite !andb_true_iff in E.
  destruct E as [[_ E1] E2]; apply Z.ltb_lt in E1; apply Z.leb_le in E2; unfold in_u in R.
  repeat split; auto; try apply SetCompact_wf; auto.
  rewrite SetCompact_val, wrap_small by (auto; unfold in_u; lia); reflexivity.
Qed.

(** ** Rounding through the compact encoding *)

Lemma compact_shift_eq z : 0 < z -> compact_shift z = Z.max 0 (8 * (bitlen z / 8 - 2)).
Proof.
  intros Hz; destruct (bitlen_spec z Hz) as [[H1 H2] H3]; unfold compact_shift, compact_mantissa, compact_size.
  set (b := bitlen z) in *; pose proof (Z.div_mod b 8 ltac:(lia)) as D; pose proof (Z.mod_pos_bound b 8 ltac:(lia)) as M.
  set (k := b / 8) in *; set (j := b mod 8) in *.
  assert (Hsz : (b + 7) / 8 = if j =? 0 then k else k + 1).
  { destruct (Z.eqb_spec j 0); symmetry; [apply (Z.div_unique _ _ _ 7) | apply (Z.div_unique _ _ _ (j - 1))]; lia. }
  rewrite Hsz; clear Hsz.
  assert (P : forall m n, 0 <= m -> m <= n -> 2 ^ m <= 2 ^ n) by (intros; apply Z.pow_le_mono_r; lia).
  destruct (Z.eqb_spec j 0) as [Ej|Ej].
  - replace (2 ^ 23 <=? _) with true; [f_equal; lia|]; symmetry; apply Z.leb_le; destruct (Z.leb_spec k 3).
    + apply Z.le_trans with (2 ^ (b - 1) * 2 ^ (8 * (3 - k))); [rewrite <- pow2_split by lia; apply P; lia|].
      apply Z.mul_le_mono_nonneg_r; [pose proof (pow2_pos (8 * (3 - k))); lia | lia].
    + apply Z.div_le_lower_bound; [apply pow2_pos; lia|]; rewrite <- pow2_split by lia.
      replace (8 * (k - 3) + 23) with (b - 1) by lia; lia.
  - replace (2 ^ 23 <=? _) with false; [f_equal; lia|]; symmetry; apply Z.leb_gt; destruct (Z.leb_spec (k + 1) 3).
    + apply Z.lt_le_trans with (2 ^ b * 2 ^ (8 * (3 - (k + 1)))).
      * apply Z.mul_lt_mono_pos_r; [apply pow2_pos; lia | lia].
      * rewrite <- pow2_split by lia; apply P; lia.
    + apply Z.div_lt_upper_bound; [apply pow2_pos; lia|]; rewrite <- pow2_split by lia.
      apply Z.lt_le_trans with (2 ^ b); [lia | apply P; lia].
Qed.

Lemma trunc_ge s m z : 0 <= s -> m * 2 ^ s <= z -> m * 2 ^ s <= trunc s z.
Proof.
  intros Hs Hm; unfold trunc; pose proof (pow2_pos s Hs); apply Z.mul_le_mono_nonneg_r; [lia|].
  apply Z.div_le_lower_bound; lia.
Qed.

(** What is left of a target after [GetCompact] and [SetCompact]. *)
Definition round_compact (z : Z) : Z := trunc (compact_shift z) z.

Lemma round_compact_le z : 0 <= z -> 0 <= round_compact z <= z.
Proof.
  intros Hz; assert (Hs : 0 <= compact_shift z) by (unfold compact_shift; lia).
  pose proof (trunc_le _ z Hs); pose proof (trunc_ge _ 0 z Hs ltac:(lia)); unfold round_compact; lia.
Qed.

Lemma round_compact_mono y z : 0 <= y <= z -> round_compact y <= round_compact z.
Proof.
  intros [H0 Hyz]; destruct (Z.eq_dec y 0) as [->|Hy]; [apply round_compact_le; lia|].
  destruct (bitlen_spec y ltac:(lia)) as [[Y0 Y] Y1]; destruct (bitlen_spec z ltac:(lia)) as [[Z1 Z0] Z2].
  assert (Hb : bitlen y <= bitlen z) by (apply bitlen_le; [lia | unfold in_u; lia]).
  pose proof (Z.div_le_mono (bitlen y) (bitlen z) 8 ltac:(lia) Hb) as Hk.
  pose proof (round_compact_le y H0); unfold round_compact in *.
  destruct (Z.eq_dec (compact_shift y) (compact_shift z)) as [E|E].
  - rewrite E; unfold trunc; apply Z.mul_le_mono_nonneg_r; [apply Z.lt_le_incl, pow2_pos; unfold compact_shift; lia|].
    apply Z.div_le_mono; [apply pow2_pos; unfold compact_shift; lia | exact Hyz].
  - rewrite !compact_shift_eq in * by lia; set (k := bitlen z / 8) in *; set (j := bitlen y / 8) in *.
    assert (Hjk : j < k /\ 2 < k) by lia.
    pose proof (Z.div_mod (bitlen y) 8 ltac:(lia)) as Dy; pose proof (Z.mod_pos_bound (bitlen y) 8 ltac:(lia)).
    pose proof (Z.div_mod (bitlen z) 8 ltac:(lia)) as Dz; pose proof (Z.mod_pos_bound (bitlen z) 8 ltac:(lia)).
    fold j in Dy; fold k in Dz.
    assert (B : 2 ^ bitlen y <= 2 ^ 15 * 2 ^ (Z.max 0 (8 * (k - 2))))
      by (rewrite <- pow2_split by lia; apply Z.pow_le_mono_r; lia).
    assert (C : 2 ^ 15 * 2 ^ (Z.max 0 (8 * (k - 2))) <= z).
    { apply Z.le_trans with (2 ^ (bitlen z - 1)); [|lia]; rewrite <- pow2_split by lia; apply Z.pow_le_mono_r; lia. }
    pose proof (trunc_ge (Z.max 0 (8 * (k - 2))) (2 ^ 15) z ltac:(lia) C); lia.
Qed.

Lemma round_compact_pos z : 0 < z -> 0 < round_compact z.
Proof. intros Hz; pose proof (round_compact_mono 1 z ltac:(lia)) as H; change (round_compact 1) with 1 in H; lia. Qed.

Lemma of_compact_round z : 0 <= z -> of_compact (compact_of z) = round_compact z.
Proof. exact (of_compact_of z). Qed.

(** A target between 1 and the limit survives its encoding as a valid target. *)
Lemma DeriveTarget_compact z limit :
  uint256_ok limit -> 1 <= z <= u256 limit ->
  in_u 32 (compact_of z) /\ DeriveTarget (compact_of z) limit = Some (target (SetCompact (compact_of z))) /\
  val (target (SetCompact (compact_of z))) = round_compact z.
Proof.
  intros Hl Hz; pose proof (u256_range limit Hl) as R; unfold in_u in R.
  assert (Rz : in_u 256 z) by (unfold in_u; lia); pose proof (compact_of_range z Rz) as Rc.
  pose proof (round_compact_le z ltac:(lia)); pose proof (round_compact_pos z ltac:(lia)).
  split; [exact Rc|]; split.
  - rewrite DeriveTarget_spec, compact_nonneg_flag, of_compact_round by (auto; lia); cbn [negb andb].
    rewrite (proj2 (Z.ltb_lt _ _)), (proj2 (Z.leb_le _ _)) by lia; reflexivity.
  - rewrite SetCompact_val, of_compact_round, wrap_small by (auto; unfold in_u; lia); reflexivity.
Qed.

(** ** ASERT on one lane *)

(** The parameters of an ASERT network whose anchor is the genesis block. *)
Record asert_network (params : Params) : Prop := {
  an_retarget : fPowNoRetargeting params = false;
  an_asert : fPowUseASERT params = true;
  an_limit : uint256_ok (powLimit params);
  an_bits : forall lane, in_u 32 (GetASERTAnchorBits params lane) /\
              is_Some (DeriveTarget (GetASERTAnchorBits params lane) (powLimit params));
  an_single : in_u 32 (anchor_nBits (asertAnchorParams params)) /\
              is_Some (DeriveTarget (anchor_nBits (asertAnchorParams params)) (powLimit params));
  an_spacing : forall lane, 0 < GetCadenceTargetSpacing params lane < 2 ^ 14;
  an_spacing_single : 0 < nPowTargetSpacing params < 2 ^ 14;
  an_half_life : 0 < nASERTHalfLife params < 2 ^ 63;
  an_height : anchor_nHeight (asertAnchorParams params) = 0;
  an_auxpow : anchor_nAuxPow (asertAnchorParams params) = 0;
  an_time : in_u 32 (anchor_nBlockTime (asertAnchorParams params)) }.

(** The compact target ASERT prescribes for a block [drift] seconds behind its lane's schedule. *)
Definition asert_bits (params : Params) (anchor_bits drift : Z) : Z :=
  compact_of (clamp 1 (u256 (powLimit params))
    (asert_raw (of_compact anchor_bits) (asert_exponent drift (nASERTHalfLife params)))).

Lemma asert_bits_valid params anchor_bits drift :
  uint256_ok (powLimit params) -> is_Some (DeriveTarget anchor_bits (powLimit params)) -> in_u 32 anchor_bits ->
  in_u 32 (asert_bits params anchor_bits drift) /\
  is_Some (DeriveTarget (asert_bits params anchor_bits drift) (powLimit params)).
Proof.
  intros Hl [t Ht] Hb; destruct (DeriveTarget_some _ _ _ Hb Hl Ht) as (_ & _ & _ & H).
  destruct (DeriveTarget_compact (clamp 1 (u256 (powLimit params))
    (asert_raw (of_compact anchor_bits) (asert_exponent drift (nASERTHalfLife params)))) (powLimit params) Hl)
    as (H1 & H2 & _); [unfold clamp; lia|].
  split; [exact H1 | unfold asert_bits; rewrite H2; eauto].
Qed.

Lemma CalculateASERT_bits params anchor_bits spacing timeDiff heightDiff :
  uint256_ok (powLimit params) -> in_u 32 anchor_bits -> is_Some (DeriveTarget anchor_bits (powLimit params)) ->
  0 < spacing < 2 ^ 14 -> 0 <= heightDiff < 2 ^ 32 -> Z.abs timeDiff < 2 ^ 33 -> 0 < nASERTHalfLife params < 2 ^ 63 ->
  (let! next := CalculateASERT (target (SetCompact anchor_bits)) spacing timeDiff heightDiff
                  (UintToArith256 (powLimit params)) (nASERTHalfLife params) in
   GetCompact next false) = Some (asert_bits params anchor_bits (timeDiff - spacing * heightDiff)).
Proof.
  intros Hl Hb [t Ht] Hs Hh Htd Hhl; destruct (DeriveTarget_some _ _ _ Hb Hl Ht) as (-> & Wt & Vt & Rt).
  destruct (UintToArith256_u256 _ Hl) as [Wl Vl].
  destruct (CalculateASERT_spec (target (SetCompact anchor_bits)) spacing timeDiff heightDiff
    (UintToArith256 (powLimit params)) (nASERTHalfLife params) Wt Wl) as (r & -> & Wr & Vr).
  - rewrite Vt, Vl; repeat split; try lia; cbn; nia.
  - rewrite GetCompact_eq, Vr, Vt, Vl by exact Wr; reflexivity.
Qed.

(** The blocks of [lane] up to and including [b], as [GetASERTHeightDiff] counts them from a
    genesis anchor. *)
Definition lane_height (b : CBlockIndex) (lane : bool) : Z := if lane then nAuxPow b else nHeight b - nAuxPow b.

Lemma lane_height_range idx p b lane :
  idx_ok idx -> (forall h b, idx !! h = Some b -> data_ok idx b) ->
  idx !! p = Some b -> bi_SignalsAuxpow b = lane -> 0 <= lane_height b lane < 2 ^ 32 /\ 0 <= nAuxPow b < 2 ^ 32.
Proof.
  intros Hok Hdata Hp Hlane; destruct (Hok p b Hp) as (Hr & Hl & _).
  destruct (Hdata p b Hp) as (_ & Ha & Hn & _); split; [|lia]; unfold lane_height; destruct lane; [lia|].
  rewrite Hlane in Hn; unfold prev_of in Hn; destruct (pprev b) as [q|]; [|cbn in Hn; lia].
  destruct Hl as (bq & Hq & Hh & _); rewrite Hq in Hn; cbn in Hn.
  destruct (Hdata q bq Hq) as (_ & Haq & _); lia.
Qed.

Lemma GetNextASERTWorkRequired_some params idx p b lane :
  asert_network params -> idx_ok idx -> (forall h b, idx !! h = Some b -> data_ok idx b) ->
  idx !! p = Some b -> bi_SignalsAuxpow b = lane ->
  GetNextASERTWorkRequired (Some (GetASERTHeaderState b)) lane params =
  Some (asert_bits params (GetASERTAnchorBits params lane)
    (GetBlockTime b - anchor_nBlockTime (asertAnchorParams params)
     - GetCadenceTargetSpacing params lane * lane_height b lane)).
Proof.
  intros N Hok Hdata Hp Hlane; destruct (lane_height_range idx p b lane Hok Hdata Hp Hlane) as [Hlh Ha].
  destruct (Hok p b Hp) as (Hr & _); destruct (Hdata p b Hp) as (_ & _ & _ & _ & _ & _ & Ht & _).
  pose proof (an_time _ N) as Hat; pose proof (an_half_life _ N); pose proof (an_spacing _ N lane).
  destruct (an_bits _ N lane) as [Hb Hd]; unfold in_u in *; fold (bi_nTime b) (GetBlockTime b) in Ht.
  assert (Hpos : 0 < GetASERTAnchorBits params lane).
  { destruct Hd as [t Ht']; destruct (DeriveTarget_some _ _ _ Hb (an_limit _ N) Ht') as (_ & _ & _ & Hc & _).
    destruct (Z.eq_dec (GetASERTAnchorBits params lane) 0) as [E|]; [rewrite E in Hc; cbv in Hc; discriminate | lia]. }
  unfold GetNextASERTWorkRequired, GetASERTHeaderState; cbn [state_nHeight state_nTime state_nAuxPow].
  rewrite (an_height _ N), (proj2 (Z.ltb_lt _ _) Hpos), !(proj2 (Z.ltb_lt 0 _)), (proj2 (Z.ltb_ge _ _)) by lia.
  rewrite sarith_ok by (unfold in_s; cbn; lia).
  unfold GetASERTHeightDiff; cbn [state_nHeight state_nTime state_nAuxPow].
  rewrite (an_height _ N), (an_auxpow _ N), !(proj2 (Z.leb_le 0 _)), !Z.sub_0_r by lia.
  rewrite wrap_small, (proj2 (Z.leb_le _ INT64_MAX)) by (unfold in_u, INT64_MAX; lia).
  replace (if lane then _ else _) with (Some (lane_height b lane)).
  - apply CalculateASERT_bits; auto using an_limit; lia.
  - unfold lane_height in *; destruct lane; [reflexivity|].
    rewrite !sarith_ok by (unfold in_s; cbn; lia); reflexivity.
Qed.

Lemma GetNextASERTWorkRequired_none params lane :
  asert_network params -> GetNextASERTWorkRequired None lane params = Some (GetASERTAnchorBits params lane).
Proof.
  intros N; destruct (an_bits _ N lane) as [Hb [t Ht]]; pose proof (an_half_life _ N); pose proof (an_spacing _ N lane).
  destruct (DeriveTarget_some _ _ _ Hb (an_limit _ N) Ht) as (_ & _ & _ & Hc & _); unfold in_u in Hb.
  destruct (Z.eq_dec (GetASERTAnchorBits params lane) 0) as [E|]; [rewrite E in Hc; cbv in Hc; discriminate|].
  unfold GetNextASERTWorkRequired; rewrite !(proj2 (Z.ltb_lt 0 _)) by lia; reflexivity.
Qed.

Lemma GetNextASERTWorkRequired_single_eq params idx p b :
  asert_network params -> idx_ok idx -> (forall h b, idx !! h = Some b -> data_ok idx b) -> idx !! p = Some b ->
  GetNextASERTWorkRequired_single b params =
  Some (asert_bits params (anchor_nBits (asertAnchorParams params))
    (GetBlockTime b - anchor_nBlockTime (asertAnchorParams params) - nPowTargetSpacing params * nHeight b)).
Proof.
  intros N Hok Hdata Hp; destruct (Hok p b Hp) as (Hr & _); destruct (Hdata p b Hp) as (_ & _ & _ & _ & _ & _ & Ht & _).
  pose proof (an_time _ N) as Hat; pose proof (an_half_life _ N); pose proof (an_spacing_single _ N).
  destruct (an_single _ N) as [Hb Hd]; unfold in_u in *; fold (bi_nTime b) (GetBlockTime b) in Ht.
  assert (Hpos : anchor_nBits (asertAnchorParams params) <> 0).
  { destruct Hd as [t Ht']; destruct (DeriveTarget_some _ _ _ Hb (an_limit _ N) Ht') as (_ & _ & _ & Hc & _).
    intros E; rewrite E in Hc; cbv in Hc; discriminate. }
  unfold GetNextASERTWorkRequired_single.
  rewrite (an_height _ N), !(proj2 (Z.ltb_lt 0 _)), (proj2 (Z.ltb_ge _ _)), Z.sub_0_r by lia.
  rewrite !sarith_ok by (unfold in_s; cbn; lia); apply CalculateASERT_bits; auto using an_limit; lia.
Qed.

Definition pblock_ok (pblock : option CBlockHeader) : Prop :=
  match pblock with Some block => header_ok (pure block) | None => True end.

Lemma min_difficulty_time_total idx p b pblock spacing :
  (forall h b, idx !! h = Some b -> data_ok idx b) -> idx !! p = Some b -> 0 < spacing < 2 ^ 14 ->
  exists late, min_difficulty_time b pblock spacing = Some late.
Proof.
  intros Hdata Hp Hs; destruct (Hdata p b Hp) as (_ & _ & _ & _ & _ & _ & Ht & _).
  fold (bi_nTime b) (GetBlockTime b) in Ht; unfold in_u in Ht; destruct pblock as [block|]; [|eexists; reflexivity].
  unfold min_difficulty_time; rewrite !sarith_ok by (unfold in_s; cbn; lia); eexists; reflexivity.
Qed.

(** The nearest block of the lane a candidate belongs to gives the whole answer. *)
Definition lane_bits (params : Params) (idx : BlockMap) (lane : bool) (same : option ptr) : option Z :=
  match same with
  | None => Some (GetASERTAnchorBits params lane)
  | Some q => let! bq := idx !! q in
      Some (asert_bits params (GetASERTAnchorBits params lane)
        (GetBlockTime bq - anchor_nBlockTime (asertAnchorParams params)
         - GetCadenceTargetSpacing params lane * lane_height bq lane))
  end.

Lemma lane_work_required params bm last b lane :
  let idx := m_block_index bm in
  asert_network params -> idx_ok idx -> (forall h b, idx !! h = Some b -> data_ok idx b) -> idx !! last = Some b ->
  exists same, nearest_lane idx (Some last) lane same /\
    (let! same := GetPreviousBlockForLane idx last lane (anchor_nHeight (asertAnchorParams params)) in
     match same with
     | None => GetNextASERTWorkRequired None lane params
     | Some p => let! bp := idx !! p in GetNextASERTWorkRequired (Some (GetASERTHeaderState bp)) lane params
     end) = lane_bits params idx lane same.
Proof.
  intros idx N Hok Hdata Hp; destruct (Hok last b Hp) as (Hr & _); rewrite (an_height _ N).
  destruct (GetPreviousBlockForLane_spec idx last b lane 0 Hok Hp ltac:(lia)) as (r & -> & r0 & Hn & ->).
  exists r0; split; [exact Hn|]; destruct r0 as [q|]; [|apply GetNextASERTWorkRequired_none, N].
  destruct Hn as (n & Hback & (bq & Hq & Hs) & _); destruct (Hok q bq Hq) as (Hrq & _).
  cbn [lane_bits]; rewrite Hq, (proj2 (Z.leb_le 0 _)), Hq by lia.
  apply (GetNextASERTWorkRequired_some params idx q); assumption.
Qed.

Lemma lane_bits_valid params idx last lane same :
  asert_network params -> nearest_lane idx (Some last) lane same ->
  exists n, lane_bits params idx lane same = Some n /\ in_u 32 n /\ is_Some (DeriveTarget n (powLimit params)).
Proof.
  intros N Hn; destruct (an_bits _ N lane) as [Hb Hd]; destruct same as [q|]; cbn [lane_bits]; [|eauto].
  destruct Hn as (n & _ & (bq & -> & _) & _); eexists; split; [reflexivity|].
  apply asert_bits_valid; auto using an_limit.
Qed.

Lemma limit_bits_valid params :
  asert_network params ->
  exists n, GetCompact (UintToArith256 (powLimit params)) false = Some n /\ in_u 32 n /\
    is_Some (DeriveTarget n (powLimit params)).
Proof.
  intros N; destruct (UintToArith256_u256 _ (an_limit _ N)) as [Wl Vl].
  destruct (an_single _ N) as [Hb [t Ht]].
  destruct (DeriveTarget_some _ _ _ Hb (an_limit _ N) Ht) as (_ & _ & _ & Hc).
  destruct (DeriveTarget_compact (u256 (powLimit params)) _ (an_limit _ N) ltac:(lia)) as (H1 & H2 & _).
  exists (compact_of (u256 (powLimit params))); rewrite GetCompact_eq, Vl, H2 by exact Wl; eauto.
Qed.

Section OnReachableIndex.
Context (GetHash : CPureBlockHeader -> uint256) (bm : BlockManager) (best : option ptr).
Context (Hreach : index_reachable GetHash bm best).
Context (params : Params) (last : ptr) (b : CBlockIndex).
Context (Hlast : m_block_index bm !! last = Some b) (Hheight : nHeight b + 1 < 2 ^ 31).

Lemma cadence_after :
  IsCadenceActiveAfter (m_block_index bm) (Some last) params = Some (CadenceActiveAtHeight params (nHeight b + 1)).
Proof.
  destruct (index_reachable_inv _ _ _ Hreach) as (Hok & _); destruct (Hok last b Hlast) as (Hr & _).
  unfold IsCadenceActiveAfter; rewrite Hlast, sarith_ok by (unfold in_s; cbn; lia); reflexivity.
Qed.

Lemma GetNextWorkRequired_defined pblock :
  asert_network params ->
  exists n, GetNextWorkRequired (m_block_index bm) last pblock params = Some n /\ in_u 32 n /\
    is_Some (DeriveTarget n (powLimit params)).
Proof.
  intros N; destruct (index_reachable_inv _ _ _ Hreach) as (Hok & Hdata & _).
  unfold GetNextWorkRequired; rewrite Hlast, (an_retarget _ N), cadence_after, (an_asert _ N); cbn [negb andb].
  set (cad := CadenceActiveAtHeight params (nHeight b + 1)).
  destruct (limit_bits_valid params N) as (lb & Hlb & Rlb & Vlb).
  set (lane := cad && GetNextBlockIsAuxpow b pblock).
  assert (Hs : 0 < (if cad then GetCadenceTargetSpacing params lane else nPowTargetSpacing params) < 2 ^ 14)
    by (destruct cad; [apply (an_spacing _ N) | apply (an_spacing_single _ N)]).
  destruct (min_difficulty_time_total _ last b pblock _ Hdata Hlast Hs) as (late & Hlate).
  assert (E : (if fPowAllowMinDifficultyBlocks params
               then min_difficulty_time b pblock (if cad then GetCadenceTargetSpacing params lane else nPowTargetSpacing params)
               else Some false) = Some (fPowAllowMinDifficultyBlocks params && late))
    by (destruct (fPowAllowMinDifficultyBlocks params); [rewrite Hlate; reflexivity | reflexivity]).
  rewrite Hlb, E; destruct (_ && late); [eauto|]; destruct cad; cbn [negb].
  - destruct (lane_work_required params bm last b lane N Hok Hdata Hlast) as (same & Hn & ->).
    apply (lane_bits_valid params _ last lane same N Hn).
  - rewrite (GetNextASERTWorkRequired_single_eq params _ last b N Hok Hdata Hlast).
    eexists; split; [reflexivity|]; apply asert_bits_valid; auto using an_limit; apply (an_single _ N).
Qed.

Lemma GetNextWorkRequired_lane_eq pblock :
  asert_network params -> fPowAllowMinDifficultyBlocks params = false ->
  CadenceActiveAtHeight params (nHeight b + 1) = true ->
  exists same, nearest_lane (m_block_index bm) (Some last) (GetNextBlockIsAuxpow b pblock) same /\
    GetNextWorkRequired (m_block_index bm) last pblock params =
    lane_bits params (m_block_index bm) (GetNextBlockIsAuxpow b pblock) same.
Proof.
  intros N Hmin Hcad; destruct (index_reachable_inv _ _ _ Hreach) as (Hok & Hdata & _).
  unfold GetNextWorkRequired; rewrite Hlast, (an_retarget _ N), cadence_after, (an_asert _ N), Hmin, Hcad.
  destruct (limit_bits_valid params N) as (lb & -> & _); cbn [negb andb].
  apply (lane_work_required params bm last b); assumption.
Qed.
End OnReachableIndex.

(** ** Lane predecessors are unique *)

Lemma in_lane_unique idx q lane : in_lane idx q lane -> in_lane idx q (negb lane) -> False.
Proof. intros (b & H1 & <-) (b' & H1' & H2); simplify_eq; symmetry in H2; exact (no_fixpoint_negb _ H2). Qed.

Lemma nearest_lane_unique idx s lane r r' : nearest_lane idx s lane r -> nearest_lane idx s lane r' -> r = r'.
Proof.
  destruct s as [s|]; cbn; [|congruence].
  destruct r as [q|], r' as [q'|]; [| | |reflexivity].
  - intros (n & B & L & F) (n' & B' & L' & F'); destruct (Nat.lt_trichotomy n n') as [H|[->|H]].
    + destruct (in_lane_unique idx q lane L (F' n q H B)).
    + congruence.
    + destruct (in_lane_unique idx q' lane L' (F n' q' H B')).
  - intros (n & B & L & _) F; destruct (in_lane_unique idx q lane L (F n q B)).
  - intros F (n & B & L & _); destruct (in_lane_unique idx q' lane L (F n q' B)).
Qed.

(** A block of the other lane does not change the nearest block of this one. *)
Lemma nearest_lane_skip idx p b q lane r :
  idx !! p = Some b -> pprev b = Some q -> bi_SignalsAuxpow b = negb lane ->
  nearest_lane idx (Some q) lane r -> nearest_lane idx (Some p) lane r.
Proof.
  intros Hp Hq Hs.
  assert (Hhere : in_lane idx p (negb lane)) by (exists b; auto).
  assert (Hstep : forall n, back idx p (S n) = back idx q n) by (intros; cbn; rewrite Hp, Hq; reflexivity).
  destruct r as [x|]; cbn.
  - intros (n & B & L & F); exists (S n); rewrite Hstep; split; [exact B|]; split; [exact L|].
    intros [|m] q' Hm Hb; [cbn in Hb; simplify_eq; exact Hhere|]; rewrite Hstep in Hb; apply (F m q'); [lia | exact Hb].
  - intros F [|m] q' Hb; [cbn in Hb; simplify_eq; exact Hhere|]; rewrite Hstep in Hb; apply (F m q' Hb).
Qed.

(** ** Epoch networks *)

(** The parameters of a network that retargets every epoch without special rules. *)
Record epoch_network (params : Params) : Prop := {
  en_retarget : fPowNoRetargeting params = false;
  en_asert : fPowUseASERT params = false;
  en_min : fPowAllowMinDifficultyBlocks params = false;
  en_bip94 : enforce_BIP94 params = false;
  en_limit : uint256_ok (powLimit params);
  en_spacing : 0 < nPowTargetSpacing params;
  en_timespan : nPowTargetSpacing params <= nPowTargetTimespan params < 2 ^ 40;
  en_big : nPowTargetTimespan params * 4 <= u256 (powLimit params) }.

Lemma retarget_bits params bits timespan :
  epoch_network params -> in_u 32 bits -> 0 <= timespan <= nPowTargetTimespan params * 4 ->
  exists t, CalculateRetargetedTarget (target (SetCompact bits)) timespan (nPowTargetTimespan params)
              (UintToArith256 (powLimit params)) = Some t /\ wf W256 t /\
    val t = Z.min (u256 (powLimit params)) (val (target (SetCompact bits)) * timespan / nPowTargetTimespan params).
Proof.
  intros N Hb Ht; destruct (UintToArith256_u256 _ (en_limit _ N)) as [Wl Vl].
  pose proof (en_timespan _ N); pose proof (en_spacing _ N); pose proof (en_big _ N).
  destruct (CalculateRetargetedTarget_spec (target (SetCompact bits)) timespan (nPowTargetTimespan params)
    (UintToArith256 (powLimit params)) (SetCompact_wf bits Hb) Wl) as (r & -> & Wr & Vr); try lia.
  rewrite Vl in Vr; eauto.
Qed.

Lemma rounded_value t : wf W256 t ->
  exists c, GetCompact t false = Some c /\ wf W256 (target (SetCompact c)) /\
    val (target (SetCompact c)) = round_compact (val t).
Proof.
  intros W; pose proof (val_range256 t W) as R; pose proof (compact_of_range _ R) as Rc; unfold in_u in R.
  exists (compact_of (val t)); rewrite GetCompact_eq by exact W; split; [reflexivity|].
  split; [apply SetCompact_wf, Rc|]; pose proof (round_compact_le (val t) ltac:(lia)).
  rewrite SetCompact_val, of_compact_round, wrap_small by (auto; unfold in_u; lia); reflexivity.
Qed.

(** A retarget within the permitted timespans passes the transition check. *)
Lemma retarget_permitted params bits timespan n :
  epoch_network params -> in_u 32 bits ->
  Z.quot (nPowTargetTimespan params) 4 <= timespan <= nPowTargetTimespan params * 4 ->
  (let! t := CalculateRetargetedTarget (target (SetCompact bits)) timespan (nPowTargetTimespan params)
               (UintToArith256 (powLimit params)) in GetCompact t false) = Some n ->
  exists lo hi, rounded_retarget params bits (nPowTargetTimespan params * 4) = Some hi /\
    rounded_retarget params bits (Z.quot (nPowTargetTimespan params) 4) = Some lo /\
    ltb hi (target (SetCompact n)) = false /\ gtb lo (target (SetCompact n)) = false.
Proof.
  intros N Hb Ht En; pose proof (en_timespan _ N); pose proof (en_spacing _ N).
  pose proof (Z.quot_pos (nPowTargetTimespan params) 4 ltac:(lia) ltac:(lia)) as Q0.
  assert (Q1 : Z.quot (nPowTargetTimespan params) 4 <= nPowTargetTimespan params * 4)
      by (apply Z.quot_le_upper_bound; lia).
  pose proof (val_range256 _ (SetCompact_wf bits Hb)) as Rv; unfold in_u in Rv.
  assert (Hmono : forall x y, 0 <= x <= y ->
    0 <= Z.min (u256 (powLimit params)) (val (target (SetCompact bits)) * x / nPowTargetTimespan params)
      <= Z.min (u256 (powLimit params)) (val (target (SetCompact bits)) * y / nPowTargetTimespan params)).
  { intros x y Hxy; pose proof (en_big _ N).
    assert (0 <= val (target (SetCompact bits)) * x / nPowTargetTimespan params) by (apply Z.div_pos; nia).
    assert (val (target (SetCompact bits)) * x / nPowTargetTimespan params
      <= val (target (SetCompact bits)) * y / nPowTargetTimespan params) by (apply Z.div_le_mono; nia).
    lia. }
  destruct (retarget_bits params bits timespan N Hb) as (t & E & Wt & Vt); [lia|]; rewrite E in En.
  destruct (rounded_value t Wt) as (c & Ec & Wc & Vc); rewrite Ec in En; injection En as <-.
  unfold rounded_retarget.
  destruct (retarget_bits params bits (nPowTargetTimespan params * 4) N Hb) as (th & -> & Wh & Vh); [lia|].
  destruct (retarget_bits params bits (Z.quot (nPowTargetTimespan params) 4) N Hb) as (tl & -> & Wlo & Vlo); [lia|].
  destruct (rounded_value th Wh) as (ch & -> & Wch & Vch); destruct (rounded_value tl Wlo) as (cl & -> & Wcl & Vcl).
  eexists _, _; split; [reflexivity|]; split; [reflexivity|].
  rewrite (ltb_spec W256), (gtb_spec W256), Vc, Vch, Vcl, Vt, Vh, Vlo by assumption.
  split; apply Z.ltb_ge, round_compact_mono, Hmono; lia.
Qed.

Lemma interval_defined params :
  epoch_network params -> exists interval, DifficultyAdjustmentInterval params = Some interval /\ 1 <= interval < 2 ^ 40.
Proof.
  intros N; pose proof (en_timespan _ N); pose proof (en_spacing _ N).
  unfold DifficultyAdjustmentInterval, squot; rewrite (proj2 (Z.eqb_neq _ _)) by lia; cbn [negb].
  assert (R : 1 <= Z.quot (nPowTargetTimespan params) (nPowTargetSpacing params) < 2 ^ 40).
  { rewrite Z.quot_div_nonneg by lia; split; [apply Z.div_le_lower_bound; lia|].
    apply Z.div_lt_upper_bound; nia. }
  rewrite sarith_ok by (unfold in_s; cbn; lia); eauto.
Qed.

Lemma srem_defined a interval : 0 <= a < 2 ^ 31 -> 1 <= interval < 2 ^ 40 -> srem 64 a interval = Some (a mod interval).
Proof.
  intros Ha Hi; unfold srem, squot; rewrite (proj2 (Z.eqb_neq _ _)) by lia; cbn [negb].
  pose proof (Z.quot_pos a interval ltac:(lia) ltac:(lia)).
  pose proof (Z.quot_le_upper_bound a interval a ltac:(lia) ltac:(nia)).
  rewrite sarith_ok by (unfold in_s; cbn; lia); rewrite Z.rem_mod_nonneg by lia; reflexivity.
Qed.

Lemma period_start_eq params b interval :
  DifficultyAdjustmentInterval params = Some interval -> 1 <= interval < 2 ^ 40 -> 0 <= nHeight b < 2 ^ 31 ->
  interval <= nHeight b + 1 -> period_start params b = Some (nHeight b - (interval - 1)).
Proof.
  intros E Hi Hh Hle; unfold period_start; rewrite E, !sarith_ok by (unfold in_s; cbn; lia).
  rewrite swrap_small by (unfold in_s; cbn; lia); reflexivity.
Qed.

Section EpochOnReachableIndex.
Context (GetHash : CPureBlockHeader -> uint256) (bm : BlockManager) (best : option ptr).
Context (Hreach : index_reachable GetHash bm best).
Context (params : Params) (last : ptr) (b : CBlockIndex) (N : epoch_network params).
Context (Hlast : m_block_index bm !! last = Some b) (Hheight : nHeight b + 1 < 2 ^ 31).

(** The clamped timespan of an epoch. *)
Lemma epoch_retarget first bf :
  m_block_index bm !! first = Some bf ->
  exists timespan n,
    Z.quot (nPowTargetTimespan params) 4 <= timespan <= nPowTargetTimespan params * 4 /\
    CalculateNextWorkRequiredLegacy (m_block_index bm) last (GetBlockTime bf) params = Some n /\
    (let! t := CalculateRetargetedTarget (target (SetCompact (bi_nBits b))) timespan (nPowTargetTimespan params)
                 (UintToArith256 (powLimit params)) in GetCompact t false) = Some n.
Proof.
  intros Hf; destruct (index_reachable_inv _ _ _ Hreach) as (_ & Hdata & _).
  destruct (Hdata first bf Hf) as (_ & _ & _ & _ & _ & _ & Htf & _).
  destruct (Hdata last b Hlast) as (_ & _ & _ & _ & _ & _ & Htl & Hbits & _).
  fold (bi_nTime bf) (GetBlockTime bf) in Htf; fold (bi_nTime b) (GetBlockTime b) in Htl; fold (bi_nBits b) in Hbits.
  unfold in_u in Htf, Htl; pose proof (en_timespan _ N); pose proof (en_spacing _ N).
  pose proof (Z.quot_pos (nPowTargetTimespan params) 4 ltac:(lia) ltac:(lia)) as Q0.
  unfold CalculateNextWorkRequiredLegacy; rewrite Hlast, (en_bip94 _ N), !sarith_ok by (unfold in_s; cbn; lia).
  assert (Q1 : Z.quot (nPowTargetTimespan params) 4 <= nPowTargetTimespan params * 4)
    by (apply Z.quot_le_upper_bound; lia).
  set (q := Z.quot (nPowTargetTimespan params) 4) in *.
  set (ts := if _ <? (if _ <? q then q else _) then _ else _).
  assert (Hts : q <= ts <= nPowTargetTimespan params * 4).
  { unfold ts.
    destruct (Z.ltb_spec (GetBlockTime b - GetBlockTime bf) q);
      match goal with |- context [?x <? ?y] => destruct (Z.ltb_spec x y) end; lia. }
  destruct (retarget_bits params (bi_nBits b) ts N Hbits) as (t & E & Wt & _); [lia|].
  exists ts; rewrite E, (GetCompact_eq t Wt); eauto.
Qed.

Lemma epoch_work_permitted pblock old_time new_time :
  exists n, GetNextWorkRequired (m_block_index bm) last pblock params = Some n /\
    PermittedDifficultyTransition params (nHeight b + 1) (bi_nBits b) n old_time new_time = Some true.
Proof.
  destruct (index_reachable_inv _ _ _ Hreach) as (Hok & Hdata & _); destruct (Hok last b Hlast) as (Hr & _).
  destruct (Hdata last b Hlast) as (_ & _ & _ & _ & _ & _ & _ & Hbits & _); fold (bi_nBits b) in Hbits.
  destruct (interval_defined params N) as (interval & Hint & Ri).
  destruct (UintToArith256_u256 _ (en_limit _ N)) as [Wl _].
  unfold GetNextWorkRequired, PermittedDifficultyTransition, GetNextWorkRequiredLegacy.
  rewrite Hlast, (en_retarget _ N), (cadence_after GetHash bm best Hreach params last b Hlast Hheight).
  rewrite (en_asert _ N), (en_min _ N), (GetCompact_eq _ Wl), Hint; cbn [andb negb].
  rewrite (sarith_ok 32) by (unfold in_s; cbn; lia); rewrite srem_defined by lia.
  destruct (Z.eqb_spec ((nHeight b + 1) mod interval) 0) as [Hz|Hz]; cbn [negb];
    [|exists (bi_nBits b); rewrite Z.eqb_refl; auto].
  assert (Hle : interval <= nHeight b + 1) 
    by (destruct (Z.lt_ge_cases (nHeight b + 1) interval); [rewrite Z.mod_small in Hz by lia; lia | lia]).
  rewrite (period_start_eq params b interval Hint Ri), (proj2 (Z.leb_le 0 (nHeight b - _))) by lia.
  destruct (GetAncestor_anc _ last b (nHeight b - (interval - 1)) Hok Hlast ltac:(lia)) as (f & bf & -> & Hf & _).
  cbn [mjoin option_join]; rewrite Hf; destruct (epoch_retarget f bf Hf) as (ts & n & Hts & -> & En).
  pose proof (en_timespan _ N); pose proof (en_spacing _ N).
  exists n; split; [reflexivity|]; rewrite sarith_ok by (unfold in_s; cbn; lia).
  destruct (retarget_permitted params (bi_nBits b) ts n N Hbits Hts En) as (lo & hi & -> & -> & Hlt & Hgt).
  rewrite Hlt, Hgt; reflexivity.
Qed.
End EpochOnReachableIndex.

(** ** The networks the properties are applied to *)

Lemma main_limit_ok : uint256_ok (powLimit MainParams).
Proof. split; [apply (limbs_digits 8 ltac:(lia)) | reflexivity]. Qed.

Lemma asert_network_main cadence_height : asert_network (with_rules MainParams true cadence_height).
Proof.
  split; try reflexivity; try apply main_limit_ok; try (intros []);
    (split; vm_compute; congruence) || (split; [split; vm_compute; congruence | vm_compute; eauto]).
Qed.

Lemma asert_network_mainnet : asert_network MainParams.
Proof. exact (asert_network_main 0). Qed.

Lemma epoch_network_main : epoch_network (with_rules MainParams false 0).
Proof. split; try reflexivity; try apply main_limit_ok; try split; vm_compute; congruence. Qed.

Lemma CheckProofOfWork_spec hash nbits params :
  uint256_ok hash -> in_u 32 nbits -> uint256_ok (powLimit params) ->
  CheckProofOfWork false hash nbits params = true <->
  fNegative (SetCompact nbits) = false /\ 0 < of_compact nbits <= u256 (powLimit params) /\
  u256 hash <= of_compact nbits.
Proof.
  intros Hh Hb Hl; unfold CheckProofOfWork, CheckProofOfWorkImpl.
  destruct (UintToArith256_u256 hash Hh) as [Wh Vh]; destruct (DeriveTarget nbits (powLimit params)) as [t|] eqn:E.
  - destruct (DeriveTarget_some _ _ _ Hb Hl E) as (-> & Wt & Vt & Rt); rewrite (gtb_spec W256), Vh, Vt by assumption.
    rewrite DeriveTarget_spec in E by assumption; destruct (fNegative (SetCompact nbits)); [discriminate|].
    destruct (Z.ltb_spec (of_compact nbits) (u256 hash)); split; intros; try discriminate; try tauto; lia.
  - rewrite DeriveTarget_spec in E by assumption; split; [discriminate|]; intros (Hn & [H1 H2] & _).
    rewrite Hn, (proj2 (Z.ltb_lt _ _) H1), (proj2 (Z.leb_le _ _) H2) in E; discriminate.
Qed.

(** ** Properties *)

(** The proof-of-work check accepts exactly the hashes that, read as little-endian numbers, do
    not exceed a target that decodes without sign, is positive and does not exceed the limit. *)
Theorem CheckProofOfWork_exact hash nbits params :
  uint256_ok hash -> in_u 32 nbits -> uint256_ok (powLimit params) ->
  CheckProofOfWork false hash nbits params = true <->
  fNegative (SetCompact nbits) = false /\ 0 < of_compact nbits <= u256 (powLimit params) /\
  u256 hash <= of_compact nbits.
Proof. exact (CheckProofOfWork_spec hash nbits params). Qed.

Lemma CheckProofOfWork_exact_witness :
  CheckProofOfWork false (hashGenesisBlock MainParams) 0x1a7f1ab5 MainParams = true.
Proof.
  apply CheckProofOfWork_exact.
  - split; [apply (limbs_digits 8 ltac:(lia)) | reflexivity].
  - split; vm_compute; congruence.
  - exact main_limit_ok.
  - split; [|split; [split|]]; vm_compute; congruence.
Defined.

(** C8: On an ASERT network anchored at genesis (the main network is one), difficulty selection
    never fails: whatever headers were added to the index and whatever candidate is asked about, no
    assertion, overflow or null dereference is reached, and the result is a valid compact target,
    positive and within the limit. *)
Theorem GetNextWorkRequired_total GetHash bm best params last b pblock :
  index_reachable GetHash bm best -> m_block_index bm !! last = Some b -> nHeight b + 1 < 2 ^ 31 ->
  asert_network params ->
  exists n, GetNextWorkRequired (m_block_index bm) last pblock params = Some n /\ in_u 32 n /\
    is_Some (DeriveTarget n (powLimit params)).
Proof. intros Hr Hl Hh; exact (GetNextWorkRequired_defined GetHash bm best Hr params last b Hl Hh pblock). Qed.

Lemma GetNextWorkRequired_total_witness :
  exists n, GetNextWorkRequired example_index [4] None MainParams = Some n /\ in_u 32 n /\
    is_Some (DeriveTarget n (powLimit MainParams)).
Proof.
  eapply (GetNextWorkRequired_total example_hash (fst example_state) (snd example_state) MainParams [4]).
  - exact example_reachable.
  - vm_compute; reflexivity.
  - vm_compute; reflexivity.
  - exact asert_network_mainnet.
Defined.

(** C30: Under cadence rules without the minimum-difficulty exception the required work of a
    candidate is a function of its own lane alone: the lane's anchor bits when the branch has no
    block of that lane, otherwise the ASERT formula at the nearest such block, with the lane's
    spacing and the number of blocks of that lane. *)
Theorem GetNextWorkRequired_lane_formula GetHash bm best params last b pblock :
  index_reachable GetHash bm best -> m_block_index bm !! last = Some b -> nHeight b + 1 < 2 ^ 31 ->
  asert_network params -> fPowAllowMinDifficultyBlocks params = false ->
  CadenceActiveAtHeight params (nHeight b + 1) = true ->
  exists same, nearest_lane (m_block_index bm) (Some last) (GetNextBlockIsAuxpow b pblock) same /\
    GetNextWorkRequired (m_block_index bm) last pblock params =
    lane_bits params (m_block_index bm) (GetNextBlockIsAuxpow b pblock) same.
Proof. intros Hr Hl Hh; exact (GetNextWorkRequired_lane_eq GetHash bm best Hr params last b Hl Hh pblock). Qed.

Lemma GetNextWorkRequired_lane_formula_witness :
  exists same, nearest_lane example_index (Some [4]) true same /\
    GetNextWorkRequired example_index [4] (Some (example_header 536871168 4 9)) MainParams =
    lane_bits MainParams example_index true same.
Proof.
  eapply (GetNextWorkRequired_lane_formula example_hash (fst example_state) (snd example_state) MainParams [4] _
    (Some (example_header 536871168 4 9))).
  - exact example_reachable.
  - vm_compute; reflexivity.
  - vm_compute; reflexivity.
  - exact asert_network_mainnet.
  - reflexivity.
  - reflexivity.
Defined.





(** On an epoch-retargeting network difficulty selection always returns, and the transition
    check, which only sees adjacent headers and rounds through the compact encoding, permits what
    it returns. *)
Theorem epoch_transition_permitted GetHash bm best params last b pblock old_time new_time :
  index_reachable GetHash bm best -> m_block_index bm !! last = Some b -> nHeight b + 1 < 2 ^ 31 ->
  epoch_network params ->
  exists n, GetNextWorkRequired (m_block_index bm) last pblock params = Some n /\
    PermittedDifficultyTransition params (nHeight b + 1) (bi_nBits b) n old_time new_time = Some true.
Proof. intros Hr Hl Hh N; exact (epoch_work_permitted GetHash bm best Hr params last b N Hl Hh pblock old_time new_time). Qed.

Lemma epoch_transition_permitted_witness :
  exists n, GetNextWorkRequired example_index [4] None (with_rules MainParams false 0) = Some n.
Proof.
  destruct (epoch_transition_permitted example_hash (fst example_state) (snd example_state)
    (with_rules MainParams false 0) [4] (default (new_CBlockIndex (example_header 0 0 0)) (example_index !! [4]))
    None None None) as (n & E & _).
  - exact example_reachable.
  - vm_compute; reflexivity.
  - vm_compute; reflexivity.
  - exact epoch_network_main.
  - exists n; exact E.
Defined.
