(* ===== verification/Sha256.v ===== *)
(** SHA-256 as the node computes it: the portable implementation of [src/src/crypto/sha256.cpp]
    ([sha256::Round], [Transform], [TransformD64], [CSHA256]) and the double hash of
    [src/src/hash.h] ([CHash256], [HashWriter]).

    Words are 32-bit [Z]; sums wrap modulo 2^32 once, which is the same as wrapping each addition.
    The eight state variables are passed to [Round] in rotated order by the source; the model
    rotates the tuple instead.  The sixteen variables [w0 .. w15] the source updates in place are a
    list.  [CSHA256] keeps its 64-byte buffer as an array that [memcpy] overwrites in part. *)

From S2P Require Import Prelude ArithUint Params.

#[local] Open Scope Z_scope.

(** ** Words *)

(** [src/src/crypto/common.h] *)
Definition ReadBE32 (bytes : list Z) : Z := lval 8 (rev (take 4 bytes)).
Definition WriteBE32 (x : Z) : list Z := rev (digits 8 4 x).
Definition WriteBE64 (x : Z) : list Z := rev (digits 8 8 x).

Definition shl32 (x n : Z) : Z := wrap 32 (Z.shiftl x n).
Definition rot (x r l : Z) : Z := Z.lor (Z.shiftr x r) (shl32 x l).

Definition Ch (x y z : Z) : Z := Z.lxor z (Z.land x (Z.lxor y z)).
Definition Maj (x y z : Z) : Z := Z.lor (Z.land x y) (Z.land z (Z.lor x y)).
Definition Sigma0 (x : Z) : Z := Z.lxor (Z.lxor (rot x 2 30) (rot x 13 19)) (rot x 22 10).
Definition Sigma1 (x : Z) : Z := Z.lxor (Z.lxor (rot x 6 26) (rot x 11 21)) (rot x 25 7).
Definition sigma0 (x : Z) : Z := Z.lxor (Z.lxor (rot x 7 25) (rot x 18 14)) (Z.shiftr x 3).
Definition sigma1 (x : Z) : Z := Z.lxor (Z.lxor (rot x 17 15) (rot x 19 13)) (Z.shiftr x 10).

(** ** The compression function *)

Record regs := { ra : Z; rb : Z; rc : Z; rd : Z; re : Z; rf : Z; rg : Z; rh : Z }.

(** [Round], followed by the rotation of the arguments of the next call. *)
Definition Round (r : regs) (k : Z) : regs :=
  let t1 := wrap 32 (rh r + Sigma1 (re r) + Ch (re r) (rf r) (rg r) + k) in
  let t2 := wrap 32 (Sigma0 (ra r) + Maj (ra r) (rb r) (rc r)) in
  {| ra := wrap 32 (t1 + t2); rb := ra r; rc := rb r; rd := rc r;
     re := wrap 32 (rd r + t1); rf := re r; rg := rf r; rh := rg r |}.

Definition Rounds (r : regs) (ks : list Z) : regs := foldl Round r ks.

Definition Initialize : regs := {|
  ra := 0x6a09e667; rb := 0xbb67ae85; rc := 0x3c6ef372; rd := 0xa54ff53a;
  re := 0x510e527f; rf := 0x9b05688c; rg := 0x1f83d9ab; rh := 0x5be0cd19 |}.

(** The calls of [Round] in [Transform]: the constant, and the word variable added to it. *)
Definition round_calls : list (Z * Z) :=
  [(0x428a2f98, 0); (0x71374491, 1); (0xb5c0fbcf, 2); (0xe9b5dba5, 3); (0x3956c25b, 4); (0x59f111f1, 5);
   (0x923f82a4, 6); (0xab1c5ed5, 7); (0xd807aa98, 8); (0x12835b01, 9); (0x243185be, 10); (0x550c7dc3, 11);
   (0x72be5d74, 12); (0x80deb1fe, 13); (0x9bdc06a7, 14); (0xc19bf174, 15); (0xe49b69c1, 0); (0xefbe4786, 1);
   (0x0fc19dc6, 2); (0x240ca1cc, 3); (0x2de92c6f, 4); (0x4a7484aa, 5); (0x5cb0a9dc, 6); (0x76f988da, 7);
   (0x983e5152, 8); (0xa831c66d, 9); (0xb00327c8, 10); (0xbf597fc7, 11); (0xc6e00bf3, 12); (0xd5a79147, 13);
   (0x06ca6351, 14); (0x14292967, 15); (0x27b70a85, 0); (0x2e1b2138, 1); (0x4d2c6dfc, 2); (0x53380d13, 3);
   (0x650a7354, 4); (0x766a0abb, 5); (0x81c2c92e, 6); (0x92722c85, 7); (0xa2bfe8a1, 8); (0xa81a664b, 9);
   (0xc24b8b70, 10); (0xc76c51a3, 11); (0xd192e819, 12); (0xd6990624, 13); (0xf40e3585, 14); (0x106aa070, 15);
   (0x19a4c116, 0); (0x1e376c08, 1); (0x2748774c, 2); (0x34b0bcb5, 3); (0x391c0cb3, 4); (0x4ed8aa4a, 5);
   (0x5b9cca4f, 6); (0x682e6ff3, 7); (0x748f82ee, 8); (0x78a5636f, 9); (0x84c87814, 10); (0x8cc70208, 11);
   (0x90befffa, 12); (0xa4506ceb, 13); (0xbef9a3f7, 14); (0xc67178f2, 15)].

Definition K : list Z := map fst round_calls.

(** [w_i += sigma1(w_(i+14)) + w_(i+9) + sigma0(w_(i+1))], subscripts modulo 16. *)
Definition update_word (w : list Z) (i : nat) : list Z :=
  set w i (wrap 32 (get w i + sigma1 (get w ((i + 14) mod 16)) + get w ((i + 9) mod 16) + sigma0 (get w ((i + 1) mod 16)))).

(** The values of the word variables [ixs], each updated in place before it is used. *)
Fixpoint updated_words (ixs : list Z) (w : list Z) : list Z :=
  match ixs with
  | [] => []
  | i :: ixs => let w := update_word w (Z.to_nat i) in get w (Z.to_nat i) :: updated_words ixs w
  end.

(** The words of all rounds: the first sixteen calls use the words of the chunk. *)
Definition message_words (w : list Z) : list Z := w ++ updated_words (map snd (drop 16 round_calls)) w.

Definition add32 (x y : Z) : Z := wrap 32 (x + y).

Definition add_regs (s r : regs) : regs := {|
  ra := add32 (ra s) (ra r); rb := add32 (rb s) (rb r); rc := add32 (rc s) (rc r); rd := add32 (rd s) (rd r);
  re := add32 (re s) (re r); rf := add32 (rf s) (rf r); rg := add32 (rg s) (rg r); rh := add32 (rh s) (rh r) |}.

Definition chunk_words (chunk : list Z) : list Z := map (fun i => ReadBE32 (drop (4 * i) chunk)) (seq 0 16).

(** One iteration of [Transform]. *)
Definition transform_words (s : regs) (w : list Z) : regs :=
  add_regs s (Rounds s (zip_with add32 K (message_words w))).

Fixpoint Transform (s : regs) (chunk : list Z) (blocks : nat) : regs :=
  match blocks with
  | O => s
  | S blocks => Transform (transform_words s (chunk_words chunk)) (drop 64 chunk) blocks
  end.

Definition write_regs (r : regs) : list Z :=
  concat (map WriteBE32 [ra r; rb r; rc r; rd r; re r; rf r; rg r; rh r]).

(** ** [TransformD64]: the double hash of 64 bytes with the padding folded into constants *)

(** The constants of transform 2. *)
Definition D64_K2 : list Z :=
  [0xc28a2f98; 0x71374491; 0xb5c0fbcf; 0xe9b5dba5; 0x3956c25b; 0x59f111f1; 0x923f82a4; 0xab1c5ed5;
   0xd807aa98; 0x12835b01; 0x243185be; 0x550c7dc3; 0x72be5d74; 0x80deb1fe; 0x9bdc06a7; 0xc19bf374;
   0x649b69c1; 0xf0fe4786; 0x0fe1edc6; 0x240cf254; 0x4fe9346f; 0x6cc984be; 0x61b9411e; 0x16f988fa;
   0xf2c65152; 0xa88e5a6d; 0xb019fc65; 0xb9d99ec7; 0x9a1231c3; 0xe70eeaa0; 0xfdb1232b; 0xc7353eb0;
   0x3069bad5; 0xcb976d5f; 0x5a0f118f; 0xdc1eeefd; 0x0a35b689; 0xde0b7a04; 0x58f4ca9d; 0xe15d5b16;
   0x007f3e86; 0x37088980; 0xa507ea32; 0x6fab9537; 0x17406110; 0x0d8cd6f1; 0xcdaa3b6d; 0xc0bbbe37;
   0x83613bda; 0xdb48a363; 0x0b02e931; 0x6fd15ca7; 0x521afaca; 0x31338431; 0x6ed41a95; 0x6d437890;
   0xc39c91f2; 0x9eccabbd; 0xb5c9a0e6; 0x532fb63c; 0xd2c741c6; 0x07237ea3; 0xa4954b68; 0x4c191d76].

(** The constants of the first sixteen rounds of transform 3; half of them are added to the words
    of the first digest, the others include their padding word. *)
Definition D64_K3 : list Z :=
  [0x428a2f98; 0x71374491; 0xb5c0fbcf; 0xe9b5dba5; 0x3956c25b; 0x59f111f1; 0x923f82a4; 0xab1c5ed5;
   0x5807aa98; 0x12835b01; 0x243185be; 0x550c7dc3; 0x72be5d74; 0x80deb1fe; 0x9bdc06a7; 0xc19bf274].

(** The other rounds of transform 3. *)
Definition D64_calls : list (Z * Z) :=
  [(0xe49b69c1, 0); (0xefbe4786, 1); (0x0fc19dc6, 2); (0x240ca1cc, 3); (0x2de92c6f, 4); (0x4a7484aa, 5);
   (0x5cb0a9dc, 6); (0x76f988da, 7); (0x983e5152, 8); (0xa831c66d, 9); (0xb00327c8, 10); (0xbf597fc7, 11);
   (0xc6e00bf3, 12); (0xd5a79147, 13); (0x06ca6351, 14); (0x14292967, 15); (0x27b70a85, 0); (0x2e1b2138, 1);
   (0x4d2c6dfc, 2); (0x53380d13, 3); (0x650a7354, 4); (0x766a0abb, 5); (0x81c2c92e, 6); (0x92722c85, 7);
   (0xa2bfe8a1, 8); (0xa81a664b, 9); (0xc24b8b70, 10); (0xc76c51a3, 11); (0xd192e819, 12); (0xd6990624, 13);
   (0xf40e3585, 14); (0x106aa070, 15); (0x19a4c116, 0); (0x1e376c08, 1); (0x2748774c, 2); (0x34b0bcb5, 3);
   (0x391c0cb3, 4); (0x4ed8aa4a, 5); (0x5b9cca4f, 6); (0x682e6ff3, 7); (0x748f82ee, 8); (0x78a5636f, 9);
   (0x84c87814, 10); (0x8cc70208, 11); (0x90befffa, 12); (0xa4506ceb, 13); (0xbef9a3f7, 14); (0xc67178f2, 15)].

(** The sixteen assignments of transform 3 that simplify the padding words away. *)
Definition D64_words (w0 w1 w2 w3 w4 w5 w6 w7 : Z) : list Z :=
  let w0 := wrap 32 (w0 + sigma0 w1) in
  let w1 := wrap 32 (w1 + 0xa00000 + sigma0 w2) in
  let w2 := wrap 32 (w2 + sigma1 w0 + sigma0 w3) in
  let w3 := wrap 32 (w3 + sigma1 w1 + sigma0 w4) in
  let w4 := wrap 32 (w4 + sigma1 w2 + sigma0 w5) in
  let w5 := wrap 32 (w5 + sigma1 w3 + sigma0 w6) in
  let w6 := wrap 32 (w6 + sigma1 w4 + 0x100 + sigma0 w7) in
  let w7 := wrap 32 (w7 + sigma1 w5 + w0 + 0x11002000) in
  let w8 := wrap 32 (0x80000000 + sigma1 w6 + w1) in
  let w9 := wrap 32 (sigma1 w7 + w2) in
  let w10 := wrap 32 (sigma1 w8 + w3) in
  let w11 := wrap 32 (sigma1 w9 + w4) in
  let w12 := wrap 32 (sigma1 w10 + w5) in
  let w13 := wrap 32 (sigma1 w11 + w6) in
  let w14 := wrap 32 (sigma1 w12 + w7 + 0x400022) in
  let w15 := wrap 32 (0x100 + sigma1 w13 + w8 + sigma0 w0) in
  [w0; w1; w2; w3; w4; w5; w6; w7; w8; w9; w10; w11; w12; w13; w14; w15].

Definition TransformD64 (input : list Z) : list Z :=
  let t := add_regs Initialize (Rounds Initialize (zip_with add32 K (message_words (chunk_words input)))) in
  let w := add_regs t (Rounds t D64_K2) in
  let d := D64_words (ra w) (rb w) (rc w) (rd w) (re w) (rf w) (rg w) (rh w) in
  let first := zip_with add32 (take 8 D64_K3) [ra w; rb w; rc w; rd w; re w; rf w; rg w; rh w] ++ drop 8 D64_K3 in
  let rest := zip_with add32 (map fst D64_calls) (d ++ updated_words (map snd (drop 16 D64_calls)) d) in
  let r := Rounds Initialize (first ++ rest) in
  write_regs (add_regs Initialize r).

(** ** [CSHA256] *)

Record CSHA256 := { s : regs; buf : list Z; bytes : Z }.

(** [memcpy(buf + off, data, length data)]. *)
Definition memcpy (buf : list Z) (off : nat) (data : list Z) : list Z :=
  take off buf ++ data ++ drop (off + length data) buf.

(** The constructor leaves [buf] uninitialised; the argument is what it happens to hold. *)
Definition CSHA256_init (garbage : list Z) : CSHA256 := {| s := Initialize; buf := garbage; bytes := 0 |}.

Definition Write (c : CSHA256) (data : list Z) : CSHA256 :=
  let bufsize := Z.to_nat (bytes c mod 64) in
  (* Fill the buffer, and process it. *)
  let '(c, data, bufsize) :=
    if negb (bufsize =? 0)%nat && (64 <=? bufsize + length data)%nat then
      let n := (64 - bufsize)%nat in
      let b := memcpy (buf c) bufsize (take n data) in
      ({| s := Transform (s c) b 1; buf := b; bytes := wrap 64 (bytes c + Z.of_nat n) |}, drop n data, 0%nat)
    else (c, data, bufsize) in
  let '(c, data) :=
    if (64 <=? length data)%nat then
      let blocks := (length data / 64)%nat in
      ({| s := Transform (s c) data blocks; buf := buf c; bytes := wrap 64 (bytes c + 64 * Z.of_nat blocks) |},
       drop (64 * blocks) data)
    else (c, data) in
  (* Fill the buffer with what remains. *)
  if (0 <? length data)%nat then
    {| s := s c; buf := memcpy (buf c) bufsize data; bytes := wrap 64 (bytes c + Z.of_nat (length data)) |}
  else c.

(** The bytes of [pad]: 0x80, then zeros. *)
Definition pad : list Z := 0x80 :: replicate 63 0.

(** The hasher after the two final writes, and the digest. *)
Definition Finalize (c : CSHA256) : CSHA256 * list Z :=
  let sizedesc := WriteBE64 (wrap 64 (Z.shiftl (bytes c) 3)) in
  let c := Write c (take (Z.to_nat (1 + (119 - bytes c mod 64) mod 64)) pad) in
  let c := Write c sizedesc in
  (c, write_regs (s c)).

Definition Reset (c : CSHA256) : CSHA256 := {| s := Initialize; buf := buf c; bytes := 0 |}.

(** ** [CHash256], [HashWriter] and [Hash] *)

Definition CHash256_Finalize (sha : CSHA256) : list Z :=
  let '(sha, buf) := Finalize sha in
  snd (Finalize (Write (Reset sha) buf)).

(** [HashWriter::GetHash] and [GetSHA256]; [HashWriter::write] is [Write] on the writer's context. *)
Definition HashWriter_GetHash (ctx : CSHA256) : uint256 :=
  let '(ctx, result) := Finalize ctx in
  snd (Finalize (Write (Reset ctx) result)).

Definition HashWriter_GetSHA256 (ctx : CSHA256) : uint256 := snd (Finalize ctx).

Definition Hash (data : list Z) : uint256 := CHash256_Finalize (Write (CSHA256_init (replicate 64 0)) data).

Definition Hash2 (in1 in2 : list Z) : uint256 :=
  CHash256_Finalize (Write (Write (CSHA256_init (replicate 64 0)) in1) in2).

(** ** [SHA256D64]: many 64-byte inputs at once *)

(** The vectorised transforms that processor detection may install. *)
Class MultiWay := {
  TransformD64_8way : option (list Z -> list Z);
  TransformD64_4way : option (list Z -> list Z);
  TransformD64_2way : option (list Z -> list Z) }.

(** [k] calls of [f], each on the next [64 * lanes] bytes. *)
Fixpoint calls (f : list Z -> list Z) (lanes k : nat) (input : list Z) : list Z :=
  match k with O => [] | S k => f input ++ calls f lanes k (drop (64 * lanes) input) end.

(** [while (blocks >= lanes) { f(out, in); ... }], with the output, and the input and block count left. *)
Definition while_lanes (way : option (list Z -> list Z)) (lanes : nat) (input : list Z) (blocks : nat) : list Z * list Z * nat :=
  match way with
  | Some f => (calls f lanes (blocks / lanes) input, drop (64 * lanes * (blocks / lanes)) input, (blocks mod lanes)%nat)
  | None => ([], input, blocks)
  end.

Definition SHA256D64 `{MultiWay} (input : list Z) (blocks : nat) : list Z :=
  let '(o8, input, blocks) := while_lanes TransformD64_8way 8 input blocks in
  let '(o4, input, blocks) := while_lanes TransformD64_4way 4 input blocks in
  let '(o2, input, blocks) := while_lanes TransformD64_2way 2 input blocks in
  o8 ++ o4 ++ o2 ++ calls TransformD64 1 blocks input.

(** ** The standard (FIPS 180-4), as a reference *)

Module Fips.

Definition rotr (n x : Z) : Z := Z.lor (Z.shiftr x n) (wrap 32 (Z.shiftl x (32 - n))).
Definition ch (x y z : Z) : Z := Z.lxor (Z.land x y) (Z.land (Z.lxor x (2 ^ 32 - 1)) z).
Definition maj (x y z : Z) : Z := Z.lxor (Z.lxor (Z.land x y) (Z.land x z)) (Z.land y z).
Definition Sum0 (x : Z) : Z := Z.lxor (Z.lxor (rotr 2 x) (rotr 13 x)) (rotr 22 x).
Definition Sum1 (x : Z) : Z := Z.lxor (Z.lxor (rotr 6 x) (rotr 11 x)) (rotr 25 x).
Definition sig0 (x : Z) : Z := Z.lxor (Z.lxor (rotr 7 x) (rotr 18 x)) (Z.shiftr x 3).
Definition sig1 (x : Z) : Z := Z.lxor (Z.lxor (rotr 17 x) (rotr 19 x)) (Z.shiftr x 10).

(** The constants: the first 32 bits of the fractional parts of the square roots of the first eight
    primes, and of the cube roots of the first sixty-four. *)
Definition primes : list Z :=
  filter (fun p => Forall (fun d => p mod d <> 0) (seqZ 2 (p - 2))) (seqZ 2 310).
Fixpoint cbrt_bits (n : nat) (x r : Z) : Z :=
  match n with
  | O => r
  | S n => let r' := r + 2 ^ Z.of_nat n in cbrt_bits n x (if r' ^ 3 <=? x then r' else r)
  end.
Definition H0 : list Z := map (fun p => wrap 32 (Z.sqrt (p * 2 ^ 64))) (take 8 primes).
Definition Kt : list Z := map (fun p => wrap 32 (cbrt_bits 40 (p * 2 ^ 96) 0)) primes.

(** [W_t] from [W_0 .. W_(t-1)]. *)
Definition word (W : list Z) : Z :=
  let t := length W in
  wrap 32 (sig1 (get W (t - 2)) + get W (t - 7) + sig0 (get W (t - 15)) + get W (t - 16)).
Fixpoint extend (n : nat) (W : list Z) : list Z :=
  match n with O => W | S n => extend n (W ++ [word W]) end.

Definition step (r : regs) (kw : Z * Z) : regs :=
  let T1 := wrap 32 (rh r + Sum1 (re r) + ch (re r) (rf r) (rg r) + fst kw + snd kw) in
  let T2 := wrap 32 (Sum0 (ra r) + maj (ra r) (rb r) (rc r)) in
  {| ra := wrap 32 (T1 + T2); rb := ra r; rc := rb r; rd := rc r;
     re := wrap 32 (rd r + T1); rf := re r; rg := rf r; rh := rg r |}.

Definition block (h : regs) (chunk : list Z) : regs :=
  add_regs h (foldl step h (zip Kt (extend 48 (chunk_words chunk)))).

Fixpoint blocks (n : nat) (h : regs) (m : list Z) : regs :=
  match n with O => h | S n => blocks n (block h (take 64 m)) (drop 64 m) end.

(** The padded message: 0x80, zeros up to 56 modulo 64, the bit length. *)
Definition padded (m : list Z) : list Z :=
  m ++ 0x80 :: replicate (Z.to_nat ((55 - Z.of_nat (length m)) mod 64)) 0 ++ WriteBE64 (8 * Z.of_nat (length m)).

Definition initial : regs := {|
  ra := get H0 0; rb := get H0 1; rc := get H0 2; rd := get H0 3;
  re := get H0 4; rf := get H0 5; rg := get H0 6; rh := get H0 7 |}.

Definition sha256 (m : list Z) : list Z :=
  write_regs (blocks (length (padded m) / 64) initial (padded m)).
End Fips.

(** ** The compression function agrees with the standard *)

Definition regs_ok (r : regs) : Prop :=
  in_u 32 (ra r) /\ in_u 32 (rb r) /\ in_u 32 (rc r) /\ in_u 32 (rd r) /\
  in_u 32 (re r) /\ in_u 32 (rf r) /\ in_u 32 (rg r) /\ in_u 32 (rh r).

Lemma regs_ok_init : regs_ok Initialize.
Proof. repeat split; vm_compute; congruence. Qed.

Lemma regs_ok_Round r k : regs_ok r -> regs_ok (Round r k).
Proof. intros (? & ? & ? & ? & ? & ? & ? & ?); repeat (split; [try assumption; apply wrap_range; lia|]); assumption. Qed.

Lemma regs_ok_Rounds ks r : regs_ok r -> regs_ok (Rounds r ks).
Proof. unfold Rounds; revert r; induction ks; intros r Hr; cbn; auto using regs_ok_Round. Qed.

Lemma regs_ok_add x y : regs_ok (add_regs x y).
Proof. repeat split; apply wrap_range; lia. Qed.

Lemma regs_ok_transform_words x w : regs_ok (transform_words x w).
Proof. apply regs_ok_add. Qed.

Lemma regs_ok_Transform n x d : regs_ok x -> regs_ok (Transform x d n).
Proof. revert x d; induction n; intros x d Hx; cbn [Transform]; auto using regs_ok_transform_words. Qed.

Lemma Ch_spec x y z : in_u 32 x -> in_u 32 z -> Ch x y z = Fips.ch x y z.
Proof.
  intros Hx Hz; apply Z.bits_inj'; intros i Hi; unfold Ch, Fips.ch; change (2 ^ 32 - 1) with (Z.ones 32).
  rewrite !Z.lxor_spec, !Z.land_spec, !Z.lxor_spec, Z.testbit_ones_nonneg by lia.
  destruct (Z.ltb_spec i 32); [btauto|]; rewrite (testbit_above 32 x), (testbit_above 32 z) by (auto; lia); reflexivity.
Qed.

Lemma Maj_spec x y z : Maj x y z = Fips.maj x y z.
Proof.
  apply Z.bits_inj'; intros i Hi; unfold Maj, Fips.maj.
  rewrite !Z.lxor_spec, !Z.lor_spec, !Z.land_spec, !Z.lor_spec; btauto.
Qed.

Lemma wrap_add_r w x y : wrap w (x + wrap w y) = wrap w (x + y).
Proof. unfold wrap; apply Zplus_mod_idemp_r. Qed.

Lemma wrap_add_l w x y : wrap w (wrap w x + y) = wrap w (x + y).
Proof. unfold wrap; apply Zplus_mod_idemp_l. Qed.

Lemma Round_step r k w : regs_ok r -> Round r (add32 k w) = Fips.step r (k, w).
Proof.
  intros (? & ? & ? & ? & ? & ? & ? & ?); unfold Round, Fips.step; cbn [fst snd].
  rewrite Maj_spec, Ch_spec by assumption; unfold add32.
  pose proof (wrap_add_r 32 (rh r + Sigma1 (re r) + Fips.ch (re r) (rf r) (rg r)) (k + w)) as E.
  rewrite Z.add_assoc in E; rewrite E; reflexivity.
Qed.

Lemma Rounds_steps ks ws r : regs_ok r -> Rounds r (zip_with add32 ks ws) = foldl Fips.step r (zip ks ws).
Proof.
  unfold Rounds; revert ws r; induction ks as [|k ks IH]; intros [|w ws] r Hr; cbn [zip_with foldl]; auto.
  rewrite Round_step by exact Hr; apply IH; rewrite <- Round_step by exact Hr; apply regs_ok_Round, Hr.
Qed.

Lemma Kt_K : Fips.Kt = K.
Proof. vm_compute; reflexivity. Qed.

Lemma initial_Initialize : Fips.initial = Initialize.
Proof. vm_compute; reflexivity. Qed.

(** ** The words updated in place are the message schedule *)

(** The sixteen variables, seen from the one that is updated next, are a window that slides over the
    message schedule. *)
Definition next_word (w : list Z) : Z := wrap 32 (get w 0 + sigma1 (get w 14) + get w 9 + sigma0 (get w 1)).
Definition slide (w : list Z) : list Z := tail w ++ [next_word w].

(** The [n] words used from window [w] on. *)
Fixpoint schedule (n : nat) (w : list Z) : list Z :=
  match n with O => [] | S n => get w 0 :: schedule n (slide w) end.

Lemma length_extend n w : length (Fips.extend n w) = (length w + n)%nat.
Proof. revert w; induction n as [|n IH]; intros w; cbn; [lia|]; rewrite IH, length_app; cbn; lia. Qed.

Lemma extend_prefix n w i : (i < length w)%nat -> get (Fips.extend n w) i = get w i.
Proof.
  revert w; induction n as [|n IH]; intros w Hi; [reflexivity|]; cbn [Fips.extend].
  rewrite IH by (rewrite length_app; cbn; lia); unfold get; rewrite app_nth1 by exact Hi; reflexivity.
Qed.

Lemma extend_add n m w : Fips.extend (n + m) w = Fips.extend m (Fips.extend n w).
Proof. revert w; induction n as [|n IH]; intros w; [reflexivity | apply IH]. Qed.

Lemma get_drop (l : list Z) t i : get (drop t l) i = get l (t + i).
Proof.
  unfold get; revert t; induction l as [|x l IH]; intros [|t]; cbn [drop]; try reflexivity.
  - destruct i; reflexivity.
  - rewrite IH; reflexivity.
Qed.

Lemma slide_extend t w :
  length w = 16%nat -> slide (drop t (Fips.extend t w)) = drop (S t) (Fips.extend (S t) w).
Proof.
  intros Hw; replace (S t) with (t + 1)%nat at 2 by lia; rewrite extend_add; set (W := Fips.extend t w).
  assert (HW : length W = (t + 16)%nat) by (unfold W; rewrite length_extend; lia).
  cbn [Fips.extend]; rewrite drop_app_le by lia; unfold slide.
  replace (tail (drop t W)) with (drop (S t) W) by (rewrite <- Nat.add_1_r, <- drop_drop; destruct (drop t W); reflexivity).
  f_equal; f_equal; unfold next_word, Fips.word; rewrite !get_drop, HW.
  replace (t + 16 - 2)%nat with (t + 14)%nat by lia; replace (t + 16 - 7)%nat with (t + 9)%nat by lia.
  replace (t + 16 - 15)%nat with (t + 1)%nat by lia; replace (t + 16 - 16)%nat with (t + 0)%nat by lia.
  change Fips.sig0 with sigma0; change Fips.sig1 with sigma1; f_equal; lia.
Qed.

Lemma length_schedule n w : length (schedule n w) = n.
Proof. revert w; induction n; intros; cbn; auto. Qed.

Lemma get_schedule n t w i :
  length w = 16%nat -> (i < n)%nat ->
  get (schedule n (drop t (Fips.extend t w))) i = get (Fips.extend (t + i) w) (t + i).
Proof.
  intros Hw; revert t i; induction n as [|n IH]; intros t i Hi; [lia|]; cbn [schedule].
  destruct i as [|i].
  - rewrite Nat.add_0_r; unfold get at 1; cbn [nth]; rewrite get_drop, Nat.add_0_r; reflexivity.
  - unfold get at 1; cbn [nth]; fold (get (schedule n (slide (drop t (Fips.extend t w)))) i).
    rewrite slide_extend, IH, <- Nat.add_succ_comm by (auto; lia); reflexivity.
Qed.

Lemma schedule_extend n w :
  length w = 16%nat -> schedule (n + 16) w = Fips.extend n w.
Proof.
  intros Hw; apply get_ext; [rewrite length_schedule, length_extend; lia|].
  rewrite length_schedule; intros i Hi; rewrite (get_schedule (n + 16) 0 w i Hw Hi : get (schedule (n + 16) w) i = _).
  cbn [Nat.add]; destruct (Nat.le_gt_cases i n).
  - replace n with (i + (n - i))%nat by lia; rewrite extend_add, (extend_prefix (n - i) (Fips.extend i w)); [reflexivity|].
    rewrite length_extend; lia.
  - replace i with (n + (i - n))%nat at 1 by lia; rewrite extend_add, (extend_prefix (i - n) (Fips.extend n w)); [reflexivity|].
    rewrite length_extend; lia.
Qed.

Lemma schedule_add n m w : schedule (n + m) w = schedule n w ++ schedule m (Nat.iter n slide w).
Proof.
  revert w; induction n as [|n IH]; intros w; [reflexivity|]; cbn [Nat.add schedule app]; rewrite IH.
  do 3 f_equal; rewrite Nat.iter_succ_r; reflexivity.
Qed.

(** The window that starts at variable [t]. *)
Definition window (t : nat) (w : list Z) : list Z := map (fun k => get w ((t + k) mod 16)) (seq 0 16).

Lemma get_window t w k : (k < 16)%nat -> get (window t w) k = get w ((t + k) mod 16).
Proof. exact (get_map_seq _ 16 k). Qed.

Lemma length_window t w : length (window t w) = 16%nat.
Proof. unfold window; rewrite length_map, length_seq; reflexivity. Qed.

Lemma window_0 w : length w = 16%nat -> window 0 w = w.
Proof.
  intros Hw; apply get_ext; rewrite length_window; [auto|]; intros i Hi.
  rewrite get_window, Nat.mod_small by exact Hi; reflexivity.
Qed.

Lemma length_slide w : (0 < length w)%nat -> length (slide w) = length w.
Proof. intros Hw; unfold slide; destruct w; cbn in *; [lia|]; rewrite length_app; cbn; lia. Qed.

Lemma get_slide w i : length w = 16%nat -> (i < 15)%nat -> get (slide w) i = get w (S i).
Proof.
  intros Hw Hi; unfold slide, get; destruct w as [|x w]; cbn in Hw; [lia|]; cbn [tail nth].
  apply app_nth1; lia.
Qed.

Lemma get_slide_last w : length w = 16%nat -> get (slide w) 15 = next_word w.
Proof.
  intros Hw; unfold slide; destruct w as [|x w]; cbn in Hw; [lia|]; cbn [tail]; unfold get.
  rewrite app_nth2 by lia; replace (15 - length w)%nat with 0%nat by lia; reflexivity.
Qed.

Lemma length_slides n w : length w = 16%nat -> length (Nat.iter n slide w) = 16%nat.
Proof. intros Hw; induction n as [|n IH]; [exact Hw|]; rewrite Nat.iter_succ, length_slide; lia. Qed.

Lemma get_slides n w i : length w = 16%nat -> (n + i < 16)%nat -> get (Nat.iter n slide w) i = get w (n + i).
Proof.
  intros Hw; revert i; induction n as [|n IH]; intros i Hi; [reflexivity|]; rewrite Nat.iter_succ.
  rewrite get_slide, IH by first [lia | apply length_slides, Hw]; f_equal; lia.
Qed.

Lemma window_update t w :
  length w = 16%nat -> (t < 16)%nat -> window (t + 1) (update_word w t) = slide (window t w).
Proof.
  intros Hw Ht; apply get_ext; rewrite length_window; [rewrite length_slide; rewrite length_window; lia|].
  intros k Hk; rewrite get_window by exact Hk; destruct (decide (k = 15%nat)) as [->|Hne].
  - replace ((t + 1 + 15) mod 16)%nat with t by (replace (t + 1 + 15)%nat with (t + 1 * 16)%nat by lia; rewrite Nat.Div0.mod_add, Nat.mod_small; lia).
    rewrite get_slide_last by apply length_window; unfold update_word, next_word.
    rewrite get_set_eq, !get_window, Nat.add_0_r, (Nat.mod_small t 16) by lia; reflexivity.
  - rewrite get_slide, get_window by (rewrite ?length_window; lia); unfold update_word.
    replace (t + 1 + k)%nat with (t + S k)%nat by lia; apply get_set_ne; intros E.
    destruct (Nat.le_gt_cases 16 (t + S k)); [|rewrite Nat.mod_small in E; lia].
    replace (t + S k)%nat with (t + S k - 16 + 1 * 16)%nat in E by lia.
    rewrite Nat.Div0.mod_add, Nat.mod_small in E; lia.
Qed.

Lemma window_mod t w : window (t mod 16) w = window t w.
Proof. apply map_ext; intros k; rewrite Nat.Div0.add_mod_idemp_l; reflexivity. Qed.

(** Updating the variables in turn produces the words sixteen places down the schedule. *)
Lemma updated_words_schedule n t w :
  length w = 16%nat ->
  updated_words (map (fun j => Z.of_nat (j mod 16)) (seq t n)) w = schedule n (Nat.iter 16 slide (window t w)).
Proof.
  revert t w; induction n as [|n IH]; intros t w Hw; [reflexivity|].
  pose proof (Nat.mod_upper_bound t 16 ltac:(lia)) as Ht.
  assert (Hu : window (S t) (update_word w (t mod 16)) = slide (window t w)).
  { rewrite <- (window_mod t), <- (window_update (t mod 16) w Hw Ht), <- (window_mod (S t)), <- (window_mod (t mod 16 + 1)).
    rewrite Nat.Div0.add_mod_idemp_l, Nat.add_1_r; reflexivity. }
  cbn [seq map updated_words schedule]; rewrite Nat2Z.id.
  rewrite IH by (unfold update_word; rewrite length_set; exact Hw); rewrite Hu, <- Nat.iter_succ_r, <- Nat.iter_succ; f_equal.
  rewrite Nat.iter_succ_r, (get_slides 15), get_slide_last by (rewrite ?length_slide; rewrite ?length_window; lia).
  unfold update_word; rewrite get_set_eq by lia; unfold next_word; rewrite !get_window, Nat.add_0_r by lia.
  rewrite !Nat.Div0.add_mod_idemp_l; reflexivity.
Qed.

Lemma schedule_16 w : length w = 16%nat -> schedule 16 w = w.
Proof. intros Hw; exact (schedule_extend 0 w Hw). Qed.

(** The words of a run of [16 + n] rounds that starts with the variables as they are. *)
Lemma words_schedule n w :
  length w = 16%nat ->
  w ++ updated_words (map (fun j => Z.of_nat (j mod 16)) (seq 0 n)) w = schedule (16 + n) w.
Proof.
  intros Hw; rewrite (updated_words_schedule n 0 w Hw), window_0, schedule_add, schedule_16 by exact Hw; reflexivity.
Qed.

Lemma message_words_schedule w : length w = 16%nat -> message_words w = schedule 64 w.
Proof. exact (words_schedule 48 w). Qed.

Lemma length_chunk_words c : length (chunk_words c) = 16%nat.
Proof. unfold chunk_words; rewrite length_map, length_seq; reflexivity. Qed.

Lemma chunk_words_take c : chunk_words (take 64 c) = chunk_words c.
Proof.
  apply map_ext_in; intros i Hi; apply in_seq in Hi; unfold ReadBE32; do 2 f_equal.
  rewrite skipn_firstn_comm, take_take; f_equal; lia.
Qed.

Lemma transform_words_block x c : regs_ok x -> transform_words x (chunk_words c) = Fips.block x (take 64 c).
Proof.
  intros Hx; unfold transform_words, Fips.block; rewrite chunk_words_take, Rounds_steps by exact Hx.
  rewrite message_words_schedule, (schedule_extend 48), Kt_K by apply length_chunk_words; reflexivity.
Qed.

Lemma Transform_blocks n x d : regs_ok x -> Transform x d n = Fips.blocks n x d.
Proof.
  revert x d; induction n as [|n IH]; intros x d Hx; [reflexivity|]; cbn [Transform Fips.blocks].
  rewrite transform_words_block by exact Hx; apply IH.
  rewrite <- transform_words_block by exact Hx; apply regs_ok_transform_words.
Qed.

Lemma sha256_Transform m :
  Fips.sha256 m = write_regs (Transform Initialize (Fips.padded m) (length (Fips.padded m) / 64)).
Proof. unfold Fips.sha256; rewrite initial_Initialize, Transform_blocks by apply regs_ok_init; reflexivity. Qed.

(** ** Streaming *)

Lemma Transform_take n x d k : (64 * n <= k)%nat -> Transform x (take k d) n = Transform x d n.
Proof.
  revert x d k; induction n as [|n IH]; intros x d k Hk; [reflexivity|]; cbn [Transform].
  rewrite skipn_firstn_comm, IH by lia.
  rewrite <- (chunk_words_take (take k d)), take_take, Nat.min_l, chunk_words_take by lia; reflexivity.
Qed.

Lemma Transform_add n m x d : Transform x d (n + m) = Transform (Transform x d n) (drop (64 * n) d) m.
Proof.
  revert x d; induction n as [|n IH]; intros x d; [reflexivity|]; cbn [Nat.add Transform].
  rewrite IH, drop_drop; do 2 f_equal; lia.
Qed.

Lemma Transform_app n m x a b : length a = (64 * n)%nat -> Transform x (a ++ b) (n + m) = Transform (Transform x a n) b m.
Proof.
  intros Ha; rewrite Transform_add, <- Ha, drop_app_length.
  rewrite <- (Transform_take n x (a ++ b) (64 * n)), <- Ha, take_app_length by lia; reflexivity.
Qed.

(** The hasher has absorbed message [m]. *)
Definition absorbed (c : CSHA256) (m : list Z) : Prop :=
  s c = Transform Initialize m (length m / 64) /\ bytes c = wrap 64 (Z.of_nat (length m)) /\
  length (buf c) = 64%nat /\ take (length m mod 64) (buf c) = drop (64 * (length m / 64)) m.

Lemma bytes_mod c m : absorbed c m -> Z.to_nat (bytes c mod 64) = (length m mod 64)%nat.
Proof.
  intros (_ & -> & _); unfold wrap; rewrite Z.mod_mod_divide by (exists (2 ^ 58); lia).
  rewrite <- (Nat2Z.inj_mod _ 64), Nat2Z.id; reflexivity.
Qed.

Lemma absorbed_bytes c m n : absorbed c m -> wrap 64 (bytes c + Z.of_nat n) = wrap 64 (Z.of_nat (length m + n)).
Proof. intros (_ & -> & _); rewrite wrap_add_l, Nat2Z.inj_add; reflexivity. Qed.

Lemma length_memcpy b off d : (off + length d <= length b)%nat -> length (memcpy b off d) = length b.
Proof. intros; unfold memcpy; rewrite !length_app, length_take, length_drop; lia. Qed.

Lemma take_memcpy b off d : (off <= length b)%nat -> take (off + length d) (memcpy b off d) = take off b ++ d.
Proof.
  intros; unfold memcpy; rewrite app_assoc, take_app_le by (rewrite length_app, length_take; lia).
  apply take_ge; rewrite length_app, length_take; lia.
Qed.

Lemma div_mod64 n : n = (64 * (n / 64) + n mod 64)%nat /\ (n mod 64 < 64)%nat.
Proof. split; [apply Nat.div_mod_eq | apply Nat.mod_upper_bound; lia]. Qed.

Lemma div64_unique n q r : n = (64 * q + r)%nat -> (r < 64)%nat -> (n / 64)%nat = q /\ (n mod 64)%nat = r.
Proof.
  intros Hn Hr; split; symmetry; [apply (Nat.div_unique n 64 q r) | apply (Nat.mod_unique n 64 q r)]; lia.
Qed.

(** Completing the buffered block. *)
Lemma absorb_fill c m d :
  absorbed c m -> (length m mod 64 <> 0)%nat -> length d = (64 - length m mod 64)%nat ->
  absorbed {| s := Transform (s c) (memcpy (buf c) (length m mod 64) d) 1;
              buf := memcpy (buf c) (length m mod 64) d;
              bytes := wrap 64 (bytes c + Z.of_nat (length d)) |} (m ++ d).
Proof.
  intros Hc Hr Hd; pose proof (absorbed_bytes c m (length d) Hc) as Hb; destruct Hc as (Hs & _ & Hl & Ht).
  destruct (div_mod64 (length m)) as [Hm Hlt]; set (q := (length m / 64)%nat) in *; set (r := (length m mod 64)%nat) in *.
  destruct (div64_unique (length (m ++ d)) (q + 1) 0) as [E1 E2]; [rewrite length_app; lia | lia|].
  assert (Hmem : memcpy (buf c) r d = drop (64 * q) m ++ d).
  { rewrite <- Ht, <- (take_memcpy (buf c) r d) by lia; symmetry; apply take_ge; rewrite length_memcpy; lia. }
  unfold absorbed; cbn [s buf bytes]; rewrite E1, E2, Hb, length_app, length_memcpy, Hmem by lia.
  split; [|split; [reflexivity|split; [lia|]]].
  - rewrite Hs, <- (Transform_take q _ m (64 * q)), <- Transform_app by (rewrite ?length_take; lia).
    rewrite app_assoc, take_drop; reflexivity.
  - symmetry; apply drop_ge; rewrite length_app; lia.
Qed.

(** Whole blocks straight from the input. *)
Lemma absorb_blocks c m d n :
  absorbed c m -> (length m mod 64 = 0)%nat -> (64 * n <= length d)%nat ->
  absorbed {| s := Transform (s c) d n; buf := buf c; bytes := wrap 64 (bytes c + 64 * Z.of_nat n) |}
    (m ++ take (64 * n) d).
Proof.
  intros Hc Hr Hd; pose proof (absorbed_bytes c m (64 * n) Hc) as Hb; destruct Hc as (Hs & _ & Hl & Ht).
  destruct (div_mod64 (length m)) as [Hm _]; set (q := (length m / 64)%nat) in *.
  destruct (div64_unique (length (m ++ take (64 * n) d)) (q + n) 0) as [E1 E2];
    [rewrite length_app, length_take; lia | lia|].
  unfold absorbed; cbn [s buf bytes]; rewrite E1, E2, Hs.
  split; [|split; [|split; [exact Hl|]]].
  - rewrite (Transform_app q n) by lia; symmetry; apply Transform_take; lia.
  - rewrite length_app, length_take, Nat.min_l by lia; rewrite <- Hb; do 2 f_equal; lia.
  - symmetry; apply drop_ge; rewrite length_app, length_take; lia.
Qed.

(** What remains goes to the buffer. *)
Lemma absorb_rest c m d :
  absorbed c m -> (length m mod 64 + length d < 64)%nat ->
  absorbed {| s := s c; buf := memcpy (buf c) (length m mod 64) d; bytes := wrap 64 (bytes c + Z.of_nat (length d)) |}
    (m ++ d).
Proof.
  intros Hc Hd; pose proof (absorbed_bytes c m (length d) Hc) as Hb; destruct Hc as (Hs & _ & Hl & Ht).
  destruct (div_mod64 (length m)) as [Hm Hlt]; set (q := (length m / 64)%nat) in *; set (r := (length m mod 64)%nat) in *.
  destruct (div64_unique (length (m ++ d)) q (r + length d)) as [E1 E2]; [rewrite length_app; lia | lia|].
  unfold absorbed; cbn [s buf bytes]; rewrite E1, E2, Hb, length_app, length_memcpy, take_memcpy, Ht by lia.
  split; [|split; [reflexivity|split; [exact Hl|]]].
  - rewrite Hs, <- (Transform_take q _ (m ++ d) (64 * q)), take_app_le, Transform_take by lia; reflexivity.
  - rewrite drop_app_le by lia; reflexivity.
Qed.

(** The first stage of [Write]: the buffer is empty afterwards, or the data fits in it. *)
Lemma Write_fill c m d r :
  absorbed c m -> r = (length m mod 64)%nat ->
  exists c1 m1 d1 r1,
    (if negb (r =? 0)%nat && (64 <=? r + length d)%nat then
      ({| s := Transform (s c) (memcpy (buf c) r (take (64 - r) d)) 1; buf := memcpy (buf c) r (take (64 - r) d);
          bytes := wrap 64 (bytes c + Z.of_nat (64 - r)) |}, drop (64 - r) d, 0%nat)
     else (c, d, r)) = (c1, d1, r1) /\ absorbed c1 m1 /\ m1 ++ d1 = m ++ d /\
    r1 = (length m1 mod 64)%nat /\ (r1 = 0 \/ r1 + length d1 < 64)%nat.
Proof.
  intros Hc Er; destruct (div_mod64 (length m)) as [Hm Hr]; rewrite <- Er in Hm, Hr.
  destruct (Nat.eqb_spec r 0), (Nat.leb_spec 64 (r + length d)); cbn [negb andb];
    try (exists c, m, d, r; split; [reflexivity|]; split; [exact Hc|]; auto; fail).
  assert (Hl : length (take (64 - r) d) = (64 - r)%nat) by (rewrite length_take; lia).
  pose proof (absorb_fill c m (take (64 - r) d) Hc ltac:(lia) ltac:(lia)) as Ha; rewrite Hl, <- Er in Ha.
  eexists _, (m ++ take (64 - r) d), _, _; split; [reflexivity|]; split; [exact Ha|].
  rewrite <- app_assoc, take_drop; split; [reflexivity|]; split; [|auto].
  destruct (div64_unique (length (m ++ take (64 - r) d)) (length m / 64 + 1) 0) as [_ ->]; rewrite ?length_app, ?Hl; lia.
Qed.

Lemma Write_absorbed c m d : absorbed c m -> absorbed (Write c d) (m ++ d).
Proof.
  intros Hc; unfold Write; rewrite (bytes_mod c m Hc).
  destruct (Write_fill c m d _ Hc eq_refl) as (c1 & m1 & d1 & r1 & -> & Hc1 & <- & -> & Hor); clear Hc.
  destruct (Nat.leb_spec 64 (length d1)).
  - assert (Hz : (length m1 mod 64 = 0)%nat) by lia; set (n := (length d1 / 64)%nat).
    pose proof (div_mod64 (length d1)) as [Hd Hdl]; fold n in Hd.
    pose proof (absorb_blocks c1 m1 d1 n Hc1 Hz ltac:(lia)) as Ha.
    assert (Hz2 : (length (m1 ++ take (64 * n) d1) mod 64 = 0)%nat).
    { destruct (div64_unique (length (m1 ++ take (64 * n) d1)) (length m1 / 64 + n) 0) as [_ E]; auto; [|lia].
      rewrite length_app, length_take; pose proof (proj1 (div_mod64 (length m1))); lia. }
    replace (m1 ++ d1) with ((m1 ++ take (64 * n) d1) ++ drop (64 * n) d1) by (rewrite <- app_assoc, take_drop; reflexivity).
    destruct (Nat.ltb_spec 0 (length (drop (64 * n) d1))) as [|He].
    + pose proof (absorb_rest _ _ (drop (64 * n) d1) Ha ltac:(rewrite Hz2, length_drop; lia)) as Hx.
      rewrite Hz2 in Hx; rewrite Hz; exact Hx.
    + rewrite (nil_length_inv (drop (64 * n) d1)), app_nil_r by lia; exact Ha.
  - destruct (Nat.ltb_spec 0 (length d1)); [apply absorb_rest; [exact Hc1 | pose proof (div_mod64 (length m1)); lia]|].
    rewrite (nil_length_inv d1), app_nil_r by lia; exact Hc1.
Qed.

Lemma absorbed_init garbage : length garbage = 64%nat -> absorbed (CSHA256_init garbage) [].
Proof. intros H; unfold absorbed; cbn; auto. Qed.

Lemma absorbed_Reset c m : absorbed c m -> absorbed (Reset c) [].
Proof. intros (_ & _ & H & _); unfold absorbed; cbn; auto. Qed.

Lemma take_pad k : 0 <= k < 64 -> take (Z.to_nat (1 + k)) pad = 0x80 :: replicate (Z.to_nat k) 0.
Proof.
  intros Hk; replace (Z.to_nat (1 + k)) with (S (Z.to_nat k)) by lia; cbn [pad take].
  rewrite take_replicate, Nat.min_l by lia; reflexivity.
Qed.

Lemma pad_length n : 0 <= n -> (119 - wrap 64 n mod 64) mod 64 = (55 - n) mod 64.
Proof.
  intros Hn; unfold wrap; rewrite Z.mod_mod_divide by (exists (2 ^ 58); lia).
  rewrite Zminus_mod_idemp_r; replace (119 - n) with (55 - n + 1 * 64) by lia; apply Z.mod_add; lia.
Qed.

Lemma Finalize_sha256 c m : absorbed c m -> Z.of_nat (length m) < 2 ^ 61 -> snd (Finalize c) = Fips.sha256 m.
Proof.
  intros Hc Hm; unfold Finalize; cbn [snd].
  assert (Hb : bytes c = wrap 64 (Z.of_nat (length m))) by apply Hc.
  rewrite Hb, pad_length, take_pad by (try apply Z.mod_pos_bound; lia).
  rewrite (wrap_small 64 (Z.of_nat _)), Z.shiftl_mul_pow2, wrap_small by (unfold in_u; lia).
  pose proof (Write_absorbed _ _ (WriteBE64 (Z.of_nat (length m) * 2 ^ 3))
    (Write_absorbed c m (0x80 :: replicate (Z.to_nat ((55 - Z.of_nat (length m)) mod 64)) 0) Hc)) as (-> & _).
  rewrite sha256_Transform; unfold Fips.padded; rewrite <- !app_assoc, (Z.mul_comm 8); reflexivity.
Qed.

Lemma Finalize_absorbed c m : absorbed c m -> exists m', absorbed (fst (Finalize c)) m'.
Proof. intros Hc; eexists; apply Write_absorbed, Write_absorbed, Hc. Qed.

Lemma absorbed_Writes chunks c m : absorbed c m -> absorbed (foldl Write c chunks) (m ++ concat chunks).
Proof.
  revert c m; induction chunks as [|d chunks IH]; intros c m Hc; cbn [foldl concat]; [rewrite app_nil_r; exact Hc|].
  rewrite app_assoc; apply IH, Write_absorbed, Hc.
Qed.

Lemma length_write_regs r : length (write_regs r) = 32%nat.
Proof. reflexivity. Qed.

Lemma length_CHash256 c : length (CHash256_Finalize c) = 32%nat.
Proof.
  unfold CHash256_Finalize; destruct (Finalize c) as [c' d]; unfold Finalize; cbn [snd]; apply length_write_regs.
Qed.

Lemma limbs_write_regs r : limbs 8 (write_regs r).
Proof.
  assert (H : forall x, limbs 8 (WriteBE32 x)) by (intros x; apply Forall_rev, limbs_digits; lia).
  unfold write_regs; generalize [ra r; rb r; rc r; rd r; re r; rf r; rg r; rh r]; intros l.
  induction l as [|x l IH]; cbn [map concat]; [constructor | apply limbs_app; auto].
Qed.

Lemma limbs_CHash256 c : limbs 8 (CHash256_Finalize c).
Proof.
  unfold CHash256_Finalize; destruct (Finalize c) as [c' d]; unfold Finalize; cbn [snd]; apply limbs_write_regs.
Qed.

Lemma limbs_Hash m : limbs 8 (Hash m).
Proof. apply limbs_CHash256. Qed.

Lemma length_Hash m : length (Hash m) = 32%nat.
Proof. apply length_CHash256. Qed.

Lemma length_Hash2 a b : length (Hash2 a b) = 32%nat.
Proof. apply length_CHash256. Qed.

Lemma HashWriter_Hash m : HashWriter_GetHash (Write (CSHA256_init (replicate 64 0)) m) = Hash m.
Proof. reflexivity. Qed.

Definition sha256d (m : list Z) : list Z := Fips.sha256 (Fips.sha256 m).

Lemma CHash256_Finalize_sha256d c m :
  absorbed c m -> Z.of_nat (length m) < 2 ^ 61 -> CHash256_Finalize c = sha256d m.
Proof.
  intros Hc Hm; unfold CHash256_Finalize, sha256d; pose proof (Finalize_sha256 c m Hc Hm) as Hd.
  destruct (Finalize_absorbed c m Hc) as [m' Hc']; destruct (Finalize c) as [c' d]; cbn [fst snd] in *; rewrite <- Hd.
  apply Finalize_sha256; [apply (Write_absorbed _ [] d), (absorbed_Reset c' m'), Hc' | rewrite Hd; cbn; lia].
Qed.

Lemma Hash_sha256d m : Z.of_nat (length m) < 2 ^ 61 -> Hash m = sha256d m.
Proof. intros Hm; apply CHash256_Finalize_sha256d; [apply (Write_absorbed _ [] m), absorbed_init; reflexivity | exact Hm]. Qed.

Lemma Hash2_sha256d a b : Z.of_nat (length (a ++ b)) < 2 ^ 61 -> Hash2 a b = sha256d (a ++ b).
Proof.
  intros Hm; apply CHash256_Finalize_sha256d; [|exact Hm].
  apply Write_absorbed, (Write_absorbed _ [] a), absorbed_init; reflexivity.
Qed.

(** C27: a [CSHA256] object, whatever its uninitialised buffer holds, fed a message in any number
    of pieces of any sizes, produces the FIPS 180-4 digest of the whole message; [CHash256] and
    [HashWriter] produce the digest of that digest, and a hasher that is reset hashes the next
    message as a new one does. *)
Theorem CSHA256_streaming garbage chunks next :
  length garbage = 64%nat -> Z.of_nat (length (concat chunks)) < 2 ^ 61 -> Z.of_nat (length next) < 2 ^ 61 ->
  let c := foldl Write (CSHA256_init garbage) chunks in
  snd (Finalize c) = Fips.sha256 (concat chunks) /\
  HashWriter_GetHash c = sha256d (concat chunks) /\
  Hash (concat chunks) = sha256d (concat chunks) /\
  snd (Finalize (Write (Reset (fst (Finalize c))) next)) = Fips.sha256 next.
Proof.
  intros Hg Hm Hn c.
  assert (Hc : absorbed c (concat chunks)) by (apply (absorbed_Writes chunks _ []), absorbed_init, Hg).
  split; [exact (Finalize_sha256 _ _ Hc Hm)|]; split; [exact (CHash256_Finalize_sha256d _ _ Hc Hm)|].
  split; [exact (Hash_sha256d _ Hm)|]; destruct (Finalize_absorbed _ _ Hc) as [m' Hc'].
  apply Finalize_sha256; [apply (Write_absorbed _ [] next), (absorbed_Reset _ m'), Hc' | exact Hn].
Qed.

Lemma CSHA256_streaming_witness :
  let c := foldl Write (CSHA256_init (replicate 64 7)) [[0x61]; []; [0x62; 0x63]] in
  snd (Finalize c) =
    [0xba; 0x78; 0x16; 0xbf; 0x8f; 0x01; 0xcf; 0xea; 0x41; 0x41; 0x40; 0xde; 0x5d; 0xae; 0x22; 0x23;
     0xb0; 0x03; 0x61; 0xa3; 0x96; 0x17; 0x7a; 0x9c; 0xb4; 0x10; 0xff; 0x61; 0xf2; 0x00; 0x15; 0xad] /\
  HashWriter_GetHash c = sha256d [0x61; 0x62; 0x63].
Proof.
  destruct (CSHA256_streaming (replicate 64 7) [[0x61]; []; [0x62; 0x63]] []) as (H1 & H2 & _);
    [reflexivity | cbn; lia | cbn; lia|].
  split; [rewrite H1; vm_compute; reflexivity | exact H2].
Defined.

(** ** [TransformD64] is the double hash *)

Lemma slide_step a t x : next_word (a :: t) = x -> slide (a :: t) = t ++ [x].
Proof. intros <-; reflexivity. Qed.

(** The second message block of the second hash: the first digest and its padding. *)
Definition digest_words (w : regs) : list Z :=
  [ra w; rb w; rc w; rd w; re w; rf w; rg w; rh w; 0x80000000; 0; 0; 0; 0; 0; 0; 0x100].

Lemma sigma_consts :
  sigma0 0 = 0 /\ sigma1 0 = 0 /\ sigma1 0x100 = 0xa00000 /\ sigma0 0x80000000 = 0x11002000 /\ sigma0 0x100 = 0x400022.
Proof. vm_compute; auto. Qed.

Ltac slide_to v :=
  match goal with |- context [slide (?a :: ?t)] =>
    rewrite (slide_step a t v);
      [cbv beta iota delta [app] | unfold next_word; cbn [get nth]; rewrite ?(proj1 sigma_consts), ?(proj1 (proj2 sigma_consts)),
        ?(proj1 (proj2 (proj2 sigma_consts))), ?(proj1 (proj2 (proj2 (proj2 sigma_consts)))),
        ?(proj2 (proj2 (proj2 (proj2 sigma_consts)))); subst v; f_equal; lia]
  end.

(** Names the first word of the right-hand side that depends on no other. *)
Ltac name_rhs v :=
  match goal with |- _ = ?r =>
    match r with context [wrap 32 ?e] => lazymatch e with context [wrap] => fail | _ => set (v := wrap 32 e) end end
  end.

Lemma D64_words_slide w :
  Nat.iter 16 slide (digest_words w) = D64_words (ra w) (rb w) (rc w) (rd w) (re w) (rf w) (rg w) (rh w).
Proof.
  unfold digest_words; destruct w as [a b c d e f g h]; cbn [Nat.iter nat_rect ra rb rc rd re rf rg rh]; unfold D64_words.
  name_rhs v0; slide_to v0; name_rhs v1; slide_to v1; name_rhs v2; slide_to v2; name_rhs v3; slide_to v3.
  name_rhs v4; slide_to v4; name_rhs v5; slide_to v5; name_rhs v6; slide_to v6; name_rhs v7; slide_to v7.
  name_rhs v8; slide_to v8; name_rhs v9; slide_to v9; name_rhs v10; slide_to v10; name_rhs v11; slide_to v11.
  name_rhs v12; slide_to v12; name_rhs v13; slide_to v13; name_rhs v14; slide_to v14; name_rhs v15; slide_to v15.
  reflexivity.
Qed.

Lemma ReadBE32_WriteBE32 x l : in_u 32 x -> ReadBE32 (WriteBE32 x ++ l) = x.
Proof.
  intros Hx; unfold ReadBE32, WriteBE32; rewrite take_app_length' by (rewrite length_rev, length_digits; reflexivity).
  rewrite rev_involutive, lval_digits by lia; apply wrap_small, Hx.
Qed.

Lemma drop_words i ws : drop (4 * i) (concat (map WriteBE32 ws)) = concat (map WriteBE32 (drop i ws)).
Proof.
  revert i; induction ws as [|x ws IH]; intros [|i]; try (rewrite ?drop_nil; reflexivity); cbn [map concat].
  replace (4 * S i)%nat with (4 + 4 * i)%nat by lia; rewrite <- drop_drop, drop_app_length' by reflexivity; apply IH.
Qed.

Lemma chunk_words_concat ws :
  length ws = 16%nat -> Forall (in_u 32) ws -> chunk_words (concat (map WriteBE32 ws)) = ws.
Proof.
  intros Hl Hw; apply get_ext; [rewrite length_chunk_words; auto|]; rewrite length_chunk_words; intros i Hi.
  unfold chunk_words; rewrite (get_map_seq _ 16 i) by exact Hi; rewrite drop_words.
  destruct (drop i ws) as [|x l] eqn:E; [apply (f_equal length) in E; rewrite length_drop in E; cbn in E; lia|].
  rewrite <- (take_drop i ws), E; cbn [map concat]; unfold get.
  rewrite app_nth2, length_take, Nat.min_l, Nat.sub_diag by (rewrite ?length_take; lia); cbn [nth].
  apply ReadBE32_WriteBE32; rewrite Forall_forall in Hw; apply Hw.
  rewrite <- (take_drop i ws), E; apply in_app_iff; right; left; reflexivity.
Qed.

Lemma D64_K2_spec :
  zip_with add32 K (schedule 64 (chunk_words (0x80 :: replicate 55 0 ++ WriteBE64 512))) = D64_K2.
Proof. vm_compute; reflexivity. Qed.

(** The first hash of 64 bytes: one transform of the data, one of the constant padding. *)
Lemma sha256_64 m (t := transform_words Initialize (chunk_words m)) :
  length m = 64%nat -> Fips.sha256 m = write_regs (add_regs t (Rounds t D64_K2)).
Proof.
  intros Hm; rewrite sha256_Transform; unfold Fips.padded; rewrite length_app, Hm, <- D64_K2_spec; change (_ / 64)%nat with (1 + 1)%nat.
  rewrite Transform_app by lia; reflexivity.
Qed.

Lemma D64_digest_spec w : regs_ok w -> chunk_words (Fips.padded (write_regs w)) = digest_words w.
Proof.
  intros (? & ? & ? & ? & ? & ? & ? & ?); rewrite <- (chunk_words_concat (digest_words w)).
  - unfold Fips.padded; rewrite length_write_regs; reflexivity.
  - reflexivity.
  - repeat (constructor; [assumption || (split; [lia | reflexivity])|]); constructor.
Qed.

Lemma sha256_32 w : regs_ok w -> Fips.sha256 (write_regs w) = write_regs (transform_words Initialize (digest_words w)).
Proof.
  intros Hw; rewrite <- (D64_digest_spec w Hw); rewrite sha256_Transform.
  replace (length (Fips.padded (write_regs w)) / 64)%nat with 1%nat; [reflexivity|].
  unfold Fips.padded; rewrite length_app, length_write_regs; reflexivity.
Qed.

Lemma D64_rest w :
  zip_with add32 K (digest_words w ++ schedule 48 (Nat.iter 16 slide (digest_words w))) =
  (zip_with add32 (take 8 D64_K3) [ra w; rb w; rc w; rd w; re w; rf w; rg w; rh w] ++ drop 8 D64_K3) ++
  zip_with add32 (map fst D64_calls) (schedule 48 (Nat.iter 16 slide (digest_words w))).
Proof. reflexivity. Qed.

Lemma TransformD64_sha256d m : length m = 64%nat -> TransformD64 m = sha256d m.
Proof.
  intros Hm; unfold sha256d; rewrite (sha256_64 m Hm), sha256_32 by apply regs_ok_add.
  unfold transform_words; set (w := add_regs _ (Rounds _ D64_K2)).
  rewrite (message_words_schedule (digest_words w)), (schedule_add 16 48), schedule_16, D64_rest by reflexivity.
  rewrite <- (words_schedule 32), D64_words_slide by (rewrite D64_words_slide; reflexivity); reflexivity.
Qed.

(** ** Batches *)

(** What [SHA256D64] relies on in an installed transform. *)
Definition way_ok (way : option (list Z -> list Z)) (lanes : nat) : Prop :=
  forall f input, way = Some f -> (64 * lanes <= length input)%nat -> f input = calls TransformD64 1 lanes input.

Class MultiWayLaws `{MultiWay} := {
  law_8way : way_ok TransformD64_8way 8;
  law_4way : way_ok TransformD64_4way 4;
  law_2way : way_ok TransformD64_2way 2 }.

Lemma calls_add f a b input : calls f 1 (a + b) input = calls f 1 a input ++ calls f 1 b (drop (64 * a) input).
Proof.
  revert input; induction a as [|a IH]; intros input; [reflexivity|]; cbn [Nat.add calls].
  rewrite IH, <- app_assoc, drop_drop; do 3 f_equal; f_equal; lia.
Qed.

Lemma calls_lanes f lanes k input :
  way_ok (Some f) lanes -> (64 * lanes * k <= length input)%nat ->
  calls f lanes k input = calls TransformD64 1 (lanes * k) input.
Proof.
  intros Hf; revert input; induction k as [|k IH]; intros input Hl; cbn [calls]; [rewrite Nat.mul_0_r; reflexivity|].
  replace (lanes * S k)%nat with (lanes + lanes * k)%nat by lia.
  rewrite calls_add, (Hf f input eq_refl), IH by (rewrite ?length_drop; lia); reflexivity.
Qed.

(** A vectorised loop does the work of as many scalar iterations. *)
Lemma while_lanes_calls way lanes input blocks :
  way_ok way lanes -> (0 < lanes)%nat -> length input = (64 * blocks)%nat ->
  exists done input' blocks', while_lanes way lanes input blocks = (done, input', blocks') /\
    length input' = (64 * blocks')%nat /\
    done ++ calls TransformD64 1 blocks' input' = calls TransformD64 1 blocks input.
Proof.
  intros Hw Hn Hl; unfold while_lanes; destruct way as [f|]; [|eexists _, _, _; split; [reflexivity|]; auto].
  pose proof (Nat.div_mod_eq blocks lanes) as Hd; set (q := (blocks / lanes)%nat) in *; set (r := (blocks mod lanes)%nat) in *.
  eexists _, _, _; split; [reflexivity|]; split; [rewrite length_drop; lia|].
  rewrite calls_lanes by (auto; lia); rewrite Hd, calls_add, Nat.mul_assoc; reflexivity.
Qed.

Lemma TransformD64_take d : TransformD64 (take 64 d) = TransformD64 d.
Proof. unfold TransformD64; rewrite chunk_words_take; reflexivity. Qed.

Lemma calls_Hash blocks input :
  length input = (64 * blocks)%nat ->
  calls TransformD64 1 blocks input = concat (map (fun i => Hash (take 64 (drop (64 * i) input))) (seq 0 blocks)).
Proof.
  revert input; induction blocks as [|n IH]; intros input Hl; [reflexivity|].
  cbn [calls seq map concat]; rewrite <- seq_shift, map_map, drop_0.
  rewrite Hash_sha256d, <- TransformD64_sha256d, TransformD64_take by (rewrite length_take; lia); f_equal.
  rewrite IH by (rewrite length_drop; lia); f_equal; apply map_ext; intros i; rewrite drop_drop; do 3 f_equal; lia.
Qed.

Lemma SHA256D64_calls `{MultiWayLaws} input blocks :
  length input = (64 * blocks)%nat -> SHA256D64 input blocks = calls TransformD64 1 blocks input.
Proof.
  intros Hl; unfold SHA256D64.
  destruct (while_lanes_calls _ 8 input blocks law_8way ltac:(lia) Hl) as (o8 & i8 & b8 & -> & Hl8 & E8).
  destruct (while_lanes_calls _ 4 i8 b8 law_4way ltac:(lia) Hl8) as (o4 & i4 & b4 & -> & Hl4 & E4).
  destruct (while_lanes_calls _ 2 i4 b4 law_2way ltac:(lia) Hl4) as (o2 & i2 & b2 & -> & Hl2 & E2).
  rewrite E2, E4, E8; reflexivity.
Qed.

Lemma TransformD64_pair a b l :
  length a = 32%nat -> length b = 32%nat -> TransformD64 (a ++ b ++ l) = Hash2 a b.
Proof.
  intros Ha Hb; rewrite <- TransformD64_take, app_assoc, take_app_length' by (rewrite length_app; lia).
  rewrite Hash2_sha256d by (rewrite length_app; lia); apply TransformD64_sha256d; rewrite length_app; lia.
Qed.


(** No vectorised transform, as in a build without vector instructions. *)
#[export] Instance scalar : MultiWay :=
  {| TransformD64_8way := None; TransformD64_4way := None; TransformD64_2way := None |}.

#[export] Instance scalar_laws : MultiWayLaws.
Proof. split; intros f input [=]. Qed.

(** A two-lane transform that does two scalar ones. *)
Definition two_lanes : MultiWay :=
  {| TransformD64_8way := None; TransformD64_4way := None; TransformD64_2way := Some (calls TransformD64 1 2) |}.

Lemma two_lanes_laws : @MultiWayLaws two_lanes.
Proof.
  split; intros f input Hf _; try discriminate Hf.
  change (Some (calls TransformD64 1 2) = Some f) in Hf; apply (inj Some) in Hf; rewrite <- Hf; reflexivity.
Qed.

