(* ===== verification/Merkle.v ===== *)
(** Merkle trees: [src/src/consensus/merkle.cpp] and the branch check of [src/src/auxpow.cpp].

    [ComputeMerkleRoot] reduces the list of hashes level by level with the batch hasher and
    reports adjacent duplicates; [MerkleComputation] computes the same root, and the branch of one
    leaf, in a single pass with a binary counter of subtree hashes; [CheckMerkleBranch] folds a
    branch back to the root.  The reference is the list of nodes of each level ([lev]). *)

From S2P Require Import Prelude Params Sha256.

#[local] Open Scope Z_scope.
#[local] Open Scope qbit_scope.

Definition uint256_zero : uint256 := replicate 32 0.

(** ** [ComputeMerkleRoot] *)

(** The first [n] hashes of a contiguous array. *)
Fixpoint split32 (n : nat) (bytes : list Z) : list uint256 :=
  match n with O => [] | S n => take 32 bytes :: split32 n (drop 32 bytes) end.

(** Some hash at an even position equals the next one. *)
Fixpoint has_equal_pair (hashes : list uint256) : bool :=
  match hashes with
  | a :: b :: hashes => bool_decide (a = b) || has_equal_pair hashes
  | _ => false
  end.

(** One iteration of the loop: duplicate the last hash of an odd level, hash the pairs in place. *)
Definition next_level `{MultiWay} (hashes : list uint256) : list uint256 :=
  let hashes := if Nat.odd (length hashes) then hashes ++ [List.last hashes uint256_zero] else hashes in
  split32 (length hashes / 2) (SHA256D64 (concat hashes) (length hashes / 2)).

Fixpoint ComputeMerkleRoot_loop `{MultiWay} (fuel : nat) (hashes : list uint256) (mutation : bool) : option (uint256 * bool) :=
  if (1 <? length hashes)%nat then
    match fuel with
    | O => None
    | S fuel => ComputeMerkleRoot_loop fuel (next_level hashes) (mutation || has_equal_pair hashes)
    end
  else Some (hd uint256_zero hashes, mutation).

(** The root, and what [*mutated] receives; every level is shorter than the one below it. *)
Definition ComputeMerkleRoot `{MultiWay} (hashes : list uint256) : option (uint256 * bool) :=
  ComputeMerkleRoot_loop (length hashes) hashes false.

(** ** [CheckMerkleBranch] *)

Definition CheckMerkleBranch (leaf : uint256) (branch : list uint256) (index : Z) : uint256 :=
  fst (foldl (fun '(hash, index) sibling =>
    (if negb (Z.land index 1 =? 0) then Hash2 sibling hash else Hash2 hash sibling, Z.shiftr index 1))
    (leaf, index) branch).

(** ** [MerkleComputation] *)

(** [count & (uint32_t{1} << level)] is zero. *)
Definition bit_clear (count : Z) (level : nat) : bool := Z.land count (wrap 32 (Z.shiftl 1 (Z.of_nat level))) =? 0.

Definition inner_get (inner : list uint256) (level : nat) : uint256 := nth level inner uint256_zero.

(** The hash in hand, whether it covers the matching leaf, and the path so far. *)
Record carry := { c_h : uint256; c_matchh : bool; c_path : list uint256 }.

(** The path update shared by the two inner loops. *)
Definition push_path (want : bool) (inner : list uint256) (matchlevel : Z) (level : nat) (c : carry) : carry :=
  if negb want then c
  else if c_matchh c then {| c_h := c_h c; c_matchh := true; c_path := c_path c ++ [inner_get inner level] |}
  else if matchlevel =? Z.of_nat level then {| c_h := c_h c; c_matchh := true; c_path := c_path c ++ [c_h c] |}
  else c.

(** While bit [level] of [count] is zero: combine with [inner[level]] and go up.  The flag tells
    whether a combined pair was equal.  [None]: a shift by 32 or more. *)
Fixpoint climb (fuel level : nat) (want : bool) (inner : list uint256) (matchlevel count : Z) (c : carry) (equal : bool)
    : option (nat * carry * bool) :=
  match fuel with
  | O => None
  | S fuel =>
      if bit_clear count level then
        let c := push_path want inner matchlevel level c in
        let equal := equal || bool_decide (inner_get inner level = c_h c) in
        let c := {| c_h := Hash2 (inner_get inner level) (c_h c); c_matchh := c_matchh c; c_path := c_path c |} in
        climb fuel (S level) want inner matchlevel count c equal
      else Some (level, c, equal)
  end.

Record computation := { count : Z; inner : list uint256; matchlevel : Z; path : list uint256; mutated : bool }.

(** One leaf. *)
Definition add_leaf (want : bool) (leaf_pos : Z) (st : computation) (leaf : uint256) : option computation :=
  let c := {| c_h := leaf; c_matchh := count st =? leaf_pos; c_path := path st |} in
  let count' := wrap 32 (count st + 1) in
  let! '(level, c, mutated') := climb 32 0 want (inner st) (matchlevel st) count' c (mutated st) in
  Some {| count := count'; inner := <[level := c_h c]> (inner st);
          matchlevel := if c_matchh c then Z.of_nat level else matchlevel st;
          path := c_path c; mutated := mutated' |}.

Fixpoint add_leaves (want : bool) (leaf_pos : Z) (leaves : list uint256) (st : computation) : option computation :=
  match leaves with
  | [] => Some st
  | leaf :: leaves => let! st := add_leaf want leaf_pos st leaf in add_leaves want leaf_pos leaves st
  end.

(** The lowest set bit. *)
Fixpoint skip_zeros (fuel level : nat) (count : Z) : option nat :=
  match fuel with
  | O => None
  | S fuel => if bit_clear count level then skip_zeros fuel (S level) count else Some level
  end.

(** The final sweep: until [count] is the single bit [level], pair the hash with itself and
    propagate upwards. *)
Fixpoint sweep (fuel level : nat) (want : bool) (inner : list uint256) (matchlevel count : Z) (c : carry) : option carry :=
  if count =? wrap 32 (Z.shiftl 1 (Z.of_nat level)) then Some c
  else
    match fuel with
    | O => None
    | S fuel =>
        let path := if want && c_matchh c then c_path c ++ [c_h c] else c_path c in
        let c := {| c_h := Hash2 (c_h c) (c_h c); c_matchh := c_matchh c; c_path := path |} in
        let count := wrap 32 (count + wrap 32 (Z.shiftl 1 (Z.of_nat level))) in
        let! '(level, c, _) := climb (31 - level) (S level) want inner matchlevel count c false in
        sweep fuel level want inner matchlevel count c
    end.

(** The root, the duplicate flag and the path; [want] tells whether a path is asked for. *)
Definition MerkleComputation (leaves : list uint256) (leaf_pos : Z) (want : bool) : option (uint256 * bool * list uint256) :=
  match leaves with
  | [] => Some (uint256_zero, false, [])
  | _ =>
      let st := {| count := 0; inner := replicate 32 uint256_zero; matchlevel := -1; path := []; mutated := false |} in
      let! st := add_leaves want leaf_pos leaves st in
      let! level := skip_zeros 32 0 (count st) in
      let c := {| c_h := inner_get (inner st) level; c_matchh := matchlevel st =? Z.of_nat level; c_path := path st |} in
      let! c := sweep 32 level want (inner st) (matchlevel st) (count st) c in
      Some (c_h c, mutated st, c_path c)
  end.

Definition ComputeMerklePath (leaves : list uint256) (position : Z) : option (list uint256) :=
  let! '(_, _, path) := MerkleComputation leaves position true in Some path.

#[local] Opaque Hash Hash2 SHA256D64.

(** ** The reference: the nodes of each level *)

Fixpoint up (l : list uint256) : list uint256 :=
  match l with
  | a :: b :: l => Hash2 a b :: up l
  | [a] => [Hash2 a a]
  | [] => []
  end.

Definition lev (leaves : list uint256) (k : nat) : list uint256 := Nat.iter k up leaves.
Definition len (leaves : list uint256) (k : nat) : Z := Z.of_nat (length (lev leaves k)).
Definition node (leaves : list uint256) (k : nat) (i : Z) : uint256 := nth (Z.to_nat i) (lev leaves k) uint256_zero.

(** Levels above the leaves. *)
Definition depth (leaves : list uint256) : nat := Z.to_nat (Z.log2_up (Z.of_nat (length leaves))).
Definition merkle_root (leaves : list uint256) : uint256 := node leaves (depth leaves) 0.

(** Equal arguments give equal hashes, without comparing the hashes themselves. *)
Ltac hash_args := refine (f_equal2 Hash2 _ _).

(** Induction two elements at a time. *)
Lemma pair_ind {A} (P : list A -> Prop) :
  P [] -> (forall a, P [a]) -> (forall a b l, P l -> P (a :: b :: l)) -> forall l, P l.
Proof.
  intros H0 H1 H2 l; enough (H : P l /\ forall a, P (a :: l)) by apply H.
  induction l as [|b l [IH1 IH2]]; split; auto.
Qed.

Lemma length_up l : length (up l) = ((length l + 1) / 2)%nat.
Proof.
  induction l as [|a|a b l IH] using pair_ind; [reflexivity | reflexivity|]; cbn [up length]; rewrite IH.
  replace (S (S (length l)) + 1)%nat with (length l + 1 + 1 * 2)%nat by lia; rewrite Nat.div_add by lia; lia.
Qed.

Lemma nth_up l i :
  (i < length (up l))%nat ->
  nth i (up l) uint256_zero =
  Hash2 (nth (2 * i) l uint256_zero) (nth (Nat.min (2 * i + 1) (length l - 1)) l uint256_zero).
Proof.
  revert i; induction l as [|a|a b l IH] using pair_ind; intros i Hi; cbn [up length] in *; [lia| |].
  - replace i with 0%nat by lia; reflexivity.
  - destruct i as [|i]; [reflexivity|]; cbn [nth]; rewrite IH by lia.
    assert (0 < length l)%nat by (destruct l; cbn in *; lia).
    replace (Nat.min (2 * S i + 1) (S (S (length l)) - 1)) with (S (S (Nat.min (2 * i + 1) (length l - 1)))) by lia.
    replace (2 * S i)%nat with (S (S (2 * i))) by lia; reflexivity.
Qed.

Lemma up_32 l : Forall (fun h => length h = 32%nat) (up l).
Proof. induction l as [|a|a b l IH] using pair_ind; cbn [up]; auto using length_Hash2. Qed.

Section Levels.
Context (L : list uint256).

Lemma lev_succ k : lev L (S k) = up (lev L k).
Proof. reflexivity. Qed.

Lemma len_succ k : len L (S k) = (len L k + 1) / 2.
Proof. unfold len; rewrite lev_succ, length_up, Nat2Z.inj_div, Nat2Z.inj_add; reflexivity. Qed.

Lemma node_up k i :
  0 <= i -> 2 * i < len L k ->
  node L (S k) i = Hash2 (node L k (2 * i)) (node L k (Z.min (2 * i + 1) (len L k - 1))).
Proof.
  intros Hi Hlt; unfold node, len in *; rewrite lev_succ.
  assert (Hu : (Z.to_nat i < length (up (lev L k)))%nat).
  { rewrite length_up; apply Nat.div_le_lower_bound; lia. }
  rewrite nth_up by exact Hu; hash_args; f_equal; lia.
Qed.

(** [len L k] is the number of leaves over [2^k], rounded up. *)
Lemma len_bounds k : 2 ^ Z.of_nat k * (len L k - 1) < len L 0 <= 2 ^ Z.of_nat k * len L k \/ len L 0 = 0 /\ len L k = 0.
Proof.
  induction k as [|k IH]; [cbn; lia|]; rewrite len_succ, Nat2Z.inj_succ, Z.pow_succ_r by lia.
  assert (0 < 2 ^ Z.of_nat k) by lia; destruct IH as [IH | [H1 ->]]; [left | right; split; [exact H1 | reflexivity]].
  assert (2 * ((len L k + 1) / 2) - 1 <= len L k <= 2 * ((len L k + 1) / 2)) by (Z.to_euclidean_division_equations; lia).
  generalize dependent ((len L k + 1) / 2); intros d Hd; nia.
Qed.

Lemma len_pos k : 0 < len L 0 -> 0 < len L k.
Proof. pose proof (len_bounds k); nia. Qed.

Lemma index_lt k p : 0 <= p < len L 0 -> 0 <= p / 2 ^ Z.of_nat k < len L k.
Proof.
  intros Hp; split; [apply Z.div_pos; lia|]; apply Z.div_lt_upper_bound; [lia|].
  pose proof (len_bounds k); lia.
Qed.

(** The sibling index of node [i] of level [k], and the branch of leaf [p] up to level [K]. *)
Definition sib (k : nat) (i : Z) : Z := if Z.even i then Z.min (i + 1) (len L k - 1) else i - 1.
Definition branch_of (p : Z) (K : nat) : list uint256 :=
  map (fun k => node L k (sib k (p / 2 ^ Z.of_nat k))) (seq 0 K).

Lemma branch_succ p K : branch_of p (S K) = branch_of p K ++ [node L K (sib K (p / 2 ^ Z.of_nat K))].
Proof. unfold branch_of; rewrite seq_S, map_app; reflexivity. Qed.

Lemma length_branch_of p K : length (branch_of p K) = K.
Proof. unfold branch_of; rewrite length_map, length_seq; reflexivity. Qed.

Lemma node_pair k i :
  0 <= i < len L k ->
  node L (S k) (i / 2) =
  if Z.even i then Hash2 (node L k i) (node L k (sib k i)) else Hash2 (node L k (sib k i)) (node L k i).
Proof.
  intros Hi; assert (Hd : i = 2 * (i / 2) + Z.b2z (Z.odd i)) by (rewrite <- Z.div2_div; apply Z.div2_odd).
  rewrite node_up by (try apply Z.div_pos; destruct (Z.odd i); cbn [Z.b2z] in Hd; lia).
  unfold sib; rewrite <- Z.negb_odd; destruct (Z.odd i); cbn [negb Z.b2z] in *; hash_args; f_equal; lia.
Qed.

Lemma div_pow_succ p k : 0 <= p -> p / 2 ^ Z.of_nat (S k) = p / 2 ^ Z.of_nat k / 2.
Proof. intros; rewrite Z.div_div by lia; f_equal; rewrite Nat2Z.inj_succ, Z.pow_succ_r; lia. Qed.

Lemma CheckMerkleBranch_branch_of p K :
  0 <= p < len L 0 -> CheckMerkleBranch (node L 0 p) (branch_of p K) p = node L K (p / 2 ^ Z.of_nat K).
Proof.
  intros Hp; unfold CheckMerkleBranch.
  enough (H : forall f, f = (fun '(hash, index) sibling =>
      (if negb (Z.land index 1 =? 0) then Hash2 sibling hash else Hash2 hash sibling, Z.shiftr index 1)) ->
    foldl f (node L 0 p, p) (branch_of p K) = (node L K (p / 2 ^ Z.of_nat K), p / 2 ^ Z.of_nat K))
    by (rewrite (H _ eq_refl); reflexivity).
  intros f Hf; induction K as [|K IH]; [cbn; rewrite Z.div_1_r; reflexivity|].
  rewrite branch_succ, foldl_app, IH; cbn [foldl]; rewrite Hf, div_pow_succ by lia.
  rewrite (Z.land_ones _ 1), Z.shiftr_div_pow2 by lia; rewrite (node_pair K) by (apply index_lt, Hp).
  change (2 ^ 1) with 2; rewrite Zmod_even; destruct (Z.even _); reflexivity.
Qed.
End Levels.

(** ** [ComputeMerkleRoot] computes the root *)

Definition all_32 (l : list uint256) : Prop := Forall (fun h => length h = 32%nat) l.

Lemma length_concat_32 l : all_32 l -> length (concat l) = (32 * length l)%nat.
Proof. induction 1 as [|h l Hh _ IH]; [reflexivity|]; cbn [concat length]; rewrite length_app; lia. Qed.

Lemma split32_concat l : all_32 l -> split32 (length l) (concat l) = l.
Proof.
  induction 1 as [|h l Hh _ IH]; [reflexivity|]; cbn [concat length split32].
  rewrite take_app_length', drop_app_length', IH by auto; reflexivity.
Qed.

Lemma calls_concat l :
  all_32 l -> Nat.odd (length l) = false -> calls TransformD64 1 (length l / 2) (concat l) = concat (up l).
Proof.
  induction l as [|a|a b l IH] using pair_ind; intros Hl Ho; [reflexivity | discriminate Ho|].
  inversion Hl as [|? ? Ha Hl']; inversion Hl' as [|? ? Hb Hl'']; subst.
  replace (length (a :: b :: l) / 2)%nat with (S (length l / 2))
    by (change (length (a :: b :: l)) with (2 + length l)%nat; rewrite (Nat.div_add_l 1 2) by lia; lia).
  cbn [calls concat up]; rewrite TransformD64_pair by assumption; apply f_equal.
  rewrite app_assoc, drop_app_length' by (rewrite length_app; lia); apply IH; auto.
Qed.

Lemma up_dup_last l :
  Nat.odd (length l) = true -> up (l ++ [List.last l uint256_zero]) = up l.
Proof.
  induction l as [|a|a b l IH] using pair_ind; intros Ho; [discriminate Ho | reflexivity|].
  cbn [app up]; apply f_equal; destruct l as [|c l]; [discriminate Ho|]; apply IH, Ho.
Qed.

Lemma last_32 l : all_32 l -> length l <> 0%nat -> length (List.last l uint256_zero) = 32%nat.
Proof. induction 1 as [|h l Hh Hl IH]; intros Hn; [easy|]; destruct l; [exact Hh | apply IH; discriminate]. Qed.

Lemma next_level_even `{MultiWayLaws} l :
  all_32 l -> Nat.odd (length l) = false -> split32 (length l / 2) (SHA256D64 (concat l) (length l / 2)) = up l.
Proof.
  intros Hl Ho; assert (He : length l = (2 * (length l / 2))%nat).
  { pose proof (Nat.div2_odd (length l)) as E; rewrite Nat.div2_div, Ho in E; cbn [Nat.b2n] in E; lia. }
  rewrite SHA256D64_calls by (rewrite length_concat_32 by exact Hl; lia).
  rewrite calls_concat by assumption; replace (length l / 2)%nat with (length (up l)).
  - apply split32_concat, up_32.
  - rewrite length_up; rewrite He at 1; rewrite Nat.mul_comm, Nat.div_add_l by lia; cbn; lia.
Qed.

Lemma next_level_up `{MultiWayLaws} l : all_32 l -> next_level l = up l.
Proof.
  intros Hl; unfold next_level; destruct (Nat.odd (length l)) eqn:Ho; [|apply next_level_even; assumption].
  rewrite next_level_even, up_dup_last; [reflexivity | exact Ho | |].
  - apply Forall_app; split; [exact Hl | constructor; [|constructor]]; apply last_32; [exact Hl | intros E; rewrite E in Ho; discriminate Ho].
  - rewrite length_app, Nat.add_comm; cbn [length Nat.add]; rewrite Nat.odd_succ, <- Nat.negb_odd, Ho; reflexivity.
Qed.

Lemma log2_up_half n : 1 < n -> Z.log2_up ((n + 1) / 2) = Z.log2_up n - 1.
Proof.
  intros Hn; pose proof (Z.log2_up_spec n Hn) as Hs; pose proof (Z.log2_up_pos n Hn) as Hp.
  set (d := Z.log2_up n) in *; destruct (Z.eq_dec d 1) as [E|E].
  - assert (n = 2) as -> by (rewrite E in Hs; cbn in Hs; lia); rewrite E; reflexivity.
  - apply Z.log2_up_unique; [lia|]; replace (2 ^ Z.pred d) with (2 * 2 ^ Z.pred (d - 1)) in Hs
      by (rewrite <- Z.pow_succ_r by lia; f_equal; lia).
    replace (2 ^ d) with (2 * 2 ^ (d - 1)) in Hs by (rewrite <- Z.pow_succ_r by lia; f_equal; lia).
    Z.to_euclidean_division_equations; lia.
Qed.

Lemma depth_up l : (1 < length l)%nat -> depth l = S (depth (up l)).
Proof.
  intros Hl; unfold depth; rewrite length_up, Nat2Z.inj_div, Nat2Z.inj_add.
  change (Z.of_nat 1) with 1; change (Z.of_nat 2) with 2; rewrite log2_up_half by lia.
  pose proof (Z.log2_up_pos (Z.of_nat (length l)) ltac:(lia)); lia.
Qed.

Lemma lev_up l k : lev (up l) k = lev l (S k).
Proof. unfold lev; rewrite Nat.iter_succ_r; reflexivity. Qed.

(** Some level has two equal hashes in the two halves of a pair. *)
Definition duplicated (l : list uint256) : bool := existsb (fun k => has_equal_pair (lev l k)) (seq 0 (depth l)).

Lemma merkle_root_up l : (1 < length l)%nat -> merkle_root l = merkle_root (up l).
Proof. intros Hl; unfold merkle_root, node; rewrite (depth_up l Hl), lev_up; reflexivity. Qed.

Lemma duplicated_up l : (1 < length l)%nat -> duplicated l = has_equal_pair l || duplicated (up l).
Proof.
  intros Hl; unfold duplicated; rewrite (depth_up l Hl); cbn [seq existsb]; apply f_equal.
  rewrite <- seq_shift; generalize (seq 0 (depth (up l))); intros ks.
  induction ks as [|k ks IH]; [reflexivity|]; cbn [map existsb]; rewrite IH, lev_up; reflexivity.
Qed.

Lemma small_tree l : (length l <= 1)%nat -> merkle_root l = hd uint256_zero l /\ duplicated l = false.
Proof. destruct l as [|a [|b l]]; cbn [length]; intros Hl; [split; reflexivity | split; reflexivity | lia]. Qed.

Lemma ComputeMerkleRoot_loop_spec `{MultiWayLaws} fuel l m :
  all_32 l -> (length l <= S fuel)%nat -> ComputeMerkleRoot_loop fuel l m = Some (merkle_root l, m || duplicated l).
Proof.
  revert l m; induction fuel as [|fuel IH]; intros l m Hl Hf; cbn [ComputeMerkleRoot_loop];
    destruct (Nat.ltb_spec 1 (length l)) as [Hlt|Hle]; try lia.
  1, 3: destruct (small_tree l Hle) as [-> ->]; rewrite orb_false_r; reflexivity.
  rewrite next_level_up, IH by first [assumption | apply up_32 | rewrite length_up; apply Nat.lt_succ_r, Nat.Div0.div_lt_upper_bound; lia].
  rewrite (merkle_root_up l Hlt), (duplicated_up l Hlt), orb_assoc; reflexivity.
Qed.

Lemma ComputeMerkleRoot_spec `{MultiWayLaws} l :
  all_32 l -> ComputeMerkleRoot l = Some (merkle_root l, duplicated l).
Proof. intros Hl; apply (ComputeMerkleRoot_loop_spec _ l false Hl); lia. Qed.

(** ** What a root commits to *)

(** No string of the first list and different string of the second have the same double hash. *)
Definition no_collision (xs ys : list (list Z)) : Prop := forall a b, In a xs -> In b ys -> Hash a = Hash b -> a = b.

(** The strings hashed on the way from one level to the next, and on the way to the root. *)
Fixpoint pair_inputs (l : list uint256) : list (list Z) :=
  match l with
  | a :: b :: l => (a ++ b) :: pair_inputs l
  | [a] => [a ++ a]
  | [] => []
  end.

Definition tree_inputs (l : list uint256) : list (list Z) := concat (map (fun k => pair_inputs (lev l k)) (seq 0 (depth l))).

Lemma no_collision_mono xs ys xs' ys' : incl xs' xs -> incl ys' ys -> no_collision xs ys -> no_collision xs' ys'.
Proof. intros Hx Hy H a b Ha Hb; apply H; auto. Qed.

Lemma tree_inputs_up l : (1 < length l)%nat -> tree_inputs l = pair_inputs l ++ tree_inputs (up l).
Proof.
  intros Hl; unfold tree_inputs; rewrite (depth_up l Hl); cbn [seq map concat]; apply f_equal.
  rewrite <- seq_shift, map_map; f_equal; apply map_ext; intros k; rewrite lev_up; reflexivity.
Qed.

Lemma Hash2_Hash a b : length a = 32%nat -> length b = 32%nat -> Hash2 a b = Hash (a ++ b).
Proof. intros; rewrite Hash2_sha256d, Hash_sha256d by (rewrite length_app; lia); reflexivity. Qed.

Lemma Hash2_inj a b c d xs ys :
  length a = 32%nat -> length b = 32%nat -> length c = 32%nat -> length d = 32%nat ->
  no_collision xs ys -> In (a ++ b) xs -> In (c ++ d) ys -> Hash2 a b = Hash2 c d -> a = c /\ b = d.
Proof.
  intros Ha Hb Hc Hd Hno Hx Hy; rewrite !Hash2_Hash by assumption; intros E.
  apply app_inj_1; [lia | exact (Hno _ _ Hx Hy E)].
Qed.

Lemma up_nil l : up l = [] -> l = [].
Proof. destruct l as [|a [|b l]]; [reflexivity | discriminate | discriminate]. Qed.

Lemma up_inj l1 l2 :
  all_32 l1 -> all_32 l2 -> no_collision (pair_inputs l1) (pair_inputs l2) ->
  has_equal_pair l1 = false -> has_equal_pair l2 = false -> up l1 = up l2 -> l1 = l2.
Proof.
  revert l2; induction l1 as [|a|a b l1 IH] using pair_ind; intros l2 H1 H2 Hno E1 E2 Hu; cbn [up] in Hu.
  - symmetry; apply up_nil; auto.
  - inversion_clear H1 as [|? ? Ha _]; destruct l2 as [|c [|d l2]]; [discriminate Hu| |]; cbn [up] in Hu; inversion_clear H2 as [|? ? Hc H2'].
    + apply (f_equal (hd [])) in Hu; destruct (Hash2_inj a a c c _ _ Ha Ha Hc Hc Hno ltac:(left; reflexivity) ltac:(left; reflexivity) Hu) as [-> _]; reflexivity.
    + inversion_clear H2' as [|? ? Hd _]; apply (f_equal (hd [])) in Hu.
      destruct (Hash2_inj a a c d _ _ Ha Ha Hc Hd Hno ltac:(left; reflexivity) ltac:(left; reflexivity) Hu) as [-> ->].
      cbn [has_equal_pair] in E2; rewrite bool_decide_true in E2 by reflexivity; discriminate E2.
  - inversion_clear H1 as [|? ? Ha H1']; inversion_clear H1' as [|? ? Hb H1].
    cbn [has_equal_pair] in E1; apply orb_false_iff in E1 as [E1 E1'].
    destruct l2 as [|c [|d l2]]; [discriminate Hu| |]; cbn [up] in Hu; inversion_clear H2 as [|? ? Hc H2'].
    + apply (f_equal (hd [])) in Hu; destruct (Hash2_inj a b c c _ _ Ha Hb Hc Hc Hno ltac:(left; reflexivity) ltac:(left; reflexivity) Hu) as [-> ->].
      rewrite bool_decide_true in E1 by reflexivity; discriminate E1.
    + inversion_clear H2' as [|? ? Hd H2]; cbn [has_equal_pair] in E2; apply orb_false_iff in E2 as [_ E2'].
      pose proof (f_equal (hd []) Hu) as Hh; apply (f_equal tail) in Hu.
      destruct (Hash2_inj a b c d _ _ Ha Hb Hc Hd Hno ltac:(left; reflexivity) ltac:(left; reflexivity) Hh) as [-> ->].
      rewrite (IH l2 H1 H2); [reflexivity | | exact E1' | exact E2' | exact Hu].
      revert Hno; apply no_collision_mono; intros x Hx; right; exact Hx.
Qed.

Lemma depth_zero l : depth l = 0%nat -> (length l <= 1)%nat.
Proof.
  unfold depth; intros Hd; destruct (Z.le_gt_cases (Z.of_nat (length l)) 1) as [|Hlt]; [lia|].
  pose proof (Z.log2_up_pos (Z.of_nat (length l)) ltac:(lia)); lia.
Qed.

Lemma depth_succ l d : depth l = S d -> (1 < length l)%nat /\ depth (up l) = d.
Proof.
  intros Hd; assert (Hl : (1 < length l)%nat); [|split; [exact Hl|]; rewrite (depth_up l Hl) in Hd; congruence].
  unfold depth in Hd; destruct (Z.le_gt_cases (Z.of_nat (length l)) 1) as [Hle|Hlt]; [|lia].
  rewrite Z.log2_up_eqn0 in Hd by exact Hle; discriminate Hd.
Qed.

Lemma merkle_root_binding d l1 l2 :
  depth l1 = d -> depth l2 = d -> l1 <> [] -> l2 <> [] -> all_32 l1 -> all_32 l2 ->
  no_collision (tree_inputs l1) (tree_inputs l2) ->
  duplicated l1 = false -> duplicated l2 = false -> merkle_root l1 = merkle_root l2 -> l1 = l2.
Proof.
  revert l1 l2; induction d as [|d IH]; intros l1 l2 D1 D2 N1 N2 H1 H2 Hno E1 E2 Hr.
  - apply depth_zero in D1, D2; rewrite (proj1 (small_tree l1 D1)), (proj1 (small_tree l2 D2)) in Hr.
    destruct l1 as [|a [|? ?]], l2 as [|b [|? ?]]; cbn in *; try easy; try lia; subst; auto.
  - destruct (depth_succ l1 d D1) as [L1 D1'], (depth_succ l2 d D2) as [L2 D2'].
    rewrite duplicated_up in E1, E2 by assumption; apply orb_false_iff in E1 as [E1 F1], E2 as [E2 F2].
    rewrite (merkle_root_up l1 L1), (merkle_root_up l2 L2) in Hr; rewrite (tree_inputs_up l1 L1), (tree_inputs_up l2 L2) in Hno.
    apply up_inj; [exact H1 | exact H2 | | exact E1 | exact E2|].
    + revert Hno; apply no_collision_mono; intros x Hx; apply in_or_app; left; exact Hx.
    + apply IH; try assumption; try apply up_32; try (intros Eq; apply up_nil in Eq; contradiction).
      revert Hno; apply no_collision_mono; intros x Hx; apply in_or_app; right; exact Hx.
Qed.

(** C22: a Merkle root commits to the list of hashes below it.  Two non-empty lists that need the
    same number of levels, that [ComputeMerkleRoot] gives the same root and flags neither as
    mutated, are equal, provided that no two different strings hashed for the two trees have the
    same double SHA-256. *)
Theorem ComputeMerkleRoot_commits `{MultiWayLaws} l1 l2 root :
  all_32 l1 -> all_32 l2 -> l1 <> [] -> l2 <> [] -> depth l1 = depth l2 ->
  no_collision (tree_inputs l1) (tree_inputs l2) ->
  ComputeMerkleRoot l1 = Some (root, false) -> ComputeMerkleRoot l2 = Some (root, false) -> l1 = l2.
Proof.
  intros H1 H2 N1 N2 D Hno; rewrite !ComputeMerkleRoot_spec by assumption; intros E1 E2.
  apply (inj Some) in E1, E2; pose proof (f_equal fst E1) as R1; pose proof (f_equal fst E2) as R2.
  pose proof (f_equal snd E1) as M1; pose proof (f_equal snd E2) as M2; cbn [fst snd] in *.
  apply (merkle_root_binding (depth l2)); first [assumption | reflexivity | congruence].
Qed.

(** A tree of two leaves hashes one string. *)
Definition two_leaves : list uint256 := [replicate 32 1; replicate 32 2].

Lemma two_leaves_32 : all_32 two_leaves.
Proof. repeat constructor. Qed.

Lemma two_leaves_no_collision : no_collision (tree_inputs two_leaves) (tree_inputs two_leaves).
Proof. intros a b [<-|[]] [<-|[]] _; reflexivity. Qed.

Lemma ComputeMerkleRoot_commits_witness :
  exists root, ComputeMerkleRoot two_leaves = Some (root, false) /\ two_leaves = two_leaves.
Proof.
  assert (E : ComputeMerkleRoot two_leaves = Some (merkle_root two_leaves, false))
    by (rewrite ComputeMerkleRoot_spec by exact two_leaves_32; reflexivity).
  exists (merkle_root two_leaves); split; [exact E|].
  exact (ComputeMerkleRoot_commits _ _ _ two_leaves_32 two_leaves_32 ltac:(discriminate) ltac:(discriminate) eq_refl
    two_leaves_no_collision E E).
Defined.

(** ** [MerkleComputation] computes the same root, and a branch *)

(** Powers of two by level. *)
Definition pw (k : nat) : Z := 2 ^ Z.of_nat k.

Lemma pw_pos k : 0 < pw k.
Proof. unfold pw; lia. Qed.

Lemma pw_succ k : pw (S k) = 2 * pw k.
Proof. unfold pw; rewrite Nat2Z.inj_succ, Z.pow_succ_r by lia; reflexivity. Qed.

Lemma pw_divide j k : (j <= k)%nat -> (pw j | pw k).
Proof. intros; exists (2 ^ (Z.of_nat k - Z.of_nat j)); unfold pw; rewrite <- Z.pow_add_r by lia; f_equal; lia. Qed.

Lemma pw_le j k : (j <= k)%nat -> pw j <= pw k.
Proof. intros; apply Z.pow_le_mono_r; lia. Qed.

Lemma bit_clear_even c l : (l < 32)%nat -> bit_clear c l = Z.even (c / pw l).
Proof.
  intros Hl; unfold bit_clear, pw; rewrite Z.shiftl_1_l, wrap_small by (unfold in_u; split; [lia | apply Z.pow_lt_mono_r; lia]).
  rewrite <- Z.shiftr_div_pow2, <- Z.negb_odd, <- Z.testbit_odd by lia.
  destruct (Z.testbit c (Z.of_nat l)) eqn:E; cbn [negb].
  - apply Z.eqb_neq; intros Hz; assert (Ht : Z.testbit (Z.land c (2 ^ Z.of_nat l)) (Z.of_nat l) = true)
      by (rewrite Z.land_spec, E, Z.pow2_bits_true by lia; reflexivity).
    rewrite Hz, Z.bits_0 in Ht; discriminate Ht.
  - apply Z.eqb_eq, Z.bits_inj'; intros i Hi; rewrite Z.land_spec, Z.pow2_bits_eqb, Z.bits_0 by lia.
    destruct (Z.eqb_spec (Z.of_nat l) i) as [<-|]; rewrite ?E; apply andb_false_r || reflexivity.
Qed.

Lemma even_divide c k : (pw k | c) -> Z.even (c / pw k) = true <-> (pw (S k) | c).
Proof.
  pose proof (pw_pos k); intros [q ->]; rewrite Z.div_mul, Z.even_spec, pw_succ by lia; split.
  - intros [r ->]; exists r; lia.
  - intros [r Hr]; exists r; nia.
Qed.

Lemma pred_div_divide c k : (pw k | c) -> (c - 1) / pw k = c / pw k - 1.
Proof.
  pose proof (pw_pos k); intros [q ->]; rewrite Z.div_mul by lia.
  symmetry; apply Z.div_unique with (pw k - 1); lia.
Qed.

Lemma pred_div_not c k : ~ (pw k | c) -> (c - 1) / pw k = c / pw k.
Proof.
  pose proof (pw_pos k); intros Hn; rewrite <- Z.mod_divide in Hn by lia.
  pose proof (Z.div_mod c (pw k) ltac:(lia)); pose proof (Z.mod_pos_bound c (pw k) ltac:(lia)).
  symmetry; apply Z.div_unique with (c mod pw k - 1); lia.
Qed.

Lemma odd_not_divide c l m : (pw l | c) -> Z.even (c / pw l) = false -> (l < m)%nat -> ~ (pw m | c).
Proof.
  intros Hd Ho Hlm Hm; enough (Z.even (c / pw l) = true) by congruence.
  apply even_divide; [exact Hd|]; apply Z.divide_trans with (pw m); [apply pw_divide; lia | exact Hm].
Qed.

Section Counter.
Context (L : list uint256) (n : Z) (Hn : n = len L 0) (Hpos : 0 < n).

Lemma len_rem k :
  exists q r, n = pw k * q + r /\ 0 <= r < pw k /\ n / pw k = q /\ (r = 0 -> len L k = q) /\ (r <> 0 -> len L k = q + 1).
Proof.
  pose proof (len_bounds L k) as [Hb|]; [|lia]; rewrite <- Hn in Hb; fold (pw k) in Hb; pose proof (pw_pos k).
  pose proof (Z.div_mod n (pw k) ltac:(lia)); pose proof (Z.mod_pos_bound n (pw k) ltac:(lia)).
  exists (n / pw k), (n mod pw k); repeat split; try lia; nia.
Qed.

Lemma len_divide k : (pw k | n) -> len L k = n / pw k.
Proof.
  destruct (len_rem k) as (q & r & E & Hr & -> & H0 & _); intros Hd; apply H0.
  rewrite <- Z.mod_divide, E, Z.mul_comm, Z.add_comm, Z.mod_add, Z.mod_small in Hd by lia; exact Hd.
Qed.

Lemma len_not_divide k : ~ (pw k | n) -> len L k = n / pw k + 1.
Proof.
  destruct (len_rem k) as (q & r & E & Hr & -> & _ & H1); intros Hd; apply H1; intros ->.
  apply Hd; exists q; lia.
Qed.

Lemma div_le_len c k : c <= n -> c / pw k <= len L k.
Proof.
  intros Hc; destruct (len_rem k) as (q & r & E & Hr & Hq & H0 & H1).
  pose proof (Z.div_le_mono c n (pw k) (pw_pos k) Hc); destruct (Z.eq_dec r 0); lia.
Qed.

(** A multiple of the length of one level is one of the levels above it as long as it divides. *)
Lemma len_above c j k : c = pw j * len L j -> (j <= k)%nat -> (pw k | c) -> len L k = c / pw k.
Proof.
  intros Hc Hjk; induction Hjk as [|k Hjk IH]; intros Hd.
  - rewrite Hc, Z.mul_comm, Z.div_mul by (pose proof (pw_pos j); lia); reflexivity.
  - destruct Hd as [q Hq]; rewrite pw_succ in Hq; pose proof (pw_pos k).
    rewrite len_succ, IH by (exists (2 * q); lia); rewrite Hq, pw_succ, Z.div_mul by lia.
    replace (q * (2 * pw k)) with (2 * q * pw k) by lia; rewrite Z.div_mul by lia.
    symmetry; apply Z.div_unique with 1; lia.
Qed.

(** The leaf whose branch is asked for. *)
Context (p : Z) (Hp : 0 <= p).

(** What is known of leaf [p] when the hash in hand is node [c / 2^l - 1] of level [l]: it covers the
    leaf; or the leaf is not among the [seen] ones; or it is below the stored hash of level [ml]. *)
Definition match_ok (seen c : Z) (l : nat) (ml : Z) (y : carry) : Prop :=
  c_matchh y = true /\ p / pw l = c / pw l - 1 /\ c_path y = branch_of L p l \/
  c_matchh y = false /\ ml = -1 /\ seen <= p /\ c_path y = [] \/
  c_matchh y = false /\ exists m, ml = Z.of_nat m /\ (l <= m)%nat /\ c_path y = branch_of L p m /\
    ((pw (S m) | c) -> p / pw m = c / pw m - 2).

(** The stored hashes that climbing from level [l] meets. *)
Definition inner_prev (c : Z) (l : nat) (inner : list uint256) : Prop :=
  forall k, (l <= k)%nat -> (pw (S k) | c) -> inner_get inner k = node L k (c / pw k - 2) /\ c / pw k <= len L k.

Lemma push_path_ok seen c l ml inner y :
  inner_prev c l inner -> (pw (S l) | c) -> 0 < c -> c_h y = node L l (c / pw l - 1) -> match_ok seen c l ml y ->
  match_ok seen c (S l) ml (push_path true inner ml l y).
Proof.
  intros Hin Hd Hc Hh Hm; destruct (Hin l (le_n l) Hd) as [Hi Hle].
  destruct Hd as [q Hq]; rewrite pw_succ in Hq; pose proof (pw_pos l) as Hpl.
  assert (Eq : c / pw l = 2 * q) by (rewrite Hq; replace (q * (2 * pw l)) with (2 * q * pw l) by lia; apply Z.div_mul; lia).
  assert (Eq' : c / pw (S l) = q) by (rewrite Hq, pw_succ; apply Z.div_mul; lia).
  assert (Ep : p / pw (S l) = p / pw l / 2) by (apply div_pow_succ; exact Hp).
  unfold push_path; cbn [negb]; destruct Hm as [(Ht & Hpi & Hb) | [(Ht & Hml & Hs & Hb) | (Ht & m & Hml & Hlm & Hb & Hm)]]; rewrite Ht.
  - left; cbn [c_matchh c_path]; split; [reflexivity|]; rewrite Hb, Hi, branch_succ, Ep, Eq'; fold (pw l); rewrite Hpi, Eq.
    split; [symmetry; apply Z.div_unique with 1; lia|]; unfold sib.
    replace (Z.even (2 * q - 1)) with false by (rewrite Z.even_sub, Z.even_mul; reflexivity).
    do 3 f_equal; lia.
  - right; left; rewrite Hml; destruct (Z.eqb_spec (-1) (Z.of_nat l)); [lia|]; auto.
  - rewrite Hml; destruct (Z.eqb_spec (Z.of_nat m) (Z.of_nat l)) as [E|E].
    + apply Nat2Z.inj in E as ->; left; cbn [c_matchh c_path]; split; [reflexivity|].
      rewrite Hb, Hh, branch_succ, Ep, Eq'; fold (pw l); rewrite Hm, Eq by (exists q; rewrite pw_succ; exact Hq).
      split; [symmetry; apply Z.div_unique with 0; lia|]; unfold sib.
      replace (Z.even (2 * q - 2)) with true by (rewrite Z.even_sub, Z.even_mul; reflexivity).
      do 3 f_equal; lia.
    + right; right; split; [exact Ht|]; exists m; repeat split; auto; lia.
Qed.

Lemma push_path_h want inner ml l y : c_h (push_path want inner ml l y) = c_h y.
Proof. unfold push_path; destruct want, (c_matchh y), (ml =? Z.of_nat l); reflexivity. Qed.

(** Combining the two halves of a node. *)
Lemma climb_hash c l : (pw (S l) | c) -> 0 < c -> c / pw l <= len L l ->
  Hash2 (node L l (c / pw l - 2)) (node L l (c / pw l - 1)) = node L (S l) (c / pw (S l) - 1).
Proof.
  intros [q Hq] Hc Hle; rewrite pw_succ in Hq; pose proof (pw_pos l) as Hpl.
  assert (Eq : c / pw l = 2 * q) by (rewrite Hq; replace (q * (2 * pw l)) with (2 * q * pw l) by lia; apply Z.div_mul; lia).
  rewrite Hq at 3; rewrite pw_succ, Z.div_mul, Eq in * by lia.
  rewrite node_up by lia; hash_args; f_equal; lia.
Qed.

Lemma climb_spec seen want inner ml c (Hc : 0 < c < 2 ^ 32) fuel : forall l y equal,
  (l + fuel = 32)%nat -> (pw l | c) -> inner_prev c l inner -> c_h y = node L l (c / pw l - 1) ->
  (want = true -> match_ok seen c l ml y) ->
  exists l' y' equal', climb fuel l want inner ml c y equal = Some (l', y', equal') /\ (l <= l' < 32)%nat /\
    (pw l' | c) /\ Z.even (c / pw l') = false /\ c_h y' = node L l' (c / pw l' - 1) /\ (want = true -> match_ok seen c l' ml y').
Proof.
  induction fuel as [|fuel IH]; intros l y equal Hl Hd Hin Hh Hm; cbn [climb].
  - replace l with 32%nat in Hd by lia; apply Z.divide_pos_le in Hd; [unfold pw in Hd|]; lia.
  - rewrite bit_clear_even by lia; destruct (Z.even (c / pw l)) eqn:He; [|exists l, y, equal; repeat split; auto; lia].
    apply even_divide in He; [|exact Hd]; destruct (Hin l (le_n l) He) as [Hi Hle].
    edestruct IH as (l' & y' & e' & -> & Hl' & Hrest); cycle 5.
    + exists l', y', e'; split; [reflexivity|]; split; [lia | exact Hrest].
    + lia.
    + exact He.
    + intros k Hk; apply Hin; lia.
    + cbn [c_h]; rewrite push_path_h, Hi, Hh; apply climb_hash; [exact He | lia | exact Hle].
    + intros Hw; pose proof (push_path_ok seen c l ml inner y Hin He ltac:(lia) Hh (Hm Hw)) as Hp'; rewrite Hw; exact Hp'.
Qed.

(** The state between leaves: the stored hashes are those of the set bits of [c], and the leaf, once
    seen, is below one of them. *)
Definition inner_ok (c : Z) (inner : list uint256) : Prop :=
  length inner = 32%nat /\
  forall k, (k < 32)%nat -> Z.even (c / pw k) = false -> inner_get inner k = node L k (c / pw k - 1).

Definition leaf_ok (c ml : Z) (path : list uint256) : Prop :=
  ml = -1 /\ c <= p /\ path = [] \/
  exists m, ml = Z.of_nat m /\ Z.even (c / pw m) = false /\ p / pw m = c / pw m - 1 /\ path = branch_of L p m.

Definition state_ok (want : bool) (c : Z) (st : computation) : Prop :=
  count st = c /\ inner_ok c (inner st) /\ (want = true -> leaf_ok c (matchlevel st) (path st)).

Lemma divide_lt c k K : (pw k | c) -> 0 < c -> c < pw K -> (k < K)%nat.
Proof.
  intros Hd Hc Hk; apply Z.divide_pos_le in Hd; [|lia]; destruct (Nat.le_gt_cases K k) as [Hle|]; [|assumption].
  apply pw_le in Hle; lia.
Qed.

Lemma even_pred a : Z.even (a - 1) = negb (Z.even a).
Proof. rewrite Z.even_sub; destruct (Z.even a); reflexivity. Qed.

Lemma even_div_divide c k : (pw (S k) | c) -> Z.even (c / pw k) = true.
Proof.
  intros Hd; apply even_divide; [|exact Hd]; apply Z.divide_trans with (pw (S k)); [apply pw_divide; lia | exact Hd].
Qed.

Lemma divide_weaken c j k : (j <= k)%nat -> (pw k | c) -> (pw j | c).
Proof. intros Hjk; apply Z.divide_trans, pw_divide, Hjk. Qed.

Lemma inner_ok_prev c inner : inner_ok (c - 1) inner -> 0 < c <= n -> c < 2 ^ 32 -> inner_prev c 0 inner.
Proof.
  intros [_ Hin] Hc Hc32 k _ Hd; split; [|apply div_le_len; lia].
  pose proof (divide_lt c (S k) 32 Hd ltac:(lia) Hc32); pose proof (pred_div_divide c k (divide_weaken c k (S k) ltac:(lia) Hd)) as E.
  rewrite Hin, E by (try lia; rewrite E, even_pred, even_div_divide by exact Hd; reflexivity); f_equal; lia.
Qed.

Lemma leaf_ok_match c ml path h :
  leaf_ok (c - 1) ml path -> match_ok c c 0 ml {| c_h := h; c_matchh := c - 1 =? p; c_path := path |}.
Proof.
  unfold match_ok; cbn [c_matchh c_path]; change (pw 0) with 1; rewrite !Z.div_1_r; intros [(-> & Hle & ->) | (m & -> & Ho & Hpm & ->)].
  - destruct (Z.eqb_spec (c - 1) p); [left | right; left]; auto with lia.
  - destruct (Z.eqb_spec (c - 1) p) as [<-|]; [lia|]; right; right; split; [reflexivity|]; exists m; repeat split; [lia|].
    intros Hd; rewrite Hpm, pred_div_divide by (apply (divide_weaken c m (S m)); [lia | exact Hd]); lia.
Qed.

Lemma match_ok_leaf c ml l y :
  (pw l | c) -> Z.even (c / pw l) = false -> match_ok c c l ml y ->
  (forall m, ml = Z.of_nat m -> Z.even ((c - 1) / pw m) = false /\ p / pw m = (c - 1) / pw m - 1) ->
  leaf_ok c (if c_matchh y then Z.of_nat l else ml) (c_path y).
Proof.
  intros Hd Ho [(-> & Hpi & ->) | [(Ef & Hml & Hs & Hb) | (Ef & m & Hml & Hlm & Hb & _)]] Hsome.
  - right; exists l; auto.
  - rewrite Ef; left; auto.
  - rewrite Ef; right; exists m; destruct (Hsome m Hml) as [He Hpm].
    assert (Hne : m <> l) by (intros ->; rewrite pred_div_divide, even_pred, Ho in He by exact Hd; discriminate He).
    rewrite (pred_div_not c m) in * by (apply (odd_not_divide c l m); [exact Hd | exact Ho | lia]); auto.
Qed.

Lemma inner_ok_store c l inner h :
  inner_ok (c - 1) inner -> (l < 32)%nat -> (pw l | c) -> Z.even (c / pw l) = false -> h = node L l (c / pw l - 1) ->
  inner_ok c (<[l := h]> inner).
Proof.
  intros [Hlen Hin] Hl Hd Ho ->; split; [rewrite length_insert; exact Hlen|]; intros k Hk He; unfold inner_get.
  destruct (Nat.lt_trichotomy k l) as [Hlt|[->|Hgt]].
  - rewrite even_div_divide in He by (apply (divide_weaken c (S k) l); [lia | exact Hd]); discriminate He.
  - rewrite nth_lookup, list_lookup_insert_eq by lia; reflexivity.
  - rewrite nth_lookup, list_lookup_insert_ne, <- nth_lookup by lia.
    pose proof (pred_div_not c k (odd_not_divide c l k Hd Ho Hgt)) as E.
    pose proof (Hin k Hk) as H; unfold inner_get in H; rewrite E in H; exact (H He).
Qed.

Lemma add_leaf_ok want c st :
  state_ok want (c - 1) st -> 0 < c <= n -> c < 2 ^ 32 ->
  exists st', add_leaf want p st (node L 0 (c - 1)) = Some st' /\ state_ok want c st'.
Proof.
  intros (Hcount & Hin & Hleaf) Hc Hc32; unfold add_leaf; rewrite Hcount.
  replace (wrap 32 (c - 1 + 1)) with c by (rewrite wrap_small by (unfold in_u; lia); lia).
  destruct (climb_spec c want (inner st) (matchlevel st) c ltac:(lia) 32 0
    {| c_h := node L 0 (c - 1); c_matchh := c - 1 =? p; c_path := path st |} (mutated st)) as (l & y & e & -> & Hl & Hd & Ho & Hh & Hm).
  - lia.
  - apply Z.divide_1_l.
  - apply inner_ok_prev; [exact Hin | lia | lia].
  - cbn [c_h]; change (pw 0) with 1; rewrite Z.div_1_r; reflexivity.
  - intros Hw; apply leaf_ok_match, Hleaf, Hw.
  - eexists; split; [reflexivity|]; split; [reflexivity|]; cbn [inner matchlevel path]; split.
    + apply inner_ok_store; [exact Hin | lia | exact Hd | exact Ho | exact Hh].
    + intros Hw; specialize (Hleaf Hw); apply match_ok_leaf; [exact Hd | exact Ho | exact (Hm Hw) |].
      intros m Hml; destruct Hleaf as [(E & _) | (m' & E & He & Hpm & _)]; [lia|].
      rewrite E in Hml; apply Nat2Z.inj in Hml as ->; auto.
Qed.

Lemma add_leaves_ok want (Hn32 : n < 2 ^ 32) l2 : forall l1 st,
  L = l1 ++ l2 -> state_ok want (Z.of_nat (length l1)) st ->
  exists st', add_leaves want p l2 st = Some st' /\ state_ok want n st'.
Proof.
  induction l2 as [|leaf l2 IH]; intros l1 st HL Hst; cbn [add_leaves].
  - exists st; split; [reflexivity|]; rewrite Hn; unfold len, lev; cbn [Nat.iter nat_rect]; rewrite HL, app_nil_r; exact Hst.
  - set (c := Z.of_nat (length (l1 ++ [leaf]))).
    assert (Ec : Z.of_nat (length l1) = c - 1) by (unfold c; rewrite length_app; cbn [length]; lia).
    assert (Hc : 0 < c <= n).
    { rewrite Hn; unfold len, lev, c; cbn [Nat.iter nat_rect]; rewrite HL, !length_app; cbn [length]; lia. }
    assert (Hleaf : leaf = node L 0 (c - 1)).
    { unfold node, lev; cbn [Nat.iter nat_rect]; rewrite <- Ec, Nat2Z.id, HL, nth_middle; reflexivity. }
    rewrite Ec in Hst; destruct (add_leaf_ok want c st Hst Hc ltac:(lia)) as (st1 & E1 & Hst1).
    rewrite Hleaf, E1; apply (IH (l1 ++ [leaf])); [rewrite <- app_assoc; exact HL | exact Hst1].
Qed.

Lemma skip_zeros_spec c (Hc : 0 < c < 2 ^ 32) fuel : forall l,
  (l + fuel = 32)%nat -> (pw l | c) ->
  exists l', skip_zeros fuel l c = Some l' /\ (l' < 32)%nat /\ (pw l' | c) /\ Z.even (c / pw l') = false.
Proof.
  induction fuel as [|fuel IH]; intros l Hl Hd; cbn [skip_zeros].
  - pose proof (divide_lt c l 32 Hd ltac:(lia) ltac:(exact (proj2 Hc))); lia.
  - rewrite bit_clear_even by lia; destruct (Z.even (c / pw l)) eqn:He; [|exists l; repeat split; auto; lia].
    apply IH; [lia|]; apply even_divide; assumption.
Qed.

Lemma depth_eq l : n <= pw l -> l = 0%nat \/ pw (l - 1) < n -> depth L = l.
Proof.
  intros Hle Hlow; unfold depth; replace (Z.of_nat (length L)) with n by (rewrite Hn; reflexivity).
  destruct Hlow as [->|Hlow].
  - replace n with 1 by (change (pw 0) with 1 in Hle; lia); reflexivity.
  - destruct l as [|l]; [cbn in *; change (pw 0) with 1 in *; lia|].
    replace (Z.log2_up n) with (Z.of_nat (S l)); [apply Nat2Z.id|]; symmetry.
    apply Z.log2_up_unique; [lia|]; replace (Z.pred (Z.of_nat (S l))) with (Z.of_nat (S l - 1)) by lia; auto.
Qed.

(** The final sweep.  At level [l] the counter stands for a full row of [len L l] nodes, an odd
    number, and the hash in hand is the last of them. *)
Section Sweep.
Context (want : bool) (inner : list uint256) (ml : Z) (Hin : inner_ok n inner).
Context (Hml : want = true -> forall m, ml = Z.of_nat m -> Z.even (n / pw m) = false /\ p / pw m = n / pw m - 1).

Record sweep_ok (l : nat) (c : Z) (y : carry) : Prop := {
  sw_level : (l < 32)%nat;
  sw_count : c = pw l * len L l;
  sw_bound : c <= 2 ^ 31;
  sw_odd : Z.even (len L l) = false;
  sw_rem : ~ (pw (S l) | n);
  sw_low : l = 0%nat \/ pw (l - 1) < n;
  sw_h : c_h y = node L l (len L l - 1);
  sw_match : want = true -> match_ok n c l ml y;
  sw_ml : want = true -> c_matchh y = false -> ml <> Z.of_nat l }.

Definition pair_with_self (y : carry) : carry :=
  {| c_h := Hash2 (c_h y) (c_h y); c_matchh := c_matchh y;
     c_path := if want && c_matchh y then c_path y ++ [c_h y] else c_path y |}.

Lemma odd_len l : Z.even (len L l) = false -> len L l = 2 * len L (S l) - 1.
Proof.
  intros Ho; rewrite len_succ; rewrite <- Z.negb_odd, negb_false_iff, Z.odd_spec in Ho; destruct Ho as [q ->].
  replace (2 * q + 1 + 1) with ((q + 1) * 2) by lia; rewrite Z.div_mul by lia; lia.
Qed.

Lemma not_divide_above l k : ~ (pw l | n) -> (l <= k)%nat -> ~ (pw k | n).
Proof. intros Hn' Hk Hd; apply Hn', (divide_weaken n l k Hk Hd). Qed.

(** Above the lowest set bit of [n], a level the counter divides has one more node than [n / 2^k]. *)
Lemma above l c k :
  c = pw l * len L l -> ~ (pw l | n) -> (l <= k)%nat -> (pw k | c) -> c / pw k = n / pw k + 1 /\ len L k = c / pw k.
Proof.
  intros Hc Hr Hk Hd; pose proof (len_above c l k Hc Hk Hd) as E.
  rewrite <- E, (len_not_divide k) by (apply (not_divide_above l k Hr Hk)); auto.
Qed.

Lemma sweep_prev l c : c = pw l * len L l -> ~ (pw l | n) -> 0 < c < 2 ^ 32 -> inner_prev c l inner.
Proof.
  intros Hc Hr Hpos' k Hk Hd; destruct (above l c k Hc Hr Hk (divide_weaken c k (S k) ltac:(lia) Hd)) as [E1 E2].
  split; [|lia]; pose proof (even_div_divide c k Hd) as He; pose proof (divide_lt c (S k) 32 Hd ltac:(lia) ltac:(apply Hpos')).
  rewrite (proj2 Hin) by (try lia; replace (n / pw k) with (c / pw k - 1) by lia; rewrite even_pred, He; reflexivity).
  f_equal; lia.
Qed.

Lemma match_ok_self l c y :
  want = true -> sweep_ok l c y -> match_ok n (c + pw l) (S l) ml (pair_with_self y).
Proof.
  intros Hw [_ Hc _ Ho Hr _ Hh Hm Hne]; specialize (Hm Hw); specialize (Hne Hw); pose proof (pw_pos l) as Hpl.
  pose proof (odd_len l Ho) as El; set (q := len L (S l)) in *.
  assert (E0 : c / pw l = len L l) by (rewrite Hc, Z.mul_comm; apply Z.div_mul; lia).
  assert (Ec : c + pw l = pw (S l) * q) by (rewrite pw_succ; nia).
  assert (E1 : (c + pw l) / pw (S l) = q) by (rewrite Ec, Z.mul_comm; apply Z.div_mul; pose proof (pw_pos (S l)); lia).
  assert (Ep : p / pw (S l) = p / pw l / 2) by (apply div_pow_succ; exact Hp).
  unfold match_ok, pair_with_self; cbn [c_matchh c_path]; rewrite E1, Hw.
  destruct Hm as [(Ht & Hpi & Hb) | [(Ht & Hm & Hs & Hb) | (Ht & m & Hm & Hlm & Hb & _)]]; rewrite Ht; cbn [andb].
  - left; split; [reflexivity|]; rewrite Hb, Hh, branch_succ, Ep; fold (pw l); rewrite Hpi, E0, El.
    split; [symmetry; apply Z.div_unique with 0; lia|]; unfold sib.
    replace (Z.even (2 * q - 1 - 1)) with true by (rewrite !Z.even_sub, Z.even_mul; reflexivity).
    do 3 f_equal; rewrite El; lia.
  - right; left; auto.
  - right; right; split; [reflexivity|]; exists m; split; [exact Hm|].
    assert (l <> m) by (intros ->; apply Hne; auto); split; [lia|]; split; [exact Hb|]; intros Hd.
    destruct (Hml Hw m Hm) as [_ ->].
    destruct (above (S l) (c + pw l) m Ec Hr ltac:(lia) (divide_weaken _ m (S m) ltac:(lia) Hd)) as [-> _]; lia.
Qed.

Lemma sweep_count_succ l c :
  c = pw l * len L l -> c <= 2 ^ 31 -> Z.even (len L l) = false -> c <> pw l ->
  c + pw l = pw (S l) * len L (S l) /\ c + pw l <= 2 ^ 31 /\ 3 <= len L l.
Proof.
  intros Hc Hb Ho Hne; pose proof (pw_pos l); pose proof (odd_len l Ho) as El; rewrite pw_succ.
  assert (H3 : 3 <= len L l) by (pose proof (len_pos L l ltac:(lia)); assert (len L l <> 1) by (intros E; rewrite E in Hc; lia); lia).
  split; [nia|]; split; [|exact H3].
  assert (Hl : (l < 31)%nat).
  { destruct (Nat.le_gt_cases 31 l) as [Hle|]; [|assumption]; apply pw_le in Hle; change (pw 31) with (2 ^ 31) in Hle; nia. }
  destruct (pw_divide (S l) 31 Hl) as [q Hq]; change (pw 31) with (2 ^ 31) in Hq; rewrite pw_succ in Hq.
  assert (len L l <= 2 * q) by nia; rewrite El in *; rewrite Hq, Hc; nia.
Qed.

Lemma self_hash l : Z.even (len L l) = false ->
  Hash2 (node L l (len L l - 1)) (node L l (len L l - 1)) = node L (S l) (len L (S l) - 1).
Proof.
  intros Ho; pose proof (odd_len l Ho); pose proof (len_pos L (S l) ltac:(lia)); rewrite node_up by lia.
  hash_args; f_equal; lia.
Qed.

Lemma low_of_len k : 2 <= len L k -> pw k < n.
Proof.
  intros H2; destruct (len_bounds L k) as [[Hb _]|]; [|lia]; rewrite <- Hn in Hb; fold (pw k) in Hb; pose proof (pw_pos k).
  apply Z.le_lt_trans with (pw k * (len L k - 1)); [|exact Hb]; rewrite <- (Z.mul_1_r (pw k)) at 1.
  apply Z.mul_le_mono_nonneg_l; lia.
Qed.

Lemma sweep_step l c y :
  sweep_ok l c y -> c <> pw l ->
  exists l' y' e, climb (31 - l) (S l) want inner ml (c + pw l) (pair_with_self y) false = Some (l', y', e) /\
    (l < l')%nat /\ sweep_ok l' (c + pw l) y'.
Proof.
  intros Hok Hne; pose proof Hok as [Hl Hc Hb Ho Hr Hlow Hh Hm Hmne]; pose proof (pw_pos l).
  destruct (sweep_count_succ l c Hc Hb Ho Hne) as (Ec & Hb' & H3); set (c' := c + pw l) in *.
  assert (Hpos' : 0 < c' < 2 ^ 32) by nia; pose proof (pw_pos (S l)) as Hps.
  assert (E1 : c' / pw (S l) = len L (S l)) by (rewrite Ec, Z.mul_comm; apply Z.div_mul; lia).
  assert (HlS : (S l < 32)%nat) by (apply (divide_lt c' (S l) 32); [exists (len L (S l)); lia | lia | apply Hpos']).
  destruct (climb_spec n want inner ml c' Hpos' (31 - l) (S l) (pair_with_self y) false)
    as (l' & y' & e & Heq & Hl' & Hd' & Ho' & Hh' & Hm').
  - lia.
  - exists (len L (S l)); lia.
  - apply sweep_prev; assumption.
  - cbn [pair_with_self c_h]; rewrite Hh, E1; apply self_hash, Ho.
  - intros Hw; exact (match_ok_self l c y Hw Hok).
  - exists l', y', e; split; [exact Heq|]; split; [lia|].
    destruct (above (S l) c' l' Ec Hr ltac:(lia) Hd') as [En El].
    split; [lia | rewrite El; destruct Hd' as [q ->]; rewrite Z.div_mul by (pose proof (pw_pos l'); lia); lia | exact Hb' | rewrite El; exact Ho' | | | rewrite El; exact Hh' | exact Hm' |].
    + apply (not_divide_above (S l)); [exact Hr | lia].
    + right; destruct (Nat.eq_dec l' (S l)) as [->|Hne'].
      * replace (S l - 1)%nat with l by lia; apply low_of_len; lia.
      * destruct (above (S l) c' (l' - 1) Ec Hr ltac:(lia) (divide_weaken c' (l' - 1) l' ltac:(lia) Hd')) as [_ El2].
        pose proof (len_pos L (l' - 1) ltac:(lia)).
        assert (He : Z.even (len L (l' - 1)) = true)
          by (rewrite El2; apply even_div_divide; replace (S (l' - 1)) with l' by lia; exact Hd').
        apply Z.even_spec in He as [q Hq]; apply low_of_len; lia.
    + intros Hw _ Em; destruct (Hml Hw l' Em) as [He _]; rewrite En, Z.even_add, He in Ho'; discriminate Ho'.
Qed.

Lemma sweep_done l c y :
  sweep_ok l c y -> c = pw l ->
  c_h y = merkle_root L /\ (want = true -> p < n -> c_path y = branch_of L p (depth L)).
Proof.
  intros [Hl Hc Hb Ho Hr Hlow Hh Hm Hne] E; pose proof (pw_pos l).
  assert (E1 : len L l = 1) by nia.
  assert (Hle : n <= pw l) by (pose proof (len_bounds L l) as [[_ Hx]|]; [|lia]; rewrite <- Hn in Hx; fold (pw l) in Hx; nia).
  unfold merkle_root; rewrite (depth_eq l Hle Hlow), Hh, E1; split; [reflexivity|]; intros Hw Hpn.
  destruct (Hm Hw) as [(_ & _ & Hb') | [(_ & _ & Hs & _) | (Hf & m & Em & Hlm & _)]]; [exact Hb' | lia|].
  exfalso; assert (m <> l) by (intros ->; apply (Hne Hw Hf); exact Em).
  destruct (Hml Hw m Em) as [He _]; rewrite Z.div_small in He; [discriminate He|].
  split; [lia|]; apply Z.le_lt_trans with (pw l); [exact Hle|]; apply Z.pow_lt_mono_r; lia.
Qed.

Lemma shift_pw l : (l < 32)%nat -> wrap 32 (Z.shiftl 1 (Z.of_nat l)) = pw l.
Proof.
  intros; rewrite Z.shiftl_1_l; fold (pw l); apply wrap_small; split; [pose proof (pw_pos l); lia|].
  apply Z.pow_lt_mono_r; lia.
Qed.

Lemma sweep_spec fuel : forall l c y,
  (32 <= l + fuel)%nat -> sweep_ok l c y ->
  exists y', sweep fuel l want inner ml c y = Some y' /\ c_h y' = merkle_root L /\
    (want = true -> p < n -> c_path y' = branch_of L p (depth L)).
Proof.
  induction fuel as [|fuel IH]; intros l c y Hf Hok; pose proof (sw_level l c y Hok); [lia|].
  cbn [sweep]; rewrite shift_pw by assumption; destruct (Z.eqb_spec c (pw l)) as [E|E].
  - exists y; split; [reflexivity | exact (sweep_done l c y Hok E)].
  - destruct (sweep_step l c y Hok E) as (l' & y' & e & Hcl & Hlt & Hok').
    replace (wrap 32 (c + pw l)) with (c + pw l).
    + fold (pair_with_self y); rewrite Hcl; apply IH; [lia | exact Hok'].
    + symmetry; apply wrap_small; pose proof (sw_bound _ _ _ Hok'); pose proof (sw_count _ _ _ Hok); pose proof (pw_pos l).
      pose proof (len_pos L l ltac:(lia)); split; [nia | lia].
Qed.
End Sweep.

Lemma sweep_start want st l :
  n <= 2 ^ 31 -> state_ok want n st -> (l < 32)%nat -> (pw l | n) -> Z.even (n / pw l) = false ->
  sweep_ok want (matchlevel st) l n
    {| c_h := inner_get (inner st) l; c_matchh := matchlevel st =? Z.of_nat l; c_path := path st |}.
Proof.
  intros Hb (_ & [_ Hin] & Hleaf) Hl Hd Ho; pose proof (len_divide l Hd) as El; pose proof (pw_pos l).
  split; cbn [c_h c_matchh c_path]; try rewrite El.
  - exact Hl.
  - destruct Hd as [q ->]; rewrite Z.div_mul by lia; lia.
  - exact Hb.
  - exact Ho.
  - apply (odd_not_divide n l); [exact Hd | exact Ho | lia].
  - destruct l as [|l]; [left; reflexivity | right]; apply Z.divide_pos_le in Hd; [|exact Hpos].
    replace (S l - 1)%nat with l by lia; rewrite pw_succ in *; lia.
  - exact (Hin l Hl Ho).
  - intros Hw; destruct (Hleaf Hw) as [(-> & Hs & ->) | (m & -> & He & Hpm & ->)].
    + right; left; cbn [c_matchh c_path]; split; [apply Z.eqb_neq; lia|]; split; [reflexivity|]; split; [exact Hs | reflexivity].
    + destruct (Z.eqb_spec (Z.of_nat m) (Z.of_nat l)) as [E|E]; [apply Nat2Z.inj in E as ->; left; auto|].
      right; right; split; [reflexivity|]; exists m; split; [reflexivity|].
      assert (Hlm : (l <= m)%nat).
      { destruct (Nat.le_gt_cases l m); [assumption|]; rewrite even_div_divide in He; [discriminate He|].
        apply (divide_weaken n (S m) l); [lia | exact Hd]. }
      split; [exact Hlm|]; split; [reflexivity|]; intros Hd'; exfalso.
      apply (odd_not_divide n l (S m) Hd Ho ltac:(lia) Hd').
  - intros _ Hf E; rewrite E, Z.eqb_refl in Hf; discriminate Hf.
Qed.
End Counter.

Lemma MerkleComputation_spec L p want :
  L <> [] -> Z.of_nat (length L) <= 2 ^ 31 -> 0 <= p ->
  exists mut path, MerkleComputation L p want = Some (merkle_root L, mut, path) /\
    (want = true -> p < Z.of_nat (length L) -> path = branch_of L p (depth L)).
Proof.
  intros Hne Hlen Hp; set (n := Z.of_nat (length L)).
  assert (Hn : n = len L 0) by reflexivity; assert (Hpos : 0 < n) by (destruct L; [easy | unfold n; cbn [length]; lia]).
  set (st0 := {| count := 0; inner := replicate 32 uint256_zero; matchlevel := -1; path := []; mutated := false |}).
  assert (H0 : state_ok L p want 0 st0).
  { split; [reflexivity|]; split; [split; [reflexivity|] | left; auto]; intros k _; rewrite Z.div_0_l by (pose proof (pw_pos k); lia); discriminate. }
  destruct (add_leaves_ok L n Hn Hpos p Hp want ltac:(unfold n; lia) L [] st0 eq_refl H0) as (st & E1 & Hst).
  destruct (skip_zeros_spec n ltac:(unfold n in *; lia) 32 0) as (l & E2 & Hl & Hd & Ho); [reflexivity | apply Z.divide_1_l|].
  pose proof Hst as (Ec & Hin & Hleaf).
  destruct (sweep_spec L n Hn Hpos p Hp want (inner st) (matchlevel st) Hin) with (fuel := 32%nat) (l := l) (c := n)
    (y := {| c_h := inner_get (inner st) l; c_matchh := matchlevel st =? Z.of_nat l; c_path := path st |}) as (y & E3 & Hh & Hpath).
  - intros Hw m Hm; destruct (Hleaf Hw) as [(E & _) | (m' & E & He & Hpm & _)]; [lia|].
    rewrite E in Hm; apply Nat2Z.inj in Hm as ->; auto.
  - lia.
  - apply sweep_start; assumption.
  - exists (mutated st), (c_path y); split; [|intros; apply Hpath; assumption].
    unfold MerkleComputation; destruct L as [|a L'] eqn:EL; [contradiction|]; rewrite <- EL in *; fold st0.
    rewrite E1, Ec, E2, E3, Hh; reflexivity.
Qed.

Lemma ComputeMerklePath_spec L p :
  L <> [] -> Z.of_nat (length L) <= 2 ^ 31 -> 0 <= p < Z.of_nat (length L) ->
  ComputeMerklePath L p = Some (branch_of L p (depth L)).
Proof.
  intros Hne Hlen Hp; destruct (MerkleComputation_spec L p true Hne Hlen ltac:(lia)) as (mut & path & E & Hpath).
  unfold ComputeMerklePath; rewrite E, Hpath by (reflexivity || lia); reflexivity.
Qed.

(** The top index of a branch is zero. *)
Lemma depth_top L p : 0 <= p < Z.of_nat (length L) -> p / 2 ^ Z.of_nat (depth L) = 0.
Proof.
  intros Hp; apply Z.div_small; split; [lia|]; unfold depth; rewrite Z2Nat.id by apply Z.log2_up_nonneg.
  destruct (Z.le_gt_cases (Z.of_nat (length L)) 1) as [Hle|Hgt]; [rewrite Z.log2_up_eqn0 by exact Hle; cbn; lia|].
  pose proof (Z.log2_up_spec (Z.of_nat (length L)) ltac:(lia)); lia.
Qed.

(** C29: the constant-space calculator agrees with the level-by-level one.  For every non-empty
    list of at most 2^31 hashes and every position in it, [MerkleComputation] terminates without a
    shift out of range, its root is [ComputeMerkleRoot]'s, whether or not a path is asked for, and
    [ComputeMerklePath] gives a path with one hash per level that [CheckMerkleBranch] folds from
    the hash at that position back to that root. *)
Theorem MerkleComputation_agrees `{MultiWayLaws} L p :
  all_32 L -> Z.of_nat (length L) <= 2 ^ 31 -> 0 <= p < Z.of_nat (length L) ->
  exists root path,
    option_map fst (ComputeMerkleRoot L) = Some root /\
    (forall want, option_map (fun r => fst (fst r)) (MerkleComputation L p want) = Some root) /\
    ComputeMerklePath L p = Some path /\ length path = depth L /\
    CheckMerkleBranch (nth (Z.to_nat p) L uint256_zero) path p = root.
Proof.
  intros H32 Hlen Hp; assert (Hne : L <> []) by (destruct L; [cbn in Hp; lia | discriminate]).
  exists (merkle_root L), (branch_of L p (depth L)); split; [rewrite ComputeMerkleRoot_spec by exact H32; reflexivity|].
  split; [intros want; destruct (MerkleComputation_spec L p want Hne Hlen ltac:(lia)) as (? & ? & -> & _); reflexivity|].
  split; [apply ComputeMerklePath_spec; assumption|]; split; [apply length_branch_of|].
  transitivity (node L (depth L) (p / 2 ^ Z.of_nat (depth L))); [|rewrite depth_top by exact Hp; reflexivity].
  apply (CheckMerkleBranch_branch_of L p (depth L)); exact Hp.
Qed.

Definition sample (n : nat) : list uint256 := map (fun i => replicate 32 (Z.of_nat i)) (seq 1 n).

Lemma sample_32 n : all_32 (sample n).
Proof. unfold sample; generalize (seq 1 n); intros l; induction l; constructor; [apply length_replicate | assumption]. Qed.

Lemma MerkleComputation_agrees_witness :
  exists root path, option_map fst (ComputeMerkleRoot (sample 5)) = Some root /\ length path = 3%nat /\
    CheckMerkleBranch (replicate 32 4) path 3 = root.
Proof.
  destruct (MerkleComputation_agrees (sample 5) 3) as (root & path & H1 & _ & _ & H2 & H3);
    [apply sample_32 | cbn; lia | cbn; lia|].
  exists root, path; split; [exact H1|]; split; [exact H2 | exact H3].
Defined.

(** ** Soundness of branches *)

Lemma lev_32 L k : all_32 L -> all_32 (lev L k).
Proof. intros HL; destruct k as [|k]; [exact HL | apply up_32]. Qed.

Lemma node_32 L k i : all_32 L -> 0 <= i < len L k -> length (node L k i) = 32%nat.
Proof.
  intros HL Hi; unfold node; pose proof (lev_32 L k HL) as Hk; unfold all_32 in Hk; rewrite Forall_forall in Hk.
  apply Hk, nth_In; unfold len in Hi; lia.
Qed.

(** The fold of a branch, with the index it leaves. *)
Definition fold_branch (leaf : uint256) (index : Z) (branch : list uint256) : uint256 * Z :=
  foldl (fun '(hash, index) sibling =>
    (if negb (Z.land index 1 =? 0) then Hash2 sibling hash else Hash2 hash sibling, Z.shiftr index 1)) (leaf, index) branch.

Lemma fold_branch_32 leaf index branch : length leaf = 32%nat -> length (fst (fold_branch leaf index branch)) = 32%nat.
Proof.
  intros Hl; induction branch as [|s branch _] using rev_ind; [exact Hl|].
  unfold fold_branch; rewrite foldl_app; cbn [foldl]; destruct (foldl _ _ _) as [h i]; cbn [fst].
  destruct (negb _); apply length_Hash2.
Qed.

(** The strings [CheckMerkleBranch] hashes. *)
Fixpoint branch_inputs (hash : uint256) (branch : list uint256) (index : Z) : list (list Z) :=
  match branch with
  | [] => []
  | sibling :: branch =>
      if negb (Z.land index 1 =? 0) then (sibling ++ hash) :: branch_inputs (Hash2 sibling hash) branch (Z.shiftr index 1)
      else (hash ++ sibling) :: branch_inputs (Hash2 hash sibling) branch (Z.shiftr index 1)
  end.

Lemma branch_inputs_snoc s branch : forall hash index,
  branch_inputs hash (branch ++ [s]) index = branch_inputs hash branch index ++
    [let '(h, i) := fold_branch hash index branch in if negb (Z.land i 1 =? 0) then s ++ h else h ++ s].
Proof.
  induction branch as [|x branch IH]; intros hash index; cbn [app branch_inputs fold_branch foldl].
  - destruct (negb _); reflexivity.
  - destruct (negb _); rewrite IH; reflexivity.
Qed.

Lemma pair_inputs_nth l i : (2 * i < length l)%nat ->
  In (nth (2 * i) l uint256_zero ++ nth (Nat.min (2 * i + 1) (length l - 1)) l uint256_zero) (pair_inputs l).
Proof.
  revert i; induction l as [|a|a b l IH] using pair_ind; intros i Hi; cbn [length pair_inputs] in *; [lia| |].
  - replace i with 0%nat by lia; left; reflexivity.
  - destruct i as [|i]; [left; reflexivity|]; right.
    replace (Nat.min (2 * S i + 1) (S (S (length l)) - 1)) with (S (S (Nat.min (2 * i + 1) (length l - 1)))) by lia.
    replace (2 * S i)%nat with (S (S (2 * i))) by lia; apply IH; lia.
Qed.

Lemma tree_inputs_node L k i : (k < depth L)%nat -> 0 <= i -> 2 * i < len L k ->
  In (node L k (2 * i) ++ node L k (Z.min (2 * i + 1) (len L k - 1))) (tree_inputs L).
Proof.
  intros Hk Hi Hlt; apply in_concat; exists (pair_inputs (lev L k)); split.
  - apply (in_map (fun k => pair_inputs (lev L k))), in_seq; lia.
  - pose proof (pair_inputs_nth (lev L k) (Z.to_nat i)) as H; unfold node, len in *.
    replace (Z.to_nat (2 * i)) with (2 * Z.to_nat i)%nat by lia.
    replace (Z.to_nat (Z.min (2 * i + 1) (Z.of_nat (length (lev L k)) - 1)))
      with (Nat.min (2 * Z.to_nat i + 1) (length (lev L k) - 1)) by lia.
    apply H; lia.
Qed.

Lemma branch_sound L leaf index branch : forall i,
  all_32 L -> length leaf = 32%nat -> all_32 branch -> (length branch <= depth L)%nat ->
  no_collision (branch_inputs leaf branch index) (tree_inputs L) ->
  0 <= i < len L (length branch) -> fst (fold_branch leaf index branch) = node L (length branch) i ->
  In leaf L.
Proof.
  induction branch as [|s branch IH] using rev_ind; intros i HL Hleaf Hb Hd Hno Hi E.
  - cbn [length fold_branch foldl fst] in *; rewrite E; apply nth_In; unfold len in Hi; cbn in *; lia.
  - rewrite length_app, Nat.add_1_r in *; apply Forall_app in Hb as [Hb Hs]; inversion_clear Hs as [|? ? Hs' _].
    pose proof (fold_branch_32 leaf index branch Hleaf) as Hh.
    assert (Hlen : 2 * i < len L (length branch)) by (rewrite len_succ in Hi; Z.to_euclidean_division_equations; lia).
    rewrite (node_up L (length branch) i) in E by lia; rewrite branch_inputs_snoc in Hno.
    assert (Hno' : no_collision (branch_inputs leaf branch index) (tree_inputs L))
      by (revert Hno; apply no_collision_mono; [intros x Hx; apply in_or_app; left; exact Hx | apply incl_refl]).
    pose proof (tree_inputs_node L (length branch) i ltac:(lia) ltac:(lia) Hlen) as Hin.
    assert (H0 : length (node L (length branch) (2 * i)) = 32%nat) by (apply node_32; [exact HL | lia]).
    assert (H1 : length (node L (length branch) (Z.min (2 * i + 1) (len L (length branch) - 1))) = 32%nat) by (apply node_32; [exact HL | lia]).
    unfold fold_branch in E; rewrite foldl_app in E; cbn [foldl] in E; fold (fold_branch leaf index branch) in E.
    destruct (fold_branch leaf index branch) as [h idx]; cbn [fst] in *.
    destruct (negb _).
    + destruct (Hash2_inj s h _ _ _ _ Hs' Hh H0 H1 Hno ltac:(apply in_or_app; right; left; reflexivity) Hin E) as [_ E2].
      apply (IH (Z.min (2 * i + 1) (len L (length branch) - 1))); first [assumption | lia].
    + destruct (Hash2_inj h s _ _ _ _ Hh Hs' H0 H1 Hno ltac:(apply in_or_app; right; left; reflexivity) Hin E) as [E1 _].
      apply (IH (2 * i)); first [assumption | lia].
Qed.

(** a branch proves membership.  A branch as long as the tree is deep that folds some 32-byte
    hash, at any index, to the Merkle root of a list shows that the hash is in the list, provided
    that no string hashed along the branch and different string hashed for the tree have the same
    double SHA-256. *)
Theorem CheckMerkleBranch_sound `{MultiWayLaws} L root mutated leaf branch index :
  all_32 L -> L <> [] -> ComputeMerkleRoot L = Some (root, mutated) ->
  length leaf = 32%nat -> all_32 branch -> length branch = depth L ->
  no_collision (branch_inputs leaf branch index) (tree_inputs L) ->
  CheckMerkleBranch leaf branch index = root -> In leaf L.
Proof.
  intros HL Hne Hr Hleaf Hb Hd Hno E; rewrite ComputeMerkleRoot_spec in Hr by exact HL.
  apply (inj Some) in Hr; apply (f_equal fst) in Hr; cbn [fst] in Hr.
  apply (branch_sound L leaf index branch 0); [exact HL | exact Hleaf | exact Hb | lia | exact Hno | |].
  - split; [lia|]; apply len_pos; unfold len; cbn; destruct L; [contradiction | cbn [length]; lia].
  - rewrite Hd; change (CheckMerkleBranch leaf branch index = merkle_root L); congruence.
Qed.

Lemma CheckMerkleBranch_sound_witness : In (replicate 32 2) two_leaves.
Proof.
  pose proof (ComputeMerkleRoot_spec _ two_leaves_32) as E.
  refine (CheckMerkleBranch_sound _ _ _ (replicate 32 2) [replicate 32 1] 1 two_leaves_32 _ E eq_refl _ eq_refl _ eq_refl).
  - discriminate.
  - repeat constructor.
  - intros a b [<-|[]] [<-|[]] _; reflexivity.
Defined.
