(* ===== verification/Serialize.v ===== *)
(** Wire formats: the primitives of [src/src/serialize.h].

    A stream is the list of bytes still to be read; reading past its end, and every [throw] of the
    source, is [None].  [SERIALIZE_METHODS] describes writing and reading by one expression; so does
    a [format], whose laws ([lawful]) say that what is written is read back with the rest of the
    stream untouched, and that what is read was written that way: an object has one encoding. *)

From S2P Require Import Prelude ArithUint.

#[local] Open Scope Z_scope.
#[local] Open Scope qbit_scope.

Record format (A : Type) := {
  Ser : A -> list Z;
  Unser : list Z -> option (A * list Z);
  valid : A -> Prop }.
Arguments Ser {A} f _ : rename.
Arguments Unser {A} f _ : rename.
Arguments valid {A} f _ : rename.

(** Stream contents. *)
Abbreviation bytes_ok := (limbs 8).

Record lawful {A} (f : format A) : Prop := {
  ser_bytes a : valid f a -> bytes_ok (Ser f a);
  roundtrip a s : valid f a -> Unser f (Ser f a ++ s) = Some (a, s);
  canonical a s s' : bytes_ok s -> Unser f s = Some (a, s') -> valid f a /\ s = Ser f a ++ s' }.

(** ** Integers and byte arrays *)

(** [s.read(span)] of [n] bytes. *)
Definition read_bytes (n : nat) (s : list Z) : option (list Z * list Z) :=
  if (n <=? length s)%nat then Some (take n s, drop n s) else None.

(** [ser_writedata8 .. 64] and [ser_readdata8 .. 64]: [n] bytes, little endian. *)
Definition uint_fmt (n : nat) : format Z := {|
  Ser x := digits 8 n x;
  Unser s := let! '(b, s) := read_bytes n s in Some (lval 8 b, s);
  valid x := in_u (8 * Z.of_nat n) x |}.

(** The signed types are cast to the unsigned ones and back. *)
Definition int_fmt (n : nat) : format Z := {|
  Ser x := digits 8 n (wrap (8 * Z.of_nat n) x);
  Unser s := let! '(b, s) := read_bytes n s in Some (swrap (8 * Z.of_nat n) (lval 8 b), s);
  valid x := in_s (8 * Z.of_nat n) x |}.

(** Fixed arrays of bytes: spans, [uint256]. *)
Definition array_fmt (n : nat) : format (list Z) := {|
  Ser b := b;
  Unser s := read_bytes n s;
  valid b := length b = n /\ bytes_ok b |}.

Definition uint8_fmt := uint_fmt 1.
Definition uint32_fmt := uint_fmt 4.
Definition int32_fmt := int_fmt 4.
Definition int64_fmt := int_fmt 8.
Definition uint256_fmt := array_fmt 32.

(** ** [CompactSize] *)

Definition MAX_SIZE : Z := 0x02000000.

Definition GetSizeOfCompactSize (nSize : Z) : Z :=
  if nSize <? 253 then 1
  else if nSize <=? 2 ^ 16 - 1 then 3
  else if nSize <=? 2 ^ 32 - 1 then 5
  else 9.

Definition WriteCompactSize (nSize : Z) : list Z :=
  if nSize <? 253 then digits 8 1 nSize
  else if nSize <=? 2 ^ 16 - 1 then digits 8 1 253 ++ digits 8 2 nSize
  else if nSize <=? 2 ^ 32 - 1 then digits 8 1 254 ++ digits 8 4 nSize
  else digits 8 1 255 ++ digits 8 8 nSize.

Definition ReadCompactSize (range_check : bool) (stream : list Z) : option (Z * list Z) :=
  let! '(chSize, stream) := Unser (uint_fmt 1) stream in
  let! '(nSizeRet, stream) :=
    if chSize <? 253 then Some (chSize, stream)
    else if chSize =? 253 then
      let! '(n, stream) := Unser (uint_fmt 2) stream in
      if n <? 253 then None else Some (n, stream)
    else if chSize =? 254 then
      let! '(n, stream) := Unser (uint_fmt 4) stream in
      if n <? 0x10000 then None else Some (n, stream)
    else
      let! '(n, stream) := Unser (uint_fmt 8) stream in
      if n <? 0x100000000 then None else Some (n, stream) in
  if range_check && (MAX_SIZE <? nSizeRet) then None else Some (nSizeRet, stream).

Definition compact_fmt (range_check : bool) : format Z := {|
  Ser := WriteCompactSize;
  Unser := ReadCompactSize range_check;
  valid n := in_u 64 n /\ (range_check = true -> n <= MAX_SIZE) |}.

(** ** Vectors *)

Fixpoint ser_list {A} (f : format A) (l : list A) : list Z :=
  match l with [] => [] | a :: l => Ser f a ++ ser_list f l end.

Fixpoint unser_list {A} (f : format A) (n : nat) (s : list Z) : option (list A * list Z) :=
  match n with
  | O => Some ([], s)
  | S n => let! '(a, s) := Unser f s in let! '(l, s) := unser_list f n s in Some (a :: l, s)
  end.

(** [VectorFormatter]; reading reserves memory in batches, which changes nothing of what is read. *)
Definition vector_fmt {A} (f : format A) : format (list A) := {|
  Ser v := WriteCompactSize (Z.of_nat (length v)) ++ ser_list f v;
  Unser s := let! '(size, s) := ReadCompactSize true s in unser_list f (Z.to_nat size) s;
  valid v := Forall (valid f) v /\ Z.of_nat (length v) <= MAX_SIZE |}.

(** The byte-vector overloads ([std::vector<unsigned char>], [prevector], [CScript]). *)
Definition bytes_fmt : format (list Z) := {|
  Ser v := WriteCompactSize (Z.of_nat (length v)) ++ v;
  Unser s := let! '(nSize, s) := ReadCompactSize true s in read_bytes (Z.to_nat nSize) s;
  valid v := bytes_ok v /\ Z.of_nat (length v) <= MAX_SIZE |}.

(** ** [READWRITE] of several fields *)

Definition pair_fmt {A B} (f : format A) (g : format B) : format (A * B) := {|
  Ser p := Ser f (fst p) ++ Ser g (snd p);
  Unser s := let! '(a, s) := Unser f s in let! '(b, s) := Unser g s in Some ((a, b), s);
  valid p := valid f (fst p) /\ valid g (snd p) |}.

(** A class read and written through its fields; reading leaves the other fields as constructed. *)
Definition class_fmt {A B} (fields : A -> B) (build : B -> A) (f : format B) : format A := {|
  Ser a := Ser f (fields a);
  Unser s := let! '(b, s) := Unser f s in Some (build b, s);
  valid a := valid f (fields a) /\ build (fields a) = a |}.

(** ** [VarInt] for an unsigned type of [w] bits *)

(** The digits in [tmp], least significant first; [None]: past the end of the array. *)
Fixpoint varint_tmp (room : nat) (first : bool) (n : Z) : option (list Z) :=
  match room with
  | O => None
  | S room =>
      let b := Z.lor (Z.land n 0x7F) (if first then 0 else 0x80) in
      if n <=? 0x7F then Some [b]
      else let! t := varint_tmp room false (Z.shiftr n 7 - 1) in Some (b :: t)
  end.

Definition WriteVarInt (w n : Z) : option (list Z) :=
  let! tmp := varint_tmp (Z.to_nat ((w + 6) / 7)) true n in Some (rev tmp).

Fixpoint ReadVarInt_loop (w n : Z) (stream : list Z) : option (Z * list Z) :=
  match stream with
  | [] => None
  | chData :: stream =>
      if Z.shiftr (2 ^ w - 1) 7 <? n then None
      else
        let n := Z.lor (wrap w (Z.shiftl n 7)) (Z.land chData 0x7F) in
        if negb (Z.land chData 0x80 =? 0) then
          if n =? 2 ^ w - 1 then None else ReadVarInt_loop w (n + 1) stream
        else Some (n, stream)
  end.

Definition ReadVarInt (w : Z) (stream : list Z) : option (Z * list Z) := ReadVarInt_loop w 0 stream.

Fixpoint GetSizeOfVarInt_loop (fuel : nat) (n : Z) : Z :=
  match fuel with
  | O => 0
  | S fuel => if n <=? 0x7F then 1 else 1 + GetSizeOfVarInt_loop fuel (Z.shiftr n 7 - 1)
  end.

(** Ten digits are enough for 64 bits. *)
Definition GetSizeOfVarInt (n : Z) : Z := GetSizeOfVarInt_loop 10 n.

(** ** Laws *)

Lemma read_bytes_app b s : read_bytes (length b) (b ++ s) = Some (b, s).
Proof.
  unfold read_bytes; rewrite length_app, (proj2 (Nat.leb_le _ _)) by lia.
  rewrite take_app_length, drop_app_length; reflexivity.
Qed.

Lemma read_bytes_inv n s b s' : read_bytes n s = Some (b, s') -> s = b ++ s' /\ length b = n.
Proof.
  unfold read_bytes; destruct (Nat.leb_spec n (length s)); intros [= <- <-].
  rewrite take_drop, length_take; split; [reflexivity | lia].
Qed.

Lemma uint_lawful n : lawful (uint_fmt n).
Proof.
  split; cbn [Ser Unser valid uint_fmt].
  - intros x _; apply limbs_digits; lia.
  - intros x s Hx; rewrite <- (length_digits 8 n x) at 1; rewrite read_bytes_app, lval_digits, wrap_small by (exact Hx || lia); reflexivity.
  - intros x s s' Hs E; destruct (read_bytes n s) as [[b s1]|] eqn:Eb; [|discriminate E]; injection E as <- <-.
    apply read_bytes_inv in Eb as [-> Hl]; apply limbs_app in Hs as [Hb _].
    rewrite digits_lval by (lia || assumption); split; [rewrite <- Hl; apply lval_range; [lia | exact Hb] | reflexivity].
Qed.

Lemma wrap_wrap w x : wrap w (wrap w x) = wrap w x.
Proof. apply Zmod_mod. Qed.

Lemma swrap_range w x : 0 < w -> in_s w (swrap w x).
Proof.
  intros Hw; unfold in_s, swrap; pose proof (Z.mod_pos_bound (x + 2 ^ (w - 1)) (2 ^ w) ltac:(lia)).
  replace (2 ^ w) with (2 * 2 ^ (w - 1)) in * by (rewrite <- Z.pow_succ_r by lia; f_equal; lia); lia.
Qed.

Lemma swrap_wrap w x : 0 < w -> swrap w (wrap w x) = swrap w x.
Proof. intros; unfold swrap, wrap; rewrite Zplus_mod_idemp_l; reflexivity. Qed.

Lemma wrap_swrap w x : 0 < w -> wrap w (swrap w x) = wrap w x.
Proof.
  intros Hw; unfold swrap, wrap; rewrite Zminus_mod_idemp_l; f_equal; lia.
Qed.

Lemma int_lawful n : (0 < n)%nat -> lawful (int_fmt n).
Proof.
  intros Hn; split; cbn [Ser Unser valid int_fmt].
  - intros x _; apply limbs_digits; lia.
  - intros x s Hx; rewrite <- (length_digits 8 n (wrap (8 * Z.of_nat n) x)) at 1; rewrite read_bytes_app, lval_digits by lia.
    rewrite wrap_wrap, swrap_wrap, swrap_small by (exact Hx || lia); reflexivity.
  - intros x s s' Hs E; destruct (read_bytes n s) as [[b s1]|] eqn:Eb; [|discriminate E]; injection E as <- <-.
    apply read_bytes_inv in Eb as [-> Hl]; apply limbs_app in Hs as [Hb _].
    split; [apply swrap_range; lia|]; rewrite wrap_swrap, wrap_small by first [lia | rewrite <- Hl; apply lval_range; [lia | exact Hb]].
    rewrite digits_lval by (lia || assumption); reflexivity.
Qed.

Lemma array_lawful n : lawful (array_fmt n).
Proof.
  split; cbn [Ser Unser valid array_fmt].
  - intros b [_ Hb]; exact Hb.
  - intros b s [<- _]; apply read_bytes_app.
  - intros b s s' Hs E; apply read_bytes_inv in E as [-> Hl]; apply limbs_app in Hs as [Hb _]; auto.
Qed.

Lemma pair_lawful {A B} (f : format A) (g : format B) : lawful f -> lawful g -> lawful (pair_fmt f g).
Proof.
  intros Hf Hg; split; cbn [Ser Unser valid pair_fmt].
  - intros [a b] [Ha Hb]; apply limbs_app; split; [apply Hf, Ha | apply Hg, Hb].
  - intros [a b] s [Ha Hb]; cbn [fst snd] in *; rewrite <- app_assoc, (roundtrip f Hf), (roundtrip g Hg) by assumption; reflexivity.
  - intros [a b] s s' Hs E; destruct (Unser f s) as [[a1 s1]|] eqn:Ea; [|discriminate E].
    apply (canonical f Hf) in Ea as [Ha ->]; [|exact Hs]; apply limbs_app in Hs as [_ Hs].
    destruct (Unser g s1) as [[b1 s2]|] eqn:Eb; [|discriminate E]; injection E as <- <- <-.
    apply (canonical g Hg) in Eb as [Hb ->]; [|exact Hs]; cbn [fst snd]; rewrite app_assoc; auto.
Qed.

Lemma class_lawful {A B} (fields : A -> B) build (f : format B) :
  (forall b, fields (build b) = b) -> lawful f -> lawful (class_fmt fields build f).
Proof.
  intros H2 Hf; split; cbn [Ser Unser valid class_fmt].
  - intros a [Ha _]; apply Hf, Ha.
  - intros a s [Ha H1]; rewrite (roundtrip f Hf), H1 by exact Ha; reflexivity.
  - intros a s s' Hs E; destruct (Unser f s) as [[b s1]|] eqn:Eb; [|discriminate E]; injection E as <- <-.
    rewrite H2; destruct (canonical f Hf b s s1 Hs Eb) as [Hb ->]; auto.
Qed.

(** Splits a read of an unsigned integer into the bytes it consumed. *)
Ltac read_uint H n x s Hx Hs :=
  match type of H with context [Unser (uint_fmt n) ?s0] =>
    let E := fresh "E" in
    destruct (Unser (uint_fmt n) s0) as [[x s]|] eqn:E; [|discriminate H];
    apply (canonical _ (uint_lawful n)) in E as [Hx ->]; [|exact Hs]; apply limbs_app in Hs as [_ Hs]
  end.

Lemma ReadCompactSize_canonical rc n s s' :
  bytes_ok s -> ReadCompactSize rc s = Some (n, s') -> valid (compact_fmt rc) n /\ s = WriteCompactSize n ++ s'.
Proof.
  unfold ReadCompactSize; intros Hs H; read_uint H 1%nat ch s1 Hch Hs; cbn [valid uint_fmt] in Hch; unfold in_u in Hch.
  assert (Hend : forall m r, (if rc && (MAX_SIZE <? m) then None else Some (m, r)) = Some (n, s') -> m = n /\ r = s' /\ (rc = true -> n <= MAX_SIZE)).
  { intros m r; destruct rc; cbn [andb]; [destruct (Z.ltb_spec MAX_SIZE m)|]; intros [= <- <-]; auto with lia. }
  unfold WriteCompactSize; cbn [valid compact_fmt]; unfold in_u.
  destruct (Z.ltb_spec ch 253); [|destruct (Z.eqb_spec ch 253) as [->|]; [|destruct (Z.eqb_spec ch 254) as [->|]]].
  - apply Hend in H as (-> & -> & Hr); rewrite (proj2 (Z.ltb_lt _ _)) by lia; split; [split; [lia | exact Hr] | reflexivity].
  - read_uint H 2%nat m s2 Hm Hs; cbn [valid uint_fmt] in Hm; unfold in_u in Hm; destruct (Z.ltb_spec m 253); [discriminate H|].
    apply Hend in H as (-> & -> & Hr); rewrite (proj2 (Z.ltb_ge _ _)), (proj2 (Z.leb_le _ _)) by lia.
    rewrite app_assoc; split; [split; [lia | exact Hr] | reflexivity].
  - read_uint H 4%nat m s2 Hm Hs; cbn [valid uint_fmt] in Hm; unfold in_u in Hm; destruct (Z.ltb_spec m 0x10000); [discriminate H|].
    apply Hend in H as (-> & -> & Hr); rewrite (proj2 (Z.ltb_ge _ _)), (proj2 (Z.leb_gt _ _)), (proj2 (Z.leb_le _ _)) by lia.
    rewrite app_assoc; split; [split; [lia | exact Hr] | reflexivity].
  - read_uint H 8%nat m s2 Hm Hs; cbn [valid uint_fmt] in Hm; unfold in_u in Hm; destruct (Z.ltb_spec m 0x100000000); [discriminate H|].
    apply Hend in H as (-> & -> & Hr); rewrite (proj2 (Z.ltb_ge _ _)), !(proj2 (Z.leb_gt _ _)) by lia.
    replace ch with 255 by lia; rewrite app_assoc; split; [split; [lia | exact Hr] | reflexivity].
Qed.

Lemma ReadCompactSize_roundtrip rc n s :
  valid (compact_fmt rc) n -> ReadCompactSize rc (WriteCompactSize n ++ s) = Some (n, s).
Proof.
  cbn [valid compact_fmt]; intros [Hn Hr]; unfold in_u in Hn; unfold WriteCompactSize, ReadCompactSize.
  assert (Hu : forall k x r, in_u (8 * Z.of_nat k) x -> Unser (uint_fmt k) (digits 8 k x ++ r) = Some (x, r))
    by (intros k x r Hx; exact (roundtrip _ (uint_lawful k) x r Hx)).
  assert (Hend : (if rc && (MAX_SIZE <? n) then None else Some (n, s)) = Some (n, s)).
  { destruct rc; [|reflexivity]; rewrite (proj2 (Z.ltb_ge _ _)) by auto; reflexivity. }
  destruct (Z.ltb_spec n 253); [|destruct (Z.leb_spec n (2 ^ 16 - 1)); [|destruct (Z.leb_spec n (2 ^ 32 - 1))]];
    rewrite <- ?app_assoc, Hu by (unfold in_u; lia).
  - rewrite (proj2 (Z.ltb_lt _ _)) by lia; exact Hend.
  - cbn [Z.ltb Z.eqb Z.compare Pos.compare Pos.compare_cont Pos.eqb]; rewrite Hu, (proj2 (Z.ltb_ge _ _)) by (unfold in_u; lia); exact Hend.
  - cbn [Z.ltb Z.eqb Z.compare Pos.compare Pos.compare_cont Pos.eqb]; rewrite Hu, (proj2 (Z.ltb_ge _ _)) by (unfold in_u; lia); exact Hend.
  - cbn [Z.ltb Z.eqb Z.compare Pos.compare Pos.compare_cont Pos.eqb]; rewrite Hu, (proj2 (Z.ltb_ge _ _)) by (unfold in_u; lia); exact Hend.
Qed.

Lemma WriteCompactSize_bytes n : bytes_ok (WriteCompactSize n).
Proof.
  unfold WriteCompactSize; destruct (n <? 253), (n <=? 2 ^ 16 - 1), (n <=? 2 ^ 32 - 1); rewrite ?limbs_app; repeat split; apply limbs_digits; lia.
Qed.

Lemma compact_lawful rc : lawful (compact_fmt rc).
Proof.
  split; cbn [Ser Unser]; [intros; apply WriteCompactSize_bytes | apply ReadCompactSize_roundtrip | intros; apply (ReadCompactSize_canonical rc); assumption].
Qed.

Lemma length_WriteCompactSize n : Z.of_nat (length (WriteCompactSize n)) = GetSizeOfCompactSize n.
Proof. unfold WriteCompactSize, GetSizeOfCompactSize; destruct (n <? 253), (n <=? 2 ^ 16 - 1), (n <=? 2 ^ 32 - 1); reflexivity. Qed.

Lemma unser_list_roundtrip {A} (f : format A) (Hf : lawful f) l s :
  Forall (valid f) l -> unser_list f (length l) (ser_list f l ++ s) = Some (l, s).
Proof.
  induction 1 as [|a l Ha _ IH]; [reflexivity|]; cbn [length ser_list unser_list].
  rewrite <- app_assoc, (roundtrip f Hf), IH by exact Ha; reflexivity.
Qed.

Lemma unser_list_canonical {A} (f : format A) (Hf : lawful f) n : forall s l s',
  bytes_ok s -> unser_list f n s = Some (l, s') -> Forall (valid f) l /\ length l = n /\ s = ser_list f l ++ s'.
Proof.
  induction n as [|n IH]; intros s l s' Hs; cbn [unser_list]; [intros [= <- <-]; auto|].
  destruct (Unser f s) as [[a s1]|] eqn:Ea; [|discriminate]; apply (canonical f Hf) in Ea as [Ha ->]; [|exact Hs].
  apply limbs_app in Hs as [_ Hs]; destruct (unser_list f n s1) as [[l1 s2]|] eqn:El; [|discriminate]; intros [= <- <-].
  destruct (IH _ _ _ Hs El) as (Hl & Hn & ->); cbn [ser_list length]; rewrite app_assoc; auto.
Qed.

Lemma ser_list_bytes {A} (f : format A) (Hf : lawful f) l : Forall (valid f) l -> bytes_ok (ser_list f l).
Proof. induction 1; cbn [ser_list]; [constructor | apply limbs_app; split; [apply Hf|]; assumption]. Qed.

Lemma vector_lawful {A} (f : format A) : lawful f -> lawful (vector_fmt f).
Proof.
  intros Hf; split; cbn [Ser Unser valid vector_fmt].
  - intros l [Hl _]; apply limbs_app; split; [apply WriteCompactSize_bytes | apply ser_list_bytes; assumption].
  - intros l s [Hl Hm]; unfold MAX_SIZE in Hm; rewrite <- app_assoc, ReadCompactSize_roundtrip by (cbn; unfold in_u, MAX_SIZE; lia).
    rewrite Nat2Z.id; apply unser_list_roundtrip; assumption.
  - intros l s s' Hs E; destruct (ReadCompactSize true s) as [[n s1]|] eqn:En; [|discriminate E].
    apply ReadCompactSize_canonical in En as [[Hn Hr] ->]; [|exact Hs]; apply limbs_app in Hs as [_ Hs]; unfold in_u in Hn.
    apply (unser_list_canonical f Hf) in E as (Hl & Hlen & ->); [|exact Hs].
    rewrite Hlen, Z2Nat.id, app_assoc by lia; auto.
Qed.

Lemma bytes_lawful : lawful bytes_fmt.
Proof.
  split; cbn [Ser Unser valid bytes_fmt].
  - intros l [Hl _]; apply limbs_app; split; [apply WriteCompactSize_bytes | exact Hl].
  - intros l s [Hl Hm]; unfold MAX_SIZE in Hm; rewrite <- app_assoc, ReadCompactSize_roundtrip by (cbn; unfold in_u, MAX_SIZE; lia).
    rewrite Nat2Z.id; apply read_bytes_app.
  - intros l s s' Hs E; destruct (ReadCompactSize true s) as [[n s1]|] eqn:En; [|discriminate E].
    apply ReadCompactSize_canonical in En as [[Hn Hr] ->]; [|exact Hs]; apply limbs_app in Hs as [_ Hs]; unfold in_u in Hn.
    apply read_bytes_inv in E as [-> Hlen]; apply limbs_app in Hs as [Hl _].
    rewrite Hlen, Z2Nat.id, app_assoc by lia; auto.
Qed.

(** ** [VarInt] *)

(** The digits of [n], least significant first. *)
Inductive varint_digits : bool -> Z -> list Z -> Prop :=
| vi_last first n : 0 <= n <= 0x7F -> varint_digits first n [Z.lor (Z.land n 0x7F) (if first then 0 else 0x80)]
| vi_more first n t : 0x7F < n -> varint_digits false (n / 128 - 1) t ->
    varint_digits first n (Z.lor (Z.land n 0x7F) (if first then 0 else 0x80) :: t).

Lemma varint_tmp_digits room : forall first n,
  (0 < room)%nat -> 0 <= n < 2 ^ (7 * Z.of_nat room) -> exists t, varint_tmp room first n = Some t /\ varint_digits first n t.
Proof.
  induction room as [|room IH]; intros first n Hr Hn; [lia|]; cbn [varint_tmp].
  destruct (Z.leb_spec n 0x7F) as [Hle|Hgt]; [eexists; split; [reflexivity | constructor; lia]|].
  rewrite Z.shiftr_div_pow2 by lia; change (2 ^ 7) with 128.
  replace (7 * Z.of_nat (S room)) with (7 + 7 * Z.of_nat room) in Hn by lia; rewrite Z.pow_add_r in Hn by lia.
  destruct (IH false (n / 128 - 1)) as (t & -> & Ht).
  - destruct room; [cbn in Hn|]; lia.
  - change (2 ^ 7) with 128 in Hn; pose proof (Z.div_mod n 128 ltac:(lia)); pose proof (Z.mod_pos_bound n 128 ltac:(lia)); lia.
  - eexists; split; [reflexivity | constructor; assumption].
Qed.

Lemma byte_split b : 0 <= b < 2 ^ 8 -> b = Z.lor (Z.land b 0x7F) (if Z.land b 0x80 =? 0 then 0 else 0x80).
Proof.
  intros Hb; apply Z.eqb_eq, (byte_cases 256 (fun b => b =? Z.lor (Z.land b 0x7F) (if Z.land b 0x80 =? 0 then 0 else 0x80)));
    [vm_compute; reflexivity | exact Hb].
Qed.

(** The digit byte: seven bits of the number and the continuation flag. *)
Lemma varint_byte n (first : bool) (b := Z.lor (Z.land n 0x7F) (if first then 0 else 0x80)) :
  Z.land b 0x7F = n mod 128 /\ (Z.land b 0x80 =? 0) = first.
Proof.
  assert (E : Z.land n 0x7F = n mod 128) by (change 0x7F with (Z.ones 7); rewrite Z.land_ones by lia; reflexivity).
  subst b; rewrite E; pose proof (Z.mod_pos_bound n 128 ltac:(lia)) as Hm; clear E; generalize dependent (n mod 128); intros m Hm.
  pose proof (byte_cases 128 (fun m => (Z.land (Z.lor m (if first then 0 else 0x80)) 0x7F =? m) &&
    Bool.eqb (Z.land (Z.lor m (if first then 0 else 0x80)) 0x80 =? 0) first) m) as H.
  rewrite andb_true_iff, Z.eqb_eq, eqb_true_iff in H; apply H; [destruct first; vm_compute; reflexivity | exact Hm].
Qed.

Section VarInt.
Context (w : Z) (Hw : 8 <= w).

(** One byte read with [n] accumulated. *)
Lemma ReadVarInt_step n ch s :
  0 <= n <= (2 ^ w - 1) / 128 ->
  ReadVarInt_loop w n (ch :: s) =
  let n := n * 128 + Z.land ch 0x7F in
  if Z.land ch 0x80 =? 0 then Some (n, s) else if n =? 2 ^ w - 1 then None else ReadVarInt_loop w (n + 1) s.
Proof.
  intros Hn; cbn [ReadVarInt_loop]; rewrite Z.shiftr_div_pow2, (proj2 (Z.ltb_ge _ _)) by (change (2 ^ 7) with 128; lia).
  assert (Hl : 0 <= Z.land ch 0x7F < 128) by (change 0x7F with (Z.ones 7); rewrite Z.land_ones by lia; apply Z.mod_pos_bound; lia).
  rewrite Z.shiftl_mul_pow2, wrap_small by (unfold in_u; Z.to_euclidean_division_equations; lia).
  rewrite Z.lor_comm, (lor_add_disjoint (Z.land ch 0x7F) n 7), Z.add_comm by (unfold in_u; lia); change (2 ^ 7) with 128.
  destruct (Z.land ch 0x80 =? 0); reflexivity.
Qed.

Lemma ReadVarInt_digits first n t :
  varint_digits first n t -> 0 <= n < 2 ^ w -> (first = false -> n < 2 ^ w - 1) -> forall s,
  ReadVarInt_loop w 0 (rev t ++ s) = if first then Some (n, s) else ReadVarInt_loop w (n + 1) s.
Proof.
  assert (Hmax : 2 ^ 8 <= 2 ^ w) by (apply Z.pow_le_mono_r; lia).
  induction 1 as [first n Hn | first n t Hn Ht IH]; intros Hw' Hf s; destruct (varint_byte n first) as (E1 & E2).
  - cbn [rev app]; rewrite ReadVarInt_step by (Z.to_euclidean_division_equations; lia); cbv zeta; rewrite E1, E2, Z.mod_small by lia.
    cbn [Z.mul Z.add]; destruct first; [reflexivity|]; rewrite (proj2 (Z.eqb_neq _ _)) by lia; reflexivity.
  - cbn [rev]; rewrite <- app_assoc; cbn [app]; pose proof (Z.div_mod n 128 ltac:(lia)); pose proof (Z.mod_pos_bound n 128 ltac:(lia)).
    assert (Hd : n / 128 <= (2 ^ w - 1) / 128) by (apply Z.div_le_mono; lia).
    rewrite IH by lia; replace (n / 128 - 1 + 1) with (n / 128) by lia.
    rewrite ReadVarInt_step by (Z.to_euclidean_division_equations; lia); cbv zeta; rewrite E1, E2.
    replace (n / 128 * 128 + n mod 128) with n by lia.
    destruct first; [reflexivity|]; rewrite (proj2 (Z.eqb_neq _ _)) by lia; reflexivity.
Qed.

Lemma WriteVarInt_digits n : in_u w n -> exists t, WriteVarInt w n = Some (rev t) /\ varint_digits true n t.
Proof.
  unfold in_u; intros Hn; unfold WriteVarInt; destruct (varint_tmp_digits (Z.to_nat ((w + 6) / 7)) true n) as (t & -> & Ht); [| |eauto].
  { apply Nat2Z.inj_lt; rewrite Z2Nat.id by (apply Z.div_pos; lia); Z.to_euclidean_division_equations; lia. }
  split; [lia|]; apply Z.lt_le_trans with (2 ^ w); [lia|]; apply Z.pow_le_mono_r; [lia|].
  rewrite Z2Nat.id by (apply Z.div_pos; lia); Z.to_euclidean_division_equations; lia.
Qed.

Lemma varint_digits_fun first n t t' : varint_digits first n t -> varint_digits first n t' -> t = t'.
Proof.
  intros Ht; revert t'; induction Ht as [first n Hn | first n t Hn Ht IH]; intros t' Ht'; inversion Ht'; subst; try lia; [reflexivity|].
  f_equal; apply IH; assumption.
Qed.

(** What has been read so far: nothing, or the digits [t0] of one less than the accumulator. *)
Lemma ReadVarInt_inv s : forall acc t0 n s',
  bytes_ok s -> (acc = 0 /\ t0 = [] \/ varint_digits false (acc - 1) t0 /\ 0 < acc) ->
  ReadVarInt_loop w acc s = Some (n, s') ->
  exists p, s = p ++ s' /\ varint_digits true n (rev p ++ t0) /\ in_u w n.
Proof.
  induction s as [|ch s IH]; intros acc t0 n s' Hs Hacc H; [discriminate H|].
  inversion_clear Hs as [|? ? Hch Hs']; unfold in_u in Hch.
  assert (Hle : 0 <= acc <= (2 ^ w - 1) / 128).
  { cbn [ReadVarInt_loop] in H; rewrite Z.shiftr_div_pow2 in H by lia; change (2 ^ 7) with 128 in H.
    destruct (Z.ltb_spec ((2 ^ w - 1) / 128) acc); [discriminate H|]; destruct Hacc as [[-> _]|[_ ?]]; lia. }
  rewrite ReadVarInt_step in H by exact Hle; cbv zeta in H.
  assert (Hl : 0 <= Z.land ch 0x7F < 128) by (change 0x7F with (Z.ones 7); rewrite Z.land_ones by lia; apply Z.mod_pos_bound; lia).
  set (m := acc * 128 + Z.land ch 0x7F) in *.
  assert (E7 : 2 ^ w = 128 * 2 ^ (w - 7)) by (change 128 with (2 ^ 7); rewrite <- Z.pow_add_r by lia; f_equal; lia).
  assert (Hm : in_u w m) by (unfold in_u, m; Z.to_euclidean_division_equations; lia).
  assert (Hdig : varint_digits (Z.land ch 0x80 =? 0) m (ch :: t0)).
  { assert (Eb : ch = Z.lor (Z.land m 0x7F) (if Z.land ch 0x80 =? 0 then 0 else 0x80)).
    { rewrite (byte_split ch Hch) at 1; f_equal; unfold m; change 0x7F with (Z.ones 7) in *; rewrite !Z.land_ones in * by lia.
      change (2 ^ 7) with 128 in *; rewrite Z.add_comm, Z.mod_add by lia; symmetry; apply Z.mod_small; exact Hl. }
    rewrite Eb at 2; destruct Hacc as [[-> ->]|[Ht Hpos]]; [constructor; unfold m; lia|].
    constructor; [unfold m; lia|]; replace (m / 128) with acc by (unfold m; Z.to_euclidean_division_equations; lia); exact Ht. }
  destruct (Z.land ch 0x80 =? 0) eqn:Ef.
  - injection H as <- <-; exists [ch]; cbn [rev app]; auto.
  - destruct (Z.eqb_spec m (2 ^ w - 1)); [discriminate H|].
    destruct (IH (m + 1) (ch :: t0) n s' Hs') as (p & -> & Hp & Hn); [|exact H|].
    + right; replace (m + 1 - 1) with m by lia; split; [exact Hdig | unfold in_u in Hm; lia].
    + exists (ch :: p); cbn [rev]; rewrite <- app_assoc; auto.
Qed.
End VarInt.

Lemma GetSizeOfVarInt_digits first n t : varint_digits first n t -> forall fuel,
  (length t <= fuel)%nat -> GetSizeOfVarInt_loop fuel n = Z.of_nat (length t).
Proof.
  induction 1 as [first n Hn | first n t Hn _ IH]; intros [|fuel] Hf; cbn [length] in *; try lia; cbn [GetSizeOfVarInt_loop].
  - rewrite (proj2 (Z.leb_le _ _)) by lia; reflexivity.
  - rewrite (proj2 (Z.leb_gt _ _)), Z.shiftr_div_pow2 by lia; change (2 ^ 7) with 128; rewrite IH by lia; lia.
Qed.

Lemma varint_digits_length first n t : varint_digits first n t -> 2 ^ (7 * Z.of_nat (length t - 1)) <= Z.max 1 n.
Proof.
  induction 1 as [first n Hn | first n t Hn Ht IH]; [cbn; lia|].
  assert (0 < length t)%nat by (inversion Ht; cbn; lia).
  replace (length (_ :: t) - 1)%nat with (S (length t - 1)) by (cbn; lia).
  replace (7 * Z.of_nat (S (length t - 1))) with (7 + 7 * Z.of_nat (length t - 1)) by lia; rewrite Z.pow_add_r by lia.
  change (2 ^ 7) with 128; Z.to_euclidean_division_equations; lia.
Qed.

(** variable-length integers have exactly one encoding.  For an unsigned type of 8 to 64 bits
    every value is written without overrunning the buffer, in as many bytes as [GetSizeOfVarInt]
    says, and read back with the rest of the stream left in place; and any bytes [ReadVarInt]
    accepts are the encoding of a value of the type. *)
Theorem VarInt_one_encoding w : 8 <= w <= 64 ->
  (forall n s, in_u w n -> exists e, WriteVarInt w n = Some e /\ Z.of_nat (length e) = GetSizeOfVarInt n /\ ReadVarInt w (e ++ s) = Some (n, s)) /\
  (forall n s s', bytes_ok s -> ReadVarInt w s = Some (n, s') -> in_u w n /\ exists e, WriteVarInt w n = Some e /\ s = e ++ s').
Proof.
  intros Hw; split.
  - intros n s Hn; destruct (WriteVarInt_digits w ltac:(lia) n Hn) as (t & E & Ht); exists (rev t); split; [exact E|]; split.
    + rewrite length_rev; symmetry; apply (GetSizeOfVarInt_digits true n t Ht).
      pose proof (varint_digits_length true n t Ht); unfold in_u in Hn.
      assert (Hl : 2 ^ (7 * Z.of_nat (length t - 1)) < 2 ^ 64) by (assert (2 ^ w <= 2 ^ 64) by (apply Z.pow_le_mono_r; lia); lia).
      apply Z.pow_lt_mono_r_iff in Hl; lia.
    + apply (ReadVarInt_digits w ltac:(lia) true n t Ht Hn); discriminate.
  - intros n s s' Hs H; destruct (ReadVarInt_inv w ltac:(lia) s 0 [] n s' Hs) as (p & -> & Hp & Hn); [left; auto | exact H|].
    split; [exact Hn|]; rewrite app_nil_r in Hp; destruct (WriteVarInt_digits w ltac:(lia) n Hn) as (t & E & Ht).
    exists p; rewrite E, <- (varint_digits_fun true n (rev p) t Hp Ht), rev_involutive; auto.
Qed.

Lemma VarInt_one_encoding_witness :
  exists e, WriteVarInt 64 (2 ^ 32) = Some e /\ ReadVarInt 64 (e ++ [7]) = Some (2 ^ 32, [7]) /\ e = [0x8E; 0xFE; 0xFE; 0xFF; 0x00].
Proof.
  destruct (proj1 (VarInt_one_encoding 64 ltac:(lia)) (2 ^ 32) [7]) as (e & H1 & _ & H2); [unfold in_u; lia|].
  exists e; split; [exact H1|]; split; [exact H2|]; vm_compute in H1; injection H1 as <-; reflexivity.
Defined.

(** the sizes that prefix vectors have exactly one encoding.  With or without the range check,
    every allowed 64-bit size is written in as many bytes as [GetSizeOfCompactSize] says and read
    back with the rest of the stream left in place, and any bytes [ReadCompactSize] accepts are what
    [WriteCompactSize] writes for an allowed size: longer spellings and, under the check, sizes over
    [MAX_SIZE] are refused. *)
Theorem CompactSize_one_encoding range_check n s :
  (in_u 64 n -> (range_check = true -> n <= MAX_SIZE) ->
   ReadCompactSize range_check (WriteCompactSize n ++ s) = Some (n, s) /\
   Z.of_nat (length (WriteCompactSize n)) = GetSizeOfCompactSize n) /\
  (forall s', bytes_ok s -> ReadCompactSize range_check s = Some (n, s') ->
   in_u 64 n /\ (range_check = true -> n <= MAX_SIZE) /\ s = WriteCompactSize n ++ s').
Proof.
  split.
  - intros Hn Hr; split; [apply ReadCompactSize_roundtrip; split; assumption | apply length_WriteCompactSize].
  - intros s' Hs E; destruct (ReadCompactSize_canonical range_check n s s' Hs E) as [[Hn Hr] Eq]; auto.
Qed.

Lemma CompactSize_one_encoding_witness :
  ReadCompactSize true (WriteCompactSize 70000 ++ [1; 2]) = Some (70000, [1; 2]).
Proof.
  destruct (CompactSize_one_encoding true 70000 [1; 2]) as [H _].
  apply H; [unfold in_u; lia | intros _; unfold MAX_SIZE; lia].
Defined.
