(* ===== verification/Block.v ===== *)
(** Transactions and blocks on the wire and under the hash: [SerializeTransaction] and
    [UnserializeTransaction] of [src/src/primitives/transaction.h], the [SERIALIZE_METHODS] of
    [src/src/primitives/pureheader.h], [src/src/primitives/block.h] and [src/src/auxpow.h], the
    transaction and block hashes of [src/src/primitives/transaction.cpp] and
    [src/src/primitives/block.cpp], and the block Merkle roots of [src/src/consensus/merkle.cpp]. *)

From S2P Require Import Prelude ArithUint Params Version Primitives Sha256 Merkle Serialize.

#[local] Open Scope Z_scope.
#[local] Open Scope qbit_scope.

#[local] Opaque Hash Hash2 SHA256D64 HashWriter_GetHash.

(** ** Transactions *)

Definition COutPoint_fmt : format COutPoint :=
  class_fmt (fun o => (op_hash o, op_n o)) (fun '(h, n) => {| op_hash := h; op_n := n |}) (pair_fmt uint256_fmt uint32_fmt).

Definition CTxIn_fmt : format CTxIn :=
  class_fmt (fun i => (prevout i, (scriptSig i, nSequence i)))
    (fun '(o, (sig, seq)) => {| prevout := o; scriptSig := sig; nSequence := seq; scriptWitness := [] |})
    (pair_fmt COutPoint_fmt (pair_fmt bytes_fmt uint32_fmt)).

Definition CTxOut_fmt : format CTxOut :=
  class_fmt (fun o => (nValue o, scriptPubKey o)) (fun '(v, k) => {| nValue := v; scriptPubKey := k |})
    (pair_fmt int64_fmt bytes_fmt).

Definition vin_fmt := vector_fmt CTxIn_fmt.
Definition vout_fmt := vector_fmt CTxOut_fmt.

(** [scriptWitness.stack]. *)
Definition stack_fmt : format (list (list Z)) := vector_fmt bytes_fmt.

Definition SerializeTransaction (allow_witness : bool) (tx : CTransaction) : list Z :=
  let flags := if allow_witness && HasWitness tx then 1 else 0 in
  Ser uint32_fmt (tx_version tx) ++
  (if negb (flags =? 0) then Ser vin_fmt [] ++ Ser uint8_fmt flags else []) ++
  Ser vin_fmt (vin tx) ++ Ser vout_fmt (vout tx) ++
  (if negb (Z.land flags 1 =? 0) then ser_list stack_fmt (map scriptWitness (vin tx)) else []) ++
  Ser uint32_fmt (nLockTime tx).

Definition set_witness (i : CTxIn) (stack : list (list Z)) : CTxIn :=
  {| prevout := prevout i; scriptSig := scriptSig i; nSequence := nSequence i; scriptWitness := stack |}.

(** An input without its witness. *)
Definition strip (i : CTxIn) : CTxIn := set_witness i [].

Definition UnserializeTransaction (allow_witness : bool) (s : list Z) : option (CTransaction * list Z) :=
  let! '(version, s) := Unser uint32_fmt s in
  (* In case the dummy is there, this will be read as an empty vector. *)
  let! '(ins, s) := Unser vin_fmt s in
  let! '(ins, outs, flags, s) :=
    if (length ins =? 0)%nat && allow_witness then
      let! '(flags, s) := Unser uint8_fmt s in
      if negb (flags =? 0) then
        let! '(ins, s) := Unser vin_fmt s in
        let! '(outs, s) := Unser vout_fmt s in
        Some (ins, outs, flags, s)
      else Some (ins, [], flags, s)
    else
      let! '(outs, s) := Unser vout_fmt s in
      Some (ins, outs, 0, s) in
  let! '(ins, flags, s) :=
    if negb (Z.land flags 1 =? 0) && allow_witness then
      let! '(stacks, s) := unser_list stack_fmt (length ins) s in
      let ins := zip_with set_witness ins stacks in
      (* Superfluous witness record *)
      if negb (any_witness ins) then None
      else Some (ins, Z.lxor flags 1, s)
    else Some (ins, flags, s) in
  (* Unknown transaction optional data *)
  if negb (flags =? 0) then None
  else
    let! '(locktime, s) := Unser uint32_fmt s in
    Some ({| vin := ins; vout := outs; tx_version := version; nLockTime := locktime |}, s).

(** [CTransaction::ComputeHash] and [ComputeWitnessHash]. *)
Definition GetHash (tx : CTransaction) : uint256 :=
  HashWriter_GetHash (Write (CSHA256_init (replicate 64 0)) (SerializeTransaction false tx)).

Definition GetWitnessHash (tx : CTransaction) : uint256 :=
  if negb (HasWitness tx) then GetHash tx
  else HashWriter_GetHash (Write (CSHA256_init (replicate 64 0)) (SerializeTransaction true tx)).

Definition GetTotalSize (tx : CTransaction) : Z := Z.of_nat (length (SerializeTransaction true tx)).

(** ** Headers, AuxPoW payloads and blocks *)

Definition CPureBlockHeader_fmt : format CPureBlockHeader :=
  class_fmt (fun h => (nVersion h, (hashPrevBlock h, (hashMerkleRoot h, (nTime h, (nBits h, nNonce h))))))
    (fun '(v, (p, (m, (t, (b, n))))) =>
      {| nVersion := v; hashPrevBlock := p; hashMerkleRoot := m; nTime := t; nBits := b; nNonce := n |})
    (pair_fmt int32_fmt (pair_fmt uint256_fmt (pair_fmt uint256_fmt (pair_fmt uint32_fmt (pair_fmt uint32_fmt uint32_fmt))))).

(** [CPureBlockHeader::GetHash]: the AuxPoW payload is not hashed. *)
Definition HeaderGetHash (h : CPureBlockHeader) : uint256 :=
  HashWriter_GetHash (Write (CSHA256_init (replicate 64 0)) (Ser CPureBlockHeader_fmt h)).

(** What follows the coinbase transaction in a [CAuxPow]. *)
Definition auxpow_rest_fmt : format (list uint256 * (Z * (list uint256 * (Z * CPureBlockHeader)))) :=
  pair_fmt (vector_fmt uint256_fmt) (pair_fmt int32_fmt (pair_fmt (vector_fmt uint256_fmt) (pair_fmt int32_fmt CPureBlockHeader_fmt))).

(** [None]: the coinbase pointer is null. *)
Definition SerializeAuxPow (a : CAuxPow) : option (list Z) :=
  let! tx := coinbase_tx a in
  Some (SerializeTransaction false tx ++ Ser auxpow_rest_fmt
    (coinbase_merkle_branch a, (coinbase_branch_index a, (chain_merkle_branch a, (chain_index a, parent_block a))))).

Definition UnserializeAuxPow (s : list Z) : option (CAuxPow * list Z) :=
  let! '(tx, s) := UnserializeTransaction false s in
  let! '(r, s) := Unser auxpow_rest_fmt s in
  let '(cb, (ci, (chb, (chi, parent)))) := r in
  Some ({| coinbase_tx := Some tx; coinbase_merkle_branch := cb; coinbase_branch_index := ci;
           chain_merkle_branch := chb; chain_index := chi; parent_block := parent |}, s).

(** [None]: an AuxPoW version without payload throws. *)
Definition SerializeHeader (h : CBlockHeader) : option (list Z) :=
  let base := Ser CPureBlockHeader_fmt (pure h) in
  if SignalsAuxpow (pure h) then
    let! a := auxpow h in
    let! payload := SerializeAuxPow a in
    Some (base ++ payload)
  else Some base.

Definition UnserializeHeader (s : list Z) : option (CBlockHeader * list Z) :=
  let! '(base, s) := Unser CPureBlockHeader_fmt s in
  if SignalsAuxpow base then
    let! '(a, s) := UnserializeAuxPow s in
    Some ({| pure := base; auxpow := Some a |}, s)
  else Some ({| pure := base; auxpow := None |}, s).

Definition tx_fmt (allow_witness : bool) : format CTransaction := {|
  Ser := SerializeTransaction allow_witness;
  Unser := UnserializeTransaction allow_witness;
  valid tx :=
    in_u 32 (tx_version tx) /\ in_u 32 (nLockTime tx) /\
    valid vin_fmt (map strip (vin tx)) /\ valid vout_fmt (vout tx) /\
    (if allow_witness then Forall (valid stack_fmt) (map scriptWitness (vin tx)) /\ (vin tx = [] -> vout tx = [])
     else HasWitness tx = false) |}.

Definition SerializeBlock (allow_witness : bool) (b : CBlock) : option (list Z) :=
  let! h := SerializeHeader (header b) in
  Some (h ++ Ser (vector_fmt (tx_fmt allow_witness)) (vtx b)).

Definition UnserializeBlock (allow_witness : bool) (s : list Z) : option (CBlock * list Z) :=
  let! '(h, s) := UnserializeHeader s in
  let! '(txs, s) := Unser (vector_fmt (tx_fmt allow_witness)) s in
  Some ({| header := h; vtx := txs |}, s).

(** ** Merkle roots of a block *)

Definition BlockMerkleRoot `{MultiWay} (b : CBlock) : option (uint256 * bool) := ComputeMerkleRoot (map GetHash (vtx b)).

(** The witness hash of the coinbase is zero; a block without transactions is indexed out of range. *)
Definition BlockWitnessMerkleRoot `{MultiWay} (b : CBlock) : option (uint256 * bool) :=
  match vtx b with
  | [] => None
  | _ :: txs => ComputeMerkleRoot (uint256_zero :: map GetWitnessHash txs)
  end.

Definition TransactionMerklePath (b : CBlock) (position : Z) : option (list uint256) :=
  ComputeMerklePath (map GetHash (vtx b)) position.

(** ** The formats are lawful *)

Create HintDb formats.
#[export] Hint Resolve uint_lawful array_lawful pair_lawful vector_lawful bytes_lawful : formats.

Lemma uint256_lawful : lawful uint256_fmt. Proof. apply array_lawful. Qed.
Lemma uint32_lawful : lawful uint32_fmt. Proof. apply uint_lawful. Qed.
Lemma uint8_lawful : lawful uint8_fmt. Proof. apply uint_lawful. Qed.
Lemma int32_lawful : lawful int32_fmt. Proof. apply int_lawful; lia. Qed.
Lemma int64_lawful : lawful int64_fmt. Proof. apply int_lawful; lia. Qed.
#[export] Hint Resolve uint256_lawful uint32_lawful uint8_lawful int32_lawful int64_lawful : formats.

Lemma COutPoint_lawful : lawful COutPoint_fmt.
Proof. apply class_lawful; [intros [h n]; reflexivity | auto with formats]. Qed.
#[export] Hint Resolve COutPoint_lawful : formats.

Lemma CTxIn_lawful : lawful CTxIn_fmt.
Proof. apply class_lawful; [intros [o [sig sq]]; reflexivity | auto with formats]. Qed.

Lemma CTxOut_lawful : lawful CTxOut_fmt.
Proof. apply class_lawful; [intros [v k]; reflexivity | auto with formats]. Qed.
#[export] Hint Resolve CTxIn_lawful CTxOut_lawful : formats.

Lemma vin_lawful : lawful vin_fmt. Proof. apply vector_lawful; auto with formats. Qed.
Lemma vout_lawful : lawful vout_fmt. Proof. apply vector_lawful; auto with formats. Qed.
Lemma stack_lawful : lawful stack_fmt. Proof. apply vector_lawful; auto with formats. Qed.
#[export] Hint Resolve vin_lawful vout_lawful stack_lawful : formats.

Lemma CPureBlockHeader_lawful : lawful CPureBlockHeader_fmt.
Proof. apply class_lawful; [intros [v [p [m [t [b n]]]]]; reflexivity | auto 10 with formats]. Qed.
#[export] Hint Resolve CPureBlockHeader_lawful : formats.

Lemma auxpow_rest_lawful : lawful auxpow_rest_fmt.
Proof. unfold auxpow_rest_fmt; auto 10 with formats. Qed.
#[export] Hint Resolve auxpow_rest_lawful : formats.

(** ** Transactions are read back as written, and only so *)

Lemma ser_vin_strip ins : Ser vin_fmt (map strip ins) = Ser vin_fmt ins.
Proof.
  cbn [Ser vin_fmt vector_fmt]; rewrite length_map; apply f_equal.
  induction ins as [|i ins IH]; [reflexivity|]; cbn [map ser_list]; rewrite IH; reflexivity.
Qed.

Lemma strip_no_witness ins : any_witness ins = false -> map strip ins = ins.
Proof.
  unfold any_witness; induction ins as [|[o sig sq wit] ins IH]; [reflexivity|]; cbn [existsb map scriptWitness].
  destruct wit; [|discriminate]; intros H; rewrite IH by exact H; reflexivity.
Qed.

Lemma vin_no_witness ins : valid vin_fmt ins -> any_witness ins = false.
Proof.
  intros [Hv _]; unfold any_witness; induction Hv as [|i ins [_ Hi] _ IH]; [reflexivity|]; cbn [existsb]; rewrite IH, <- Hi; reflexivity.
Qed.

Lemma zip_witness ins : zip_with set_witness (map strip ins) (map scriptWitness ins) = ins.
Proof. induction ins as [|[o sig sq wit] ins IH]; [reflexivity|]; cbn [map zip_with]; rewrite IH; reflexivity. Qed.

Lemma strip_zip ins stacks : length stacks = length ins -> any_witness ins = false ->
  map strip (zip_with set_witness ins stacks) = ins /\ map scriptWitness (zip_with set_witness ins stacks) = stacks.
Proof.
  revert stacks; induction ins as [|[o sig sq wit] ins IH]; intros [|st stacks] Hl Hw; try discriminate Hl; [auto|].
  unfold any_witness in Hw; cbn [existsb scriptWitness] in Hw; destruct wit; [|discriminate Hw].
  injection Hl as Hl; destruct (IH stacks Hl Hw) as [E1 E2]; cbn [zip_with map]; rewrite E1, E2; auto.
Qed.

Lemma tx_bytes aw tx : valid (tx_fmt aw) tx -> bytes_ok (SerializeTransaction aw tx).
Proof.
  cbn [valid tx_fmt]; intros (Hv & Hl & Hi & Ho & Hw); unfold SerializeTransaction.
  rewrite <- (ser_vin_strip (vin tx)), !limbs_app; refine (conj _ (conj _ (conj _ (conj _ (conj _ _))))).
  - apply uint32_lawful, Hv.
  - destruct (aw && HasWitness tx); cbn [Z.eqb negb]; [|apply Forall_nil_2].
    change (Ser vin_fmt [] ++ Ser uint8_fmt 1) with [0; 1]; repeat (apply Forall_cons_2; [unfold in_u; lia|]); apply Forall_nil_2.
  - apply vin_lawful, Hi.
  - apply vout_lawful, Ho.
  - destruct aw; [|constructor]; destruct (HasWitness tx); [|constructor]; apply (ser_list_bytes stack_fmt stack_lawful), Hw.
  - apply uint32_lawful, Hl.
Qed.

Lemma tx_roundtrip aw tx s :
  valid (tx_fmt aw) tx -> UnserializeTransaction aw (SerializeTransaction aw tx ++ s) = Some (tx, s).
Proof.
  cbn [valid tx_fmt]; intros (Hv & Hl & Hi & Ho & Hw); unfold SerializeTransaction, UnserializeTransaction.
  rewrite <- !app_assoc, (roundtrip _ uint32_lawful) by exact Hv.
  destruct (aw && HasWitness tx) eqn:Ew.
  - apply andb_true_iff in Ew as [-> Ew]; cbn [Z.eqb negb Z.land Pos.land].
    rewrite <- !app_assoc, (roundtrip _ vin_lawful) by (split; [constructor | cbn; unfold MAX_SIZE; lia]); cbn [length Nat.eqb andb].
    rewrite (roundtrip _ uint8_lawful) by (cbn; unfold in_u; lia); cbn [Z.eqb negb Z.land Pos.land].
    rewrite <- (ser_vin_strip (vin tx)), (roundtrip _ vin_lawful), (roundtrip _ vout_lawful) by assumption; cbn [andb].
    replace (length (map strip (vin tx))) with (length (map scriptWitness (vin tx))) by (rewrite !length_map; reflexivity).
    rewrite (unser_list_roundtrip stack_fmt stack_lawful) by apply Hw; cbn [Z.land Z.eqb negb andb].
    rewrite zip_witness; unfold HasWitness in Ew; rewrite Ew; change (Z.land 1 1) with 1; change (Z.lxor 1 1) with 0; cbn [negb andb Z.eqb].
    rewrite (roundtrip _ uint32_lawful) by exact Hl; destruct tx; reflexivity.
  - change (Z.land 0 1) with 0; cbn [Z.eqb negb app].
    assert (Hnw : HasWitness tx = false) by (destruct aw; [exact Ew | exact Hw]).
    rewrite (strip_no_witness (vin tx) Hnw) in Hi; rewrite (roundtrip _ vin_lawful) by exact Hi.
    destruct ((length (vin tx) =? 0)%nat && aw) eqn:E0.
    + apply andb_true_iff in E0 as [E0 ->]; apply Nat.eqb_eq in E0; apply nil_length_inv in E0.
      destruct Hw as [_ Hw]; rewrite (Hw E0), E0.
      replace (Ser vout_fmt []) with (Ser uint8_fmt 0) by reflexivity.
      rewrite (roundtrip _ uint8_lawful) by (cbn; unfold in_u; lia); cbn [Z.eqb negb andb]; change (Z.land 0 1) with 0; cbn [Z.eqb negb andb].
      rewrite (roundtrip _ uint32_lawful) by exact Hl; destruct tx; cbn in *; subst; rewrite (Hw eq_refl); reflexivity.
    + rewrite (roundtrip _ vout_lawful) by exact Ho; cbn [Z.eqb negb andb]; change (Z.land 0 1) with 0; cbn [Z.eqb negb andb].
      rewrite (roundtrip _ uint32_lawful) by exact Hl; destruct tx; reflexivity.
Qed.

(** Splits a read into what it consumed. *)
Ltac read_field H f Hf x s Hx Hs :=
  match type of H with context [Unser f ?s0] =>
    let E := fresh "E" in
    destruct (Unser f s0) as [[x s]|] eqn:E; [|discriminate H];
    apply (canonical f Hf) in E as [Hx ->]; [|exact Hs]; apply limbs_app in Hs as [_ Hs]
  end.

Lemma vector_nil {A} (f : format A) : valid (vector_fmt f) [].
Proof. split; [constructor | unfold MAX_SIZE; cbn [length]; lia]. Qed.

Lemma no_witness_stacks ins : any_witness ins = false -> Forall (valid stack_fmt) (map scriptWitness ins).
Proof.
  unfold any_witness; induction ins as [|[o sig sq wit] ins IH]; [constructor|]; cbn [existsb scriptWitness map].
  destruct wit; [|discriminate]; intros Hn; constructor; [apply vector_nil | apply IH, Hn].
Qed.

(** The basic encoding. *)
Lemma serialize_basic aw tx : any_witness (vin tx) = false -> SerializeTransaction aw tx =
  Ser uint32_fmt (tx_version tx) ++ Ser vin_fmt (vin tx) ++ Ser vout_fmt (vout tx) ++ Ser uint32_fmt (nLockTime tx).
Proof. intros E; unfold SerializeTransaction, HasWitness; rewrite E, andb_false_r; reflexivity. Qed.

(** The extended encoding. *)
Lemma serialize_extended tx : any_witness (vin tx) = true -> SerializeTransaction true tx =
  Ser uint32_fmt (tx_version tx) ++ Ser vin_fmt [] ++ Ser uint8_fmt 1 ++ Ser vin_fmt (map strip (vin tx)) ++
  Ser vout_fmt (vout tx) ++ ser_list stack_fmt (map scriptWitness (vin tx)) ++ Ser uint32_fmt (nLockTime tx).
Proof.
  intros E; unfold SerializeTransaction, HasWitness; rewrite E, ser_vin_strip; cbn [andb Z.eqb negb].
  change (Z.land 1 1) with 1; cbn [Z.eqb negb]; rewrite <- !app_assoc; reflexivity.
Qed.

Lemma tx_canonical aw tx s s' :
  bytes_ok s -> UnserializeTransaction aw s = Some (tx, s') ->
  valid (tx_fmt aw) tx /\ s = SerializeTransaction aw tx ++ s'.
Proof.
  intros Hs H; unfold UnserializeTransaction in H; cbn [valid tx_fmt].
  read_field H uint32_fmt uint32_lawful version s1 Hv Hs; read_field H vin_fmt vin_lawful ins s2 Hi Hs.
  pose proof (vin_no_witness ins Hi) as Hn.
  destruct ((length ins =? 0)%nat && aw) eqn:E0.
  - apply andb_true_iff in E0 as [E0 ->]; apply Nat.eqb_eq, nil_length_inv in E0 as ->.
    read_field H uint8_fmt uint8_lawful flags s3 Hf Hs; destruct (Z.eqb_spec flags 0) as [->|Hf0]; cbn [negb] in H.
    + change (Z.land 0 1) with 0 in H; cbn [Z.eqb negb andb] in H; read_field H uint32_fmt uint32_lawful lock s4 Hl Hs.
      injection H as <- <-; rewrite serialize_basic by reflexivity; cbn [vin vout tx_version nLockTime map].
      replace (Ser vout_fmt []) with (Ser uint8_fmt 0) by reflexivity; rewrite <- !app_assoc.
      split; [|reflexivity]; repeat (split; [first [assumption | apply vector_nil | constructor]|]); auto.
    + read_field H vin_fmt vin_lawful ins2 s4 Hi2 Hs; read_field H vout_fmt vout_lawful outs s5 Ho Hs.
      rewrite andb_true_r in H; destruct (Z.eqb_spec (Z.land flags 1) 0) as [Hl0|Hl0]; cbn [negb] in H.
      { rewrite (proj2 (Z.eqb_neq flags 0)) in H by exact Hf0; discriminate H. }
      destruct (unser_list stack_fmt (length ins2) s5) as [[stacks s6]|] eqn:Es; [|discriminate H].
      apply (unser_list_canonical stack_fmt stack_lawful) in Es as (Hst & Hlen & ->); [|exact Hs].
      apply limbs_app in Hs as [_ Hs]; destruct (strip_zip ins2 stacks Hlen (vin_no_witness ins2 Hi2)) as [E1 E2].
      destruct (any_witness (zip_with set_witness ins2 stacks)) eqn:Ew; cbn [negb] in H; [|discriminate H].
      destruct (Z.eqb_spec (Z.lxor flags 1) 0) as [Hx|]; cbn [negb] in H; [|discriminate H].
      apply Z.lxor_eq in Hx as ->; read_field H uint32_fmt uint32_lawful lock s7 Hl Hs.
      injection H as <- <-; rewrite serialize_extended by exact Ew; cbn [vin vout tx_version nLockTime].
      rewrite E1, E2, <- !app_assoc; split; [|reflexivity]; repeat (split; [assumption|]).
      intros Ez; rewrite Ez in Ew; discriminate Ew.
  - read_field H vout_fmt vout_lawful outs s3 Ho Hs; change (Z.land 0 1) with 0 in H; cbn [Z.eqb negb andb] in H.
    read_field H uint32_fmt uint32_lawful lock s4 Hl Hs; injection H as <- <-.
    rewrite serialize_basic by exact Hn; cbn [vin vout tx_version nLockTime].
    rewrite (strip_no_witness ins Hn), <- !app_assoc; split; [|reflexivity]; repeat (split; [assumption|]).
    destruct aw; [|exact Hn]; rewrite andb_true_r in E0.
    split; [apply no_witness_stacks, Hn | intros ->; discriminate E0].
Qed.

Lemma tx_lawful aw : lawful (tx_fmt aw).
Proof. split; cbn [Ser Unser tx_fmt]; [apply tx_bytes | apply tx_roundtrip | apply tx_canonical]. Qed.

(** ** Headers and blocks *)

(** Objects whose serialisation may throw: exactly the valid ones are written and read back, and
    whatever is read has that one encoding. *)
Definition one_encoding {A} (ser : A -> option (list Z)) (unser : list Z -> option (A * list Z)) (ok : A -> Prop) : Prop :=
  (forall a s, ok a -> exists e, ser a = Some e /\ bytes_ok e /\ unser (e ++ s) = Some (a, s)) /\
  (forall a s s', bytes_ok s -> unser s = Some (a, s') -> ok a /\ exists e, ser a = Some e /\ s = e ++ s').

Definition auxpow_rest (a : CAuxPow) :=
  (coinbase_merkle_branch a, (coinbase_branch_index a, (chain_merkle_branch a, (chain_index a, parent_block a)))).

Definition auxpow_valid (a : CAuxPow) : Prop :=
  exists tx, coinbase_tx a = Some tx /\ valid (tx_fmt false) tx /\ valid auxpow_rest_fmt (auxpow_rest a).

Definition header_valid (h : CBlockHeader) : Prop :=
  valid CPureBlockHeader_fmt (pure h) /\
  if SignalsAuxpow (pure h) then exists a, auxpow h = Some a /\ auxpow_valid a else auxpow h = None.

Definition block_valid (aw : bool) (b : CBlock) : Prop :=
  header_valid (header b) /\ valid (vector_fmt (tx_fmt aw)) (vtx b).

Lemma auxpow_one_encoding : one_encoding SerializeAuxPow UnserializeAuxPow auxpow_valid.
Proof.
  split.
  - intros a s (tx & E & Htx & Hr); unfold SerializeAuxPow; rewrite E; eexists; split; [reflexivity|].
    fold (auxpow_rest a); split; [apply limbs_app; split; [apply tx_bytes, Htx | apply auxpow_rest_lawful, Hr]|].
    unfold UnserializeAuxPow; rewrite <- app_assoc, tx_roundtrip, (roundtrip _ auxpow_rest_lawful) by assumption.
    destruct a; cbn in *; rewrite E; reflexivity.
  - intros a s s' Hs H; unfold UnserializeAuxPow in H; destruct (UnserializeTransaction false s) as [[tx s1]|] eqn:Et; [|discriminate H].
    apply tx_canonical in Et as [Htx ->]; [|exact Hs]; apply limbs_app in Hs as [_ Hs].
    read_field H auxpow_rest_fmt auxpow_rest_lawful r s2 Hr Hs; destruct r as [cb [ci [chb [chi parent]]]]; injection H as <- <-.
    split; [exists tx; auto|]; eexists; split; [reflexivity|]; rewrite <- app_assoc; reflexivity.
Qed.

Lemma header_one_encoding : one_encoding SerializeHeader UnserializeHeader header_valid.
Proof.
  split.
  - intros [p a] s [Hp Ha]; cbn [pure auxpow] in *; unfold SerializeHeader, UnserializeHeader; cbn [pure auxpow].
    destruct (SignalsAuxpow p) eqn:Es.
    + destruct Ha as (x & -> & Hx); destruct (proj1 auxpow_one_encoding x s Hx) as (e & -> & He & Eu).
      eexists; split; [reflexivity|]; split; [apply limbs_app; split; [apply CPureBlockHeader_lawful, Hp | exact He]|].
      rewrite <- app_assoc, (roundtrip _ CPureBlockHeader_lawful), Es, Eu by exact Hp; reflexivity.
    + subst a; eexists; split; [reflexivity|]; split; [apply CPureBlockHeader_lawful, Hp|].
      rewrite (roundtrip _ CPureBlockHeader_lawful), Es by exact Hp; reflexivity.
  - intros h s s' Hs H; unfold UnserializeHeader in H; read_field H CPureBlockHeader_fmt CPureBlockHeader_lawful base s1 Hb Hs.
    unfold SerializeHeader, header_valid; destruct (SignalsAuxpow base) eqn:Es.
    + destruct (UnserializeAuxPow s1) as [[a s2]|] eqn:Ea; [|discriminate H]; injection H as <- <-; cbn [pure auxpow]; rewrite Es.
      destruct (proj2 auxpow_one_encoding a s1 s2 Hs Ea) as (Ha & e & -> & ->).
      split; [eauto|]; eexists; split; [reflexivity|]; rewrite <- app_assoc; reflexivity.
    + injection H as <- <-; cbn [pure auxpow]; rewrite Es; eauto.
Qed.

Lemma block_one_encoding_lemma aw : one_encoding (SerializeBlock aw) (UnserializeBlock aw) (block_valid aw).
Proof.
  pose proof (vector_lawful (tx_fmt aw) (tx_lawful aw)) as Hv; split.
  - intros [h txs] s [Hh Ht]; cbn [header vtx] in *; unfold SerializeBlock, UnserializeBlock; cbn [header vtx].
    set (sv := Ser (vector_fmt (tx_fmt aw)) txs); destruct (proj1 header_one_encoding h (sv ++ s) Hh) as (e & -> & He & Eu).
    eexists; split; [reflexivity|]; split; [apply limbs_app; split; [exact He | apply Hv, Ht]|].
    rewrite <- app_assoc, Eu; unfold sv; rewrite (roundtrip _ Hv) by exact Ht; reflexivity.
  - intros b s s' Hs H; unfold UnserializeBlock in H; destruct (UnserializeHeader s) as [[h s1]|] eqn:Eh; [|discriminate H].
    destruct (proj2 header_one_encoding h s s1 Hs Eh) as (Hh & e & E & ->); apply limbs_app in Hs as [_ Hs].
    read_field H (vector_fmt (tx_fmt aw)) Hv txs s2 Ht Hs; injection H as <- <-; unfold SerializeBlock; cbn [header vtx].
    split; [split; assumption|]; rewrite E; eexists; split; [reflexivity|]; rewrite <- app_assoc; reflexivity.
Qed.

Lemma tx_one_encoding aw : one_encoding (fun tx => Some (SerializeTransaction aw tx)) (UnserializeTransaction aw) (valid (tx_fmt aw)).
Proof.
  split.
  - intros tx s Htx; eexists; split; [reflexivity|]; split; [apply tx_bytes, Htx | apply tx_roundtrip, Htx].
  - intros tx s s' Hs H; destruct (tx_canonical aw tx s s' Hs H) as [Htx ->]; eauto.
Qed.

(** C23: transactions and blocks have one encoding.  With and without witnesses, every transaction
    and block whose fields are in range is written, and read back with the rest of the stream left
    in place; and whatever bytes are accepted, by either reader, are the encoding of a valid object:
    a superfluous witness record, unknown optional data, a non-canonical size, a missing AuxPoW
    payload or a truncated stream is refused. *)
Theorem tx_and_block_one_encoding aw :
  one_encoding (fun tx => Some (SerializeTransaction aw tx)) (UnserializeTransaction aw) (valid (tx_fmt aw)) /\
  one_encoding (SerializeBlock aw) (UnserializeBlock aw) (block_valid aw).
Proof.
  split; [apply tx_one_encoding | apply block_one_encoding_lemma].
Qed.

Lemma one_encoding_truncated {A} (ser : A -> option (list Z)) unser ok a p t :
  one_encoding ser unser ok -> ok a -> ser a = Some (p ++ t) -> t <> [] -> unser p = None.
Proof.
  intros [Hser Hunser] Ha E Ht; destruct (Hser a [] Ha) as (e & Ee & Hb & Hr); rewrite E in Ee; injection Ee as <-.
  apply limbs_app in Hb as [Hp _]; destruct (unser p) as [[a' s']|] eqn:Eu; [exfalso|reflexivity].
  destruct (Hunser a' p s' Hp Eu) as (Ha' & e' & Ee' & ->); rewrite app_nil_r, <- app_assoc in Hr.
  destruct (Hser a' (s' ++ t) Ha') as (e2 & Ee2 & _ & Hr2); rewrite Ee' in Ee2; injection Ee2 as <-.
  rewrite Hr in Hr2; injection Hr2 as _ Hnil; symmetry in Hnil; apply app_eq_nil in Hnil as [_ ->]; contradiction.
Qed.

(** a message cut short is refused.  Reading any proper prefix of the encoding of a valid
    transaction, header or block throws, with and without witnesses: a reader never takes a
    truncated object for a shorter one. *)
Theorem truncated_refused aw p t :
  t <> [] ->
  (forall tx, valid (tx_fmt aw) tx -> SerializeTransaction aw tx = p ++ t -> UnserializeTransaction aw p = None) /\
  (forall h, header_valid h -> SerializeHeader h = Some (p ++ t) -> UnserializeHeader p = None) /\
  (forall b, block_valid aw b -> SerializeBlock aw b = Some (p ++ t) -> UnserializeBlock aw p = None).
Proof.
  intros Ht; split; [|split].
  - intros tx Htx E; apply (one_encoding_truncated _ _ _ tx p t (tx_one_encoding aw) Htx); [f_equal; exact E | exact Ht].
  - intros h Hh E; exact (one_encoding_truncated _ _ _ h p t header_one_encoding Hh E Ht).
  - intros b Hb E; exact (one_encoding_truncated _ _ _ b p t (block_one_encoding_lemma aw) Hb E Ht).
Qed.

(** ** What a block hash commits to *)

Definition strip_tx (tx : CTransaction) : CTransaction :=
  {| vin := map strip (vin tx); vout := vout tx; tx_version := tx_version tx; nLockTime := nLockTime tx |}.

Lemma any_witness_strip ins : any_witness (map strip ins) = false.
Proof. unfold any_witness; induction ins; auto. Qed.

Lemma SerializeTransaction_strip tx : SerializeTransaction false (strip_tx tx) = SerializeTransaction false tx.
Proof. unfold SerializeTransaction; cbn [andb strip_tx vin vout tx_version nLockTime]; rewrite ser_vin_strip; reflexivity. Qed.

Lemma GetHash_Hash tx : GetHash tx = Hash (SerializeTransaction false tx).
Proof. apply HashWriter_Hash. Qed.

Lemma HeaderGetHash_Hash h : HeaderGetHash h = Hash (Ser CPureBlockHeader_fmt h).
Proof. apply HashWriter_Hash. Qed.

(** A lawful encoding is injective. *)
Lemma lawful_inj {A} (f : format A) : lawful f -> forall a b, valid f a -> valid f b -> Ser f a = Ser f b -> a = b.
Proof.
  intros Hf a b Ha Hb E; pose proof (roundtrip f Hf a [] Ha) as H; rewrite E, (roundtrip f Hf b [] Hb) in H.
  injection H as ->; reflexivity.
Qed.

Lemma txids_inj txs1 txs2 :
  Forall (fun tx => valid (tx_fmt false) (strip_tx tx)) txs1 -> Forall (fun tx => valid (tx_fmt false) (strip_tx tx)) txs2 ->
  no_collision (map (SerializeTransaction false) txs1) (map (SerializeTransaction false) txs2) ->
  map GetHash txs1 = map GetHash txs2 -> map strip_tx txs1 = map strip_tx txs2.
Proof.
  intros H1; revert txs2; induction H1 as [|t1 txs1 Ht1 _ IH]; intros [|t2 txs2] H2 Hno E.
  1: reflexivity.
  1, 2: discriminate E.
  inversion_clear H2 as [|? ? Ht2 H2']; pose proof (f_equal (hd []) E) as Eh; apply (f_equal tail) in E; cbn [map hd tail] in *.
  f_equal.
  - apply (lawful_inj (tx_fmt false) (tx_lawful false)); [exact Ht1 | exact Ht2|]; cbn [Ser tx_fmt].
    rewrite !SerializeTransaction_strip; rewrite !GetHash_Hash in Eh; apply Hno; [left; reflexivity | left; reflexivity | exact Eh].
  - apply IH; [exact H2' | | exact E]; revert Hno; apply no_collision_mono; intros x Hx; right; exact Hx.
Qed.

(** The strings hashed for a block: its header, its transactions, its tree. *)
Definition block_inputs (b : CBlock) : list (list Z) :=
  Ser CPureBlockHeader_fmt (pure (header b)) :: map (SerializeTransaction false) (vtx b) ++ tree_inputs (map GetHash (vtx b)).

(** The fields of a block are in range. *)
Definition block_in_range (b : CBlock) : Prop :=
  valid CPureBlockHeader_fmt (pure (header b)) /\ Forall (fun tx => valid (tx_fmt false) (strip_tx tx)) (vtx b).

Lemma txids_32 txs : all_32 (map GetHash txs).
Proof. induction txs; cbn [map]; constructor; [rewrite GetHash_Hash; apply length_Hash | assumption]. Qed.

Lemma block_commits `{MultiWayLaws} b1 b2 :
  block_in_range b1 -> block_in_range b2 -> vtx b1 <> [] -> vtx b2 <> [] ->
  depth (map GetHash (vtx b1)) = depth (map GetHash (vtx b2)) ->
  no_collision (block_inputs b1) (block_inputs b2) ->
  BlockMerkleRoot b1 = Some (hashMerkleRoot (pure (header b1)), false) ->
  BlockMerkleRoot b2 = Some (hashMerkleRoot (pure (header b2)), false) ->
  HeaderGetHash (pure (header b1)) = HeaderGetHash (pure (header b2)) ->
  pure (header b1) = pure (header b2) /\ map strip_tx (vtx b1) = map strip_tx (vtx b2).
Proof.
  intros [Hh1 Ht1] [Hh2 Ht2] N1 N2 D Hno R1 R2 E.
  assert (Eh : pure (header b1) = pure (header b2)).
  { apply (lawful_inj _ CPureBlockHeader_lawful); [exact Hh1 | exact Hh2|].
    rewrite !HeaderGetHash_Hash in E; apply Hno; [left; reflexivity | left; reflexivity | exact E]. }
  split; [exact Eh|]; unfold BlockMerkleRoot in R1, R2; rewrite !ComputeMerkleRoot_spec in R1, R2 by apply txids_32.
  apply txids_inj; [exact Ht1 | exact Ht2 | |].
  - revert Hno; apply no_collision_mono; intros x Hx; right; apply in_or_app; left; exact Hx.
  - apply (inj Some) in R1, R2; pose proof (f_equal fst R1); pose proof (f_equal fst R2); pose proof (f_equal snd R1); pose proof (f_equal snd R2); cbn [fst snd] in *.
    apply (merkle_root_binding _ _ _ D eq_refl); first [apply txids_32 | assumption | congruence | idtac].
    + intros Ez; apply N1; destruct (vtx b1); [reflexivity | discriminate Ez].
    + intros Ez; apply N2; destruct (vtx b2); [reflexivity | discriminate Ez].
    + revert Hno; apply no_collision_mono; intros x Hx; right; apply in_or_app; right; exact Hx.
Qed.


(** ** An example block *)

Definition example_tx : CTransaction := {|
  tx_version := 2;
  vin := [{| prevout := {| op_hash := uint256_zero; op_n := NULL_INDEX |}; scriptSig := [1; 7]; nSequence := SEQUENCE_FINAL;
             scriptWitness := [[9; 9]] |}];
  vout := [{| nValue := 5; scriptPubKey := [0x51] |}];
  nLockTime := 0 |}.

Definition example_block : CBlock := {|
  header := {| pure := {| nVersion := 0x20000000; hashPrevBlock := uint256_zero; hashMerkleRoot := GetHash example_tx;
                          nTime := 1; nBits := 0x1a7f1ab5; nNonce := 2 |}; auxpow := None |};
  vtx := [example_tx] |}.

Lemma GetHash_valid tx : valid uint256_fmt (GetHash tx).
Proof. rewrite GetHash_Hash; split; [apply length_Hash | apply limbs_Hash]. Qed.

Lemma example_in_range : block_in_range example_block.
Proof.
  split.
  - split; [|reflexivity]; cbn [fst snd]; split; [cbn; unfold in_s; lia|]; split; [split; [reflexivity | apply limbs_replicate; unfold in_u; lia]|].
    split; [apply GetHash_valid|]; cbn; unfold in_u; lia.
  - constructor; [|constructor]; split; [cbn; unfold in_u; lia|]; split; [cbn; unfold in_u; lia|]; split; [|split; [|reflexivity]].
    + split; [|unfold MAX_SIZE; cbn; lia]; constructor; [|constructor]; split; [|reflexivity]; cbn [fst snd].
      split; [split; [split; [split; [reflexivity | apply limbs_replicate; unfold in_u; lia] | cbn; unfold in_u, NULL_INDEX; lia] | reflexivity]|].
      split; [split; [repeat constructor; unfold in_u; lia | unfold MAX_SIZE; cbn; lia] | cbn; unfold in_u, SEQUENCE_FINAL; lia].
    + split; [|unfold MAX_SIZE; cbn; lia]; constructor; [|constructor]; split; [|reflexivity]; cbn [fst snd].
      split; [cbn; unfold in_s; lia|]; split; [repeat constructor; unfold in_u; lia | unfold MAX_SIZE; cbn; lia].
Qed.

Lemma no_collision_two x y : Hash x <> Hash y -> no_collision [x; y] [x; y].
Proof.
  intros Hne a b [<-|[<-|[]]] [<-|[<-|[]]] E; [reflexivity | exfalso; exact (Hne E) | exfalso; exact (Hne (eq_sym E)) | reflexivity].
Qed.

Lemma example_no_collision : no_collision (block_inputs example_block) (block_inputs example_block).
Proof. refine (no_collision_two _ _ _); apply (bool_decide_eq_false_1 (_ = _)); vm_compute; reflexivity. Qed.


Lemma tx_and_block_one_encoding_witness : exists e, UnserializeTransaction false (e ++ [3]) = Some (strip_tx example_tx, [3]).
Proof.
  destruct (proj1 (proj1 (tx_and_block_one_encoding false)) (strip_tx example_tx) [3]) as (e & _ & _ & H); [|exists e; exact H].
  exact (Forall_inv (proj2 example_in_range)).
Defined.

Lemma truncated_refused_witness : UnserializeTransaction false [2; 0; 0] = None.
Proof.
  refine (proj1 (truncated_refused false [2; 0; 0] (drop 3 (SerializeTransaction false (strip_tx example_tx))) _) (strip_tx example_tx) _ _);
    [discriminate | exact (Forall_inv (proj2 example_in_range)) | reflexivity].
Defined.
