(* ===== verification/Script.v ===== *)
(** Scripts as byte strings: script numbers, pushes and the instruction decoder of
    [src/src/script/script.h] and [src/src/script/script.cpp].

    [None] is a thrown [scriptnum_error], or a shift by 64 or more. *)

From S2P Require Import Prelude Params Primitives.

#[local] Open Scope Z_scope.
#[local] Open Scope qbit_scope.

(** ** [CScriptNum] *)

(** [while (absvalue) { push_back(absvalue & 0xff); absvalue >>= 8; }] on 64 bits. *)
Fixpoint abs_bytes (fuel : nat) (absvalue : Z) : list Z :=
  match fuel with
  | O => []
  | S fuel => if absvalue =? 0 then [] else Z.land absvalue 0xff :: abs_bytes fuel (Z.shiftr absvalue 8)
  end.

Definition vch_back (l : list Z) : Z := List.last l 0.
Definition set_back (l : list Z) (x : Z) : list Z := removelast l ++ [x].

Definition CScriptNum_serialize (value : Z) : list Z :=
  if value =? 0 then []
  else
    let neg := value <? 0 in
    (* ~value + 1 on unsigned 64 bits *)
    let absvalue := if neg then wrap 64 (wrap 64 (Z.lnot value) + 1) else value in
    let result := abs_bytes 8 absvalue in
    if negb (Z.land (vch_back result) 0x80 =? 0) then result ++ [if neg then 0x80 else 0]
    else if neg then set_back result (Z.lor (vch_back result) 0x80)
    else result.

(** [result |= vch[i] << 8*i], the 64-bit pattern. *)
Fixpoint or_bytes (i : Z) (vch : list Z) (result : Z) : Z :=
  match vch with [] => result | b :: vch => or_bytes (i + 1) vch (Z.lor result (Z.shiftl b (8 * i))) end.

Definition set_vch (vch : list Z) : option Z :=
  match vch with
  | [] => Some 0
  | _ =>
      assert! (length vch <=? 8)%nat;
      let result := or_bytes 0 vch 0 in
      if negb (Z.land (vch_back vch) 0x80 =? 0)
      then Some (- Z.land result (Z.lnot (Z.shiftl 0x80 (8 * (Z.of_nat (length vch) - 1)))))
      else Some result
  end.

Abbreviation nDefaultMaxNumSize := 4%nat.

(** The constructor from bytes. *)
Definition CScriptNum (vch : list Z) (fRequireMinimal : bool) (nMaxNumSize : nat) : option Z :=
  if (nMaxNumSize <? length vch)%nat then None
  else if fRequireMinimal && (0 <? length vch)%nat && (Z.land (vch_back vch) 0x7f =? 0) &&
    ((length vch <=? 1)%nat || (Z.land (nth (length vch - 2) vch 0) 0x80 =? 0)) then None
  else set_vch vch.

Definition getint (m_value : Z) : Z :=
  if INT_MAX <? m_value then INT_MAX else if m_value <? - 2 ^ 31 then - 2 ^ 31 else m_value.

(** ** Pushes *)

Abbreviation OP_0 := 0x00.
Abbreviation OP_PUSHDATA1 := 0x4c.
Abbreviation OP_PUSHDATA2 := 0x4d.
Abbreviation OP_PUSHDATA4 := 0x4e.
Abbreviation OP_1 := 0x51.
Abbreviation OP_RETURN := 0x6a.
Abbreviation OP_CHECKSIG := 0xac.
Abbreviation OP_INVALIDOPCODE := 0xff.

Abbreviation MAX_SCRIPT_SIZE := 10000.

Definition IsUnspendable (script : CScript) : bool :=
  match script with op :: _ => op =? OP_RETURN | [] => false end ||
  (MAX_SCRIPT_SIZE <? Z.of_nat (length script)).

Definition AppendDataSize (script : CScript) (size : Z) : CScript :=
  if size <? OP_PUSHDATA1 then script ++ [wrap 8 size]
  else if size <=? 0xff then script ++ [OP_PUSHDATA1; wrap 8 size]
  else if size <=? 0xffff then script ++ OP_PUSHDATA2 :: digits 8 2 size
  else script ++ OP_PUSHDATA4 :: digits 8 4 size.

(** [operator<<] of a byte string; the size is passed as 32 bits. *)
Definition push_data (script : CScript) (b : list Z) : CScript :=
  AppendDataSize script (wrap 32 (Z.of_nat (length b))) ++ b.

Definition push_opcode (script : CScript) (opcode : Z) : CScript := script ++ [opcode].

Definition push_int64 (script : CScript) (n : Z) : CScript :=
  if (n =? -1) || ((1 <=? n) && (n <=? 16)) then script ++ [wrap 8 (n + (OP_1 - 1))]
  else if n =? 0 then script ++ [OP_0]
  else push_data script (CScriptNum_serialize n).

(** ** [GetScriptOp]: the opcode, its operand and the rest of the script; [None] is [false] *)

(** The size operand of a push. *)
Definition push_size (opcode : Z) (pc : list Z) : option (Z * list Z) :=
  if opcode <? OP_PUSHDATA1 then Some (opcode, pc)
  else if opcode =? OP_PUSHDATA1 then
    match pc with [] => None | n :: pc => Some (n, pc) end
  else if opcode =? OP_PUSHDATA2 then
    if (length pc <? 2)%nat then None else Some (lval 8 (take 2 pc), drop 2 pc)
  else
    if (length pc <? 4)%nat then None else Some (lval 8 (take 4 pc), drop 4 pc).

Definition GetScriptOp (pc : list Z) : option (Z * list Z * list Z) :=
  match pc with
  | [] => None
  | opcode :: pc =>
      if opcode <=? OP_PUSHDATA4 then
        let! '(nSize, pc) := push_size opcode pc in
        if Z.of_nat (length pc) <? nSize then None
        else Some (opcode, take (Z.to_nat nSize) pc, drop (Z.to_nat nSize) pc)
      else Some (opcode, [], pc)
  end.

(** ** Script numbers have one minimal encoding *)

Lemma abs_bytes_lval fuel : forall l,
  limbs 8 l -> (length l <= fuel)%nat -> (l = [] \/ vch_back l <> 0) -> abs_bytes fuel (lval 8 l) = l.
Proof.
  induction fuel as [|fuel IH]; intros [|x l] Hl Hf Hb; cbn [length] in *; try lia; [reflexivity | reflexivity|].
  apply limbs_cons in Hl as [Hx Hl]; unfold in_u in Hx; pose proof (lval_nonneg 8 ltac:(lia) l Hl) as Hn.
  assert (Hl' : l = [] \/ vch_back l <> 0) by (destruct l; [left; reflexivity | right; destruct Hb; [discriminate | assumption]]).
  cbn [lval abs_bytes]; change (2 ^ 8) with 256 in *; destruct (Z.eqb_spec (x + 256 * lval 8 l) 0) as [E|E].
  - exfalso; destruct Hb as [|Hb]; [discriminate|]; assert (x = 0 /\ lval 8 l = 0) as [-> E0] by lia.
    destruct l as [|y l]; [apply Hb; reflexivity|]; pose proof (IH (y :: l) Hl ltac:(lia) Hl') as H; rewrite E0 in H.
    destruct fuel; [cbn in Hf; lia|]; discriminate H.
  - change 0xff with (Z.ones 8); rewrite Z.land_ones, Z.shiftr_div_pow2 by lia; change (2 ^ 8) with 256.
    replace ((x + 256 * lval 8 l) mod 256) with x by (rewrite Z.mul_comm, Z.mod_add, Z.mod_small; lia).
    replace ((x + 256 * lval 8 l) / 256) with (lval 8 l) by (rewrite Z.mul_comm, Z.div_add, Z.div_small; lia).
    rewrite IH by (auto; lia); reflexivity.
Qed.

Lemma abs_bytes_spec fuel : forall a, 0 <= a < 2 ^ (8 * Z.of_nat fuel) ->
  limbs 8 (abs_bytes fuel a) /\ lval 8 (abs_bytes fuel a) = a /\ (abs_bytes fuel a = [] \/ vch_back (abs_bytes fuel a) <> 0).
Proof.
  induction fuel as [|fuel IH]; intros a Ha; cbn [abs_bytes]; [cbn in Ha; split; [constructor|]; split; [cbn; lia | auto]|].
  destruct (Z.eqb_spec a 0) as [->|Hne]; [split; [constructor|]; split; [reflexivity | auto]|].
  change 0xff with (Z.ones 8); rewrite Z.land_ones, Z.shiftr_div_pow2 by lia; change (2 ^ 8) with 256.
  replace (8 * Z.of_nat (S fuel)) with (8 + 8 * Z.of_nat fuel) in Ha by lia; rewrite Z.pow_add_r in Ha by lia; change (2 ^ 8) with 256 in Ha.
  pose proof (Z.div_mod a 256 ltac:(lia)); pose proof (Z.mod_pos_bound a 256 ltac:(lia)).
  destruct (IH (a / 256)) as (Hl & Hv & Hb); [split; [apply Z.div_pos; lia | apply Z.div_lt_upper_bound; lia]|].
  split; [apply limbs_cons; split; [unfold in_u; change (2 ^ 8) with 256; lia | exact Hl]|].
  split; [cbn [lval]; rewrite Hv; change (2 ^ 8) with 256; lia|]; right.
  destruct (abs_bytes fuel (a / 256)) as [|y l] eqn:E; [cbn in Hv; cbn [vch_back List.last]; cbn; lia|].
  destruct Hb as [|Hb]; [discriminate|]; exact Hb.
Qed.

Lemma or_bytes_lval vch : forall i r,
  0 <= i -> limbs 8 vch -> 0 <= r < 2 ^ (8 * i) -> or_bytes i vch r = r + 2 ^ (8 * i) * lval 8 vch.
Proof.
  induction vch as [|b vch IH]; intros i r Hi Hl Hr; cbn [or_bytes lval]; [lia|].
  apply limbs_cons in Hl as [Hb Hl]; unfold in_u in Hb; rewrite Z.shiftl_mul_pow2, lor_add_disjoint by (unfold in_u; lia).
  assert (E : 2 ^ (8 * (i + 1)) = 2 ^ (8 * i) * 2 ^ 8) by (rewrite <- Z.pow_add_r by lia; f_equal; lia).
  rewrite IH; [rewrite E; ring | lia | exact Hl|]; rewrite E; change (2 ^ 8) with 256 in *.
  generalize dependent (2 ^ (8 * i)); intros P HP _; nia.
Qed.

Lemma clear_bit x m : 0 <= m -> 0 <= x < 2 ^ m -> Z.land (x + 2 ^ m) (Z.lnot (2 ^ m)) = x.
Proof.
  intros Hm Hx; replace (x + 2 ^ m) with (Z.lor x (1 * 2 ^ m)) by (rewrite lor_add_disjoint by (unfold in_u; lia); lia).
  rewrite Z.mul_1_l; apply Z.bits_inj'; intros i Hi; rewrite Z.land_spec, Z.lor_spec, Z.lnot_spec, Z.pow2_bits_eqb by lia.
  destruct (Z.eqb_spec m i) as [<-|]; cbn [negb]; [|rewrite orb_false_r, andb_true_r; reflexivity].
  rewrite andb_false_r, (testbit_above m x m) by (unfold in_u; lia); reflexivity.
Qed.

Lemma byte_flag b : 0 <= b < 256 -> (Z.land b 0x80 =? 0) = (b <? 128) /\ Z.land b 0x7f = b mod 128.
Proof.
  intros Hb; split; [|change 0x7f with (Z.ones 7); rewrite Z.land_ones by lia; reflexivity].
  apply eqb_prop, (byte_cases 256 (fun b => Bool.eqb (Z.land b 0x80 =? 0) (b <? 128))); [vm_compute; reflexivity | exact Hb].
Qed.

Lemma vch_back_snoc p b : vch_back (p ++ [b]) = b.
Proof. apply last_last. Qed.

Lemma set_back_snoc p b x : set_back (p ++ [b]) x = p ++ [x].
Proof. unfold set_back; rewrite removelast_last; reflexivity. Qed.

(** Sign and magnitude. *)
Lemma set_vch_snoc p b : limbs 8 p -> 0 <= b < 256 -> (length p < 8)%nat ->
  set_vch (p ++ [b]) =
  Some (if b <? 128 then lval 8 (p ++ [b]) else - lval 8 (p ++ [b - 128])).
Proof.
  intros Hp Hb Hl; unfold set_vch; destruct (p ++ [b]) as [|x l] eqn:E; [destruct p; discriminate|]; rewrite <- E; clear E x l.
  rewrite length_app; cbn [length]; rewrite (proj2 (Nat.leb_le _ _)) by lia; rewrite vch_back_snoc, (proj1 (byte_flag b Hb)).
  rewrite or_bytes_lval by first [lia | apply limbs_app; split; [exact Hp | repeat constructor; unfold in_u; lia] | cbn; lia].
  change (8 * 0) with 0; rewrite Z.pow_0_r, Z.mul_1_l, Z.add_0_l; destruct (Z.ltb_spec b 128); cbn [negb]; [reflexivity|].
  do 2 f_equal; rewrite !lval_app by lia; cbn [lval]; pose proof (lval_range 8 ltac:(lia) p Hp) as Hr; unfold in_u in Hr.
  replace (8 * (Z.of_nat (length p + 1) - 1)) with (8 * Z.of_nat (length p)) by lia; set (k := 8 * Z.of_nat (length p)) in *.
  rewrite Z.shiftl_mul_pow2 by lia; replace (0x80 * 2 ^ k) with (2 ^ (k + 7)) by (rewrite Z.pow_add_r by lia; change (2 ^ 7) with 128; lia).
  assert (E7 : 2 ^ (k + 7) = 128 * 2 ^ k) by (rewrite Z.pow_add_r by lia; change (2 ^ 7) with 128; lia).
  replace (lval 8 p + 2 ^ k * (b + 2 ^ 8 * 0)) with (lval 8 p + 2 ^ k * (b - 128 + 2 ^ 8 * 0) + 2 ^ (k + 7)) by lia.
  apply clear_bit; [lia|]; rewrite E7; nia.
Qed.

(** What [serialize] computes. *)
Lemma serialize_spec n (l := abs_bytes 8 (Z.abs n)) : n <> 0 -> - 2 ^ 63 <= n < 2 ^ 63 ->
  CScriptNum_serialize n =
  if vch_back l <? 128 then (if n <? 0 then set_back l (vch_back l + 128) else l) else l ++ [if n <? 0 then 128 else 0].
Proof.
  intros Hn Hr; unfold CScriptNum_serialize; rewrite (proj2 (Z.eqb_neq n 0)) by exact Hn.
  replace (if n <? 0 then wrap 64 (wrap 64 (Z.lnot n) + 1) else n) with (Z.abs n).
  2:{ destruct (Z.ltb_spec n 0); [|lia]; rewrite (wrap_small 64 (Z.lnot n)) by (unfold in_u, Z.lnot; lia).
      unfold Z.lnot; rewrite wrap_small by (unfold in_u; lia); lia. }
  fold l; destruct (abs_bytes_spec 8 (Z.abs n)) as (Hl & _ & _); [cbn; lia|]; fold l in Hl.
  assert (Hb : 0 <= vch_back l < 256).
  { destruct l as [|x l0] eqn:E; [cbn; lia|]; unfold limbs in Hl; rewrite Forall_forall in Hl; apply Hl.
    unfold vch_back; destruct (exists_last (l := x :: l0)) as (p & b & ->); [discriminate|]; rewrite last_last; apply in_or_app; right; left; reflexivity. }
  rewrite (proj1 (byte_flag _ Hb)); destruct (Z.ltb_spec (vch_back l) 128); cbn [negb]; [|reflexivity].
  destruct (n <? 0); [|reflexivity]; do 2 f_equal.
  replace 0x80 with (1 * 2 ^ 7) by reflexivity; apply lor_add_disjoint; [lia | unfold in_u; lia | lia].
Qed.

Lemma snoc_inv (l : list Z) : l <> [] -> exists p b, l = p ++ [b] /\ vch_back l = b.
Proof. intros Hl; destruct (exists_last Hl) as (p & b & ->); exists p, b; split; [reflexivity | apply vch_back_snoc]. Qed.

Lemma abs_bytes_length fuel a : (length (abs_bytes fuel a) <= fuel)%nat.
Proof. revert a; induction fuel as [|fuel IH]; intros a; cbn [abs_bytes]; [cbn; lia|]; destruct (a =? 0); cbn [length]; [lia | specialize (IH (Z.shiftr a 8)); lia]. Qed.

(** The magnitude of a number as bytes without leading zero; eight bytes leave the sign bit free. *)
Lemma magnitude n : n <> 0 -> - 2 ^ 63 < n < 2 ^ 63 ->
  exists p b, abs_bytes 8 (Z.abs n) = p ++ [b] /\ limbs 8 p /\ 0 < b < 256 /\ lval 8 (p ++ [b]) = Z.abs n /\
    (length p < 8)%nat /\ (128 <= b -> (length p < 7)%nat).
Proof.
  intros Hn Hr; destruct (abs_bytes_spec 8 (Z.abs n)) as (Hl & Hv & Hb); [cbn; lia|].
  pose proof (abs_bytes_length 8 (Z.abs n)) as Hlen.
  destruct (snoc_inv (abs_bytes 8 (Z.abs n))) as (p & b & E & Eb); [intros E; rewrite E in Hv; cbn in Hv; lia|].
  rewrite Eb in Hb; rewrite E in *; apply limbs_app in Hl as [Hp Hb']; apply limbs_cons in Hb' as [Hb' _]; unfold in_u in Hb'.
  rewrite length_app in Hlen; cbn [length] in Hlen.
  assert (b <> 0) by (destruct Hb as [Hb|Hb]; [destruct p; discriminate Hb | exact Hb]).
  exists p, b; split; [reflexivity|]; split; [exact Hp|]; split; [lia|]; split; [exact Hv|]; split; [lia|]; intros H128.
  destruct (Nat.eq_dec (length p) 7) as [E7|]; [exfalso|lia].
  rewrite lval_app, E7 in Hv by lia; cbn [lval] in Hv; pose proof (lval_nonneg 8 ltac:(lia) p Hp).
  change (8 * Z.of_nat 7) with 56 in Hv; lia.
Qed.

Lemma serialize_accepted n : - 2 ^ 63 < n < 2 ^ 63 ->
  limbs 8 (CScriptNum_serialize n) /\ (length (CScriptNum_serialize n) <= 8)%nat /\
  forall minimal max, (length (CScriptNum_serialize n) <= max)%nat -> CScriptNum (CScriptNum_serialize n) minimal max = Some n.
Proof.
  intros Hr; destruct (Z.eq_dec n 0) as [->|Hn]; [split; [constructor|]; split; [cbn; lia|]; intros []; reflexivity|].
  destruct (magnitude n Hn Hr) as (p & b & E & Hp & Hb & Hv & Hl & Hl7).
  assert (Hpb : limbs 8 (p ++ [b])) by (apply limbs_app; split; [exact Hp | repeat constructor; unfold in_u; lia]).
  rewrite serialize_spec, E, vch_back_snoc, set_back_snoc by lia; destruct (Z.ltb_spec b 128) as [Hlt|Hge].
  - assert (Es : (if n <? 0 then p ++ [b + 128] else p ++ [b]) = p ++ [if n <? 0 then b + 128 else b]) by (destruct (n <? 0); reflexivity).
    rewrite Es; set (c := if n <? 0 then b + 128 else b); assert (Hc : 0 <= c < 256) by (unfold c; destruct (n <? 0); lia).
    assert (Hm : c mod 128 = b) by (unfold c; destruct (n <? 0); [replace (b + 128) with (b + 1 * 128) by lia; rewrite Z.mod_add by lia|]; apply Z.mod_small; lia).
    split; [apply limbs_app; split; [exact Hp | repeat constructor; unfold in_u; lia]|]; rewrite length_app; cbn [length]; split; [lia|].
    intros minimal max Hmax; unfold CScriptNum; rewrite length_app, vch_back_snoc, (proj2 (byte_flag c Hc)), Hm; cbn [length].
    rewrite (proj2 (Nat.ltb_ge _ _)), (proj2 (Z.eqb_neq b 0)), !andb_false_r, set_vch_snoc by first [assumption | lia]; cbn [andb].
    f_equal; unfold c; destruct (Z.ltb_spec n 0); [rewrite (proj2 (Z.ltb_ge _ _)) by lia; replace (b + 128 - 128) with b by lia | rewrite (proj2 (Z.ltb_lt _ _)) by lia]; lia.
  - set (c := if n <? 0 then 128 else 0); assert (Hc : 0 <= c < 256) by (unfold c; destruct (n <? 0); lia).
    split; [apply limbs_app; split; [exact Hpb | repeat constructor; unfold in_u; lia]|]; rewrite !length_app; cbn [length].
    split; [lia|]; intros minimal max Hmax; unfold CScriptNum; rewrite !length_app, vch_back_snoc; cbn [length].
    rewrite (proj2 (Nat.ltb_ge _ _)) by lia; replace (length p + 1 + 1 - 2)%nat with (length p) by lia.
    rewrite app_nth1, nth_middle, (proj1 (byte_flag b ltac:(lia))), (proj2 (Z.ltb_ge b 128)), (proj2 (Nat.leb_gt _ 1)), !andb_false_r by (rewrite ?length_app; cbn [length]; lia).
    rewrite set_vch_snoc by first [assumption | rewrite length_app; cbn [length]; lia]; f_equal.
    unfold c; destruct (Z.ltb_spec n 0); cbn; rewrite lval_app by lia; cbn [lval]; lia.
Qed.

Lemma lval_snoc_pos p b : limbs 8 p -> 0 < b -> 0 < lval 8 (p ++ [b]).
Proof.
  intros Hp Hb; rewrite lval_app by lia; cbn [lval]; pose proof (lval_nonneg 8 ltac:(lia) p Hp).
  assert (0 < 2 ^ (8 * Z.of_nat (length p))) by lia; nia.
Qed.

Lemma lval_bound l : limbs 8 l -> (length l <= 7)%nat -> 0 <= lval 8 l < 2 ^ 56.
Proof.
  intros Hl Hlen; pose proof (lval_range 8 ltac:(lia) l Hl) as H; unfold in_u in H.
  assert (2 ^ (8 * Z.of_nat (length l)) <= 2 ^ 56) by (apply Z.pow_le_mono_r; lia); lia.
Qed.

(** A sign and a magnitude without leading zero serialise to themselves. *)
Lemma serialize_magnitude p b (neg : bool) (n := if neg then - lval 8 (p ++ [b]) else lval 8 (p ++ [b])) :
  limbs 8 p -> 0 < b < 256 -> (length p < 8)%nat -> (128 <= b -> (length p < 7)%nat) ->
  - 2 ^ 63 < n < 2 ^ 63 /\
  CScriptNum_serialize n = if b <? 128 then p ++ [if neg then b + 128 else b] else (p ++ [b]) ++ [if neg then 128 else 0].
Proof.
  intros Hp Hb Hl Hl7; pose proof (lval_snoc_pos p b Hp ltac:(lia)) as Hpos.
  assert (Hlim : limbs 8 (p ++ [b])) by (apply limbs_app; split; [exact Hp | repeat constructor; unfold in_u; lia]).
  assert (Hup : lval 8 (p ++ [b]) < 2 ^ 63).
  { destruct (Z.lt_ge_cases b 128).
    - rewrite lval_app by lia; cbn [lval]; pose proof (lval_bound p Hp ltac:(lia)).
      assert (2 ^ (8 * Z.of_nat (length p)) <= 2 ^ 56) by (apply Z.pow_le_mono_r; lia); nia.
    - pose proof (lval_bound (p ++ [b]) Hlim ltac:(rewrite length_app; cbn [length]; lia)); lia. }
  assert (Hab : Z.abs n = lval 8 (p ++ [b])) by (unfold n; destruct neg; lia).
  assert (Hneg : (n <? 0) = neg) by (unfold n; destruct neg; [apply Z.ltb_lt | apply Z.ltb_ge]; lia).
  split; [unfold n; destruct neg; lia|].
  rewrite serialize_spec, Hab, abs_bytes_lval, vch_back_snoc, set_back_snoc, Hneg
    by first [exact Hlim | rewrite length_app; cbn [length]; lia | right; rewrite vch_back_snoc; lia | unfold n; destruct neg; lia].
  destruct (b <? 128), neg; reflexivity.
Qed.

Lemma minimal_is_serialized vch n max :
  limbs 8 vch -> (max <= 8)%nat -> CScriptNum vch true max = Some n ->
  - 2 ^ 63 < n < 2 ^ 63 /\ vch = CScriptNum_serialize n /\ (length vch <= max)%nat.
Proof.
  intros Hv Hmax H; unfold CScriptNum in H; destruct (Nat.ltb_spec max (length vch)); [discriminate H|].
  destruct (decide (vch = [])) as [->|Hne]; [injection H as <-; split; [lia | split; [reflexivity | cbn; lia]]|].
  destruct (snoc_inv vch Hne) as (p & b & -> & _); rewrite length_app in *; cbn [length] in *.
  apply limbs_app in Hv as [Hp Hb]; apply limbs_cons in Hb as [Hb _]; unfold in_u in Hb; change (2 ^ 8) with 256 in Hb.
  rewrite vch_back_snoc, (proj2 (byte_flag b Hb)), (proj2 (Nat.ltb_lt 0 _)) in H by lia; cbn [andb] in H.
  rewrite set_vch_snoc in H by first [assumption | lia].
  destruct (Z.eqb_spec (b mod 128) 0) as [E0|E0]; cbn [andb] in H.
  - assert (Hb2 : b = 0 \/ b = 128) by (Z.to_euclidean_division_equations; lia).
    destruct (Nat.leb_spec (length p + 1) 1); cbn [orb] in H; [discriminate H|].
    destruct (snoc_inv p) as (q & c & -> & _); [intros ->; cbn in *; lia|]; apply limbs_app in Hp as [Hq Hc].
    apply limbs_cons in Hc as [Hc _]; unfold in_u in Hc; change (2 ^ 8) with 256 in Hc; rewrite length_app in *; cbn [length] in *.
    replace (length q + 1 + 1 - 2)%nat with (length q) in H by lia.
    rewrite app_nth1, nth_middle, (proj1 (byte_flag c Hc)) in H by (rewrite length_app; cbn [length]; lia).
    destruct (Z.ltb_spec c 128); [discriminate H|]; injection H as <-.
    assert (Hz : forall x, x = 0 -> lval 8 ((q ++ [c]) ++ [x]) = lval 8 (q ++ [c])) by (intros x ->; rewrite (lval_app 8 ltac:(lia) (q ++ [c]) [0]); cbn [lval]; lia).
    destruct (serialize_magnitude q c (negb (b <? 128)) Hq ltac:(lia) ltac:(lia) ltac:(lia)) as [Hr Es].
    rewrite (proj2 (Z.ltb_ge c 128)) in Es by lia.
    destruct Hb2 as [-> | ->]; cbn [Z.ltb Z.compare Pos.compare Pos.compare_cont negb] in *; rewrite Hz by lia; repeat split; try lia; symmetry; exact Es.
  - assert (Hlt : b mod 128 < 128) by (apply Z.mod_pos_bound; lia); injection H as <-.
    destruct (serialize_magnitude p (b mod 128) (negb (b <? 128)) Hp ltac:(Z.to_euclidean_division_equations; lia) ltac:(lia) ltac:(lia)) as [Hr Es].
    rewrite (proj2 (Z.ltb_lt (b mod 128) 128)) in Es by lia.
    destruct (Z.ltb_spec b 128); cbn [negb] in *.
    + rewrite Z.mod_small in * by lia; repeat split; try lia; symmetry; exact Es.
    + replace (b mod 128) with (b - 128) in * by (Z.to_euclidean_division_equations; lia); replace (b - 128 + 128) with b in Es by lia.
      repeat split; try lia; symmetry; exact Es.
Qed.

(** C39: script numbers have one minimal encoding.  Every 64-bit number but the least is serialised
    to at most eight bytes that the decoder, given room for them, reads back, with or without the
    minimality check; and any bytes, up to eight, accepted under the check are the serialisation of
    the number read. *)
Theorem ScriptNum_one_minimal_encoding :
  (forall n minimal max, - 2 ^ 63 < n < 2 ^ 63 -> (8 <= max)%nat \/ (length (CScriptNum_serialize n) <= max)%nat ->
     CScriptNum (CScriptNum_serialize n) minimal max = Some n) /\
  (forall vch n max, limbs 8 vch -> (max <= 8)%nat -> CScriptNum vch true max = Some n ->
     - 2 ^ 63 < n < 2 ^ 63 /\ vch = CScriptNum_serialize n /\ (length vch <= max)%nat).
Proof.
  split; [|exact minimal_is_serialized]; intros n minimal max Hn Hmax.
  destruct (serialize_accepted n Hn) as (_ & Hlen & H); apply H; lia.
Qed.

Lemma ScriptNum_one_minimal_encoding_witness :
  CScriptNum (CScriptNum_serialize (-255)) true 4 = Some (-255) /\ CScriptNum_serialize (-255) = [0xff; 0x80].
Proof.
  split; [|reflexivity]; apply (proj1 ScriptNum_one_minimal_encoding); [lia | right; vm_compute; lia].
Defined.

(** ** Pushes are decoded as pushed *)

(** what the script builder pushes, the decoder reads: after [script << data], for any data
    shorter than 2^32 bytes, decoding from where the push starts yields a push opcode, the data, and
    whatever was appended after it. *)
Theorem GetScriptOp_push script data rest :
  Z.of_nat (length data) < 2 ^ 32 ->
  exists opcode, GetScriptOp (drop (length script) (push_data script data ++ rest)) = Some (opcode, data, rest) /\
    0 <= opcode <= OP_PUSHDATA4.
Proof.
  intros Hl; unfold push_data; set (n := Z.of_nat (length data)) in *; rewrite wrap_small by (unfold in_u, n; lia).
  assert (Hn : Z.to_nat n = length data) by (unfold n; lia).
  unfold AppendDataSize in *.
  assert (Hend : forall op : Z, (if Z.of_nat (length (data ++ rest)) <? n then None
    else Some (op, take (Z.to_nat n) (data ++ rest), drop (Z.to_nat n) (data ++ rest))) = Some (op, data, rest)).
  { intros op; rewrite (proj2 (Z.ltb_ge _ _)), Hn, take_app_length, drop_app_length by (rewrite length_app; lia); reflexivity. }
  assert (Hdig : forall k, n < 2 ^ (8 * Z.of_nat k) -> lval 8 (take k (digits 8 k n ++ data ++ rest)) = n /\
    drop k (digits 8 k n ++ data ++ rest) = data ++ rest /\ (k <= length (digits 8 k n ++ data ++ rest))%nat).
  { intros k Hk; pose proof (length_digits 8 k n) as Hd; rewrite take_app_length', drop_app_length' by auto.
    rewrite lval_digits, wrap_small, length_app by (unfold in_u, n in *; lia); split; [reflexivity|]; split; [reflexivity | lia]. }
  destruct (Z.ltb_spec n 0x4c); [|destruct (Z.leb_spec n 0xff); [|destruct (Z.leb_spec n 0xffff)]];
    rewrite <- !app_assoc, drop_app_length; cbn [app GetScriptOp].
  - rewrite wrap_small by (unfold in_u, n in *; lia); exists n; unfold push_size.
    rewrite (proj2 (Z.leb_le n 0x4e)), (proj2 (Z.ltb_lt n 0x4c)), Hend by lia; split; [reflexivity | unfold n; lia].
  - rewrite wrap_small by (unfold in_u, n in *; lia); exists 0x4c; change (push_size 0x4c (n :: data ++ rest)) with (Some (n, data ++ rest)).
    change (0x4c <=? OP_PUSHDATA4) with true; cbv iota beta; rewrite Hend; split; [reflexivity | lia].
  - exists 0x4d; change (0x4d <=? OP_PUSHDATA4) with true; cbv iota; destruct (Hdig 2%nat ltac:(cbn; lia)) as (E1 & E2 & E3).
    unfold push_size; change (0x4d <? OP_PUSHDATA1) with false; change (0x4d =? OP_PUSHDATA1) with false; change (0x4d =? OP_PUSHDATA2) with true; cbv iota.
    rewrite (proj2 (Nat.ltb_ge _ 2)), E1, E2, Hend by lia; split; [reflexivity | lia].
  - exists 0x4e; change (0x4e <=? OP_PUSHDATA4) with true; cbv iota; destruct (Hdig 4%nat ltac:(cbn; lia)) as (E1 & E2 & E3).
    unfold push_size; change (0x4e <? OP_PUSHDATA1) with false; change (0x4e =? OP_PUSHDATA1) with false; change (0x4e =? OP_PUSHDATA2) with false; cbv iota.
    rewrite (proj2 (Nat.ltb_ge _ 4)), E1, E2, Hend by lia; split; [reflexivity | lia].
Qed.

Lemma GetScriptOp_push_witness :
  exists opcode, GetScriptOp (drop 1 (push_data [OP_1] (replicate 300 7) ++ [OP_CHECKSIG])) = Some (opcode, replicate 300 7, [OP_CHECKSIG]).
Proof.
  destruct (GetScriptOp_push [OP_1] (replicate 300 7) [OP_CHECKSIG]) as (op & E & _); [cbn; lia|].
  exists op; exact E.
Defined.
