(* ===== verification/Genesis.v ===== *)
(** Genesis blocks: [CreateGenesisBlock] and its variants in [src/src/kernel/chainparams.cpp],
    and the assertions on their hashes in the constructors of the five networks. *)

From S2P Require Import Prelude ArithUint Params Primitives Sha256 Merkle Serialize Block Script Chain Asert Pow.

#[local] Open Scope Z_scope.
#[local] Open Scope qbit_scope.

(** The transaction and block [CreateGenesisBlock] assembles; [None]: no root. *)
Definition genesis_tx (genesisInputScript genesisOutputScript : CScript) (genesisReward : Z) : CTransaction := {|
  tx_version := 1;
  vin := [{| prevout := {| op_hash := uint256_zero; op_n := NULL_INDEX |}; scriptSig := genesisInputScript;
             nSequence := SEQUENCE_FINAL; scriptWitness := [] |}];
  vout := [{| nValue := genesisReward; scriptPubKey := genesisOutputScript |}];
  nLockTime := 0 |}.

Definition CreateGenesisBlock `{MultiWay} (genesisInputScript genesisOutputScript : CScript)
    (nTime nNonce nBits nVersion genesisReward : Z) : option CBlock :=
  let tx := genesis_tx genesisInputScript genesisOutputScript genesisReward in
  let mk root := {|
    header := {| pure := {| nVersion := nVersion; hashPrevBlock := uint256_zero; hashMerkleRoot := root;
                            nTime := nTime; nBits := nBits; nNonce := nNonce |}; auxpow := None |};
    vtx := [tx] |} in
  let! '(root, _) := BlockMerkleRoot (mk uint256_zero) in
  Some (mk root).

(** [CScript() << 486604799 << CScriptNum(4) << timestamp]. *)
Definition timestamp_script (pszTimestamp : list Z) : CScript :=
  push_data (push_data (push_int64 [] 486604799) (CScriptNum_serialize 4)) pszTimestamp.

(** 33 zero bytes and [OP_CHECKSIG]. *)
Definition genesisOutputScript : CScript := push_opcode (push_data [] (replicate 33 0)) OP_CHECKSIG.

(** "qbit/v0.1 development genesis - not for production use" *)
Definition development_timestamp : list Z :=
  [113; 98; 105; 116; 47; 118; 48; 46; 49; 32; 100; 101; 118; 101; 108; 111; 112; 109; 101; 110; 116; 32; 103;
   101; 110; 101; 115; 105; 115; 32; 45; 32; 110; 111; 116; 32; 102; 111; 114; 32; 112; 114; 111; 100; 117; 99;
   116; 105; 111; 110; 32; 117; 115; 101].

Definition CreateDevelopmentGenesisBlock `{MultiWay} (nTime nNonce nBits nVersion genesisReward : Z) : option CBlock :=
  CreateGenesisBlock (timestamp_script development_timestamp) genesisOutputScript nTime nNonce nBits nVersion genesisReward.

Definition testnet4_input_script : CScript :=
  [4; 255; 255; 0; 29; 8; 0; 0; 0; 8; 244; 65; 0; 0; 76; 81; 70; 105; 110; 97; 110; 99; 105; 97; 108; 32; 84;
   105; 109; 101; 115; 32; 49; 50; 47; 74; 117; 110; 47; 50; 48; 50; 54; 32; 81; 117; 97; 110; 116; 117; 109; 32;
   99; 111; 109; 112; 117; 116; 105; 110; 103; 32; 114; 101; 118; 111; 108; 117; 116; 105; 111; 110; 32; 105;
   115; 32; 99; 108; 111; 115; 101; 114; 32; 116; 104; 97; 110; 32; 121; 111; 117; 32; 116; 104; 105; 110; 107].

Definition CreateTestNet4GenesisBlock `{MultiWay} (nTime nNonce nBits nVersion genesisReward : Z) : option CBlock :=
  CreateGenesisBlock testnet4_input_script genesisOutputScript nTime nNonce nBits nVersion genesisReward.

Definition mainnet_input_script : CScript :=
  [4; 255; 255; 0; 29; 8; 4; 76; 0; 0; 0; 0; 0; 0; 76; 84; 71; 111; 111; 103; 108; 101; 58; 32; 83; 101; 99;
   117; 114; 105; 110; 103; 32; 69; 67; 67; 32; 67; 114; 121; 112; 116; 111; 99; 117; 114; 114; 101; 110; 99;
   105; 101; 115; 32; 97; 103; 97; 105; 110; 115; 116; 32; 81; 117; 97; 110; 116; 117; 109; 32; 86; 117; 108;
   110; 101; 114; 97; 98; 105; 108; 105; 116; 105; 101; 115; 32; 57; 53; 56; 49; 53; 55; 58; 51; 97; 98; 97; 102;
   56; 53].

Definition CreateMainNetGenesisBlock `{MultiWay} (nTime nNonce nBits nVersion genesisReward : Z) : option CBlock :=
  CreateGenesisBlock mainnet_input_script genesisOutputScript nTime nNonce nBits nVersion genesisReward.

(** The genesis blocks of the five networks, with the subsidy each constructor sets. *)
Definition genesis_subsidy : Z := 210 * COIN.
Definition main_genesis `{MultiWay} := CreateMainNetGenesisBlock 1784131083 1084616938 0x1a7f1ab5 1 genesis_subsidy.
Definition testnet_genesis `{MultiWay} := CreateDevelopmentGenesisBlock 1738713601 88582 0x1f00ffff 1 genesis_subsidy.
Definition testnet4_genesis `{MultiWay} := CreateTestNet4GenesisBlock 1781704709 2528738861 0x1a7f1ab5 1 genesis_subsidy.
Definition signet_genesis `{MultiWay} := CreateDevelopmentGenesisBlock 1775433600 260258 0x1f00ffff 1 genesis_subsidy.
Definition regtest_genesis `{MultiWay} := CreateDevelopmentGenesisBlock 1738713602 1 0x207fffff 1 genesis_subsidy.

(** The two assertions after a genesis block is built. *)
Definition genesis_asserts (b : option CBlock) (hashGenesisBlock merkle : uint256) : bool :=
  match b with
  | Some b => bool_decide (HeaderGetHash (pure (header b)) = hashGenesisBlock) &&
              bool_decide (hashMerkleRoot (pure (header b)) = merkle)
  | None => false
  end.

(** the assertions of the five network constructors hold.  The genesis block each one builds
    has the asserted block hash and Merkle root; and the main network's meets the target its header
    claims. *)
Theorem genesis_assertions_hold :
  genesis_asserts main_genesis
    (uint256_hex 0x0000000000004d60aa5d46013991d0a0e2995d89ee98e53068ae196d763e79f2)
    (uint256_hex 0x584b62d357e3213ae27815d53b41efc869cc91fcf73d6a81dcab5e08508cb6f1) = true /\
  genesis_asserts testnet_genesis
    (uint256_hex 0x0000c20791706c6940a43d75db44d1ae9dadeb637cedfbaa5cf293435eeaab3c)
    (uint256_hex 0x773941c57f540b7e0f841db6de90bf4f29d305d8233224c2581025c684387313) = true /\
  genesis_asserts testnet4_genesis
    (uint256_hex 0x000000000000796fe86bbc0bf1b66a07e4b4c0676f74b54cf7e5ce8b3f1a0090)
    (uint256_hex 0x66bf018c3377135cdc87f66ed4926b6a3be5aeef890841a3cfebaff9dfb91ed0) = true /\
  genesis_asserts signet_genesis
    (uint256_hex 0x0000000a5698c727f05cbdaeaff3e48b48ab187aeb03414e783ea81fed14d65c)
    (uint256_hex 0x773941c57f540b7e0f841db6de90bf4f29d305d8233224c2581025c684387313) = true /\
  genesis_asserts regtest_genesis
    (uint256_hex 0x0ee96aa77c4b600850e349344fa21b107e805f5370ddc7a6189db12cf69acce6)
    (uint256_hex 0x773941c57f540b7e0f841db6de90bf4f29d305d8233224c2581025c684387313) = true /\
  CheckProofOfWork false (uint256_hex 0x0000000000004d60aa5d46013991d0a0e2995d89ee98e53068ae196d763e79f2) 0x1a7f1ab5 MainParams = true.
Proof. do 5 (split; [vm_compute; reflexivity|]); vm_compute; reflexivity. Qed.
