(* ===== verification/Networks.v ===== *)
(** The test networks: the consensus parameters of [CTestNetParams], [CTestNet4Params],
    [SigNetParams] and [CRegTestParams] in [src/src/kernel/chainparams.cpp] ([CMainParams] is in
    [Params.v]), with the options of the last two.

    [hashGenesisBlock] is the value each constructor asserts; [Genesis.v] computes it. *)

From S2P Require Import Prelude ArithUint Params Subsidy Primitives Sha256 Merkle Serialize Block Script Chain Asert Pow Genesis.

#[local] Open Scope Z_scope.

Definition QBIT_PUBLIC_TESTNET_AUXPOW_CHAIN_ID : Z := 31430.
Definition QBIT_TEST_CHAIN_AUXPOW_CHAIN_ID : Z := QBIT_PUBLIC_TESTNET_AUXPOW_CHAIN_ID.
Definition QBIT_TESTNET4_AUXPOW_DISPLAY_COMMITMENT_HEIGHT : Z := 20500.

Definition TestNetParams : Params := {|
  hashGenesisBlock := uint256_hex 0x0000c20791706c6940a43d75db44d1ae9dadeb637cedfbaa5cf293435eeaab3c;
  nSubsidyInitial := 210 * COIN;
  nSubsidyStepInterval := 43200;
  nSubsidyStepdownNumerator := 598;
  nSubsidyStepdownDenominator := 625;
  script_flag_exceptions := [];
  BIP34Height := 0;
  BIP34Hash := uint256_hex 0x0000c20791706c6940a43d75db44d1ae9dadeb637cedfbaa5cf293435eeaab3c;
  BIP65Height := 0;
  BIP66Height := 0;
  CSVHeight := 0;
  SegwitHeight := 0;
  P2MRHeight := 0;
  nP2MRValidationWeightV2Height := 0;
  nFutureBlockTimeV2Height := 0;
  nOuterReservedWitnessHeight := 0;
  MinBIP9WarningHeight := 0;
  vDeployments := [ {| bit := 0; nStartTime := NEVER_ACTIVE; nTimeout := NO_TIMEOUT; min_activation_height := 0;
         period := 20160; threshold := 15120 |};
      {| bit := 2; nStartTime := ALWAYS_ACTIVE; nTimeout := NO_TIMEOUT; min_activation_height := 0;
         period := 20160; threshold := 15120 |} ];
  powLimit := uint256_hex 0x0000ffffffffffffffffffffffffffffffffffffffffffffffffffffffffffff;
  fPowAllowMinDifficultyBlocks := true;
  enforce_BIP94 := false;
  fPowNoRetargeting := false;
  fRestrictedOutputMode := true;
  fPowUseASERT := true;
  nCadenceActivationHeight := 0;
  nAuxpowDisplayCommitmentHeight := 0;
  nPowTargetSpacing := 60;
  nPowTargetSpacingLegacy := 75;
  nPowTargetSpacingAuxPow := 300;
  nPowTargetTimespan := 14 * 24 * 60 * 60;
  nAuxpowChainId := QBIT_PUBLIC_TESTNET_AUXPOW_CHAIN_ID;
  nASERTHalfLife := 2 * 60 * 60;
  asertAnchorParams := {| anchor_nHeight := 0; anchor_nBits := 0x1d00ffff; anchor_nBitsLegacy := 0x1d00ffff;
    anchor_nBitsAuxPow := 0x1d00ffff; anchor_nAuxPow := 0; anchor_nBlockTime := 1738713601 |};
  nMinimumChainWork := uint256_hex 0;
  defaultAssumeValid := uint256_hex 0;
  signet_blocks := false;
  signet_challenge := [] |}.

Definition TestNet4Params : Params := {|
  hashGenesisBlock := uint256_hex 0x000000000000796fe86bbc0bf1b66a07e4b4c0676f74b54cf7e5ce8b3f1a0090;
  nSubsidyInitial := 210 * COIN;
  nSubsidyStepInterval := 43200;
  nSubsidyStepdownNumerator := 598;
  nSubsidyStepdownDenominator := 625;
  script_flag_exceptions := [];
  BIP34Height := 0;
  BIP34Hash := uint256_hex 0x000000000000796fe86bbc0bf1b66a07e4b4c0676f74b54cf7e5ce8b3f1a0090;
  BIP65Height := 0;
  BIP66Height := 0;
  CSVHeight := 0;
  SegwitHeight := 0;
  P2MRHeight := 0;
  nP2MRValidationWeightV2Height := 60000;
  nFutureBlockTimeV2Height := 60000;
  nOuterReservedWitnessHeight := 0;
  MinBIP9WarningHeight := 0;
  vDeployments := [ {| bit := 0; nStartTime := NEVER_ACTIVE; nTimeout := NO_TIMEOUT; min_activation_height := 0;
         period := 20160; threshold := 15120 |};
      {| bit := 2; nStartTime := ALWAYS_ACTIVE; nTimeout := NO_TIMEOUT; min_activation_height := 0;
         period := 20160; threshold := 15120 |} ];
  powLimit := uint256_hex 0x0000ffffffffffffffffffffffffffffffffffffffffffffffffffffffffffff;
  fPowAllowMinDifficultyBlocks := false;
  enforce_BIP94 := true;
  fPowNoRetargeting := false;
  fRestrictedOutputMode := true;
  fPowUseASERT := true;
  nCadenceActivationHeight := 0;
  nAuxpowDisplayCommitmentHeight := QBIT_TESTNET4_AUXPOW_DISPLAY_COMMITMENT_HEIGHT;
  nPowTargetSpacing := 60;
  nPowTargetSpacingLegacy := 75;
  nPowTargetSpacingAuxPow := 300;
  nPowTargetTimespan := 14 * 24 * 60 * 60;
  nAuxpowChainId := QBIT_PUBLIC_TESTNET_AUXPOW_CHAIN_ID;
  nASERTHalfLife := 2 * 60 * 60;
  asertAnchorParams := {| anchor_nHeight := 0; anchor_nBits := 0x1a7f1ab5; anchor_nBitsLegacy := 0x1a7f1ab5;
    anchor_nBitsAuxPow := 0x1a7f1ab5; anchor_nAuxPow := 0; anchor_nBlockTime := 1781704709 |};
  nMinimumChainWork := uint256_hex 0;
  defaultAssumeValid := uint256_hex 0;
  signet_blocks := false;
  signet_challenge := [] |}.

(** The argument is [options.challenge]; the default challenge is [OP_TRUE]. *)
Definition SigNetParams (challenge : option (list Z)) : Params := {|
  hashGenesisBlock := uint256_hex 0x0000000a5698c727f05cbdaeaff3e48b48ab187aeb03414e783ea81fed14d65c;
  nSubsidyInitial := 210 * COIN;
  nSubsidyStepInterval := 43200;
  nSubsidyStepdownNumerator := 598;
  nSubsidyStepdownDenominator := 625;
  script_flag_exceptions := [];
  BIP34Height := 0;
  BIP34Hash := uint256_hex 0x0000000a5698c727f05cbdaeaff3e48b48ab187aeb03414e783ea81fed14d65c;
  BIP65Height := 0;
  BIP66Height := 0;
  CSVHeight := 0;
  SegwitHeight := 0;
  P2MRHeight := 0;
  nP2MRValidationWeightV2Height := 0;
  nFutureBlockTimeV2Height := 0;
  nOuterReservedWitnessHeight := 0;
  MinBIP9WarningHeight := 0;
  vDeployments := [ {| bit := 0; nStartTime := NEVER_ACTIVE; nTimeout := NO_TIMEOUT; min_activation_height := 0;
         period := 20160; threshold := 18144 |};
      {| bit := 2; nStartTime := ALWAYS_ACTIVE; nTimeout := NO_TIMEOUT; min_activation_height := 0;
         period := 20160; threshold := 18144 |} ];
  powLimit := uint256_hex 0x0000ffffffffffffffffffffffffffffffffffffffffffffffffffffffffffff;
  fPowAllowMinDifficultyBlocks := false;
  enforce_BIP94 := false;
  fPowNoRetargeting := false;
  fRestrictedOutputMode := true;
  fPowUseASERT := true;
  nCadenceActivationHeight := 0;
  nAuxpowDisplayCommitmentHeight := 0;
  nPowTargetSpacing := 60;
  nPowTargetSpacingLegacy := 75;
  nPowTargetSpacingAuxPow := 300;
  nPowTargetTimespan := 14 * 24 * 60 * 60;
  nAuxpowChainId := QBIT_TEST_CHAIN_AUXPOW_CHAIN_ID;
  nASERTHalfLife := 2 * 60 * 60;
  asertAnchorParams := {| anchor_nHeight := 0; anchor_nBits := 0x1e00f99b; anchor_nBitsLegacy := 0x1e00f99b;
    anchor_nBitsAuxPow := 0x1b0d1b64; anchor_nAuxPow := 0; anchor_nBlockTime := 1775433600 |};
  nMinimumChainWork := uint256_hex 0;
  defaultAssumeValid := uint256_hex 0;
  signet_blocks := true;
  signet_challenge := default [0x51] challenge |}.

(** [CChainParams::VersionBitsParameters] and the members of [RegTestOptions] that the consensus
    parameters depend on.  The two maps are association lists. *)
Record VersionBitsParameters := { start_time : Z; timeout : Z; vb_min_activation_height : Z }.

Record RegTestOptions := {
  version_bits_parameters : list (nat * VersionBitsParameters);
  activation_heights : list (BuriedDeployment * Z);
  cadence_activation_height : option Z;
  auxpow_display_commitment_height : option Z;
  outer_witness_activation_height : option Z;
  p2mr_activation_height : option Z;
  p2mr_validation_weight_v2_height : option Z;
  future_block_time_v2_height : option Z;
  enforce_bip94 : bool;
  restricted_output_mode : bool;
  asert : bool;
  legacy_retarget : bool }.

(** The height of a buried deployment, unless the options override it. *)
Definition buried_height (opts : RegTestOptions) (dep : BuriedDeployment) (height : Z) : Z :=
  match find (fun o => match fst o, dep with
    | DEPLOYMENT_HEIGHTINCB, DEPLOYMENT_HEIGHTINCB | DEPLOYMENT_CLTV, DEPLOYMENT_CLTV
    | DEPLOYMENT_DERSIG, DEPLOYMENT_DERSIG | DEPLOYMENT_CSV, DEPLOYMENT_CSV
    | DEPLOYMENT_SEGWIT, DEPLOYMENT_SEGWIT => true
    | _, _ => false end) (activation_heights opts) with
  | Some o => snd o
  | None => height
  end.

Definition version_bits_override (deployments : list BIP9Deployment) (o : nat * VersionBitsParameters) : list BIP9Deployment :=
  alter (fun d => {| bit := bit d; nStartTime := start_time (snd o); nTimeout := timeout (snd o);
                     min_activation_height := vb_min_activation_height (snd o);
                     period := period d; threshold := threshold d |}) (fst o) deployments.

Definition RegTestParams (opts : RegTestOptions) : Params := {|
  hashGenesisBlock := uint256_hex 0x0ee96aa77c4b600850e349344fa21b107e805f5370ddc7a6189db12cf69acce6;
  nSubsidyInitial := 210 * COIN;
  nSubsidyStepInterval := 150;
  nSubsidyStepdownNumerator := 598;
  nSubsidyStepdownDenominator := 625;
  script_flag_exceptions := [];
  BIP34Height := buried_height opts DEPLOYMENT_HEIGHTINCB 1;
  BIP34Hash := uint256_hex 0;
  BIP65Height := buried_height opts DEPLOYMENT_CLTV 1;
  BIP66Height := buried_height opts DEPLOYMENT_DERSIG 1;
  CSVHeight := buried_height opts DEPLOYMENT_CSV 1;
  SegwitHeight := buried_height opts DEPLOYMENT_SEGWIT 0;
  P2MRHeight := default 0 (p2mr_activation_height opts);
  nP2MRValidationWeightV2Height := default 0 (p2mr_validation_weight_v2_height opts);
  nFutureBlockTimeV2Height := default 0 (future_block_time_v2_height opts);
  nOuterReservedWitnessHeight := default INT_MAX (outer_witness_activation_height opts);
  MinBIP9WarningHeight := 0;
  vDeployments := foldl version_bits_override
    [ {| bit := 0; nStartTime := 0; nTimeout := NO_TIMEOUT; min_activation_height := 0;
         period := 144; threshold := 108 |};
      {| bit := 2; nStartTime := ALWAYS_ACTIVE; nTimeout := NO_TIMEOUT; min_activation_height := 0;
         period := 144; threshold := 108 |} ]
    (version_bits_parameters opts);
  powLimit := uint256_hex 0x7fffffffffffffffffffffffffffffffffffffffffffffffffffffffffffffff;
  fPowAllowMinDifficultyBlocks := true;
  enforce_BIP94 := enforce_bip94 opts;
  fPowNoRetargeting := negb (asert opts || legacy_retarget opts);
  fRestrictedOutputMode := restricted_output_mode opts;
  fPowUseASERT := asert opts;
  nCadenceActivationHeight := default 0 (cadence_activation_height opts);
  nAuxpowDisplayCommitmentHeight := default 0 (auxpow_display_commitment_height opts);
  nPowTargetSpacing := 60;
  nPowTargetSpacingLegacy := 75;
  nPowTargetSpacingAuxPow := 300;
  nPowTargetTimespan := 24 * 60 * 60;
  nAuxpowChainId := QBIT_TEST_CHAIN_AUXPOW_CHAIN_ID;
  nASERTHalfLife := 2 * 60 * 60;
  asertAnchorParams := {| anchor_nHeight := 0; anchor_nBits := 0x207fffff; anchor_nBitsLegacy := 0x207fffff;
    anchor_nBitsAuxPow := 0x207fffff; anchor_nAuxPow := 0; anchor_nBlockTime := 1738713602 |};
  nMinimumChainWork := uint256_hex 0;
  defaultAssumeValid := uint256_hex 0;
  signet_blocks := false;
  signet_challenge := [] |}.

(** ** The networks meet the assumptions of the rules *)

Lemma limit_ok x : uint256_ok (uint256_hex x).
Proof. split; [apply (limbs_digits 8 ltac:(lia)) | reflexivity]. Qed.

Ltac network := split; try reflexivity; try apply limit_ok; try (intros []);
  (split; vm_compute; congruence) || (split; [split; vm_compute; congruence | vm_compute; eauto]).

Lemma asert_network_testnet : asert_network TestNetParams.
Proof. network. Qed.

Lemma asert_network_testnet4 : asert_network TestNet4Params.
Proof. network. Qed.

Lemma asert_network_signet challenge : asert_network (SigNetParams challenge).
Proof. network. Qed.

Lemma asert_network_regtest opts : asert opts = true -> asert_network (RegTestParams opts).
Proof.
  intros Ha; split; try apply limit_ok; try (cbn; rewrite Ha; reflexivity); try reflexivity; try (intros []);
    (split; vm_compute; congruence) || (split; [split; vm_compute; congruence | vm_compute; eauto]).
Qed.

(** the parameters of every network meet what the difficulty and subsidy theorems assume: the
    four public networks, signet under any challenge, and the regression-test network under any
    options that select ASERT have a limit, anchors, spacings and a half-life in range, and all of
    them a subsidy schedule in range; and each names as its genesis block the hash of the block its
    constructor builds. *)
Theorem networks_in_range challenge opts :
  Forall (fun p => asert_network p /\ subsidy_params_ok p) [MainParams; TestNetParams; TestNet4Params; SigNetParams challenge] /\
  (asert opts = true -> asert_network (RegTestParams opts)) /\ subsidy_params_ok (RegTestParams opts) /\
  Forall (fun '(p, b) => (fun b => HeaderGetHash (pure (header b))) <$> b = Some (hashGenesisBlock p))
    [(MainParams, main_genesis); (TestNetParams, testnet_genesis); (TestNet4Params, testnet4_genesis);
     (SigNetParams challenge, signet_genesis); (RegTestParams opts, regtest_genesis)].
Proof.
  assert (Hs : forall p, nSubsidyInitial p = 210 * COIN -> 0 < nSubsidyStepInterval p ->
    nSubsidyStepdownNumerator p = 598 -> nSubsidyStepdownDenominator p = 625 -> subsidy_params_ok p).
  { intros p Hi H1 H2 H3; unfold subsidy_params_ok; rewrite Hi, H2, H3; unfold MAX_MONEY, COIN; lia. }
  split; [|split; [apply asert_network_regtest | split; [apply Hs; reflexivity|]]].
  - apply Forall_cons; [split; [exact asert_network_mainnet | apply Hs; reflexivity]|].
    apply Forall_cons; [split; [exact asert_network_testnet | apply Hs; reflexivity]|].
    apply Forall_cons; [split; [exact asert_network_testnet4 | apply Hs; reflexivity]|].
    apply Forall_cons; [split; [apply asert_network_signet | apply Hs; reflexivity] | apply Forall_nil].
  - do 5 (apply Forall_cons; [vm_compute; reflexivity|]); apply Forall_nil.
Qed.
