(* ===== verification/AuxPow.v ===== *)
(** Merged mining: [src/src/auxpow.h], [src/src/auxpow.cpp] and [src/src/auxpow_validation.cpp].

    Validation returns the reject reason, [None] for an accepted payload; the debug messages, texts
    made from the same data, are not modelled.  The branch check is [CheckMerkleBranch] of
    [Merkle.v]. *)

From stdpp Require Import strings.
From S2P Require Import Prelude ArithUint Params Version Primitives Sha256 Merkle Serialize Block Chain Asert Pow.

#[local] Open Scope Z_scope.
#[local] Open Scope qbit_scope.

#[local] Opaque Hash Hash2 HashWriter_GetHash.

(** ** Slots *)

Abbreviation LCG_MULTIPLIER := 1103515245%Z.
Abbreviation LCG_INCREMENT := 12345%Z.
Abbreviation UINT32_MASK := (2 ^ 32 - 1)%Z.

Definition AdvanceSlotLcg (value : Z) : Z :=
  wrap 32 (Z.land (wrap 64 (wrap 64 (value * LCG_MULTIPLIER) + LCG_INCREMENT)) UINT32_MASK).

Definition GetExpectedIndex (nonce chain_id merkle_height : Z) : Z :=
  let rand := AdvanceSlotLcg nonce in
  let rand := wrap 32 (Z.land (wrap 64 (rand + wrap 32 chain_id)) UINT32_MASK) in
  let rand := AdvanceSlotLcg rand in
  if 32 <=? merkle_height then swrap 32 rand
  else swrap 32 (Z.land rand (wrap 32 (wrap 32 (Z.shiftl 1 merkle_height) - 1))).

(** ** Commitments *)

Definition MAX_CHAIN_MERKLE_BRANCH_LENGTH : nat := 30.
Abbreviation LEGACY_COMMITMENT_START_LIMIT := 20%nat.

Inductive CommitmentValidation := EITHER | INTERNAL | DISPLAY.

Definition CommitmentValidationForHeight (consensus : Params) (height : Z) : CommitmentValidation :=
  if AuxpowDisplayCommitmentActiveAtHeight consensus height then DISPLAY else INTERNAL.

Definition MERGED_MINING_HEADER : list Z := [0xfa; 0xbe; 0x6d; 0x6d].

Fixpoint is_prefix (pat s : list Z) : bool :=
  match pat, s with
  | [], _ => true
  | x :: pat, y :: s => (x =? y) && is_prefix pat s
  | _, [] => false
  end.

(** [std::search]: the first position of [pat]; [None] is the end iterator. *)
Fixpoint search (s pat : list Z) : option nat :=
  if is_prefix pat s then Some 0%nat
  else match s with [] => None | _ :: s => option_map S (search s pat) end.

(** The commitments a mode accepts, in the order they are tried. *)
Definition commitments (mode : CommitmentValidation) (chain_root : uint256) : list (list Z) :=
  match mode with
  | INTERNAL => [chain_root]
  | DISPLAY => [rev chain_root]
  | EITHER => if bool_decide (chain_root = rev chain_root) then [rev chain_root] else [rev chain_root; chain_root]
  end.

(** One iteration of the loop: [None] goes on silently (no occurrence), [Some (Some e)] goes on with
    error [e], [Some None] accepts. *)
Definition check_commitment (script_sig commitment : list Z) (height : nat) (chain_index expected_chain_id : Z)
    : option (option string) :=
  match search script_sig commitment with
  | None => None
  | Some root_it =>
      let placement :=
        match search script_sig MERGED_MINING_HEADER with
        | Some header_it =>
            match search (drop (S header_it) script_sig) MERGED_MINING_HEADER with
            | Some _ => false
            | None => (header_it + length MERGED_MINING_HEADER =? root_it)%nat
            end
        | None => negb (LEGACY_COMMITMENT_START_LIMIT <? root_it)%nat
        end in
      if negb placement then Some (Some "bad-auxpow-commitment"%string)
      else
        let footer := drop (root_it + length commitment) script_sig in
        if (length footer <? 8)%nat then Some (Some "bad-auxpow-commitment"%string)
        else
          let merkle_size := ReadLE32 footer in
          let nonce := ReadLE32 (drop 4 footer) in
          let expected_size := wrap 32 (Z.shiftl 1 (Z.of_nat height)) in
          if negb (merkle_size =? expected_size) then Some (Some "bad-auxpow-merkle-size"%string)
          else
            let expected_index := GetExpectedIndex nonce expected_chain_id (Z.of_nat height) in
            if negb (chain_index =? expected_index) then Some (Some "bad-auxpow-chain-index"%string)
            else Some None
  end.

Fixpoint check_commitments (script_sig : list Z) (cs : list (list Z)) (height : nat) (chain_index expected_chain_id : Z)
    (commitment_error : option string) : option string :=
  match cs with
  | [] => Some (match commitment_error with Some e => e | None => "bad-auxpow-commitment"%string end)
  | c :: cs =>
      match check_commitment script_sig c height chain_index expected_chain_id with
      | None => check_commitments script_sig cs height chain_index expected_chain_id commitment_error
      | Some (Some e) => check_commitments script_sig cs height chain_index expected_chain_id (Some e)
      | Some None => None
      end
  end.

(** ** [CAuxPow::Validate] *)

(** [coinbase_tx->vin[0].scriptSig]; a coinbase transaction has one input. *)
Definition first_scriptSig (tx : CTransaction) : CScript := match vin tx with i :: _ => scriptSig i | [] => [] end.

Definition GetParentBlockHash (a : CAuxPow) : uint256 := HeaderGetHash (parent_block a).

(** [fuzz] is the build flag [CheckProofOfWork] consults. *)
Definition CAuxPow_Validate (fuzz : bool) (a : CAuxPow) (aux_block_hash : uint256) (consensus : Params)
    (target_bits expected_chain_id : Z) (check_pow : bool) (mode : CommitmentValidation) : option string :=
  match coinbase_tx a with
  | None => Some "bad-auxpow-coinbase"%string
  | Some tx =>
      if negb (IsCoinBase tx) then Some "bad-auxpow-coinbase"%string
      else if coinbase_branch_index a <? 0 then Some "bad-auxpow-coinbase-index"%string
      else if negb (coinbase_branch_index a =? 0) then Some "bad-auxpow-coinbase-index"%string
      else if chain_index a <? 0 then Some "bad-auxpow-chain-index"%string
      else if (MAX_CHAIN_MERKLE_BRANCH_LENGTH <? length (chain_merkle_branch a))%nat then Some "bad-auxpow-chain-branch-size"%string
      else if (32 <=? length (coinbase_merkle_branch a))%nat then Some "bad-auxpow-coinbase-branch-size"%string
      else if negb (Z.shiftr (wrap 32 (coinbase_branch_index a)) (Z.of_nat (length (coinbase_merkle_branch a))) =? 0)
        then Some "bad-auxpow-coinbase-index"%string
      else if negb (Z.shiftr (wrap 32 (chain_index a)) (Z.of_nat (length (chain_merkle_branch a))) =? 0)
        then Some "bad-auxpow-chain-index"%string
      else if negb (bool_decide (CheckMerkleBranch (GetHash tx) (coinbase_merkle_branch a) (wrap 32 (coinbase_branch_index a)) =
                                 hashMerkleRoot (parent_block a)))
        then Some "bad-auxpow-coinbase-branch"%string
      else if check_pow && negb (CheckProofOfWork fuzz (GetParentBlockHash a) target_bits consensus) then Some "bad-auxpow-parent-hash"%string
      else
        let chain_root := CheckMerkleBranch aux_block_hash (chain_merkle_branch a) (wrap 32 (chain_index a)) in
        check_commitments (first_scriptSig tx) (commitments mode chain_root) (length (chain_merkle_branch a)) (chain_index a) expected_chain_id None
  end.

(** ** [auxpow::Validate] *)

Definition Validate (fuzz : bool) (block : CBlockHeader) (consensus : Params) (check_pow : bool)
    (mode : CommitmentValidation) : option string :=
  if negb (SignalsAuxpow (pure block)) then
    if HasAuxpow block then Some "bad-auxpow-unexpected-payload"%string
    else if check_pow && negb (CheckProofOfWork fuzz (HeaderGetHash (pure block)) (nBits (pure block)) consensus) then Some "high-hash"%string
    else None
  else
    let expected_chain_id := wrap 16 (nAuxpowChainId consensus) in
    if negb (GetChainId (pure block) =? expected_chain_id) then Some "bad-auxpow-chainid"%string
    else
      match auxpow block with
      | None => Some "bad-auxpow-missing-payload"%string
      | Some a => CAuxPow_Validate fuzz a (HeaderGetHash (pure block)) consensus (nBits (pure block)) expected_chain_id check_pow mode
      end.

(** ** Searching *)

(** [pat] occurs in [s] at position [i]. *)
Definition occurs (s pat : list Z) (i : nat) : Prop := exists r, drop i s = pat ++ r.

Lemma is_prefix_spec pat s : is_prefix pat s = true <-> exists r, s = pat ++ r.
Proof.
  revert s; induction pat as [|x pat IH]; intros s; cbn [is_prefix].
  - split; [intros _; exists s; reflexivity | reflexivity].
  - destruct s as [|y s]; [split; [discriminate | intros [r [=]]]|].
    rewrite andb_true_iff, Z.eqb_eq, IH; split; [intros [-> [r ->]]; exists r; reflexivity | intros [r [= -> ->]]; eauto].
Qed.

Lemma search_spec s pat :
  match search s pat with
  | Some i => occurs s pat i /\ forall j, (j < i)%nat -> ~ occurs s pat j
  | None => forall j, (j <= length s)%nat -> ~ occurs s pat j
  end.
Proof.
  induction s as [|x s IH]; unfold search; fold search.
  - destruct (is_prefix pat []) eqn:E.
    + apply is_prefix_spec in E; split; [exact E | lia].
    + intros j Hj [r Hr]; cbn in Hj; replace j with 0%nat in Hr by lia.
      assert (is_prefix pat [] = true) by (apply is_prefix_spec; exists r; exact Hr); congruence.
  - destruct (is_prefix pat (x :: s)) eqn:E.
    + apply is_prefix_spec in E; split; [exact E | lia].
    + assert (H0 : ~ occurs (x :: s) pat 0) by (intros Ho; apply is_prefix_spec in Ho; cbn [drop] in Ho; congruence).
      destruct (search s pat) as [i|]; cbn [option_map].
      * destruct IH as [Ho Hb]; split; [exact Ho|]; intros [|j] Hj; [exact H0 | apply (Hb j); lia].
      * intros [|j] Hj; [exact H0 | apply (IH j); cbn in Hj; lia].
Qed.

Lemma search_first s pat i : occurs s pat i -> (forall j, (j < i)%nat -> ~ occurs s pat j) -> (i <= length s)%nat -> search s pat = Some i.
Proof.
  intros Ho Hb Hi; pose proof (search_spec s pat) as H; destruct (search s pat) as [k|]; [|exfalso; exact (H i Hi Ho)].
  destruct H as [Hk Hkb]; f_equal; destruct (Nat.lt_trichotomy k i) as [Hlt|[|Hlt]]; [exfalso; exact (Hb k Hlt Hk) | assumption | exfalso; exact (Hkb i Hlt Ho)].
Qed.

Lemma occurs_length s pat i : occurs s pat i -> pat <> [] -> (i + length pat <= length s)%nat.
Proof.
  intros [r Hr] Hne; apply (f_equal length) in Hr; rewrite length_drop, length_app in Hr; destruct pat; [contradiction|]; cbn in *; lia.
Qed.

Lemma occurs_unique_at s a b i : occurs s a i -> occurs s b i -> length a = length b -> a = b.
Proof. intros [r Hr] [r' Hr'] Hl; rewrite Hr in Hr'; apply app_inj_1 in Hr' as [-> _]; auto. Qed.

(** ** What an accepted commitment looks like *)

(** The first occurrence of the commitment in the script, at position [i], is followed by the size of
    the chain Merkle tree and a nonce that puts the chain in slot [idx]; and either the merged-mining
    header occurs exactly once, right before it, or it does not occur and [i] is at most 20. *)
Definition placed (script : list Z) (i : nat) : Prop :=
  (exists k, i = (k + 4)%nat /\ occurs script MERGED_MINING_HEADER k /\ forall j, occurs script MERGED_MINING_HEADER j -> j = k) \/
  ((forall j, ~ occurs script MERGED_MINING_HEADER j) /\ (i <= LEGACY_COMMITMENT_START_LIMIT)%nat).

Definition committed (script c : list Z) (h : nat) (idx id : Z) : Prop :=
  exists i nonce rest,
    drop i script = c ++ digits 8 4 (2 ^ Z.of_nat h) ++ digits 8 4 nonce ++ rest /\ in_u 32 nonce /\
    (forall j, (j < i)%nat -> ~ occurs script c j) /\ placed script i /\ idx = GetExpectedIndex nonce id (Z.of_nat h).

Lemma occurs_drop s pat k j : occurs (drop k s) pat j <-> occurs s pat (k + j).
Proof. unfold occurs; rewrite drop_drop; reflexivity. Qed.

Lemma not_occurs s pat : pat <> [] -> search s pat = None -> forall j, ~ occurs s pat j.
Proof.
  intros Hne E j Ho; pose proof (search_spec s pat) as H; rewrite E in H; pose proof (occurs_length s pat j Ho Hne).
  apply (H j); [lia | exact Ho].
Qed.

Lemma not_occurs_search s pat : (forall j, ~ occurs s pat j) -> search s pat = None.
Proof. intros H; pose proof (search_spec s pat) as Hs; destruct (search s pat) as [i|]; [exfalso; apply (H i), Hs | reflexivity]. Qed.

(** The placement test of the loop decides [placed]. *)
Lemma placement_spec script root_it :
  (match search script MERGED_MINING_HEADER with
   | Some header_it =>
       match search (drop (S header_it) script) MERGED_MINING_HEADER with
       | Some _ => false
       | None => (header_it + length MERGED_MINING_HEADER =? root_it)%nat
       end
   | None => negb (LEGACY_COMMITMENT_START_LIMIT <? root_it)%nat
   end) = true <-> placed script root_it.
Proof.
  assert (Hne : MERGED_MINING_HEADER <> []) by discriminate; unfold placed.
  destruct (search script MERGED_MINING_HEADER) as [k|] eqn:Ek.
  - pose proof (search_spec script MERGED_MINING_HEADER) as Hs; rewrite Ek in Hs; destruct Hs as [Hk Hfirst].
    destruct (search (drop (S k) script) MERGED_MINING_HEADER) as [k2|] eqn:E2.
    + pose proof (search_spec (drop (S k) script) MERGED_MINING_HEADER) as Hs; rewrite E2 in Hs; destruct Hs as [H2 _].
      rewrite occurs_drop in H2; split; [discriminate|]; intros [(k' & _ & _ & Hu)|[Hno _]]; [|exfalso; exact (Hno k Hk)].
      pose proof (Hu k Hk); pose proof (Hu _ H2); lia.
    + pose proof (not_occurs _ _ Hne E2) as Hno; rewrite Nat.eqb_eq; split.
      * intros <-; left; exists k; split; [reflexivity|]; split; [exact Hk|]; intros j Hj.
        destruct (Nat.lt_trichotomy j k) as [Hlt|[|Hgt]]; [exfalso; exact (Hfirst j Hlt Hj) | assumption|].
        exfalso; apply (Hno (j - S k)%nat); rewrite occurs_drop; replace (S k + (j - S k))%nat with j by lia; exact Hj.
      * intros [(k' & -> & Hk' & Hu)|[Hno' _]]; [rewrite (Hu k Hk); reflexivity | exfalso; exact (Hno' k Hk)].
  - pose proof (not_occurs _ _ Hne Ek) as Hno; rewrite negb_true_iff, Nat.ltb_ge; split; [auto|].
    intros [(k & _ & Ho & _)|[_ H]]; [exfalso; exact (Hno k Ho) | exact H].
Qed.

Lemma split_footer footer : limbs 8 footer -> (8 <= length footer)%nat ->
  footer = digits 8 4 (ReadLE32 footer) ++ digits 8 4 (ReadLE32 (drop 4 footer)) ++ drop 8 footer /\ in_u 32 (ReadLE32 (drop 4 footer)).
Proof.
  intros Hf Hl; unfold ReadLE32.
  assert (H1 : limbs 8 (take 4 footer)) by (apply Forall_take, Hf).
  assert (H2 : limbs 8 (take 4 (drop 4 footer))) by (apply Forall_take, Forall_drop, Hf).
  rewrite !digits_lval by first [lia | assumption | rewrite length_take, ?length_drop; lia].
  split; [|pose proof (lval_range 8 ltac:(lia) _ H2) as H; rewrite length_take, length_drop, Nat.min_l in H by lia; exact H].
  rewrite <- (take_drop 4 footer) at 1; f_equal; rewrite <- (take_drop 4 (drop 4 footer)) at 1; rewrite drop_drop; reflexivity.
Qed.

Lemma ReadLE32_digits x r : in_u 32 x -> ReadLE32 (digits 8 4 x ++ r) = x.
Proof.
  intros Hx; unfold ReadLE32; rewrite take_app_length' by (rewrite length_digits; reflexivity).
  rewrite lval_digits by lia; apply wrap_small, Hx.
Qed.

Lemma check_commitment_spec script c h idx id :
  limbs 8 script -> c <> [] -> (h < 32)%nat ->
  check_commitment script c h idx id = Some None <-> committed script c h idx id.
Proof.
  intros Hb Hne Hh; unfold check_commitment.
  assert (Hp : 0 <= 2 ^ Z.of_nat h < 2 ^ 32) by (split; [lia | apply Z.pow_lt_mono_r; lia]).
  assert (E2 : wrap 32 (Z.shiftl 1 (Z.of_nat h)) = 2 ^ Z.of_nat h) by (rewrite Z.shiftl_1_l; apply wrap_small; exact Hp).
  split.
  - pose proof (search_spec script c) as Hs; destruct (search script c) as [i|]; [|discriminate]; destruct Hs as [[r Hr] Hfirst].
    match goal with |- (if negb ?x then _ else _) = _ -> _ => destruct x eqn:Ep end; cbn [negb]; [|discriminate].
    apply placement_spec in Ep.
    replace (drop (i + length c) script) with r by (rewrite <- drop_drop, Hr, drop_app_length; reflexivity).
    destruct (Nat.ltb_spec (length r) 8); [discriminate|]; rewrite E2.
    assert (Hrb : limbs 8 r) by (apply (Forall_drop _ i) in Hb; rewrite Hr in Hb; apply limbs_app in Hb; apply Hb).
    destruct (split_footer r Hrb ltac:(lia)) as [Er Hn].
    destruct (Z.eqb_spec (ReadLE32 r) (2 ^ Z.of_nat h)) as [Es|]; cbn [negb]; [|discriminate].
    destruct (Z.eqb_spec idx (GetExpectedIndex (ReadLE32 (drop 4 r)) id (Z.of_nat h))) as [Ei|]; cbn [negb]; [|discriminate].
    intros _; exists i, (ReadLE32 (drop 4 r)), (drop 8 r); rewrite <- Es, <- Er; auto 6.
  - intros (i & nonce & rest & Hd & Hn & Hfirst & Hpl & ->).
    assert (Hocc : occurs script c i) by (eexists; exact Hd).
    rewrite (search_first script c i Hocc Hfirst) by (pose proof (occurs_length _ _ _ Hocc Hne); lia).
    rewrite (proj2 (placement_spec script i) Hpl); cbn [negb]; rewrite <- drop_drop, Hd, drop_app_length, E2.
    rewrite (proj2 (Nat.ltb_ge _ 8)) by (rewrite !length_app, !length_digits; lia).
    rewrite ReadLE32_digits, Z.eqb_refl by exact Hp; cbn [negb].
    rewrite drop_app_length' by (rewrite length_digits; reflexivity); rewrite ReadLE32_digits, Z.eqb_refl by exact Hn; reflexivity.
Qed.

Lemma check_commitments_spec script cs h idx id err :
  check_commitments script cs h idx id err = None <-> exists c, In c cs /\ check_commitment script c h idx id = Some None.
Proof.
  revert err; induction cs as [|c cs IH]; intros err; cbn [check_commitments]; [split; [discriminate | intros (c & [] & _)]|].
  destruct (check_commitment script c h idx id) as [[e|]|] eqn:E; rewrite ?IH.
  - split; [intros (x & Hx & Ex); exists x; split; [right; exact Hx | exact Ex] | intros (x & [<-|Hx] & Ex); [congruence | eauto]].
  - split; [intros _; exists c; split; [left; reflexivity | exact E] | reflexivity].
  - split; [intros (x & Hx & Ex); exists x; split; [right; exact Hx | exact Ex] | intros (x & [<-|Hx] & Ex); [congruence | eauto]].
Qed.

Lemma commitments_spec mode root c :
  In c (commitments mode root) <->
  match mode with INTERNAL => c = root | DISPLAY => c = rev root | EITHER => c = root \/ c = rev root end.
Proof.
  destruct mode; cbn [commitments In]; [|intuition | intuition].
  destruct (bool_decide_reflect (root = rev root)) as [E|E]; cbn [In]; [rewrite <- E|]; intuition.
Qed.

(** What [CAuxPow::Validate] accepts, of a payload with coinbase transaction [tx]. *)
Record payload_ok (fuzz : bool) (a : CAuxPow) (tx : CTransaction) (aux_block_hash : uint256) (consensus : Params)
    (target_bits id : Z) (check_pow : bool) (mode : CommitmentValidation) : Prop := {
  po_coinbase : coinbase_tx a = Some tx /\ IsCoinBase tx = true;
  po_index : coinbase_branch_index a = 0;
  po_chain_height : (length (chain_merkle_branch a) <= 30)%nat;
  po_coinbase_height : (length (coinbase_merkle_branch a) < 32)%nat;
  po_slot : 0 <= chain_index a < 2 ^ Z.of_nat (length (chain_merkle_branch a));
  po_branch : CheckMerkleBranch (GetHash tx) (coinbase_merkle_branch a) 0 = hashMerkleRoot (parent_block a);
  po_pow : check_pow = true -> CheckProofOfWork fuzz (HeaderGetHash (parent_block a)) target_bits consensus = true;
  po_commitment :
    let root := CheckMerkleBranch aux_block_hash (chain_merkle_branch a) (chain_index a) in
    exists c, (match mode with INTERNAL => c = root | DISPLAY => c = rev root | EITHER => c = root \/ c = rev root end) /\
      committed (first_scriptSig tx) c (length (chain_merkle_branch a)) (chain_index a) id }.

Lemma CheckMerkleBranch_32 leaf branch index : length leaf = 32%nat -> length (CheckMerkleBranch leaf branch index) = 32%nat.
Proof. apply fold_branch_32. Qed.

Lemma shiftr_zero x n : 0 <= x -> 0 <= n -> (Z.shiftr x n =? 0) = (x <? 2 ^ n).
Proof.
  intros Hx Hn; rewrite Z.shiftr_div_pow2 by lia; destruct (Z.ltb_spec x (2 ^ n)).
  - rewrite Z.div_small by lia; reflexivity.
  - apply Z.eqb_neq; pose proof (Z.div_le_lower_bound x (2 ^ n) 1 ltac:(lia) ltac:(lia)); lia.
Qed.

(** The commitment part of the validation. *)
Lemma commitments_accepted script mode root h idx id :
  limbs 8 script -> length root = 32%nat -> (h < 32)%nat ->
  check_commitments script (commitments mode root) h idx id None = None <->
  exists c, (match mode with INTERNAL => c = root | DISPLAY => c = rev root | EITHER => c = root \/ c = rev root end) /\
    committed script c h idx id.
Proof.
  intros Hs Hr Hh; rewrite check_commitments_spec.
  assert (Hne : forall c, In c (commitments mode root) -> c <> []).
  { intros c Hc; apply commitments_spec in Hc; assert (Hl : c = root \/ c = rev root) by (destruct mode; auto).
    intros ->; destruct Hl as [E|E]; apply (f_equal length) in E; rewrite ?length_rev, Hr in E; discriminate E. }
  split; intros (c & Hc & H); exists c.
  - split; [apply commitments_spec, Hc | apply check_commitment_spec; auto].
  - apply commitments_spec in Hc; split; [exact Hc | apply check_commitment_spec; auto].
Qed.

(** Values of the payload's C++ types. *)
Definition payload_typed (a : CAuxPow) : Prop :=
  in_s 32 (coinbase_branch_index a) /\ in_s 32 (chain_index a) /\
  forall tx, coinbase_tx a = Some tx -> limbs 8 (first_scriptSig tx).

Lemma CAuxPow_Validate_exact fuzz a hash consensus bits id check_pow mode :
  payload_typed a -> length hash = 32%nat ->
  CAuxPow_Validate fuzz a hash consensus bits id check_pow mode = None <->
  exists tx, payload_ok fuzz a tx hash consensus bits id check_pow mode.
Proof.
  intros (Hi & Hc & Hs) Hh; unfold CAuxPow_Validate, in_s in *; split.
  - destruct (coinbase_tx a) as [tx|] eqn:Et; [|discriminate].
    destruct (IsCoinBase tx) eqn:Ecb; cbn [negb]; [|discriminate].
    destruct (Z.ltb_spec (coinbase_branch_index a) 0); [discriminate|].
    destruct (Z.eqb_spec (coinbase_branch_index a) 0) as [E0|]; cbn [negb]; [|discriminate].
    destruct (Z.ltb_spec (chain_index a) 0); [discriminate|].
    unfold MAX_CHAIN_MERKLE_BRANCH_LENGTH; destruct (Nat.ltb_spec 30 (length (chain_merkle_branch a))); [discriminate|].
    destruct (Nat.leb_spec 32 (length (coinbase_merkle_branch a))); [discriminate|].
    rewrite E0, !(wrap_small 32) by (unfold in_u; lia); rewrite !shiftr_zero by lia.
    destruct (0 <? _); cbn [negb]; [|discriminate].
    destruct (Z.ltb_spec (chain_index a) (2 ^ Z.of_nat (length (chain_merkle_branch a)))); cbn [negb]; [|discriminate].
    destruct (bool_decide_reflect (CheckMerkleBranch (GetHash tx) (coinbase_merkle_branch a) 0 = hashMerkleRoot (parent_block a))); cbn [negb]; [|discriminate].
    destruct (check_pow && negb _) eqn:Ep; [discriminate|]; intros Hv; exists tx; split; auto; try lia.
    + intros ->; cbn [andb] in Ep; apply negb_false_iff in Ep; exact Ep.
    + apply commitments_accepted in Hv; [exact Hv | apply Hs; reflexivity | apply CheckMerkleBranch_32, Hh | lia].
  - intros (tx & [[Et Ecb] E0 Hch Hcb Hslot Hbr Hpow Hcom]); rewrite Et, Ecb, E0; cbn [negb Z.ltb Z.eqb Z.compare].
    rewrite (proj2 (Z.ltb_ge _ 0)), (proj2 (Nat.ltb_ge _ _)), (proj2 (Nat.leb_gt _ _)) by (unfold MAX_CHAIN_MERKLE_BRANCH_LENGTH; lia).
    rewrite !(wrap_small 32) by (unfold in_u; lia); rewrite !shiftr_zero, (proj2 (Z.ltb_lt 0 _)), (proj2 (Z.ltb_lt (chain_index a) _)) by lia; cbn [negb].
    rewrite bool_decide_true by exact Hbr; cbn [negb].
    replace (check_pow && negb (CheckProofOfWork fuzz (GetParentBlockHash a) bits consensus)) with false
      by (destruct check_pow; [unfold GetParentBlockHash; rewrite Hpow by reflexivity|]; reflexivity).
    apply commitments_accepted; [apply Hs, Et | apply CheckMerkleBranch_32, Hh | lia | exact Hcom].
Qed.

(** C19: block validation accepts exactly the well-formed proofs of work.  A header whose version
    does not signal AuxPoW is accepted iff it carries no payload and, when the work is checked, its
    own hash meets its target.  One that signals it is accepted iff its chain id is the network's and
    it carries a payload whose coinbase transaction is the first of the parent block's Merkle tree,
    whose parent header meets the target, and whose coinbase script commits, in a form the mode
    admits, to a chain Merkle root that contains this block in the slot its chain id and nonce
    select. *)
Theorem Validate_exact fuzz block consensus check_pow mode :
  (forall a, auxpow block = Some a -> payload_typed a) ->
  Validate fuzz block consensus check_pow mode = None <->
  (SignalsAuxpow (pure block) = false /\ auxpow block = None /\
   (check_pow = true -> CheckProofOfWork fuzz (HeaderGetHash (pure block)) (nBits (pure block)) consensus = true)) \/
  (SignalsAuxpow (pure block) = true /\ GetChainId (pure block) = wrap 16 (nAuxpowChainId consensus) /\
   exists a tx, auxpow block = Some a /\
     payload_ok fuzz a tx (HeaderGetHash (pure block)) consensus (nBits (pure block)) (wrap 16 (nAuxpowChainId consensus)) check_pow mode).
Proof.
  intros Ht; unfold Validate, HasAuxpow; destruct (SignalsAuxpow (pure block)); cbn [negb].
  - split.
    + destruct (Z.eqb_spec (GetChainId (pure block)) (wrap 16 (nAuxpowChainId consensus))) as [Ei|]; cbn [negb]; [|discriminate].
      destruct (auxpow block) as [a|]; [|discriminate]; intros Hv; right; split; [reflexivity|]; split; [exact Ei|].
      apply CAuxPow_Validate_exact in Hv as [tx Htx]; [eauto | apply Ht; reflexivity | rewrite HeaderGetHash_Hash; apply length_Hash].
    + intros [(E & _) | (_ & Ei & a & tx & Ea & Hok)]; [discriminate E|]; rewrite Ei, Z.eqb_refl, Ea; cbn [negb].
      apply CAuxPow_Validate_exact; [apply Ht, Ea | rewrite HeaderGetHash_Hash; apply length_Hash | eauto].
  - split.
    + destruct (auxpow block); [discriminate|]; destruct (check_pow && negb _) eqn:Ep; [discriminate|]; intros _; left; split; [reflexivity|]; split; [reflexivity|].
      intros ->; cbn [andb] in Ep; apply negb_false_iff in Ep; exact Ep.
    + intros [(_ & Ea & Hp) | (E & _)]; [|discriminate E]; rewrite Ea; destruct check_pow; [rewrite Hp by reflexivity|]; reflexivity.
Qed.

(** ** One parent, one block *)

Lemma CheckMerkleBranch_cons leaf s branch index :
  CheckMerkleBranch leaf (s :: branch) index =
  CheckMerkleBranch (if negb (Z.land index 1 =? 0) then Hash2 s leaf else Hash2 leaf s) branch (Z.shiftr index 1).
Proof. reflexivity. Qed.

(** Branches of one length from one index to one root are equal, and so are their leaves. *)
Lemma CheckMerkleBranch_inj b1 : forall b2 l1 l2 index,
  length b1 = length b2 -> length l1 = 32%nat -> length l2 = 32%nat -> all_32 b1 -> all_32 b2 ->
  no_collision (branch_inputs l1 b1 index) (branch_inputs l2 b2 index) ->
  CheckMerkleBranch l1 b1 index = CheckMerkleBranch l2 b2 index -> l1 = l2 /\ b1 = b2.
Proof.
  induction b1 as [|s1 b1 IH]; intros [|s2 b2] l1 l2 index Hlen H1 H2 A1 A2 Hno E; try discriminate Hlen.
  - split; [exact E | reflexivity].
  - rewrite !CheckMerkleBranch_cons in E; injection Hlen as Hlen; inversion_clear A1 as [|? ? S1 A1']; inversion_clear A2 as [|? ? S2 A2'].
    cbn [branch_inputs] in Hno; destruct (negb (Z.land index 1 =? 0)).
    + apply IH in E as [E ->]; try assumption; try apply length_Hash2.
      * apply (Hash2_inj _ _ _ _ _ _ S1 H1 S2 H2 Hno) in E as [-> ->]; [auto | left; reflexivity | left; reflexivity].
      * revert Hno; apply no_collision_mono; intros x Hx; right; exact Hx.
    + apply IH in E as [E ->]; try assumption; try apply length_Hash2.
      * apply (Hash2_inj _ _ _ _ _ _ H1 S1 H2 S2 Hno) in E as [-> ->]; [auto | left; reflexivity | left; reflexivity].
      * revert Hno; apply no_collision_mono; intros x Hx; right; exact Hx.
Qed.

(** A script with the merged-mining header holds at most one commitment of a given length. *)
Lemma committed_unique script c1 c2 h1 h2 i1 i2 id k :
  occurs script MERGED_MINING_HEADER k -> length c1 = length c2 -> (h1 <= 30)%nat -> (h2 <= 30)%nat ->
  committed script c1 h1 i1 id -> committed script c2 h2 i2 id -> c1 = c2 /\ h1 = h2 /\ i1 = i2.
Proof.
  intros Hk Hl Hh1 Hh2 (p1 & n1 & r1 & D1 & N1 & _ & P1 & ->) (p2 & n2 & r2 & D2 & N2 & _ & P2 & ->).
  assert (Hpos : forall p, placed script p -> p = (k + 4)%nat).
  { intros p [(k' & -> & _ & Hu)|[Hno _]]; [rewrite (Hu k Hk); reflexivity | exfalso; exact (Hno k Hk)]. }
  rewrite (Hpos p1 P1) in D1; rewrite (Hpos p2 P2) in D2; rewrite D1 in D2.
  apply app_inj_1 in D2 as [-> D2]; [|exact Hl]; apply app_inj_1 in D2 as [E D2]; [|rewrite !length_digits; reflexivity].
  apply app_inj_1 in D2 as [En _]; [|rewrite !length_digits; reflexivity].
  apply (f_equal (lval 8)) in E, En; rewrite !lval_digits, !wrap_small in En by first [lia | exact N1 | exact N2].
  assert (Hp : forall h, (h <= 30)%nat -> in_u (8 * Z.of_nat 4) (2 ^ Z.of_nat h)) by (intros h Hh; split; [lia | apply Z.pow_lt_mono_r; lia]).
  rewrite !lval_digits, !wrap_small in E by first [lia | apply Hp; assumption]; apply Z.pow_inj_r in E; [|lia | lia | lia].
  apply Nat2Z.inj in E; subst; auto.
Qed.


(** ** Honest payloads *)

Lemma GetExpectedIndex_range nonce id h : (h <= 30)%nat -> 0 <= GetExpectedIndex nonce id (Z.of_nat h) < 2 ^ Z.of_nat h.
Proof.
  intros Hh; unfold GetExpectedIndex; rewrite (proj2 (Z.leb_gt 32 _)) by lia; generalize (AdvanceSlotLcg (wrap 32 (Z.land (wrap 64 (AdvanceSlotLcg nonce + wrap 32 id)) UINT32_MASK))); intros r.
  assert (Hp : 0 < 2 ^ Z.of_nat h <= 2 ^ 30) by (split; [lia | apply Z.pow_le_mono_r; lia]).
  rewrite Z.shiftl_1_l, (wrap_small 32 (2 ^ Z.of_nat h)), wrap_small by (unfold in_u; lia).
  replace (2 ^ Z.of_nat h - 1) with (Z.ones (Z.of_nat h)) by (rewrite Z.ones_equiv; lia); rewrite Z.land_ones by lia.
  pose proof (Z.mod_pos_bound r (2 ^ Z.of_nat h) ltac:(lia)); rewrite swrap_small by (unfold in_s; cbn; lia); assumption.
Qed.

Lemma depth_bound L : Z.of_nat (length L) <= 2 ^ 31 -> (depth L < 32)%nat.
Proof.
  intros Hl; unfold depth; pose proof (Z.log2_up_nonneg (Z.of_nat (length L))).
  apply Z.log2_up_le_mono in Hl; rewrite Z.log2_up_pow2 in Hl by lia; lia.
Qed.

(** C35: a miner's payload is accepted.  Take a parent block whose header carries its Merkle root,
    whose first transaction is a coinbase with a script that holds the merged-mining header once,
    followed by the first occurrence of the commitment the mode asks for, the size of the chain
    Merkle tree and a nonce.  Then the coinbase branch exists, and the payload made of it, of a chain
    branch of at most 30 hashes and of the slot the nonce selects passes [CAuxPow::Validate] for the
    block hash it was made for, if the parent's work does when it is checked. *)
Theorem honest_payload_accepted `{MultiWayLaws} fuzz consensus bits id cp height parent tx txs mutated nonce hash branch pre post :
  let h := length branch in
  let idx := GetExpectedIndex nonce id (Z.of_nat h) in
  let root := CheckMerkleBranch hash branch idx in
  let mode := CommitmentValidationForHeight consensus height in
  let c := match mode with DISPLAY => rev root | _ => root end in
  vtx parent = tx :: txs -> Z.of_nat (length (vtx parent)) <= 2 ^ 31 -> IsCoinBase tx = true ->
  BlockMerkleRoot parent = Some (hashMerkleRoot (pure (header parent)), mutated) ->
  length hash = 32%nat -> (h <= 30)%nat -> in_u 32 nonce -> limbs 8 (first_scriptSig tx) ->
  first_scriptSig tx = pre ++ MERGED_MINING_HEADER ++ c ++ digits 8 4 (2 ^ Z.of_nat h) ++ digits 8 4 nonce ++ post ->
  (forall j, occurs (first_scriptSig tx) MERGED_MINING_HEADER j -> j = length pre) ->
  (forall j, (j < length pre + 4)%nat -> ~ occurs (first_scriptSig tx) c j) ->
  (cp = true -> CheckProofOfWork fuzz (HeaderGetHash (pure (header parent))) bits consensus = true) ->
  exists path, TransactionMerklePath parent 0 = Some path /\
    CAuxPow_Validate fuzz
      {| coinbase_tx := Some tx; coinbase_merkle_branch := path; coinbase_branch_index := 0;
         chain_merkle_branch := branch; chain_index := idx; parent_block := pure (header parent) |}
      hash consensus bits id cp mode = None.
Proof.
  intros h idx root mode c Ev Hlen Hcb Hroot Hhash Hh Hn Hs Escript Hu Hfirst Hpow.
  set (L := map GetHash (vtx parent)); assert (Hl : length L = length (vtx parent)) by apply length_map.
  assert (Hpos : 0 <= 0 < Z.of_nat (length L)) by (rewrite Hl, Ev; cbn [length]; lia).
  exists (branch_of L 0 (depth L)); split; [apply ComputeMerklePath_spec; [unfold L; rewrite Ev; discriminate | lia | exact Hpos]|].
  pose proof (GetExpectedIndex_range nonce id h Hh) as Hidx; fold idx in Hidx.
  assert (Hp30 : 2 ^ Z.of_nat h <= 2 ^ 30) by (apply Z.pow_le_mono_r; lia).
  apply CAuxPow_Validate_exact; [split; [cbn; unfold in_s; lia|]; split; [cbn [chain_index]; unfold in_s; lia | intros t [= <-]; exact Hs] | exact Hhash|].
  exists tx; split; cbn [coinbase_tx coinbase_merkle_branch coinbase_branch_index chain_merkle_branch chain_index parent_block].
  - auto.
  - reflexivity.
  - exact Hh.
  - rewrite length_branch_of; apply depth_bound; lia.
  - exact Hidx.
  - unfold BlockMerkleRoot in Hroot; fold L in Hroot; rewrite ComputeMerkleRoot_spec in Hroot by apply txids_32.
    apply (inj Some) in Hroot; apply (f_equal fst) in Hroot; cbn [fst] in Hroot; rewrite <- Hroot.
    replace (GetHash tx) with (node L 0 0) by (unfold L; rewrite Ev; reflexivity).
    rewrite CheckMerkleBranch_branch_of by exact Hpos; rewrite depth_top by exact Hpos; reflexivity.
  - exact Hpow.
  - exists c; split; [unfold c, mode, CommitmentValidationForHeight; destruct (AuxpowDisplayCommitmentActiveAtHeight _ _); reflexivity|].
    exists (length pre + 4)%nat, nonce, post; split; [|split; [exact Hn|]; split; [exact Hfirst|]; split; [|reflexivity]].
    + rewrite Escript, <- drop_drop, drop_app_length; reflexivity.
    + left; exists (length pre); split; [reflexivity|]; split; [|exact Hu]; eexists; rewrite Escript, drop_app_length; reflexivity.
Qed.

(** ** An example payload *)

Lemma occurs_is_prefix s pat j : occurs s pat j <-> is_prefix pat (drop j s) = true.
Proof. rewrite is_prefix_spec; reflexivity. Qed.

Lemma occurs_only s pat k : pat <> [] ->
  forallb (fun j => (j =? k)%nat || negb (is_prefix pat (drop j s))) (seq 0 (length s)) = true ->
  forall j, occurs s pat j -> j = k.
Proof.
  intros Hne Hall j Ho; pose proof (occurs_length s pat j Ho Hne) as Hl; rewrite forallb_forall in Hall.
  specialize (Hall j); rewrite in_seq in Hall; rewrite occurs_is_prefix in Ho; rewrite Ho, orb_false_r in Hall.
  apply Nat.eqb_eq, Hall; destruct pat; [contradiction|]; cbn in Hl; lia.
Qed.

Lemma occurs_not_before s pat i :
  forallb (fun j => negb (is_prefix pat (drop j s))) (seq 0 i) = true -> forall j, (j < i)%nat -> ~ occurs s pat j.
Proof.
  intros Hall j Hj Ho; rewrite forallb_forall in Hall; specialize (Hall j ltac:(apply in_seq; lia)).
  rewrite occurs_is_prefix in Ho; rewrite Ho in Hall; discriminate Hall.
Qed.

(** A parent block with one transaction, which commits to block hash [c] alone. *)
Definition parent_coinbase (c : list Z) : CTransaction := {|
  tx_version := 1;
  vin := [{| prevout := {| op_hash := uint256_zero; op_n := NULL_INDEX |};
             scriptSig := MERGED_MINING_HEADER ++ c ++ digits 8 4 1 ++ digits 8 4 0; nSequence := SEQUENCE_FINAL; scriptWitness := [] |}];
  vout := []; nLockTime := 0 |}.

Definition parent_header (c : list Z) : CPureBlockHeader := {|
  nVersion := 2; hashPrevBlock := uint256_zero; hashMerkleRoot := GetHash (parent_coinbase c); nTime := 0; nBits := 0; nNonce := 0 |}.

Definition example_payload (c : list Z) : CAuxPow := {|
  coinbase_tx := Some (parent_coinbase c); coinbase_merkle_branch := []; coinbase_branch_index := 0;
  chain_merkle_branch := []; chain_index := 0; parent_block := parent_header c |}.

Lemma example_payload_typed c : limbs 8 c -> payload_typed (example_payload c).
Proof.
  intros Hc; split; [cbn; unfold in_s; lia|]; split; [cbn; unfold in_s; lia|]; intros tx [= <-]; cbn [first_scriptSig parent_coinbase vin scriptSig].
  rewrite !limbs_app; split; [repeat constructor; unfold in_u; lia|]; split; [exact Hc | split; apply limbs_digits; lia].
Qed.

Lemma honest_payload_accepted_witness (hash := replicate 32 5) :
  exists path, CAuxPow_Validate false
      {| coinbase_tx := Some (parent_coinbase hash); coinbase_merkle_branch := path; coinbase_branch_index := 0;
         chain_merkle_branch := []; chain_index := 0; parent_block := parent_header hash |}
      hash MainParams 0x1a7f1ab5 47 false (CommitmentValidationForHeight MainParams 1) = None.
Proof.
  destruct (honest_payload_accepted false MainParams 0x1a7f1ab5 47 false 1
    {| header := {| pure := parent_header hash; auxpow := None |}; vtx := [parent_coinbase hash] |}
    (parent_coinbase hash) [] false 0 hash [] [] []) as (path & _ & H).
  - reflexivity.
  - cbn; lia.
  - reflexivity.
  - reflexivity.
  - reflexivity.
  - cbn; lia.
  - unfold in_u; lia.
  - apply (proj2 (proj2 (example_payload_typed hash ltac:(apply limbs_replicate; unfold in_u; lia)))); reflexivity.
  - reflexivity.
  - apply occurs_only; [discriminate | vm_compute; reflexivity].
  - apply occurs_not_before; vm_compute; reflexivity.
  - discriminate.
  - exists path; exact H.
Defined.


(** A block of the main network on the AuxPoW lane, with the payload for its hash. *)
Definition aux_header : CPureBlockHeader := {|
  nVersion := Version.MakeVersion 47 true 0; hashPrevBlock := uint256_zero; hashMerkleRoot := uint256_zero;
  nTime := 7; nBits := 0x1a7f1ab5; nNonce := 0 |}.

Definition aux_block : CBlockHeader :=
  {| pure := aux_header; auxpow := Some (example_payload (rev (HeaderGetHash aux_header))) |}.

Lemma Validate_exact_witness :
  Validate false aux_block MainParams false DISPLAY = None /\
  exists a tx, auxpow aux_block = Some a /\ payload_ok false a tx (HeaderGetHash aux_header) MainParams 0x1a7f1ab5 47 false DISPLAY.
Proof.
  assert (V : Validate false aux_block MainParams false DISPLAY = None) by (vm_compute; reflexivity).
  split; [exact V|]; apply Validate_exact in V as [(E & _) | (_ & _ & H)]; [discriminate E | exact H|].
  intros a [= <-]; apply example_payload_typed, Forall_rev; rewrite HeaderGetHash_Hash; apply limbs_Hash.
Defined.
