(* ===== verification/CoinsMap.v ===== *)
(** Coins and the map of cached coins: [Coin], [CCoinsCacheEntry] and [CoinsViewCacheCursor] of
    [src/src/coins.h].

    The map owns its entries, and the flagged ones are the nodes of a circular doubly linked list
    through a sentinel.  A pointer to a pair is [nullptr], the sentinel or the pair of a key; the
    list is kept here as the pointers of the entries, and [linked] states which sequence of keys
    they represent.  [Assume] aborts, as in a debug build: [None].  The counter of dynamic memory
    is a statistic that no operation on coins reads, and is left out. *)

From stdpp Require Export gmap.
From S2P Require Import Prelude Params Primitives.

#[local] Open Scope Z_scope.
#[local] Open Scope qbit_scope.

#[export] Instance COutPoint_countable : Countable COutPoint.
Proof.
  refine (inj_countable' (fun o => (op_hash o, op_n o)) (fun x => {| op_hash := x.1; op_n := x.2 |}) _).
  by intros [].
Defined.

(** ** Coins *)

Record Coin := { out : CTxOut; fCoinBase : bool; coin_nHeight : Z }.

#[export] Instance Coin_eq_dec : EqDecision Coin.
Proof. solve_decision. Defined.

(** The constructor stores the height in a field of 31 bits. *)
Definition make_Coin (outIn : CTxOut) (nHeightIn : Z) (fCoinBaseIn : bool) : Coin :=
  {| out := outIn; fCoinBase := fCoinBaseIn; coin_nHeight := wrap 31 nHeightIn |}.

Definition CTxOut_null : CTxOut := {| nValue := -1; scriptPubKey := [] |}.

(** The empty constructor, and what [Clear] leaves. *)
Definition coinEmpty : Coin := {| out := CTxOut_null; fCoinBase := false; coin_nHeight := 0 |}.

Definition IsSpent (c : Coin) : bool := CTxOut_IsNull (out c).

(** Moving out of a coin empties its script and leaves the other fields. *)
Definition moved_from (c : Coin) : Coin :=
  {| out := {| nValue := nValue (out c); scriptPubKey := [] |};
     fCoinBase := fCoinBase c; coin_nHeight := coin_nHeight c |}.

(** ** Entries, pointers and the flagged list *)

Inductive pair_ptr := nullptr | sentinel | pair_at (o : COutPoint).

#[export] Instance pair_ptr_eq_dec : EqDecision pair_ptr.
Proof. solve_decision. Defined.

Record CCoinsCacheEntry := { m_prev : pair_ptr; m_next : pair_ptr; m_flags : Z; coin : Coin }.

Definition DIRTY : Z := Z.shiftl 1 0.
Definition FRESH : Z := Z.shiftl 1 1.

Definition IsDirty (e : CCoinsCacheEntry) : bool := negb (Z.land (m_flags e) DIRTY =? 0).
Definition IsFresh (e : CCoinsCacheEntry) : bool := negb (Z.land (m_flags e) FRESH =? 0).

Definition set_prev (p : pair_ptr) (e : CCoinsCacheEntry) : CCoinsCacheEntry :=
  {| m_prev := p; m_next := m_next e; m_flags := m_flags e; coin := coin e |}.
Definition set_next (p : pair_ptr) (e : CCoinsCacheEntry) : CCoinsCacheEntry :=
  {| m_prev := m_prev e; m_next := p; m_flags := m_flags e; coin := coin e |}.
Definition set_flags (f : Z) (e : CCoinsCacheEntry) : CCoinsCacheEntry :=
  {| m_prev := m_prev e; m_next := m_next e; m_flags := f; coin := coin e |}.
Definition set_coin (c : Coin) (e : CCoinsCacheEntry) : CCoinsCacheEntry :=
  {| m_prev := m_prev e; m_next := m_next e; m_flags := m_flags e; coin := c |}.

(** An entry as the map creates it. *)
Definition new_entry (c : Coin) : CCoinsCacheEntry :=
  {| m_prev := nullptr; m_next := nullptr; m_flags := 0; coin := c |}.

(** The sentinel and the map it belongs to. *)
Record CCoinsMap := { m_sentinel : CCoinsCacheEntry; cacheCoins : gmap COutPoint CCoinsCacheEntry }.

(** [SelfRef]: the list of a new cache. *)
Definition SelfRef : CCoinsCacheEntry :=
  {| m_prev := sentinel; m_next := sentinel; m_flags := DIRTY; coin := coinEmpty |}.
Definition empty_map : CCoinsMap := {| m_sentinel := SelfRef; cacheCoins := ∅ |}.

Definition with_coins (m : CCoinsMap) (M : gmap COutPoint CCoinsCacheEntry) : CCoinsMap :=
  {| m_sentinel := m_sentinel m; cacheCoins := M |}.

Definition deref (m : CCoinsMap) (p : pair_ptr) : option CCoinsCacheEntry :=
  match p with
  | nullptr => None
  | sentinel => Some (m_sentinel m)
  | pair_at o => cacheCoins m !! o
  end.

Definition store (m : CCoinsMap) (p : pair_ptr) (e : CCoinsCacheEntry) : CCoinsMap :=
  match p with
  | nullptr => m
  | sentinel => {| m_sentinel := e; cacheCoins := cacheCoins m |}
  | pair_at o => with_coins m (<[o := e]> (cacheCoins m))
  end.

(** An assignment through a pointer; undefined on a null or dangling one. *)
Definition assign (m : CCoinsMap) (p : pair_ptr) (f : CCoinsCacheEntry -> CCoinsCacheEntry) : option CCoinsMap :=
  let! e := deref m p in Some (store m p (f e)).

Definition is_null (p : pair_ptr) : bool := bool_decide (p = nullptr).

Definition AddFlags (flags : Z) (pair : pair_ptr) (m : CCoinsMap) : option CCoinsMap :=
  assert! negb (Z.land flags (Z.lor DIRTY FRESH) =? 0);
  let! e := deref m pair in
  let! m :=
    (if m_flags e =? 0 then
       assert! is_null (m_prev e) && is_null (m_next e);
       let! m := assign m pair (set_prev (m_prev (m_sentinel m))) in
       let! m := assign m pair (set_next sentinel) in
       let! m := assign m sentinel (set_prev pair) in
       let! e := deref m pair in
       assign m (m_prev e) (set_next pair)
     else Some m) in
  let! e := deref m pair in
  assert! negb (is_null (m_prev e)) && negb (is_null (m_next e));
  assign m pair (set_flags (Z.lor (m_flags e) flags)).

Definition SetDirty (pair : pair_ptr) (m : CCoinsMap) : option CCoinsMap := AddFlags DIRTY pair m.
Definition SetFresh (pair : pair_ptr) (m : CCoinsMap) : option CCoinsMap := AddFlags FRESH pair m.

Definition SetClean (pair : pair_ptr) (m : CCoinsMap) : option CCoinsMap :=
  let! e := deref m pair in
  if m_flags e =? 0 then Some m
  else
    let! m := assign m (m_next e) (set_prev (m_prev e)) in
    let! e := deref m pair in
    let! m := assign m (m_prev e) (set_next (m_next e)) in
    assign m pair (fun e => set_prev nullptr (set_next nullptr (set_flags 0 e))).

Definition Next (e : CCoinsCacheEntry) : option pair_ptr := assert! negb (m_flags e =? 0); Some (m_next e).
Definition Prev (e : CCoinsCacheEntry) : option pair_ptr := assert! negb (m_flags e =? 0); Some (m_prev e).

(** Erasing an entry runs its destructor, which unlinks it. *)
Definition erase (o : COutPoint) (m : CCoinsMap) : option CCoinsMap :=
  let! m := SetClean (pair_at o) m in Some (with_coins m (delete o (cacheCoins m))).

(** [clear] destroys the entries one by one. *)
Definition clear (m : CCoinsMap) : option CCoinsMap :=
  foldl (fun m o => m ≫= erase o) (Some m) (map fst (map_to_list (cacheCoins m))).

(** ** The cursor over the flagged entries *)

Record CoinsViewCacheCursor := { m_map : CCoinsMap; m_will_erase : bool }.

Definition Begin (c : CoinsViewCacheCursor) : option pair_ptr := Next (m_sentinel (m_map c)).

Definition NextAndMaybeErase (c : CoinsViewCacheCursor) (current : COutPoint)
  : option (CoinsViewCacheCursor * pair_ptr) :=
  let! e := deref (m_map c) (pair_at current) in
  let! next_entry := Next e in
  let! m :=
    (if m_will_erase c then Some (m_map c)
     else if IsSpent (coin e) then erase current (m_map c)
     else SetClean (pair_at current) (m_map c)) in
  Some ({| m_map := m; m_will_erase := m_will_erase c |}, next_entry).

Definition WillErase (c : CoinsViewCacheCursor) (e : CCoinsCacheEntry) : bool := m_will_erase c || IsSpent (coin e).

(** The coin of [current] as the receiver takes it: moved when the entry will be erased. *)
Definition take_coin (c : CoinsViewCacheCursor) (current : COutPoint) (e : CCoinsCacheEntry)
  : option (CoinsViewCacheCursor * Coin) :=
  if WillErase c e then
    let! m := assign (m_map c) (pair_at current) (set_coin (moved_from (coin e))) in
    Some ({| m_map := m; m_will_erase := m_will_erase c |}, coin e)
  else Some (c, coin e).

(** [for (auto it{cursor.Begin()}; it != cursor.End(); ...)]: [body] treats one entry and returns
    where [NextAndMaybeErase] moved to.  The fuel is the number of steps allowed. *)
Fixpoint for_flagged {S : Type} (fuel : nat)
    (body : S -> CoinsViewCacheCursor -> COutPoint -> option (S * CoinsViewCacheCursor * pair_ptr))
    (s : S) (c : CoinsViewCacheCursor) (it : pair_ptr) : option (S * CoinsViewCacheCursor) :=
  match fuel with
  | O => None
  | Datatypes.S fuel =>
      match it with
      | sentinel => Some (s, c)
      | nullptr => None
      | pair_at o => let! '(s, c, it) := body s c o in for_flagged fuel body s c it
      end
  end.

(** Enough for every list of the map. *)
Definition cursor_fuel (c : CoinsViewCacheCursor) : nat := S (size (cacheCoins (m_map c))).

(** ** [SanityCheck]: the assertions on the map and its list *)

Definition attr (e : CCoinsCacheEntry) : Z :=
  (if IsDirty e then 1 else 0) + (if IsFresh e then 2 else 0) + (if IsSpent (coin e) then 4 else 0).

Definition attr_ok (e : CCoinsCacheEntry) : bool :=
  negb (attr e =? 2) && negb (attr e =? 4) && negb (attr e =? 7).

Definition is_flagged (e : CCoinsCacheEntry) : bool := IsDirty e || IsFresh e.

Definition check_link (m : CCoinsMap) (it : pair_ptr) : option CCoinsCacheEntry :=
  let! e := deref m it in
  let! next := Next e in
  let! next_entry := deref m next in
  let! next_prev := Prev next_entry in
  assert! bool_decide (next_prev = it);
  let! prev := Prev e in
  let! prev_entry := deref m prev in
  let! prev_next := Next prev_entry in
  assert! bool_decide (prev_next = it);
  assert! is_flagged e;
  Some e.

Fixpoint count_linked (fuel : nat) (m : CCoinsMap) (it : pair_ptr) : option nat :=
  match fuel with
  | O => None
  | S fuel =>
      if bool_decide (it = sentinel) then Some O
      else
        let! e := check_link m it in
        let! next := Next e in
        let! n := count_linked fuel m next in
        Some (S n)
  end.

Definition SanityCheck (m : CCoinsMap) : option unit :=
  let entries := map snd (map_to_list (cacheCoins m)) in
  assert! forallb attr_ok entries;
  let! first := Next (m_sentinel m) in
  let! linked := count_linked (S (size (cacheCoins m))) m first in
  assert! bool_decide (linked = length (filter (fun e => is_flagged e = true) entries));
  Some tt.

(** ** Surgery on a ring

    [nx] and [pv] are the successor and predecessor of each pointer; [ring nx pv k] says that from
    the sentinel they run through [k] and back. *)

Definition ring (nx pv : pair_ptr -> option pair_ptr) (k : list pair_ptr) : Prop :=
  map nx (sentinel :: k) = map Some (k ++ [sentinel]) /\ map pv (k ++ [sentinel]) = map Some (sentinel :: k).

Section Surgery.
Context (nx pv nx' pv' : pair_ptr -> option pair_ptr).

Lemma cons_snoc {A} (x : A) l : exists h z, x :: l = h ++ [z].
Proof. destruct (exists_last (l := x :: l)) as (h & z & E); [done|]. by exists h, z. Qed.

Lemma map_frame {A B} (f g : A -> B) l : (forall x, x ∈ l -> g x = f x) -> map g l = map f l.
Proof. intros H. apply map_ext_in. intros x Hx. apply H. by apply list_elem_of_In. Qed.

Lemma ring_append k p z :
  ring nx pv k -> NoDup (sentinel :: k) -> p ∉ sentinel :: k -> pv sentinel = Some z ->
  nx' p = Some sentinel -> pv' p = Some z -> pv' sentinel = Some p -> nx' z = Some p ->
  (forall q, q <> p -> q <> z -> nx' q = nx q) -> (forall q, q <> p -> q <> sentinel -> pv' q = pv q) ->
  ring nx' pv' (k ++ [p]).
Proof.
  intros [Hn Hp] Hnd Hnew Hz Np Pp Ps Nz Fn Fp.
  apply list.NoDup_cons in Hnd as H. destruct H as [Hsk _].
  destruct (cons_snoc sentinel k) as (h & z' & E).
  rewrite E in Hn, Hp, Hnd. rewrite !map_app in Hn, Hp.
  apply app_inj_tail in Hn as [Hn _], Hp as [Hp Hz'].
  rewrite Hz in Hz'. apply (inj Some) in Hz' as <-.
  apply list.NoDup_app in Hnd as (_ & Hzh & _).
  split.
  - rewrite app_comm_cons, E, !map_app. simpl. rewrite Nz, Np, <- !app_assoc. simpl. f_equal.
    rewrite <- Hn. apply map_frame. intros q Hq. apply Fn; [|intros ->; apply (Hzh z Hq); by left].
    intros ->. apply Hnew. rewrite E. apply elem_of_app. by left.
  - rewrite app_comm_cons, E, !map_app. simpl. rewrite Pp, Ps, <- Hp, <- !app_assoc. simpl. f_equal.
    apply map_frame. intros q Hq. apply Fp; [|by intros ->]. intros ->. apply Hnew. by right.
Qed.

Lemma ring_remove k1 p k2 z y :
  ring nx pv (k1 ++ p :: k2) -> NoDup (sentinel :: k1 ++ p :: k2) -> nx p = Some y -> pv p = Some z ->
  nx' z = Some y -> pv' y = Some z ->
  (forall q, q <> p -> q <> z -> nx' q = nx q) -> (forall q, q <> p -> q <> y -> pv' q = pv q) ->
  ring nx' pv' (k1 ++ k2).
Proof.
  intros [Hn Hp] Hnd Ny Pz Nz Py Fn Fp.
  destruct (cons_snoc sentinel k1) as (h & z' & E).
  assert (exists y' t, k2 ++ [sentinel] = y' :: t) as (y' & t & E2) by (destruct k2; eauto).
  assert (E3 : sentinel :: k1 ++ p :: k2 = h ++ z' :: p :: k2).
  { rewrite app_comm_cons, E, <- app_assoc. done. }
  assert (E4 : (k1 ++ p :: k2) ++ [sentinel] = k1 ++ p :: y' :: t).
  { rewrite <- app_assoc. simpl. by rewrite E2. }
  assert (Hnd2 : NoDup (k1 ++ p :: y' :: t)).
  { rewrite <- E4. by rewrite (Permutation_app_comm (k1 ++ p :: k2)). }
  rewrite E3, E4 in Hn, Hp. rewrite E3 in Hnd.
  rewrite !map_app in Hn, Hp. simpl in Hn, Hp.
  assert (Hlen : length h = length k1).
  { apply (f_equal length) in E. rewrite length_app in E. simpl in E. lia. }
  apply app_inj_1 in Hn as [Hn1 Hn2]; [|by rewrite !length_map].
  apply app_inj_1 in Hp as [Hp1 Hp2]; [|by rewrite !length_map].
  rewrite Ny in Hn2. rewrite Pz in Hp2. injection Hn2 as _ <- Hn2. injection Hp2 as <- _ Hp2.
  apply list.NoDup_app in Hnd as (_ & Hh & Hnd). apply list.NoDup_cons in Hnd as [Hz2 Hnd].
  apply list.NoDup_cons in Hnd as [Hp3 _].
  apply list.NoDup_app in Hnd2 as (_ & Hk & Hnd2). apply list.NoDup_cons in Hnd2 as [Hp4 Hnd2].
  apply list.NoDup_cons in Hnd2 as [Hy _].
  split.
  - rewrite app_comm_cons, E, <- app_assoc, <- app_assoc, E2, !map_app. simpl. rewrite Nz.
    f_equal; [|f_equal].
    + rewrite <- Hn1. apply map_frame. intros q Hq.
      apply Fn; intros ->; apply (Hh _ Hq); rewrite !elem_of_cons; tauto.
    + rewrite <- Hn2. apply map_frame. intros q Hq. apply Fn; intros ->; [done|]. apply Hz2. by right.
  - rewrite <- app_assoc, E2, app_comm_cons, E, <- app_assoc, !map_app. simpl. rewrite Py.
    f_equal; [|f_equal].
    + rewrite <- Hp1. apply map_frame. intros q Hq.
      apply Fp; intros ->; apply (Hk _ Hq); rewrite !elem_of_cons; tauto.
    + rewrite <- Hp2. apply map_frame. intros q Hq. apply Fp; intros ->; [|done]. apply Hp4. by right.
Qed.
End Surgery.

Lemma ring_in nx pv k p :
  ring nx pv k -> p ∈ sentinel :: k ->
  exists y z, nx p = Some y /\ pv p = Some z /\ y ∈ sentinel :: k /\ z ∈ sentinel :: k.
Proof.
  intros [Hn Hp] Hin.
  assert (Hn' : nx p ∈ map Some (k ++ [sentinel])) by (rewrite <- Hn; apply (list_elem_of_fmap_2 nx), Hin).
  assert (Hp' : pv p ∈ map Some (sentinel :: k)).
  { rewrite <- Hp. apply (list_elem_of_fmap_2 pv). set_solver. }
  apply list_elem_of_fmap in Hn' as (y & Ey & Hy), Hp' as (z & Ez & Hz).
  exists y, z. rewrite Ey, Ez. set_solver.
Qed.

(** ** The flagged list of a map *)

Definition nxt (m : CCoinsMap) (p : pair_ptr) : option pair_ptr := m_next <$> deref m p.
Definition prv (m : CCoinsMap) (p : pair_ptr) : option pair_ptr := m_prev <$> deref m p.

(** [linked m l]: the pointers run through [l], the flagged keys, each once. *)
Record linked (m : CCoinsMap) (l : list COutPoint) : Prop := {
  linked_nodup : NoDup l;
  linked_ring : ring (nxt m) (prv m) (map pair_at l);
  linked_flagged : forall o e, cacheCoins m !! o = Some e -> (o ∈ l <-> m_flags e <> 0);
  linked_null : forall o e, cacheCoins m !! o = Some e -> m_flags e = 0 -> m_prev e = nullptr /\ m_next e = nullptr;
  linked_sentinel : m_flags (m_sentinel m) <> 0 }.

(** The map without its pointers: the coin and the flags of each key. *)
Definition entries (m : CCoinsMap) : gmap COutPoint (Coin * Z) := (fun e => (coin e, m_flags e)) <$> cacheCoins m.

Lemma entries_lookup m o : entries m !! o = (fun e => (coin e, m_flags e)) <$> deref m (pair_at o).
Proof. apply lookup_fmap. Qed.

Lemma assign_ok m p f e :
  deref m p = Some e ->
  exists m', assign m p f = Some m' /\ forall q, deref m' q = if decide (q = p) then Some (f e) else deref m q.
Proof.
  intros H. unfold assign. rewrite H. eexists. split; [done|]. intros q.
  destruct p as [| |o]; [done| |]; destruct q as [| |o']; simpl; repeat case_decide; simplify_eq; try done.
  - apply lookup_insert_eq.
  - apply lookup_insert_ne. congruence.
Qed.

#[local] Instance node_inj : Inj (=) (=) pair_at.
Proof. intros ?? E. by injection E. Qed.

Lemma nodup_nodes l : NoDup l -> NoDup (sentinel :: map pair_at l).
Proof.
  intros H. apply list.NoDup_cons. split.
  - intros (o & E & _)%list_elem_of_fmap. done.
  - by apply (NoDup_fmap_2 pair_at).
Qed.

Lemma node_in o l : pair_at o ∈ sentinel :: map pair_at l <-> o ∈ l.
Proof.
  rewrite elem_of_cons. split; [intros [E|(o' & E & H)%list_elem_of_fmap]; by simplify_eq|].
  intros H. right. by apply (list_elem_of_fmap_2 pair_at).
Qed.

Section Linked.
Context (m : CCoinsMap) (l : list COutPoint) (Hm : linked m l).

Lemma linked_in p :
  p ∈ sentinel :: map pair_at l ->
  exists e, deref m p = Some e /\ m_flags e <> 0 /\ m_next e ∈ sentinel :: map pair_at l /\ m_prev e ∈ sentinel :: map pair_at l.
Proof.
  intros H. destruct (ring_in _ _ _ _ (linked_ring _ _ Hm) H) as (y & z & Hy & Hz & Hy' & Hz').
  unfold nxt, prv in *. destruct (deref m p) as [e|] eqn:E; simplify_eq/=. exists e. split; [done|].
  split; [|by simplify_eq]. destruct p as [| |o]; simpl in E; [done| |].
  - simplify_eq. apply (linked_sentinel _ _ Hm).
  - by apply (linked_flagged _ _ Hm o e E), node_in.
Qed.

Lemma linked_not_null p : p ∈ sentinel :: map pair_at l -> is_null p = false.
Proof. intros (e & E & _)%linked_in. apply bool_decide_eq_false. intros ->. done. Qed.

(** Changing only the flags of a flagged entry, or the coin of any, keeps the list. *)
Lemma linked_same m' :
  (forall q, nxt m' q = nxt m q) -> (forall q, prv m' q = prv m q) ->
  (forall q, (fun e => negb (m_flags e =? 0)) <$> deref m' q = (fun e => negb (m_flags e =? 0)) <$> deref m q) ->
  linked m' l.
Proof.
  intros Hn Hp Hf. destruct Hm as [Hnd [Hr1 Hr2] Hfl Hnull Hs]. split; [done| | | |].
  - split; [rewrite <- Hr1|rewrite <- Hr2]; apply map_frame; auto.
  - intros o e E. specialize (Hf (pair_at o)). simpl in Hf. rewrite E in Hf.
    destruct (cacheCoins m !! o) as [e0|] eqn:E0; [|done]. simpl in Hf. rewrite (Hfl o e0 E0).
    apply (inj Some) in Hf. destruct (Z.eqb_spec (m_flags e) 0), (Z.eqb_spec (m_flags e0) 0); simpl in Hf; done.
  - intros o e E E1. specialize (Hf (pair_at o)). specialize (Hn (pair_at o)). specialize (Hp (pair_at o)).
    unfold nxt, prv in Hn, Hp. simpl in Hf, Hn, Hp. rewrite E in Hf, Hn, Hp.
    destruct (cacheCoins m !! o) as [e0|] eqn:E0; [|done]. simpl in Hf, Hn, Hp. simplify_eq.
    rewrite Hn, Hp. apply (Hnull o e0 E0).
    rewrite E1 in Hf. simpl in Hf. by destruct (Z.eqb_spec (m_flags e0) 0).
  - specialize (Hf sentinel). simpl in Hf. apply (inj Some) in Hf.
    by destruct (Z.eqb_spec (m_flags (m_sentinel m')) 0), (Z.eqb_spec (m_flags (m_sentinel m)) 0).
Qed.
End Linked.

(** Linking an entry in front of the sentinel. *)
Lemma append_linked m l o e m' f :
  linked m l -> cacheCoins m !! o = Some e -> o ∉ l -> f <> 0 ->
  let z := m_prev (m_sentinel m) in
  deref m' (pair_at o) = Some {| m_prev := z; m_next := sentinel; m_flags := f; coin := coin e |} ->
  (forall q, q <> pair_at o -> deref m' q =
     (fun x => (if decide (q = z) then set_next (pair_at o) else id)
                 ((if decide (q = sentinel) then set_prev (pair_at o) else id) x)) <$> deref m q) ->
  linked m' (l ++ [o]) /\ entries m' = <[o := (coin e, f)]> (entries m).
Proof.
  intros Hm E Ho Hf z Do D.
  assert (Hsame : forall o', o' <> o -> (fun e => (coin e, m_flags e)) <$> deref m' (pair_at o') =
                                      (fun e => (coin e, m_flags e)) <$> deref m (pair_at o')).
  { intros o' Ho'. rewrite D by congruence. destruct (deref m (pair_at o')); [|done].
    by repeat case_decide. }
  destruct (linked_in _ _ Hm sentinel) as (s & Es & _ & _ & Hz); [by left|]. simpl in Es. simplify_eq.
  fold z in Hz. assert (Hzo : z <> pair_at o) by (intros Hzo; rewrite Hzo in Hz; by apply node_in in Hz).
  destruct (linked_in _ _ Hm z Hz) as (ez & Ez & _).
  split; [split|].
  - apply list.NoDup_app. split; [apply Hm|]. split; [|apply NoDup_singleton]. set_solver.
  - rewrite map_app. apply (ring_append (nxt m) (prv m)) with z.
    + apply Hm.
    + apply nodup_nodes, Hm.
    + by rewrite node_in.
    + done.
    + unfold nxt. by rewrite Do.
    + unfold prv. by rewrite Do.
    + unfold prv. rewrite D, (decide_True (P := sentinel = sentinel)) by done. by case_decide.
    + unfold nxt. by rewrite D, Ez, (decide_True (P := z = z)) by done.
    + intros q Hq Hqz. unfold nxt. rewrite D, decide_False by done.
      destruct (deref m q); [|done]. by case_decide.
    + intros q Hq Hqs. unfold prv. rewrite D by done. destruct (deref m q); [|done].
      rewrite (decide_False (P := q = sentinel)) by done. by case_decide.
  - intros o' e' E'. destruct (decide (o' = o)) as [->|Hne].
    + simpl in Do. simplify_eq. set_solver.
    + pose proof (Hsame o' Hne) as Hs. simpl in Hs. rewrite E' in Hs.
      destruct (cacheCoins m !! o') as [e0|] eqn:E0; [|done]. simpl in Hs.
      apply (inj Some) in Hs. injection Hs as _ ->.
      rewrite elem_of_app, list_elem_of_singleton, (linked_flagged _ _ Hm o' e0 E0). tauto.
  - intros o' e' E' E0'. destruct (decide (o' = o)) as [->|Hne]; [simpl in Do; by simplify_eq|].
    pose proof (D (pair_at o') ltac:(congruence)) as D'. rewrite (decide_False (P := pair_at o' = sentinel)) in D' by done.
    change (deref m' (pair_at o')) with (cacheCoins m' !! o') in D'. rewrite E' in D'.
    destruct (deref m (pair_at o')) as [e0|] eqn:E0; [|done]. case_decide as Hoz; simplify_eq/=.
    + rewrite <- Hoz in Hz. apply node_in, (linked_flagged _ _ Hm o' e0 E0) in Hz. done.
    + by apply (linked_null _ _ Hm o').
  - pose proof (D sentinel ltac:(done)) as Ds. rewrite (decide_True (P := sentinel = sentinel)) in Ds by done.
    pose proof (linked_sentinel _ _ Hm). case_decide; simplify_eq/=; by rewrite Ds.
  - apply map_eq. intros o'. rewrite entries_lookup. destruct (decide (o' = o)) as [->|Hne].
    + by rewrite Do, lookup_insert_eq.
    + rewrite Hsame by done. by rewrite lookup_insert_ne, entries_lookup.
Qed.

Lemma AddFlags_linked m l flags o e :
  linked m l -> cacheCoins m !! o = Some e -> flags = DIRTY \/ flags = FRESH ->
  exists m', AddFlags flags (pair_at o) m = Some m' /\ linked m' (if m_flags e =? 0 then l ++ [o] else l) /\
    entries m' = <[o := (coin e, Z.lor (m_flags e) flags)]> (entries m).
Proof.
  intros Hm E Hflags. unfold AddFlags.
  assert (Hfl : forall z, Z.lor z flags <> 0).
  { intros z [_ H]%Z.lor_eq_0_iff. by destruct Hflags as [-> | ->]. }
  replace (negb _) with true by (by destruct Hflags as [-> | ->]).
  change (deref m (pair_at o)) with (cacheCoins m !! o). rewrite E.
  destruct (Z.eqb_spec (m_flags e) 0) as [E0|E0].
  - destruct (linked_null _ _ Hm o e E E0) as [-> ->]. change (is_null nullptr && is_null nullptr) with true. cbv iota.
    assert (Ho : o ∉ l) by (intros Ho; by apply (linked_flagged _ _ Hm o e E) in Ho).
    destruct (linked_in _ _ Hm sentinel) as (s & Es & _ & _ & Hz); [by left|]. simpl in Es. simplify_eq.
    set (z := m_prev (m_sentinel m)) in *.
    assert (Hzo : z <> pair_at o) by (intros Hzo; rewrite Hzo in Hz; by apply node_in in Hz).
    destruct (assign_ok m (pair_at o) (set_prev z) e E) as (m1 & Em1 & D1).
    rewrite Em1. cbv beta iota.
    destruct (assign_ok m1 (pair_at o) (set_next sentinel) (set_prev z e)) as (m2 & Em2 & D2).
    { by rewrite D1, decide_True. }
    rewrite Em2. cbv beta iota.
    destruct (assign_ok m2 sentinel (set_prev (pair_at o)) (m_sentinel m)) as (m3 & Em3 & D3).
    { by rewrite D2, decide_False, D1, decide_False. }
    rewrite Em3. cbv beta iota. rewrite D3, decide_False, D2, decide_True by done. cbv beta iota.
    destruct (linked_in _ _ Hm z Hz) as (ez & Ez & _).
    destruct (assign_ok m3 z (set_next (pair_at o)) (if decide (z = sentinel) then set_prev (pair_at o) ez else ez))
      as (m4 & Em4 & D4).
    { rewrite D3. case_decide as Ezs; [by rewrite Ezs in Ez; simplify_eq/=|].
      by rewrite D2, decide_False, D1, decide_False. }
    change (m_prev (set_next sentinel (set_prev z e))) with z. rewrite Em4. cbv beta iota.
    rewrite D4, decide_False, D3, decide_False, D2, decide_True by done. simpl.
    rewrite (linked_not_null _ _ Hm z Hz). simpl.
    destruct (assign_ok m4 (pair_at o) (set_flags (Z.lor (m_flags e) flags)) (set_next sentinel (set_prev z e)))
      as (m' & -> & D).
    { by rewrite D4, decide_False, D3, decide_False, D2, decide_True. }
    exists m'. split; [done|]. apply (append_linked m); try done; rewrite ?Hfl; try done.
    + by rewrite D, decide_True.
    + intros q Hq. rewrite D, decide_False, D4 by done. fold z.
      destruct (decide (q = z)) as [->|Hqz]; [by rewrite Ez; case_decide|].
      rewrite D3. destruct (decide (q = sentinel)) as [->|]; [done|]. rewrite D2, decide_False, D1, decide_False by done. by destruct (deref m q).
  - change (deref m (pair_at o)) with (cacheCoins m !! o). rewrite E.
    assert (Hin : pair_at o ∈ sentinel :: map pair_at l) by by apply node_in, (linked_flagged _ _ Hm o e E).
    destruct (linked_in _ _ Hm _ Hin) as (e' & E' & _ & Hn & Hp). simpl in E'. simplify_eq.
    rewrite !(linked_not_null _ _ Hm) by done. simpl.
    destruct (assign_ok m (pair_at o) (set_flags (Z.lor (m_flags e) flags)) e E) as (m' & -> & D).
    exists m'. split; [done|]. split.
    + apply (linked_same m l Hm).
      all: intros q; unfold nxt, prv; rewrite D; case_decide; [subst q; simpl; rewrite E; simpl|done].
      1,2: done.
      apply (f_equal Some), (f_equal negb). rewrite !(proj2 (Z.eqb_neq _ _)); done.
    + apply map_eq. intros o'. rewrite !entries_lookup, D. case_decide; simplify_eq.
      * by rewrite lookup_insert_eq.
      * rewrite lookup_insert_ne by congruence. by rewrite entries_lookup.
Qed.

Lemma ring_not_self nx pv k1 p k2 y z :
  ring nx pv (k1 ++ p :: k2) -> NoDup (sentinel :: k1 ++ p :: k2) -> nx p = Some y -> pv p = Some z ->
  y <> p /\ z <> p.
Proof.
  intros [Hn Hp] Hnd Ny Pz. destruct (cons_snoc sentinel k1) as (h & z' & E).
  assert (Hlen : length h = length k1).
  { apply (f_equal length) in E. rewrite length_app in E. simpl in E. lia. }
  rewrite app_comm_cons, E, <- app_assoc in Hn, Hp, Hnd. rewrite <- app_assoc, !map_app in Hn, Hp. simpl in Hn, Hp.
  apply app_inj_1 in Hn as [_ Hn], Hp as [_ Hp]; [|by rewrite !length_map..].
  apply list.NoDup_app in Hnd as (_ & Hh & (Hz & Hnd)%list.NoDup_cons). apply list.NoDup_cons in Hnd as [Hpk _].
  rewrite Ny in Hn. rewrite Pz in Hp. injection Hn as _ Hn. injection Hp as -> _. split; [|intros ->; apply Hz; by left].
  intros ->. destruct k2 as [|y2 k2]; simpl in Hn; injection Hn as Hn; [|subst y2; apply Hpk; by left].
  assert (Hs : p ∈ h ++ [z']) by (rewrite <- E, <- Hn; by left).
  apply elem_of_app in Hs as [Hs|Hs%list_elem_of_singleton]; [|subst z'; apply Hz; by left].
  apply (Hh p Hs). right. by left.
Qed.

Lemma filter_ne_id (o : COutPoint) (l : list COutPoint) : o ∉ l -> filter (.≠ o) l = l.
Proof.
  induction l as [|x l IH]; intros H; [done|]. rewrite filter_cons_True; [by rewrite IH by set_solver|set_solver].
Qed.

(** Unlinking an entry. *)
Lemma remove_linked m l1 o l2 e m' :
  linked m (l1 ++ o :: l2) -> cacheCoins m !! o = Some e ->
  deref m' (pair_at o) = Some (new_entry (coin e)) ->
  (forall q, q <> pair_at o -> deref m' q =
     (fun x => (if decide (q = m_prev e) then set_next (m_next e) else id)
                 ((if decide (q = m_next e) then set_prev (m_prev e) else id) x)) <$> deref m q) ->
  linked m' (l1 ++ l2) /\ entries m' = <[o := (coin e, 0)]> (entries m).
Proof.
  intros Hm E Do D. set (y := m_next e) in *. set (z := m_prev e) in *.
  assert (Hsame : forall o', o' <> o -> (fun e => (coin e, m_flags e)) <$> deref m' (pair_at o') =
                                      (fun e => (coin e, m_flags e)) <$> deref m (pair_at o')).
  { intros o' Ho'. rewrite D by congruence. destruct (deref m (pair_at o')); [|done]. by repeat case_decide. }
  pose proof (linked_ring _ _ Hm) as Hr. pose proof (nodup_nodes _ (linked_nodup _ _ Hm)) as Hnd.
  rewrite map_app in Hr, Hnd. simpl in Hr, Hnd.
  assert (Ny : nxt m (pair_at o) = Some y) by (unfold nxt; simpl; by rewrite E).
  assert (Pz : prv m (pair_at o) = Some z) by (unfold prv; simpl; by rewrite E).
  destruct (ring_not_self _ _ _ _ _ _ _ Hr Hnd Ny Pz) as [Hyo Hzo].
  destruct (linked_in _ _ Hm (pair_at o)) as (e' & E' & _ & Hy & Hz).
  { apply node_in. set_solver. }
  simpl in E'. simplify_eq.
  fold y in Hy. fold z in Hz.
  destruct (linked_in _ _ Hm y Hy) as (ey & Ey & _), (linked_in _ _ Hm z Hz) as (ez & Ez & _).
  pose proof (linked_nodup _ _ Hm) as Hndl.
  split; [split|].
  - apply list.NoDup_app in Hndl as (H1 & H2 & (H3 & H4)%list.NoDup_cons). apply list.NoDup_app.
    split_and!; [done| |done]. set_solver.
  - rewrite map_app. apply (ring_remove (nxt m) (prv m)) with (pair_at o) z y; try done.
    + unfold nxt. rewrite D, Ez, (decide_True (P := z = z)) by done. by case_decide.
    + unfold prv. rewrite D, Ey, (decide_True (P := y = y)) by done. by case_decide.
    + intros q Hq Hqz. unfold nxt. rewrite D, decide_False by done. destruct (deref m q); [|done]. by case_decide.
    + intros q Hq Hqy. unfold prv. rewrite D by done. rewrite (decide_False (P := q = y)) by done.
      destruct (deref m q); [|done]. by case_decide.
  - intros o' x Ex. destruct (decide (o' = o)) as [->|Hne].
    + simpl in Do. simplify_eq. simpl. apply list.NoDup_app in Hndl as (_ & H2 & (H3 & _)%list.NoDup_cons).
      split; [|done]. intros [H|H]%elem_of_app; [|done]. destruct (H2 o H). by left.
    + pose proof (Hsame o' Hne) as Hs. simpl in Hs. rewrite Ex in Hs.
      destruct (cacheCoins m !! o') as [x0|] eqn:E0; [|done]. simpl in Hs.
      apply (inj Some) in Hs. injection Hs as _ ->. rewrite <- (linked_flagged _ _ Hm o' x0 E0). set_solver.
  - intros o' x Ex Ex0. destruct (decide (o' = o)) as [->|Hne]; [simpl in Do; by simplify_eq|].
    pose proof (D (pair_at o') ltac:(congruence)) as D'.
    change (deref m' (pair_at o')) with (cacheCoins m' !! o') in D'. rewrite Ex in D'.
    destruct (deref m (pair_at o')) as [x0|] eqn:E0; [|done].
    assert (Hnot : pair_at o' ∉ sentinel :: map pair_at (l1 ++ o :: l2)).
    { intros H%node_in%(linked_flagged _ _ Hm o' x0 E0). destruct H. by repeat case_decide; simplify_eq/=. }
    rewrite !decide_False in D' by (intros H; by rewrite H in Hnot). simplify_eq/=. by apply (linked_null _ _ Hm o').
  - pose proof (D sentinel ltac:(done)) as Ds. pose proof (linked_sentinel _ _ Hm).
    repeat case_decide; simplify_eq/=; by rewrite Ds.
  - apply map_eq. intros o'. rewrite entries_lookup. destruct (decide (o' = o)) as [->|Hne].
    + by rewrite Do, lookup_insert_eq.
    + rewrite Hsame by done. by rewrite lookup_insert_ne, entries_lookup.
Qed.

Lemma SetClean_linked m l o e :
  linked m l -> cacheCoins m !! o = Some e ->
  exists m', SetClean (pair_at o) m = Some m' /\ linked m' (filter (.≠ o) l) /\
    entries m' = <[o := (coin e, 0)]> (entries m).
Proof.
  intros Hm E. unfold SetClean. change (deref m (pair_at o)) with (cacheCoins m !! o). rewrite E.
  pose proof (linked_flagged _ _ Hm o e E) as Hfl. destruct (Z.eqb_spec (m_flags e) 0) as [E0|E0].
  - exists m. split; [done|]. rewrite filter_ne_id by tauto. split; [done|].
    symmetry. apply insert_id. rewrite entries_lookup. simpl. rewrite E. simpl. by rewrite E0.
  - apply Hfl in E0 as Hin. apply list_elem_of_split in Hin as (l1 & l2 & ->).
    pose proof (linked_nodup _ _ Hm) as Hndl. apply list.NoDup_app in Hndl as (_ & H2 & (H3 & _)%list.NoDup_cons).
    assert (Ho1 : o ∉ l1) by (intros H; apply (H2 o H); by left).
    rewrite list.filter_app, filter_cons_False, !filter_ne_id by tauto.
    pose proof (linked_ring _ _ Hm) as Hr. pose proof (nodup_nodes _ (linked_nodup _ _ Hm)) as Hnd.
    rewrite map_app in Hr, Hnd. simpl in Hr, Hnd.
    destruct (ring_not_self _ _ _ _ _ (m_next e) (m_prev e) Hr Hnd) as [Hyo Hzo].
    1,2: by unfold nxt, prv; simpl; rewrite E.
    destruct (linked_in _ _ Hm (pair_at o)) as (e' & E' & _ & Hy & Hz); [apply node_in; set_solver|].
    simpl in E'. simplify_eq.
    destruct (linked_in _ _ Hm _ Hy) as (ey & Ey & _), (linked_in _ _ Hm _ Hz) as (ez & Ez & _).
    destruct (assign_ok m (m_next e) (set_prev (m_prev e)) ey Ey) as (m1 & Em1 & D1).
    rewrite Em1. cbv beta iota. rewrite D1, decide_False by done.
    change (deref m (pair_at o)) with (cacheCoins m !! o). rewrite E. cbv beta iota.
    destruct (assign_ok m1 (m_prev e) (set_next (m_next e))
                (if decide (m_prev e = m_next e) then set_prev (m_prev e) ey else ez)) as (m2 & Em2 & D2).
    { rewrite D1. by case_decide. }
    rewrite Em2. cbv beta iota.
    destruct (assign_ok m2 (pair_at o) (fun e => set_prev nullptr (set_next nullptr (set_flags 0 e))) e) as (m3 & -> & D3).
    { by rewrite D2, decide_False, D1, decide_False by done. }
    exists m3. split; [done|]. apply (remove_linked m); try done.
    + by rewrite D3, decide_True.
    + intros q Hq. rewrite D3, decide_False, D2, D1 by done.
      destruct (decide (q = m_prev e)) as [->|].
      * rewrite Ez. case_decide as H; [|done]. rewrite <- H, Ez in Ey. by simplify_eq.
      * destruct (decide (q = m_next e)) as [->|]; [by rewrite Ey|]. by destruct (deref m q).
Qed.

Lemma with_coins_linked m l o :
  linked m l -> o ∉ l -> linked (with_coins m (delete o (cacheCoins m))) l.
Proof.
  intros Hm Ho. set (m' := with_coins m (delete o (cacheCoins m))).
  assert (D : forall q, q ∈ sentinel :: map pair_at l -> deref m' q = deref m q).
  { intros [| |o'] Hq; [done..|]. simpl. apply lookup_delete_ne. intros ->. by apply node_in in Hq. }
  destruct Hm as [Hnd [Hr1 Hr2] Hfl Hnull Hs]. split; [done| | | |done].
  - split; [rewrite <- Hr1|rewrite <- Hr2]; apply map_frame; intros q Hq; unfold nxt, prv; rewrite D; set_solver.
  - intros o' e E. simpl in E. apply lookup_delete_Some in E as [Hne E]. by apply Hfl.
  - intros o' e E. simpl in E. apply lookup_delete_Some in E as [Hne E]. by apply (Hnull o').
Qed.

Lemma erase_linked m l o :
  linked m l -> is_Some (cacheCoins m !! o) ->
  exists m', erase o m = Some m' /\ linked m' (filter (.≠ o) l) /\ entries m' = delete o (entries m).
Proof.
  intros Hm [e E]. destruct (SetClean_linked m l o e Hm E) as (m' & Em & Hm' & Hen).
  unfold erase. rewrite Em. eexists. split; [done|]. split.
  - apply with_coins_linked; [done|]. rewrite list_elem_of_filter. tauto.
  - unfold entries in *. simpl. rewrite fmap_delete, Hen. apply delete_insert_eq.
Qed.

Lemma set_coin_linked m l o e c :
  linked m l -> cacheCoins m !! o = Some e ->
  exists m', assign m (pair_at o) (set_coin c) = Some m' /\ linked m' l /\ entries m' = <[o := (c, m_flags e)]> (entries m).
Proof.
  intros Hm E. destruct (assign_ok m (pair_at o) (set_coin c) e E) as (m' & Em & D).
  exists m'. split; [done|]. split.
  - apply (linked_same m l Hm); intros q; unfold nxt, prv; rewrite D; case_decide as Hq; try done;
      rewrite Hq; simpl; by rewrite E.
  - apply map_eq. intros o'. rewrite entries_lookup, D. case_decide as H.
    + injection H as ->. by rewrite lookup_insert_eq.
    + rewrite lookup_insert_ne by congruence. by rewrite entries_lookup.
Qed.

Lemma emplace_linked m l o c :
  linked m l -> cacheCoins m !! o = None ->
  linked (with_coins m (<[o := new_entry c]> (cacheCoins m))) l /\
  entries (with_coins m (<[o := new_entry c]> (cacheCoins m))) = <[o := (c, 0)]> (entries m).
Proof.
  intros Hm E. set (m' := with_coins m (<[o := new_entry c]> (cacheCoins m))).
  assert (Ho : o ∉ l).
  { intros H%node_in. destruct (linked_in _ _ Hm _ H) as (e & E' & _). simpl in E'. by simplify_eq. }
  assert (D : forall q, q ∈ sentinel :: map pair_at l -> deref m' q = deref m q).
  { intros [| |o'] Hq; [done..|]. simpl. apply lookup_insert_ne. intros ->. by apply node_in in Hq. }
  split; [|unfold entries; simpl; by rewrite fmap_insert]. destruct Hm as [Hnd [Hr1 Hr2] Hfl Hnull Hs]. split; [done| | | |done].
  - split; [rewrite <- Hr1|rewrite <- Hr2]; apply map_frame; intros q Hq; unfold nxt, prv; rewrite D; set_solver.
  - intros o' e E'. simpl in E'. apply lookup_insert_Some in E' as [(<- & <-)|(Hne & E')]; [done|by apply Hfl].
  - intros o' e E'. simpl in E'. apply lookup_insert_Some in E' as [(<- & <-)|(Hne & E')]; [done|by apply (Hnull o')].
Qed.

Lemma linked_empty : linked empty_map [].
Proof. split; [apply NoDup_nil_2|done|..]; by intros. Qed.

Lemma is_some_entries m o : is_Some (entries m !! o) <-> is_Some (cacheCoins m !! o).
Proof. unfold entries. rewrite lookup_fmap. apply fmap_is_Some. Qed.

Lemma linked_dom m l o : linked m l -> o ∈ l -> is_Some (cacheCoins m !! o).
Proof. intros Hm H%node_in. destruct (linked_in _ _ Hm _ H) as (e & E & _). by exists e. Qed.

Lemma linked_length m l : linked m l -> (length l <= size (cacheCoins m))%nat.
Proof.
  intros Hm. rewrite <- size_dom, <- (size_list_to_set (C := gset COutPoint) l) by apply Hm.
  apply subseteq_size. intros o H%elem_of_list_to_set. by apply elem_of_dom, (linked_dom m l).
Qed.

Lemma clear_linked m l : linked m l -> exists m', clear m = Some m' /\ linked m' [] /\ cacheCoins m' = ∅.
Proof.
  intros Hm. unfold clear.
  assert (Hnd : NoDup (map_to_list (cacheCoins m)).*1) by apply NoDup_fst_map_to_list.
  assert (Hks : forall o, o ∈ (map_to_list (cacheCoins m)).*1 <-> is_Some (entries m !! o)).
  { intros o. rewrite is_some_entries, list_elem_of_fmap. split.
    - intros ([o' e] & -> & H%elem_of_map_to_list). by exists e.
    - intros [e H%elem_of_map_to_list]. by exists (o, e). }
  change (map fst ?x) with (x.*1). revert Hnd Hks.
  generalize ((map_to_list (cacheCoins m)).*1) as ks. intros ks. revert m l Hm.
  induction ks as [|o ks IH]; intros m l Hm Hnd Hks; simpl.
  - assert (E : cacheCoins m = ∅).
    { apply map_empty. intros o. apply eq_None_not_Some. rewrite <- is_some_entries, <- Hks. apply not_elem_of_nil. }
    exists m. split_and!; [done| |done]. destruct l as [|o l]; [done|].
    destruct (linked_dom m (o :: l) o Hm) as [e He]; [by left|]. by rewrite E in He.
  - apply list.NoDup_cons in Hnd as [Ho Hnd].
    destruct (erase_linked m l o Hm) as (m' & -> & Hm' & E); [apply is_some_entries, Hks; by left|].
    apply (IH m' _ Hm' Hnd). intros o'. rewrite E. destruct (decide (o' = o)) as [->|Hne].
    + rewrite lookup_delete_eq. by split; [|intros [? ?]].
    + rewrite lookup_delete_ne, <- Hks by done. set_solver.
Qed.

(** ** Walking the list *)

Definition head_ptr (l : list COutPoint) : pair_ptr := match l with [] => sentinel | o :: _ => pair_at o end.

Lemma linked_first m l : linked m l -> m_next (m_sentinel m) = head_ptr l.
Proof.
  intros Hm. destruct (linked_ring _ _ Hm) as [H _].
  destruct l; simpl in H; unfold nxt in H; simpl in H; by injection H.
Qed.

Lemma linked_next m l1 o l2 e : linked m (l1 ++ o :: l2) -> cacheCoins m !! o = Some e -> m_next e = head_ptr l2.
Proof.
  intros Hm E. destruct (linked_ring _ _ Hm) as [H _]. rewrite map_app in H. simpl map in H.
  replace ((map pair_at l1 ++ pair_at o :: map pair_at l2) ++ [sentinel])
    with ((map pair_at l1 ++ [pair_at o]) ++ (map pair_at l2 ++ [sentinel])) in H by (by rewrite <- !app_assoc).
  change (nxt m sentinel :: map (nxt m) (map pair_at l1 ++ pair_at o :: map pair_at l2))
    with (map (nxt m) ((sentinel :: map pair_at l1) ++ (pair_at o :: map pair_at l2))) in H.
  rewrite map_app, (map_app Some) in H.
  apply app_inj_1 in H as [_ H]; [|rewrite !length_map, length_app; simpl; lia].
  unfold nxt in H. simpl in H. rewrite E in H. destruct l2; simpl in H; by simplify_eq.
Qed.

Definition is_dirty (f : Z) : bool := negb (Z.land f DIRTY =? 0).
Definition is_fresh (f : Z) : bool := negb (Z.land f FRESH =? 0).

(** What a receiver must do with an entry, and with all of them. *)
Definition write_one (o : COutPoint) (e : Coin * Z) (u : gmap COutPoint Coin) : gmap COutPoint Coin :=
  if is_dirty e.2 then if IsSpent e.1 then delete o u else <[o := e.1]> u else u.

Definition write_entry (e : option (Coin * Z)) (u : option Coin) : option Coin :=
  match e with
  | Some (c, f) => if is_dirty f then if IsSpent c then None else Some c else u
  | None => u
  end.
Definition written (E : gmap COutPoint (Coin * Z)) (u : gmap COutPoint Coin) : gmap COutPoint Coin :=
  merge write_entry E u.

Lemma written_lookup E u o : written E u !! o = write_entry (E !! o) (u !! o).
Proof. unfold written. rewrite lookup_merge. by destruct (E !! o), (u !! o). Qed.

Lemma write_one_lookup o e u o' :
  write_one o e u !! o' = if decide (o' = o) then write_entry (Some e) (u !! o) else u !! o'.
Proof.
  destruct e as [c f]. unfold write_one. simpl. case_decide as H; [subst o'|].
  - destruct (is_dirty f), (IsSpent c); by rewrite ?lookup_delete_eq, ?lookup_insert_eq.
  - destruct (is_dirty f), (IsSpent c); by rewrite ?lookup_delete_ne, ?lookup_insert_ne by done.
Qed.

(** The cursor after the entry of [o]: nothing else changed, and without erasing the entry is gone
    from the list, and from the map when it is spent. *)
Record advanced (c : CoinsViewCacheCursor) (pre : list COutPoint) (o : COutPoint) (rem : list COutPoint)
    (e : CCoinsCacheEntry) (c' : CoinsViewCacheCursor) : Prop := {
  advanced_erase : m_will_erase c' = m_will_erase c;
  advanced_linked : linked (m_map c') (if m_will_erase c then pre ++ o :: rem else rem);
  advanced_other : forall o', o' <> o -> entries (m_map c') !! o' = entries (m_map c) !! o';
  advanced_this : if m_will_erase c then is_Some (entries (m_map c') !! o)
                  else entries (m_map c') !! o = if IsSpent (coin e) then None else Some (coin e, 0) }.

Lemma NextAndMaybeErase_advanced c pre o rem e :
  linked (m_map c) (pre ++ o :: rem) -> (m_will_erase c = false -> pre = []) -> cacheCoins (m_map c) !! o = Some e ->
  exists c', NextAndMaybeErase c o = Some (c', head_ptr rem) /\ advanced c pre o rem e c'.
Proof.
  intros Hm Hpre E. unfold NextAndMaybeErase. simpl deref. rewrite E. unfold Next.
  destruct (Z.eqb_spec (m_flags e) 0) as [E0|E0].
  { exfalso. revert E0. apply (linked_flagged _ _ Hm o e E). set_solver. }
  simpl. rewrite (linked_next _ _ _ _ _ Hm E). destruct (m_will_erase c) eqn:We.
  - eexists. split; [done|]. split; simpl; rewrite ?We; try done. apply is_some_entries. by exists e.
  - rewrite Hpre in Hm by done. simpl in Hm. pose proof (linked_nodup _ _ Hm) as [Ho _]%list.NoDup_cons.
    assert (Hf : filter (.≠ o) (o :: rem) = rem) by (rewrite filter_cons_False, filter_ne_id by tauto; done).
    destruct (IsSpent (coin e)) eqn:Es.
    + destruct (erase_linked _ _ o Hm) as (m' & -> & Hm' & En); [by exists e|].
      eexists. split; [done|]. rewrite Hf in Hm'. split; simpl; rewrite ?We, ?Es; try done.
      * intros o' Hne. by rewrite En, lookup_delete_ne.
      * by rewrite En, lookup_delete_eq.
    + destruct (SetClean_linked _ _ o e Hm E) as (m' & -> & Hm' & En).
      eexists. split; [done|]. rewrite Hf in Hm'. split; simpl; rewrite ?We, ?Es; try done.
      * intros o' Hne. by rewrite En, lookup_insert_ne.
      * by rewrite En, lookup_insert_eq.
Qed.

(** Taking the coin first makes no difference to the cursor. *)
Lemma take_coin_advanced c pre o rem e :
  linked (m_map c) (pre ++ o :: rem) -> (m_will_erase c = false -> pre = []) -> cacheCoins (m_map c) !! o = Some e ->
  exists c1 c', take_coin c o e = Some (c1, coin e) /\ NextAndMaybeErase c1 o = Some (c', head_ptr rem) /\
    advanced c pre o rem e c'.
Proof.
  intros Hm Hpre E. unfold take_coin. destruct (WillErase c e) eqn:We.
  - destruct (set_coin_linked _ _ o e (moved_from (coin e)) Hm E) as (m1 & -> & Hm1 & En1).
    set (c1 := {| m_map := m1; m_will_erase := m_will_erase c |}).
    assert (exists e1, cacheCoins m1 !! o = Some e1 /\ coin e1 = moved_from (coin e)) as (e1 & E1 & Ec1).
    { pose proof (f_equal (lookup o) En1) as H. rewrite entries_lookup, lookup_insert_eq in H. simpl in H.
      destruct (cacheCoins m1 !! o) as [e1|]; [|done]. simpl in H. exists e1. by simplify_eq. }
    destruct (NextAndMaybeErase_advanced c1 pre o rem e1 Hm1 Hpre E1) as (c' & H' & [A1 A2 A3 A4]).
    exists c1, c'. split_and!; [done|done|]. split; try done.
    + intros o' Hne. rewrite A3 by done. simpl. by rewrite En1, lookup_insert_ne.
    + simpl in A4. rewrite Ec1 in A4. unfold WillErase in We.
      destruct (m_will_erase c); [done|]. simpl in We. rewrite We. change (IsSpent (moved_from (coin e))) with (IsSpent (coin e)) in A4.
      by rewrite We in A4.
  - destruct (NextAndMaybeErase_advanced c pre o rem e Hm Hpre E) as (c' & H' & A). by exists c, c'.
Qed.

(** The map after a whole pass without erasing. *)
Definition synced_entry (e : Coin * Z) : option (Coin * Z) :=
  if e.2 =? 0 then Some e else if IsSpent e.1 then None else Some (e.1, 0).
Definition synced (E : gmap COutPoint (Coin * Z)) : gmap COutPoint (Coin * Z) := omap synced_entry E.

(** A pass over all the flagged entries of [c] that left [c']. *)
Record passed (c c' : CoinsViewCacheCursor) : Prop := {
  passed_erase : m_will_erase c' = m_will_erase c;
  passed_linked : exists l, linked (m_map c') l /\ (m_will_erase c = false -> l = []);
  passed_synced : m_will_erase c = false -> entries (m_map c') = synced (entries (m_map c)) }.

Section Pass.
Context {S : Type} (body : S -> CoinsViewCacheCursor -> COutPoint -> option (S * CoinsViewCacheCursor * pair_ptr)).
Context (I : S -> Prop) (R : S -> gmap COutPoint Coin) (E0 : gmap COutPoint (Coin * Z)).

(** Whether the receiver relies on [FRESH]: that it does not have the coin. *)
Context (relies : bool).

(** [E0] are the entries at the start of the pass. *)
Hypothesis body_ok : forall s c pre o rem e,
  E0 !! o = Some (coin e, m_flags e) -> I s -> linked (m_map c) (pre ++ o :: rem) -> (m_will_erase c = false -> pre = []) ->
  cacheCoins (m_map c) !! o = Some e -> (relies = true -> is_fresh (m_flags e) = true -> R s !! o = None) ->
  exists s' c', body s c o = Some (s', c', head_ptr rem) /\ I s' /\
    R s' = write_one o (coin e, m_flags e) (R s) /\ advanced c pre o rem e c'.

(** Both ends of the pass, entry by entry. *)
Lemma for_flagged_from rem s c pre fuel :
  (length rem < fuel)%nat -> I s -> linked (m_map c) (pre ++ rem) -> (m_will_erase c = false -> pre = []) ->
  (forall o, o ∈ rem -> entries (m_map c) !! o = E0 !! o) ->
  (forall o x f, o ∈ rem -> entries (m_map c) !! o = Some (x, f) -> relies = true -> is_fresh f = true -> R s !! o = None) ->
  exists s' c', for_flagged fuel body s c (head_ptr rem) = Some (s', c') /\ I s' /\
    m_will_erase c' = m_will_erase c /\
    linked (m_map c') (if m_will_erase c then pre ++ rem else []) /\
    forall o,
      R s' !! o = (if decide (o ∈ rem) then write_entry (entries (m_map c) !! o) (R s !! o) else R s !! o) /\
      (m_will_erase c = false -> entries (m_map c') !! o =
         if decide (o ∈ rem) then entries (m_map c) !! o ≫= synced_entry else entries (m_map c) !! o).
Proof.
  revert s c pre fuel. induction rem as [|o rem IH]; intros s c pre fuel Hf Is Hm Hpre HE0 Hfresh;
    (destruct fuel as [|fuel]; [simpl in Hf; lia|]); simpl.
  - exists s, c. split_and!; try done.
    destruct (m_will_erase c); [done|]. by rewrite Hpre in Hm.
  - destruct (linked_dom _ _ o Hm) as [e E]; [set_solver|].
    assert (Ee : entries (m_map c) !! o = Some (coin e, m_flags e)) by (rewrite entries_lookup; simpl; by rewrite E).
    destruct (body_ok s c pre o rem e) as (s1 & c1 & Eb & Is1 & HR1 & [A1 A2 A3 A4]); try done.
    { rewrite <- HE0; [done|by left]. }
    { intros Hrel H. apply (Hfresh o (coin e) (m_flags e)); [by left|done..]. }
    rewrite Eb. pose proof (linked_nodup _ _ Hm) as (_ & _ & (Ho & _)%list.NoDup_cons)%list.NoDup_app.
    assert (R1 : forall o', o' <> o -> R s1 !! o' = R s !! o').
    { intros o' Hne. by rewrite HR1, write_one_lookup, decide_False. }
    destruct (IH s1 c1 (if m_will_erase c then pre ++ [o] else []) fuel)
      as (s' & c' & Ef & Is' & We' & Hm' & Hlook); try done.
    + simpl in Hf. lia.
    + destruct (m_will_erase c); [by rewrite <- app_assoc|done].
    + rewrite A1. by intros ->.
    + intros o' Ho'. rewrite A3 by (by intros ->). apply HE0. by right.
    + intros o' x f Ho' Ex Hrel Hx. rewrite R1 by (by intros ->). apply (Hfresh o' x f); [by right| |done..].
      by rewrite <- A3 by (by intros ->).
    + exists s', c'. rewrite A1 in *. split_and!; try done.
      { by destruct (m_will_erase c); [rewrite <- app_assoc in Hm'|]. }
      intros o'. destruct (Hlook o') as [L1 L2]. rewrite L1. clear L1.
      assert (Hno : m_flags e <> 0) by (apply (linked_flagged _ _ Hm o e E); set_solver).
      destruct (decide (o' = o)) as [->|Hne].
      * rewrite (decide_False (P := o ∈ rem)), (decide_True (P := o ∈ o :: rem)) by (done || by left).
        rewrite HR1, write_one_lookup, decide_True, Ee by done. split; [done|]. intros We. specialize (L2 We).
        rewrite (decide_False (P := o ∈ rem)) in L2 by done. rewrite We in A4. rewrite L2, A4, (decide_True (P := o ∈ o :: rem)) by (by left). simpl.
        unfold synced_entry. simpl. by rewrite (proj2 (Z.eqb_neq _ _) Hno).
      * assert (Hin : o' ∈ o :: rem <-> o' ∈ rem) by set_solver.
        by rewrite R1, <- (A3 o' Hne), !(decide_ext (o' ∈ o :: rem) (o' ∈ rem) _ _ Hin).
Qed.

Lemma for_flagged_pass s c l :
  entries (m_map c) = E0 -> I s -> linked (m_map c) l ->
  (forall o x f, entries (m_map c) !! o = Some (x, f) -> relies = true -> is_fresh f = true -> R s !! o = None) ->
  exists first s' c', Begin c = Some first /\ for_flagged (cursor_fuel c) body s c first = Some (s', c') /\
    I s' /\ R s' = written (entries (m_map c)) (R s) /\ passed c c'.
Proof.
  intros HE0 Is Hm Hfresh. unfold Begin, Next. exists (head_ptr l).
  destruct (Z.eqb_spec (m_flags (m_sentinel (m_map c))) 0) as [H|_]; [by apply (linked_sentinel _ _ Hm) in H|].
  destruct (for_flagged_from l s c [] (cursor_fuel c)) as (s' & c' & Ef & Is' & We & Hm' & Hlook); try done.
  { pose proof (linked_length _ _ Hm). unfold cursor_fuel. lia. }
  { intros o _. by rewrite HE0. }
  { intros o x f _. apply Hfresh. }
  assert (Hfl : forall o x f, entries (m_map c) !! o = Some (x, f) -> o ∉ l -> f = 0).
  { intros o x f. rewrite entries_lookup. simpl. destruct (cacheCoins (m_map c) !! o) as [e|] eqn:E; [|done].
    simpl. intros [= <- <-] Ho. destruct (Z.eq_dec (m_flags e) 0); [done|]. destruct Ho.
    by apply (linked_flagged _ _ Hm o e E). }
  exists s', c'. rewrite (linked_first _ _ Hm). split_and!; try done.
  - apply map_eq. intros o. rewrite (proj1 (Hlook o)), written_lookup. case_decide as Ho; [done|].
    destruct (entries (m_map c) !! o) as [[x f]|] eqn:E; [|done]. by rewrite (Hfl o x f E Ho).
  - split; [done| |].
    + eexists. split; [done|]. by intros ->.
    + intros W. apply map_eq. intros o. rewrite (proj2 (Hlook o) W). unfold synced. rewrite lookup_omap.
      case_decide as Ho; [done|]. destruct (entries (m_map c) !! o) as [[x f]|] eqn:E; [|done].
      rewrite (Hfl o x f E Ho). done.
Qed.
End Pass.

(** ** [SanityCheck] *)

Lemma ring_back nx pv k p :
  ring nx pv k -> p ∈ sentinel :: k ->
  (forall y, nx p = Some y -> pv y = Some p) /\ (forall z, pv p = Some z -> nx z = Some p).
Proof.
  intros [Hn Hp] Hin.
  assert (Hat : forall i a b, (sentinel :: k) !! i = Some a -> (k ++ [sentinel]) !! i = Some b ->
                              nx a = Some b /\ pv b = Some a).
  { intros i a b Ha Hb. apply (f_equal (lookup i)) in Hn, Hp.
    change (map ?f ?x) with (f <$> x) in Hn, Hp. rewrite !list_lookup_fmap, Ha, Hb in Hn, Hp. simpl in Hn, Hp.
    by simplify_eq. }
  assert (Hlen : length (sentinel :: k) = length (k ++ [sentinel])) by (rewrite length_app; simpl; lia).
  split.
  - intros y Hy. apply list_elem_of_lookup in Hin as [i Hi].
    destruct (lookup_lt_is_Some_2 (k ++ [sentinel]) i) as [b Hb]; [rewrite <- Hlen; by eapply lookup_lt_Some|].
    destruct (Hat i p b Hi Hb). by simplify_eq.
  - intros z Hz. assert (Hin' : p ∈ k ++ [sentinel]) by set_solver. apply list_elem_of_lookup in Hin' as [i Hi].
    destruct (lookup_lt_is_Some_2 (sentinel :: k) i) as [a Ha]; [rewrite Hlen; by eapply lookup_lt_Some|].
    destruct (Hat i a p Ha Hi). by simplify_eq.
Qed.

Lemma Next_Prev_flagged e : m_flags e <> 0 -> Next e = Some (m_next e) /\ Prev e = Some (m_prev e).
Proof. intros H. unfold Next, Prev. by rewrite (proj2 (Z.eqb_neq _ _) H). Qed.

Lemma check_link_linked m l o e :
  linked m l -> o ∈ l -> cacheCoins m !! o = Some e -> is_flagged e = true -> check_link m (pair_at o) = Some e.
Proof.
  intros Hm Ho E Hf. apply node_in in Ho. unfold check_link. simpl deref at 1. rewrite E.
  destruct (linked_in _ _ Hm _ Ho) as (e' & E' & Hfl & Hy & Hz). simpl in E'. simplify_eq.
  destruct (linked_in _ _ Hm _ Hy) as (ey & Ey & Hfy & _), (linked_in _ _ Hm _ Hz) as (ez & Ez & Hfz & _).
  destruct (ring_back _ _ _ _ (linked_ring _ _ Hm) Ho) as [Hback Hforth].
  assert (Hpy : m_prev ey = pair_at o).
  { specialize (Hback (m_next e)). unfold nxt, prv in Hback. simpl in Hback. rewrite E, Ey in Hback.
    specialize (Hback eq_refl). by injection Hback. }
  assert (Hnz : m_next ez = pair_at o).
  { specialize (Hforth (m_prev e)). unfold nxt, prv in Hforth. simpl in Hforth. rewrite E, Ez in Hforth.
    specialize (Hforth eq_refl). by injection Hforth. }
  rewrite (proj1 (Next_Prev_flagged e Hfl)), Ey, (proj2 (Next_Prev_flagged ey Hfy)), Hpy.
  rewrite bool_decide_eq_true_2 by done.
  rewrite (proj2 (Next_Prev_flagged e Hfl)), Ez, (proj1 (Next_Prev_flagged ez Hfz)), Hnz.
  by rewrite bool_decide_eq_true_2, Hf.
Qed.

Section Sane.
Context (m : CCoinsMap) (l : list COutPoint) (Hm : linked m l).
Hypothesis Hflag : forall o e, cacheCoins m !! o = Some e -> (m_flags e <> 0 <-> is_flagged e = true).

Lemma count_linked_ok l1 l2 fuel :
  l = l1 ++ l2 -> (length l2 < fuel)%nat -> count_linked fuel m (head_ptr l2) = Some (length l2).
Proof.
  revert l1 fuel. induction l2 as [|o l2 IH]; intros l1 fuel El Hf; (destruct fuel as [|fuel]; [simpl in Hf; lia|]); simpl.
  - done.
  - assert (Ho : o ∈ l) by (rewrite El; set_solver).
    destruct (linked_dom _ _ o Hm Ho) as [e E]. pose proof (linked_flagged _ _ Hm o e E) as Hfl.
    rewrite (check_link_linked m l o e) by (done || by apply (Hflag o e E), Hfl).
    rewrite (proj1 (Next_Prev_flagged e (proj1 Hfl Ho))).
    subst l. rewrite (linked_next m l1 o l2 e Hm E).
    rewrite (IH (l1 ++ [o]) fuel); [done|by rewrite <- app_assoc|simpl in Hf; lia].
Qed.

Lemma count_flagged_ok :
  length (filter (fun e => is_flagged e = true) (map snd (map_to_list (cacheCoins m)))) = length l.
Proof.
  set (kept := filter (fun p : COutPoint * CCoinsCacheEntry => is_flagged p.2 = true) (map_to_list (cacheCoins m))).
  assert (E : filter (fun e => is_flagged e = true) (map snd (map_to_list (cacheCoins m))) = map snd kept).
  { unfold kept. generalize (map_to_list (cacheCoins m)) as x. intros x. induction x as [|[o e] x IH]; [done|].
    simpl. rewrite !filter_cons. simpl. case_decide; simpl; by rewrite IH. }
  rewrite E, length_map, <- (length_map fst kept). apply Permutation_length, NoDup_Permutation.
  - apply (NoDup_fmap_fst kept).
    + intros o e1 e2 [_ H1]%list_elem_of_filter [_ H2]%list_elem_of_filter.
      apply elem_of_map_to_list in H1, H2. by simplify_eq.
    + apply list.NoDup_filter, NoDup_map_to_list.
  - apply Hm.
  - intros o. split.
    + intros ([o' e] & -> & [Hf H]%list_elem_of_filter)%list_elem_of_fmap. apply elem_of_map_to_list in H.
      by apply (linked_flagged _ _ Hm o' e H), (Hflag o' e H).
    + intros Ho. destruct (linked_dom _ _ o Hm Ho) as [e H]. apply list_elem_of_fmap. exists (o, e). split; [done|].
      apply list_elem_of_filter. split; [|by apply elem_of_map_to_list].
      by apply (Hflag o e H), (linked_flagged _ _ Hm o e H).
Qed.

Lemma SanityCheck_linked :
  (forall o e, cacheCoins m !! o = Some e -> attr_ok e = true) -> SanityCheck m = Some tt.
Proof.
  intros Hattr. unfold SanityCheck.
  replace (forallb attr_ok _) with true.
  - rewrite (proj1 (Next_Prev_flagged _ (linked_sentinel _ _ Hm))), (linked_first _ _ Hm).
    rewrite (count_linked_ok [] l); [|done|pose proof (linked_length _ _ Hm); lia].
    by rewrite count_flagged_ok, bool_decide_eq_true_2.
  - symmetry. apply forallb_forall. intros e He. apply list_elem_of_In in He.
    apply list_elem_of_fmap in He as ([o e'] & -> & He%elem_of_map_to_list). by apply (Hattr o).
Qed.
End Sane.

(** ** The operations on the map without its pointers *)

Definition ok_map (m : CCoinsMap) : Prop := exists l, linked m l.

Lemma entries_some m o x f :
  entries m !! o = Some (x, f) -> exists e, cacheCoins m !! o = Some e /\ coin e = x /\ m_flags e = f.
Proof.
  rewrite entries_lookup. simpl. destruct (cacheCoins m !! o) as [e|]; [|done]. intros [= <- <-]. by exists e.
Qed.

Lemma entries_none m o : entries m !! o = None <-> cacheCoins m !! o = None.
Proof. rewrite entries_lookup. simpl. apply fmap_None. Qed.

Section Ops.
Context (m : CCoinsMap) (Hm : ok_map m) (o : COutPoint).

Lemma ok_AddFlags x f flags :
  entries m !! o = Some (x, f) -> flags = DIRTY \/ flags = FRESH ->
  exists m', AddFlags flags (pair_at o) m = Some m' /\ ok_map m' /\ entries m' = <[o := (x, Z.lor f flags)]> (entries m).
Proof.
  intros (e & E & <- & <-)%entries_some Hf. destruct Hm as [l Hl].
  destruct (AddFlags_linked m l flags o e Hl E Hf) as (m' & E' & Hl' & En). exists m'. split_and!; [done| |done].
  by eexists.
Qed.

Lemma ok_erase : is_Some (entries m !! o) -> exists m', erase o m = Some m' /\ ok_map m' /\ entries m' = delete o (entries m).
Proof.
  intros E%is_some_entries. destruct Hm as [l Hl]. destruct (erase_linked m l o Hl E) as (m' & E' & Hl' & En).
  exists m'. split_and!; [done| |done]. by eexists.
Qed.

Lemma ok_set_coin x f c :
  entries m !! o = Some (x, f) ->
  exists m', assign m (pair_at o) (set_coin c) = Some m' /\ ok_map m' /\ entries m' = <[o := (c, f)]> (entries m).
Proof.
  intros (e & E & <- & <-)%entries_some. destruct Hm as [l Hl].
  destruct (set_coin_linked m l o e c Hl E) as (m' & E' & Hl' & En). exists m'. split_and!; [done| |done].
  by eexists.
Qed.

Lemma ok_emplace c :
  entries m !! o = None ->
  ok_map (with_coins m (<[o := new_entry c]> (cacheCoins m))) /\
  entries (with_coins m (<[o := new_entry c]> (cacheCoins m))) = <[o := (c, 0)]> (entries m).
Proof.
  intros E%entries_none. destruct Hm as [l Hl]. destruct (emplace_linked m l o c Hl E). split; [by eexists|done].
Qed.
End Ops.
