(* ===== verification/Coins.v ===== *)
(** The cache of unspent outputs: [CCoinsView] and [CCoinsViewCache] of [src/src/coins.h] and
    [src/src/coins.cpp].

    A view is any type with the operations of the abstract class; [CoinsViewLaws] states what a
    view promises to the cache above it, and the cache is proved to keep the same promises.  A
    getter of a cache also fills it, so every operation returns the new state.  [None] is a failed
    assertion or a thrown [std::logic_error]. *)

From S2P Require Import Prelude Params Primitives Serialize Block Script CoinsMap.

#[local] Open Scope Z_scope.
#[local] Open Scope qbit_scope.

(** ** Views *)

Class CCoinsView (V : Type) := {
  GetCoin : V -> COutPoint -> option (V * option Coin);
  HaveCoin : V -> COutPoint -> option (V * bool);
  GetBestBlock : V -> V * uint256;
  BatchWrite : V -> CoinsViewCacheCursor -> uint256 -> option (V * CoinsViewCacheCursor * bool) }.

(** [CCoinsViewCache] over a view of type [V]. *)
Record CCoinsViewCache (V : Type) := { base : V; hashBlock : uint256; cache : CCoinsMap }.
Arguments base {V} _.
Arguments hashBlock {V} _.
Arguments cache {V} _.
Arguments Build_CCoinsViewCache {V} _ _ _.

Section Cache.
Context {V : Type} `{CCoinsView V}.

Abbreviation Cache := (CCoinsViewCache V).

(** The constructor: a null best block and an empty map. *)
Definition new_cache (baseIn : V) : Cache := Build_CCoinsViewCache baseIn (replicate 32 0) empty_map.

Definition with_cache (this : Cache) (m : CCoinsMap) : Cache := Build_CCoinsViewCache (base this) (hashBlock this) m.

Definition emplace (m : CCoinsMap) (o : COutPoint) (c : Coin) : CCoinsMap :=
  with_coins m (<[o := new_entry c]> (cacheCoins m)).

(** The iterator returned is the entry it points to, or [None] for [end()]. *)
Definition FetchCoin (this : Cache) (outpoint : COutPoint) : option (Cache * option CCoinsCacheEntry) :=
  match cacheCoins (cache this) !! outpoint with
  | Some ret => Some (this, Some ret)
  | None =>
      let m := emplace (cache this) outpoint coinEmpty in
      let! '(b, found) := GetCoin (base this) outpoint in
      match found with
      | Some coin =>
          let! m := assign m (pair_at outpoint) (set_coin coin) in
          let! m := (if IsSpent coin then SetFresh (pair_at outpoint) m else Some m) in
          let! ret := deref m (pair_at outpoint) in
          Some (Build_CCoinsViewCache b (hashBlock this) m, Some ret)
      | None =>
          let! m := erase outpoint m in
          Some (Build_CCoinsViewCache b (hashBlock this) m, None)
      end
  end.

Definition Cache_GetCoin (this : Cache) (outpoint : COutPoint) : option (Cache * option Coin) :=
  let! '(this, it) := FetchCoin this outpoint in
  Some (this, match it with Some e => if IsSpent (coin e) then None else Some (coin e) | None => None end).

Definition AddCoin (this : Cache) (outpoint : COutPoint) (c : Coin) (possible_overwrite : bool) : option Cache :=
  assert! negb (IsSpent c);
  if IsUnspendable (scriptPubKey (out c)) then Some this
  else
    let m := (match cacheCoins (cache this) !! outpoint with
              | Some _ => cache this
              | None => emplace (cache this) outpoint coinEmpty
              end) in
    let! it := deref m (pair_at outpoint) in
    let! fresh :=
      (if possible_overwrite then Some false
       else
         (* throws when an unspent coin would be overwritten *)
         assert! IsSpent (coin it);
         Some (negb (IsDirty it))) in
    let! m := assign m (pair_at outpoint) (set_coin c) in
    let! m := SetDirty (pair_at outpoint) m in
    let! m := (if fresh then SetFresh (pair_at outpoint) m else Some m) in
    Some (with_cache this m).

Definition EmplaceCoinInternalDANGER (this : Cache) (outpoint : COutPoint) (c : Coin) : option Cache :=
  match cacheCoins (cache this) !! outpoint with
  | Some _ => Some this
  | None => let! m := SetDirty (pair_at outpoint) (emplace (cache this) outpoint c) in Some (with_cache this m)
  end.

(** Returns the coin moved out, or [None] for [false]. *)
Definition SpendCoin (this : Cache) (outpoint : COutPoint) : option (Cache * option Coin) :=
  let! '(this, it) := FetchCoin this outpoint in
  match it with
  | None => Some (this, None)
  | Some it =>
      let! m := assign (cache this) (pair_at outpoint) (set_coin (moved_from (coin it))) in
      let! m :=
        (if IsFresh it then erase outpoint m
         else
           let! m := SetDirty (pair_at outpoint) m in
           assign m (pair_at outpoint) (set_coin coinEmpty)) in
      Some (with_cache this m, Some (coin it))
  end.

Definition AccessCoin (this : Cache) (outpoint : COutPoint) : option (Cache * Coin) :=
  let! '(this, it) := FetchCoin this outpoint in
  Some (this, match it with Some e => coin e | None => coinEmpty end).

Definition Cache_HaveCoin (this : Cache) (outpoint : COutPoint) : option (Cache * bool) :=
  let! '(this, it) := FetchCoin this outpoint in
  Some (this, match it with Some e => negb (IsSpent (coin e)) | None => false end).

Definition HaveCoinInCache (this : Cache) (outpoint : COutPoint) : bool :=
  match cacheCoins (cache this) !! outpoint with Some e => negb (IsSpent (coin e)) | None => false end.

Definition Cache_GetBestBlock (this : Cache) : Cache * uint256 :=
  if uint256_IsNull (hashBlock this) then
    let '(b, h) := GetBestBlock (base this) in (Build_CCoinsViewCache b h (cache this), h)
  else (this, hashBlock this).

Definition SetBestBlock (this : Cache) (hashBlockIn : uint256) : Cache :=
  Build_CCoinsViewCache (base this) hashBlockIn (cache this).

(** One entry of the child: the body of the loop of [BatchWrite], on the map of the parent. *)
Definition write_child (us : CCoinsMap) (cursor : CoinsViewCacheCursor) (o : COutPoint)
  : option (CCoinsMap * CoinsViewCacheCursor * pair_ptr) :=
  let! it := deref (m_map cursor) (pair_at o) in
  let! '(us, cursor) :=
    (if negb (IsDirty it) then Some (us, cursor)
     else
       match cacheCoins us !! o with
       | None =>
           if IsFresh it && IsSpent (coin it) then Some (us, cursor)
           else
             let us := emplace us o coinEmpty in
             let! '(cursor, c) := take_coin cursor o it in
             let! us := assign us (pair_at o) (set_coin c) in
             let! us := SetDirty (pair_at o) us in
             let! us := (if IsFresh it then SetFresh (pair_at o) us else Some us) in
             Some (us, cursor)
       | Some itUs =>
           (* throws when the FRESH flag was misapplied *)
           assert! negb (IsFresh it && negb (IsSpent (coin itUs)));
           if IsFresh itUs && IsSpent (coin it) then
             let! us := erase o us in Some (us, cursor)
           else
             let! '(cursor, c) := take_coin cursor o it in
             let! us := assign us (pair_at o) (set_coin c) in
             let! us := SetDirty (pair_at o) us in
             Some (us, cursor)
       end) in
  let! '(cursor, next) := NextAndMaybeErase cursor o in
  Some (us, cursor, next).

Definition Cache_BatchWrite (this : Cache) (cursor : CoinsViewCacheCursor) (hashBlockIn : uint256)
  : option (Cache * CoinsViewCacheCursor * bool) :=
  let! it := Begin cursor in
  let! '(us, cursor) := for_flagged (cursor_fuel cursor) write_child (cache this) cursor it in
  Some (Build_CCoinsViewCache (base this) hashBlockIn us, cursor, true).

(** [ReallocateCache]: a new empty map in place of the cleared one. *)
Definition ReallocateCache (m : CCoinsMap) : option CCoinsMap :=
  assert! (size (cacheCoins m) =? 0)%nat; Some (with_coins m ∅).

Definition Flush (this : Cache) : option (Cache * bool) :=
  let! '(b, cursor, fOk) := BatchWrite (base this) {| m_map := cache this; m_will_erase := true |} (hashBlock this) in
  let! m := (if (fOk : bool) then (let! m := clear (m_map cursor) in ReallocateCache m) else Some (m_map cursor)) in
  Some (Build_CCoinsViewCache b (hashBlock this) m, fOk).

Definition Sync (this : Cache) : option (Cache * bool) :=
  let! '(b, cursor, fOk) := BatchWrite (base this) {| m_map := cache this; m_will_erase := false |} (hashBlock this) in
  let this := Build_CCoinsViewCache b (hashBlock this) (m_map cursor) in
  if (fOk : bool) then
    let! next := Next (m_sentinel (m_map cursor)) in
    (* throws when not all flags were cleared *)
    assert! bool_decide (next = sentinel); Some (this, true)
  else Some (this, false).

Definition Uncache (this : Cache) (o : COutPoint) : option Cache :=
  match cacheCoins (cache this) !! o with
  | Some it =>
      if negb (IsDirty it) && negb (IsFresh it)
      then let! m := erase o (cache this) in Some (with_cache this m)
      else Some this
  | None => Some this
  end.

Definition GetCacheSize (this : Cache) : nat := size (cacheCoins (cache this)).

Fixpoint have_all (this : Cache) (ins : list CTxIn) : option (Cache * bool) :=
  match ins with
  | [] => Some (this, true)
  | i :: ins =>
      let! '(this, have) := Cache_HaveCoin this (prevout i) in
      if negb have then Some (this, false) else have_all this ins
  end.

Definition HaveInputs (this : Cache) (tx : CTransaction) : option (Cache * bool) :=
  if IsCoinBase tx then Some (this, true) else have_all this (vin tx).

(** The outputs from index [i] on; the index of an outpoint has 32 bits. *)
Fixpoint add_outputs (this : Cache) (txid : uint256) (outs : list CTxOut) (i : Z) (nHeight : Z)
    (fCoinbase check_for_overwrite : bool) : option Cache :=
  match outs with
  | [] => Some this
  | o :: outs =>
      let outpoint := {| op_hash := txid; op_n := wrap 32 i |} in
      let! '(this, overwrite) :=
        (if check_for_overwrite then Cache_HaveCoin this outpoint else Some (this, fCoinbase)) in
      let! this := AddCoin this outpoint (make_Coin o nHeight fCoinbase) overwrite in
      add_outputs this txid outs (i + 1) nHeight fCoinbase check_for_overwrite
  end.

Definition AddCoins (this : Cache) (tx : CTransaction) (nHeight : Z) (check_for_overwrite : bool) : option Cache :=
  add_outputs this (GetHash tx) (vout tx) 0 nHeight (IsCoinBase tx) check_for_overwrite.

End Cache.

(** A cache is a view. *)
#[export] Instance CCoinsViewCache_view {V} `{CCoinsView V} : CCoinsView (CCoinsViewCache V) := {|
  GetCoin := Cache_GetCoin;
  HaveCoin := Cache_HaveCoin;
  GetBestBlock := Cache_GetBestBlock;
  BatchWrite := Cache_BatchWrite |}.

(** ** What a view promises *)

(** [utxo] is the set of unspent outputs a view represents. *)
Class CoinsViewLaws (V : Type) `{CCoinsView V} := {
  view_ok : V -> Prop;
  utxo : V -> gmap COutPoint Coin;
  best_block : V -> uint256;
  utxo_unspent : forall v o c, view_ok v -> utxo v !! o = Some c -> IsSpent c = false;
  GetCoin_law : forall v o, view_ok v ->
    exists v', GetCoin v o = Some (v', utxo v !! o) /\ view_ok v' /\ utxo v' = utxo v /\ best_block v' = best_block v;
  HaveCoin_law : forall v o, view_ok v ->
    exists v', HaveCoin v o = Some (v', bool_decide (is_Some (utxo v !! o))) /\
      view_ok v' /\ utxo v' = utxo v /\ best_block v' = best_block v;
  GetBestBlock_law : forall v, view_ok v ->
    exists v', GetBestBlock v = (v', best_block v) /\ view_ok v' /\ utxo v' = utxo v /\ best_block v' = best_block v;
  BatchWrite_law : forall v c h, view_ok v -> ok_map (m_map c) -> uint256_IsNull h = false ->
    (forall o x f, entries (m_map c) !! o = Some (x, f) -> is_fresh f = true -> utxo v !! o = None) ->
    exists v' c', BatchWrite v c h = Some (v', c', true) /\ view_ok v' /\
      utxo v' = written (entries (m_map c)) (utxo v) /\ best_block v' = h /\ passed c c' }.

(** ** The invariant of a cache *)

Definition CLEAN : Z := 0.
Definition DIRTY_FRESH : Z := Z.lor DIRTY FRESH.

(** Against the coins [B] of the base, an entry is an unmodified copy, a modification, or a coin
    the base does not have. *)
Definition entry_inv (B : gmap COutPoint Coin) (o : COutPoint) (e : Coin * Z) : Prop :=
  (e.2 = CLEAN /\ IsSpent e.1 = false /\ B !! o = Some e.1) \/ e.2 = DIRTY \/
  (e.2 = DIRTY_FRESH /\ IsSpent e.1 = false /\ B !! o = None).

(** Finds the case of the invariant that an entry with concrete flags is in. *)
Ltac entry_state := first [right; left; reflexivity | right; right; split_and!; [reflexivity|done|done]].

Definition entries_inv (B : gmap COutPoint Coin) (E : gmap COutPoint (Coin * Z)) : Prop :=
  map_Forall (entry_inv B) E.

(** The coins seen through the entries [E] over [B]. *)
Definition seen_entry (e : option (Coin * Z)) (b : option Coin) : option Coin :=
  match e with Some (c, _) => if IsSpent c then None else Some c | None => b end.
Definition seen (E : gmap COutPoint (Coin * Z)) (B : gmap COutPoint Coin) : gmap COutPoint Coin := merge seen_entry E B.

Lemma seen_lookup E B o : seen E B !! o = seen_entry (E !! o) (B !! o).
Proof. unfold seen. rewrite lookup_merge. by destruct (E !! o), (B !! o). Qed.

(** Writing the dirty entries to the base gives the coins seen through the cache. *)
Lemma written_seen E B : entries_inv B E -> written E B = seen E B.
Proof.
  intros HE. apply map_eq. intros o. rewrite written_lookup, seen_lookup.
  destruct (E !! o) as [[c f]|] eqn:Eo; [|done]. simpl.
  destruct (HE o _ Eo) as [(Ef & Hs & HB)|[Ef|(Ef & Hs & HB)]]; simpl in *; subst f; [|done..]. by rewrite HB, Hs.
Qed.

Lemma inv_insert B E o e : entries_inv B E -> entry_inv B o e -> entries_inv B (<[o := e]> E).
Proof. intros HE He. by apply map_Forall_insert_2. Qed.

Lemma inv_delete B E o : entries_inv B E -> entries_inv B (delete o E).
Proof. apply map_Forall_delete. Qed.

Lemma seen_insert E B o c f :
  seen (<[o := (c, f)]> E) B = if IsSpent c then delete o (seen E B) else <[o := c]> (seen E B).
Proof.
  apply map_eq. intros o'. rewrite seen_lookup. destruct (decide (o' = o)) as [->|Hne].
  - rewrite lookup_insert_eq. simpl. destruct (IsSpent c); by rewrite ?lookup_delete_eq, ?lookup_insert_eq.
  - rewrite lookup_insert_ne by done.
    destruct (IsSpent c); by rewrite ?lookup_delete_ne, ?lookup_insert_ne, seen_lookup by done.
Qed.

(** Forgetting an entry shows the base again. *)
Lemma seen_delete E B o : B !! o = None -> seen (delete o E) B = delete o (seen E B).
Proof.
  intros HB. apply map_eq. intros o'. rewrite seen_lookup. destruct (decide (o' = o)) as [->|Hne].
  - by rewrite !lookup_delete_eq.
  - by rewrite !lookup_delete_ne, seen_lookup by done.
Qed.

(** An entry that agrees with what is seen changes nothing. *)
Lemma seen_same E E' B :
  (forall o, E' !! o <> E !! o -> seen_entry (E' !! o) (B !! o) = seen_entry (E !! o) (B !! o)) -> seen E' B = seen E B.
Proof.
  intros HE. apply map_eq. intros o. rewrite !seen_lookup.
  destruct (decide (E' !! o = E !! o)) as [->|Hne]; [done|by apply HE].
Qed.

Section CacheLaws.
Context {V : Type} `{CoinsViewLaws V}.
Implicit Types this : CCoinsViewCache V.

Record cache_ok (this : CCoinsViewCache V) : Prop := {
  ok_base : view_ok (base this);
  ok_links : ok_map (cache this);
  ok_entries : entries_inv (utxo (base this)) (entries (cache this)) }.

Definition coins_of (this : CCoinsViewCache V) : gmap COutPoint Coin := seen (entries (cache this)) (utxo (base this)).

(** [this'] is a cache over the same coins, with the same best blocks. *)
Definition same_base (this this' : CCoinsViewCache V) : Prop :=
  utxo (base this') = utxo (base this) /\ best_block (base this') = best_block (base this) /\
  hashBlock this' = hashBlock this.

#[global] Instance same_base_preorder : PreOrder same_base.
Proof. split; [done|]. intros x y z (A1 & A2 & A3) (B1 & B2 & B3). split_and!; congruence. Qed.

Lemma coins_lookup this o : coins_of this !! o = seen_entry (entries (cache this) !! o) (utxo (base this) !! o).
Proof. apply seen_lookup. Qed.

Lemma coins_unspent this o c : cache_ok this -> coins_of this !! o = Some c -> IsSpent c = false.
Proof.
  intros Hok. rewrite coins_lookup. destruct (entries (cache this) !! o) as [[x f]|]; simpl.
  - destruct (IsSpent x) eqn:E; [done|]. by intros [= <-].
  - apply utxo_unspent, Hok.
Qed.

Lemma FetchCoin_ok this o :
  cache_ok this ->
  exists this' it, FetchCoin this o = Some (this', it) /\ cache_ok this' /\ coins_of this' = coins_of this /\
    same_base this this' /\ it = cacheCoins (cache this') !! o /\ (it = None -> coins_of this !! o = None).
Proof.
  intros Hok. unfold FetchCoin. destruct (cacheCoins (cache this) !! o) as [e|] eqn:E.
  { exists this, (Some e). by rewrite E. }
  apply entries_none in E. destruct Hok as [Hb Hm HE].
  destruct (GetCoin_law (base this) o Hb) as (b & Eb & Hb' & Hu & Hbest). rewrite Eb.
  destruct (ok_emplace (cache this) Hm o coinEmpty E) as [Hm1 E1].
  fold (emplace (cache this) o coinEmpty) in Hm1, E1.
  destruct (utxo (base this) !! o) as [c|] eqn:Eu.
  - pose proof (utxo_unspent _ _ _ Hb Eu) as Hs.
    destruct (ok_set_coin _ Hm1 o coinEmpty 0 c) as (m2 & -> & Hm2 & E2); [by rewrite E1, lookup_insert_eq|].
    rewrite Hs. rewrite E1, insert_insert_eq in E2.
    destruct (entries_some m2 o c 0) as (e & Ee & _); [by rewrite E2, lookup_insert_eq|].
    simpl deref. rewrite Ee. eexists _, _. split; [done|]. unfold coins_of. simpl.
    split_and!; [split| | |done|done]; simpl; rewrite ?Hu, ?E2; try done.
    + apply inv_insert; [done|]. left. by split_and!.
    + rewrite seen_insert, Hs. apply insert_id. by rewrite seen_lookup, E, Eu.
  - destruct (ok_erase _ Hm1 o) as (m2 & -> & Hm2 & E2); [rewrite E1, lookup_insert_eq; by eexists|].
    rewrite E1, delete_insert_id in E2 by done.
    eexists _, _. split; [done|]. unfold coins_of. simpl.
    split_and!; [split| | | |]; simpl; rewrite ?Hu, ?E2; try done.
    + symmetry. apply entries_none. by rewrite E2.
    + intros _. by rewrite seen_lookup, E, Eu.
Qed.

(** The coin behind an iterator, when it is unspent. *)
Lemma fetched_coin this o :
  cache_ok this ->
  (cacheCoins (cache this) !! o = None -> coins_of this !! o = None) ->
  match cacheCoins (cache this) !! o with Some e => if IsSpent (coin e) then None else Some (coin e) | None => None end
  = coins_of this !! o.
Proof.
  intros Hok Hnone. destruct (cacheCoins (cache this) !! o) as [e|] eqn:E; [|by rewrite Hnone].
  rewrite coins_lookup, entries_lookup. simpl. by rewrite E.
Qed.

Lemma Cache_GetCoin_ok this o :
  cache_ok this ->
  exists this', Cache_GetCoin this o = Some (this', coins_of this !! o) /\ cache_ok this' /\
    coins_of this' = coins_of this /\ same_base this this'.
Proof.
  intros Hok. unfold Cache_GetCoin. destruct (FetchCoin_ok this o Hok) as (this' & it & -> & Hok' & Hc & Hb & -> & Hn).
  exists this'. split_and!; try done. rewrite <- Hc in *. by rewrite fetched_coin.
Qed.

Lemma Cache_HaveCoin_ok this o :
  cache_ok this ->
  exists this', Cache_HaveCoin this o = Some (this', bool_decide (is_Some (coins_of this !! o))) /\ cache_ok this' /\
    coins_of this' = coins_of this /\ same_base this this'.
Proof.
  intros Hok. unfold Cache_HaveCoin. destruct (FetchCoin_ok this o Hok) as (this' & it & -> & Hok' & Hc & Hb & -> & Hn).
  exists this'. split_and!; try done. rewrite <- Hc in *. rewrite <- (fetched_coin this' o Hok' Hn).
  destruct (cacheCoins (cache this') !! o) as [e|]; [destruct (IsSpent (coin e))|]; done.
Qed.

(** An absent or spent coin is read as a spent one. *)
Lemma AccessCoin_ok this o :
  cache_ok this ->
  exists this' c, AccessCoin this o = Some (this', c) /\ cache_ok this' /\
    coins_of this' = coins_of this /\ same_base this this' /\
    match coins_of this !! o with Some x => c = x | None => IsSpent c = true end.
Proof.
  intros Hok. unfold AccessCoin. destruct (FetchCoin_ok this o Hok) as (this' & it & -> & Hok' & Hc & Hb & -> & Hn).
  eexists _, _. split; [done|]. split_and!; try done. rewrite <- Hc in *. rewrite <- (fetched_coin this' o Hok' Hn).
  destruct (cacheCoins (cache this') !! o) as [e|]; [|done]. by destruct (IsSpent (coin e)) eqn:Es.
Qed.

Lemma with_cache_ok this m' E' :
  cache_ok this -> ok_map m' -> entries m' = E' -> entries_inv (utxo (base this)) E' ->
  cache_ok (with_cache this m') /\ coins_of (with_cache this m') = seen E' (utxo (base this)) /\
  same_base this (with_cache this m').
Proof. intros [Hb _ _] Hm <- HE. split_and!; [by split|done|done..]. Qed.

(** Storing a coin in an entry and marking it. *)
Lemma store_coin_ok m o x f c (fresh : bool) :
  ok_map m -> entries m !! o = Some (x, f) ->
  exists m1 m2 m3, assign m (pair_at o) (set_coin c) = Some m1 /\ SetDirty (pair_at o) m1 = Some m2 /\
    (if fresh then SetFresh (pair_at o) m2 else Some m2) = Some m3 /\ ok_map m3 /\
    entries m3 = <[o := (c, if fresh then Z.lor (Z.lor f DIRTY) FRESH else Z.lor f DIRTY)]> (entries m).
Proof.
  intros Hm E. destruct (ok_set_coin m Hm o x f c E) as (m1 & E1 & Hm1 & En1).
  destruct (ok_AddFlags m1 Hm1 o c f DIRTY) as (m2 & E2 & Hm2 & En2); [by rewrite En1, lookup_insert_eq|by left|].
  rewrite En1, insert_insert_eq in En2. exists m1, m2. destruct fresh.
  - destruct (ok_AddFlags m2 Hm2 o c (Z.lor f DIRTY) FRESH) as (m3 & E3 & Hm3 & En3);
      [by rewrite En2, lookup_insert_eq|by right|].
    exists m3. rewrite En2, insert_insert_eq in En3. by split_and!.
  - exists m2. by split_and!.
Qed.

(** The entry of a key, creating it when it is absent. *)
Lemma try_emplace_ok m o :
  ok_map m ->
  let m1 := match cacheCoins m !! o with Some _ => m | None => emplace m o coinEmpty end in
  let e := default (coinEmpty, 0) (entries m !! o) in
  ok_map m1 /\ entries m1 = <[o := e]> (entries m).
Proof.
  intros Hm m1 e. subst m1 e. destruct (cacheCoins m !! o) as [x|] eqn:E.
  - split; [done|]. rewrite insert_id; [done|]. rewrite entries_lookup. simpl. by rewrite E.
  - apply entries_none in E. rewrite E. by apply ok_emplace.
Qed.

Lemma AddCoin_ok this o c (overwrite : bool) :
  cache_ok this -> IsSpent c = false -> (overwrite = false -> coins_of this !! o = None) ->
  exists this', AddCoin this o c overwrite = Some this' /\ cache_ok this' /\ same_base this this' /\
    coins_of this' = if IsUnspendable (scriptPubKey (out c)) then coins_of this else <[o := c]> (coins_of this).
Proof.
  intros Hok Hc Hover. unfold AddCoin. rewrite Hc. simpl negb. cbv iota.
  destruct (IsUnspendable (scriptPubKey (out c))); [by exists this|].
  destruct (try_emplace_ok (cache this) o (ok_links _ Hok)) as [Hm1 E1].
  set (m1 := match cacheCoins (cache this) !! o with Some _ => _ | None => _ end) in *.
  destruct (default (coinEmpty, 0) (entries (cache this) !! o)) as [x f] eqn:Ex.
  assert (Eo : entries m1 !! o = Some (x, f)) by (by rewrite E1, lookup_insert_eq).
  destruct (entries_some m1 o x f Eo) as (it & Eit & <- & <-). simpl deref. rewrite Eit.
  rewrite coins_lookup in Hover.
  assert (Hinv : entries (cache this) !! o = Some (coin it, m_flags it) \/
                 (entries (cache this) !! o = None /\ coin it = coinEmpty /\ m_flags it = 0)).
  { destruct (entries (cache this) !! o) as [e|]; simpl in Ex; [left; by rewrite Ex|right; by injection Ex]. }
  pose proof (ok_entries _ Hok o (coin it, m_flags it)) as HE. unfold entry_inv in HE. simpl in HE.
  assert (exists fresh : bool,
    (if overwrite then Some false else assert! IsSpent (coin it); Some (negb (IsDirty it))) = Some fresh /\
    entry_inv (utxo (base this)) o (c, if fresh then Z.lor (Z.lor (m_flags it) DIRTY) FRESH else Z.lor (m_flags it) DIRTY))
    as (fresh & -> & Hinv').
  { unfold IsDirty, entry_inv. simpl. destruct Hinv as [Ei|(Ei & -> & ->)].
    - destruct (HE Ei) as [(-> & Hs & HB)|[->|(-> & Hs & HB)]]; rewrite Ei in Hover; simpl in Hover;
        destruct overwrite; try (exists false; split; [done|entry_state]).
      + rewrite Hs in Hover. by specialize (Hover eq_refl).
      + destruct (IsSpent (coin it)); [|by specialize (Hover eq_refl)]. exists false. split; [done|entry_state].
      + rewrite Hs in Hover. by specialize (Hover eq_refl).
    - rewrite Ei in Hover. simpl in Hover. destruct overwrite; [exists false; split; [done|entry_state]|].
      exists true. split; [done|]. specialize (Hover eq_refl). entry_state. }
  destruct (store_coin_ok m1 o _ _ c fresh Hm1 Eo) as (m2 & m3 & m4 & -> & -> & -> & Hm4 & E4).
  rewrite E1, insert_insert_eq in E4. eexists. split; [done|].
  destruct (with_cache_ok this m4 _ Hok Hm4 E4) as (Hok' & Hco & Hsb).
  { apply inv_insert; [apply Hok|done]. }
  split_and!; [done..|]. rewrite Hco, seen_insert, Hc. done.
Qed.

Lemma SpendCoin_ok this o :
  cache_ok this ->
  exists this' r, SpendCoin this o = Some (this', r) /\ cache_ok this' /\ same_base this this' /\
    coins_of this' = delete o (coins_of this) /\
    match coins_of this !! o with Some c => r = Some c | None => forall c, r = Some c -> IsSpent c = true end.
Proof.
  intros Hok. unfold SpendCoin.
  destruct (FetchCoin_ok this o Hok) as (this1 & it & -> & Hok1 & Hc & Hb & -> & Hn). rewrite <- Hc in *.
  pose proof (fetched_coin this1 o Hok1 Hn) as Hf.
  destruct (cacheCoins (cache this1) !! o) as [it|] eqn:E.
  2: { exists this1, None. rewrite Hn by done. split_and!; try done. symmetry. by apply delete_id, Hn. }
  assert (Ei : entries (cache this1) !! o = Some (coin it, m_flags it)) by (rewrite entries_lookup; simpl; by rewrite E).
  destruct (ok_set_coin _ (ok_links _ Hok1) o _ _ (moved_from (coin it)) Ei) as (m1 & -> & Hm1 & E1).
  assert (Hr : match coins_of this1 !! o with Some c => Some (coin it) = Some c
               | None => forall c, Some (coin it) = Some c -> IsSpent c = true end).
  { rewrite <- Hf. destruct (IsSpent (coin it)) eqn:Es; [|done]. by intros ? [= <-]. }
  assert (exists m2 E2, (if IsFresh it then erase o m1
     else let! m := SetDirty (pair_at o) m1 in assign m (pair_at o) (set_coin coinEmpty)) = Some m2 /\ ok_map m2 /\
     entries m2 = E2 /\ entries_inv (utxo (base this1)) E2 /\ seen E2 (utxo (base this1)) = delete o (coins_of this1))
    as (m2 & E2 & -> & Hm2 & En2 & Hinv & Hseen).
  { pose proof (ok_entries _ Hok1 o _ Ei) as HE. unfold entry_inv in HE. simpl in HE.
    unfold IsFresh. destruct (Z.land (m_flags it) FRESH =? 0) eqn:Ef; simpl negb; cbv iota.
    - destruct (ok_AddFlags m1 Hm1 o (moved_from (coin it)) (m_flags it) DIRTY) as (m2 & E2 & Hm2 & En2);
        [by rewrite E1, lookup_insert_eq|by left|].
      unfold SetDirty. rewrite E2.
      destruct (ok_set_coin m2 Hm2 o (moved_from (coin it)) (Z.lor (m_flags it) DIRTY) coinEmpty) as (m3 & E3 & Hm3 & En3);
        [by rewrite En2, lookup_insert_eq|].
      rewrite En2, E1, !insert_insert_eq in En3.
      exists m3, (entries m3). split_and!; [done..| |]; rewrite En3; [|by rewrite seen_insert].
      apply inv_insert; [apply Hok1|]. right. left. simpl.
      destruct HE as [(-> & _)|[->|(Hf3 & _)]]; [done|done|by rewrite Hf3 in Ef].
    - destruct (ok_erase m1 Hm1 o) as (m2 & E2 & Hm2 & En2); [rewrite E1, lookup_insert_eq; by eexists|].
      rewrite E1, delete_insert_eq in En2. exists m2, (entries m2).
      split_and!; [done..| |]; rewrite En2; [apply inv_delete, Hok1|].
      destruct HE as [(Hf0 & _)|[Hf1|(_ & _ & HB)]]; [by rewrite Hf0 in Ef|by rewrite Hf1 in Ef|by apply seen_delete]. }
  eexists _, _. split; [done|].
  destruct (with_cache_ok this1 m2 E2 Hok1 Hm2 En2 Hinv) as (Hok2 & Hco & Hsb).
  split_and!; [done|by transitivity this1|by rewrite Hco|done].
Qed.

Lemma Uncache_ok this o :
  cache_ok this ->
  exists this', Uncache this o = Some this' /\ cache_ok this' /\ same_base this this' /\ coins_of this' = coins_of this.
Proof.
  intros Hok. unfold Uncache. destruct (cacheCoins (cache this) !! o) as [it|] eqn:E; [|by exists this].
  destruct (negb (IsDirty it) && negb (IsFresh it)) eqn:Ef; [|by exists this].
  assert (Ei : entries (cache this) !! o = Some (coin it, m_flags it)) by (rewrite entries_lookup; simpl; by rewrite E).
  destruct (ok_erase _ (ok_links _ Hok) o) as (m1 & -> & Hm1 & E1); [by eexists|].
  eexists. split; [done|]. destruct (with_cache_ok this m1 _ Hok Hm1 E1) as (Hok1 & Hco & Hsb).
  { apply inv_delete, Hok. }
  split_and!; [done..|]. rewrite Hco. apply seen_same. intros o'. destruct (decide (o' = o)) as [->|Hne].
  - intros _. rewrite lookup_delete_eq, Ei. simpl. unfold IsDirty, IsFresh in Ef.
    destruct (ok_entries _ Hok o _ Ei) as [(_ & Hs & HB)|[Hf|(Hf & _)]]; simpl in *; [by rewrite Hs|by rewrite Hf in Ef..].
  - by rewrite lookup_delete_ne.
Qed.

(** ** Writing a child to a cache *)

Section WriteChild.
Context (B : gmap COutPoint Coin).

Definition map_inv (us : CCoinsMap) : Prop := ok_map us /\ entries_inv B (entries us).
Definition map_coins (us : CCoinsMap) : gmap COutPoint Coin := seen (entries us) B.

(** The change of the parent's map for one dirty entry of the child. *)
Lemma write_child_ok us c pre o rem e :
  map_inv us -> linked (m_map c) (pre ++ o :: rem) -> (m_will_erase c = false -> pre = []) ->
  cacheCoins (m_map c) !! o = Some e -> (is_fresh (m_flags e) = true -> map_coins us !! o = None) ->
  exists us' c', write_child us c o = Some (us', c', head_ptr rem) /\ map_inv us' /\
    map_coins us' = write_one o (coin e, m_flags e) (map_coins us) /\ advanced c pre o rem e c'.
Proof.
  intros [Hm HE] Hl Hpre E Hfresh. unfold write_child. simpl deref. rewrite E.
  change (IsFresh e) with (is_fresh (m_flags e)). change (IsDirty e) with (is_dirty (m_flags e)).
  unfold write_one. simpl fst. simpl snd.
  destruct (NextAndMaybeErase_advanced c pre o rem e Hl Hpre E) as (c1 & Ec1 & Adv1).
  destruct (take_coin_advanced c pre o rem e Hl Hpre E) as (c2 & c3 & Et & Ec3 & Adv3).
  destruct (is_dirty (m_flags e)) eqn:Ed; simpl negb; cbv iota.
  2: { rewrite Ec1. by exists us, c1. }
  destruct (cacheCoins us !! o) as [itUs|] eqn:Eus.
  - assert (Ei : entries us !! o = Some (coin itUs, m_flags itUs)) by (rewrite entries_lookup; simpl; by rewrite Eus).
    pose proof (HE o _ Ei) as Hinv. unfold map_coins in Hfresh. rewrite seen_lookup, Ei in Hfresh. simpl in Hfresh.
    replace (negb (is_fresh (m_flags e) && negb (IsSpent (coin itUs)))) with true.
    2: { destruct (is_fresh (m_flags e)); [|done]. specialize (Hfresh eq_refl). by destruct (IsSpent (coin itUs)). }
    change (IsFresh itUs) with (is_fresh (m_flags itUs)).
    destruct (is_fresh (m_flags itUs) && IsSpent (coin e)) eqn:Efs.
    + apply andb_prop in Efs as [Ef Es]. destruct (ok_erase us Hm o) as (m1 & -> & Hm1 & E1); [by eexists|].
      rewrite Ec1, Es. exists m1, c1. split_and!; [done|split; [done|]| |done].
      * rewrite E1. by apply inv_delete.
      * unfold map_coins. rewrite E1. apply seen_delete.
        destruct Hinv as [(Hf & _)|[Hf|(_ & _ & HB)]]; simpl in *; [by rewrite Hf in Ef..|done].
    + destruct (store_coin_ok us o _ _ (coin e) false Hm Ei) as (m2 & m3 & m4 & Em2 & Em3 & [= <-] & Hm4 & E4).
      rewrite Et. cbv beta iota. rewrite Em2. cbv beta iota. rewrite Em3. cbv beta iota.
      rewrite Ec3. exists m3, c3. split_and!; [done|split; [done|]| |done].
      * rewrite E4. apply inv_insert; [done|].
        destruct Hinv as [(Hf & _)|[Hf|(Hf & _ & HB)]]; simpl in Hf; rewrite Hf in *; [entry_state..|].
        simpl in Efs. entry_state.
      * unfold map_coins. by rewrite E4, seen_insert.
  - apply entries_none in Eus. unfold map_coins in Hfresh. rewrite seen_lookup, Eus in Hfresh. simpl in Hfresh.
    destruct (is_fresh (m_flags e) && IsSpent (coin e)) eqn:Efs.
    + apply andb_prop in Efs as [Ef Es]. rewrite Ec1. exists us, c1. rewrite Es. split_and!; try done.
      symmetry. apply delete_id. unfold map_coins. rewrite seen_lookup, Eus. by apply Hfresh.
    + destruct (ok_emplace us Hm o coinEmpty Eus) as [Hm1 E1]. fold (emplace us o coinEmpty) in Hm1, E1.
      destruct (store_coin_ok _ o coinEmpty 0 (coin e) (is_fresh (m_flags e)) Hm1) as (m2 & m3 & m4 & Em2 & Em3 & Em4 & Hm4 & E4).
      { by rewrite E1, lookup_insert_eq. }
      rewrite E1, insert_insert_eq in E4.
      rewrite Et. cbv beta iota. rewrite Em2. cbv beta iota. rewrite Em3. cbv beta iota. rewrite Em4. cbv beta iota.
      rewrite Ec3. exists m4, c3. split_and!; [done|split; [done|]| |done].
      * rewrite E4. apply inv_insert; [done|]. destruct (is_fresh (m_flags e)); simpl in Efs; [|entry_state].
        specialize (Hfresh eq_refl). entry_state.
      * unfold map_coins. by rewrite E4, seen_insert.
Qed.
End WriteChild.

Lemma Cache_BatchWrite_ok this c h :
  cache_ok this -> ok_map (m_map c) -> 
  (forall o x f, entries (m_map c) !! o = Some (x, f) -> is_fresh f = true -> coins_of this !! o = None) ->
  exists this' c', Cache_BatchWrite this c h = Some (this', c', true) /\ cache_ok this' /\
    coins_of this' = written (entries (m_map c)) (coins_of this) /\ hashBlock this' = h /\
    base this' = base this /\ passed c c'.
Proof.
  intros [Hb Hm HE] [l Hl] Hfresh. unfold Cache_BatchWrite.
  destruct (for_flagged_pass write_child (map_inv (utxo (base this))) (map_coins (utxo (base this)))
              (entries (m_map c)) true (fun us c pre o rem e _ Hi Hl Hp He Hf =>
                write_child_ok (utxo (base this)) us c pre o rem e Hi Hl Hp He (Hf eq_refl)) (cache this) c l)
    as (first & us & c' & -> & -> & [Hm' HE'] & Hco & Hp); [done..|intros o x f Ex _; by apply (Hfresh o x f)|].
  eexists _, c'. split; [done|]. split_and!; [by split|done..].
Qed.

(** ** Writing a cache to its base *)

Lemma flush_fresh this o x f :
  cache_ok this -> entries (cache this) !! o = Some (x, f) -> is_fresh f = true -> utxo (base this) !! o = None.
Proof.
  intros Hok E Hf. destruct (ok_entries _ Hok o _ E) as [(Ef & _)|[Ef|(_ & _ & HB)]]; simpl in *; [by rewrite Ef in Hf..|done].
Qed.

(** After [Flush] the base holds the coins and the best block of the cache, which is empty. *)
Lemma Flush_ok this :
  cache_ok this -> uint256_IsNull (hashBlock this) = false ->
  exists this', Flush this = Some (this', true) /\ cache_ok this' /\ hashBlock this' = hashBlock this /\
    cacheCoins (cache this') = ∅ /\ coins_of this' = coins_of this /\
    utxo (base this') = coins_of this /\ best_block (base this') = hashBlock this.
Proof.
  intros Hok Hh. unfold Flush.
  destruct (BatchWrite_law (base this) {| m_map := cache this; m_will_erase := true |} (hashBlock this))
    as (b & c & -> & Hb & Hu & Hbest & [_ (l & Hl & _) _]); [apply Hok|apply Hok|done| |].
  { intros o x f. by apply flush_fresh. }
  simpl in Hu. rewrite (written_seen _ _ (ok_entries _ Hok)) in Hu.
  destruct (clear_linked _ _ Hl) as (m & -> & Hm & Em). unfold ReallocateCache. rewrite Em, map_size_empty. simpl.
  assert (Hm0 : with_coins m ∅ = m) by (destruct m; simpl in Em; by rewrite Em). rewrite Hm0.
  assert (En : entries m = ∅) by (unfold entries; rewrite Em; apply fmap_empty).
  eexists. split; [done|]. unfold coins_of in *. simpl. rewrite En.
  assert (Hs : seen ∅ (utxo b) = utxo b).
  { apply map_eq. intros o. by rewrite seen_lookup, lookup_empty. }
  split_and!; [split; simpl|done|done|by rewrite Hs|done|done].
  - done.
  - by exists [].
  - rewrite En. apply map_Forall_empty.
Qed.

(** After [Sync] the base holds them too, and the cache keeps its unspent coins. *)
Lemma Sync_ok this :
  cache_ok this -> uint256_IsNull (hashBlock this) = false ->
  exists this', Sync this = Some (this', true) /\ cache_ok this' /\ hashBlock this' = hashBlock this /\
    entries (cache this') = synced (entries (cache this)) /\ coins_of this' = coins_of this /\
    utxo (base this') = coins_of this /\ best_block (base this') = hashBlock this.
Proof.
  intros Hok Hh. unfold Sync.
  destruct (BatchWrite_law (base this) {| m_map := cache this; m_will_erase := false |} (hashBlock this))
    as (b & c & -> & Hb & Hu & Hbest & [_ (l & Hl & Hnil) Hsync]); [apply Hok|apply Hok|done| |].
  { intros o x f. by apply flush_fresh. }
  simpl in Hu. rewrite (written_seen _ _ (ok_entries _ Hok)) in Hu. fold (coins_of this) in Hu.
  specialize (Hsync eq_refl). simpl in Hsync. rewrite Hnil in Hl by done.
  rewrite (proj1 (Next_Prev_flagged _ (linked_sentinel _ _ Hl))), (linked_first _ _ Hl). simpl head_ptr.
  rewrite bool_decide_eq_true_2 by done. eexists. split; [done|].
  assert (Hseen : forall o, seen_entry (synced (entries (cache this)) !! o) (coins_of this !! o) = coins_of this !! o).
  { intros o. unfold synced. rewrite lookup_omap, coins_lookup.
    destruct (entries (cache this) !! o) as [[x f]|] eqn:E; [|done]. simpl. unfold synced_entry. simpl.
    destruct (f =? 0), (IsSpent x) eqn:Es; simpl; by rewrite ?Es. }
  split_and!; simpl; [split; simpl|done|done| |done|done].
  - done.
  - by eexists.
  - rewrite Hsync, Hu. intros o [x f]. unfold synced. rewrite lookup_omap.
    destruct (entries (cache this) !! o) as [[x' f']|] eqn:E; [|done]. simpl. unfold synced_entry. simpl.
    intros Hx. left. simpl. rewrite coins_lookup, E. simpl.
    destruct (Z.eqb_spec f' 0); [|destruct (IsSpent x') eqn:Es]; simplify_eq; [|by rewrite Es].
    destruct (ok_entries _ Hok o _ E) as [(_ & Hs & _)|[Hf|(Hf & _)]]; simpl in *; [by rewrite Hs|done..].
  - unfold coins_of at 1. simpl. rewrite Hsync, Hu. apply map_eq. intros o. by rewrite seen_lookup, Hseen.
Qed.

(** ** The cache keeps the promises of a view *)

Definition cache_best (this : CCoinsViewCache V) : uint256 :=
  if uint256_IsNull (hashBlock this) then best_block (base this) else hashBlock this.

Lemma Cache_GetBestBlock_ok this :
  cache_ok this ->
  exists this', Cache_GetBestBlock this = (this', cache_best this) /\ cache_ok this' /\ coins_of this' = coins_of this /\
    utxo (base this') = utxo (base this) /\ best_block (base this') = best_block (base this) /\
    hashBlock this' = cache_best this.
Proof.
  intros [Hb Hm HE]. unfold Cache_GetBestBlock, cache_best. destruct (uint256_IsNull (hashBlock this)).
  - destruct (GetBestBlock_law (base this) Hb) as (b & -> & Hb' & Hu & Hbest).
    eexists. split; [done|]. unfold coins_of. simpl. rewrite Hu. split_and!; try done. split; [done|done|]. simpl. by rewrite Hu.
  - exists this. split_and!; try done.
Qed.

#[export] Program Instance CCoinsViewCache_laws : CoinsViewLaws (CCoinsViewCache V) := {|
  view_ok := cache_ok; utxo := coins_of; best_block := cache_best |}.
Next Obligation. intros this o c. apply coins_unspent. Qed.
Next Obligation.
  intros this o Hok. destruct (Cache_GetCoin_ok this o Hok) as (this' & E & Hok' & Hc & Hu & Hb & Hh).
  exists this'. split_and!; try done. unfold cache_best. by rewrite Hh, Hb.
Qed.
Next Obligation.
  intros this o Hok. destruct (Cache_HaveCoin_ok this o Hok) as (this' & E & Hok' & Hc & Hu & Hb & Hh).
  exists this'. split_and!; try done. unfold cache_best. by rewrite Hh, Hb.
Qed.
Next Obligation.
  intros this Hok. destruct (Cache_GetBestBlock_ok this Hok) as (this' & E & Hok' & Hc & Hu & Hb & Hh).
  exists this'. split_and!; try done. unfold cache_best at 1. rewrite Hh. case_match; [|done].
  unfold cache_best in *. rewrite Hb. by case_match; [|congruence].
Qed.
Next Obligation.
  intros this c h Hok Hm Hh Hfresh. destruct (Cache_BatchWrite_ok this c h Hok Hm Hfresh) as (this' & c' & E & Hok' & Hc & Hb & _ & Hp).
  exists this', c'. split_and!; try done. unfold cache_best. by rewrite Hb, Hh.
Qed.

(** ** [SanityCheck] never fails *)

Lemma SanityCheck_ok this : cache_ok this -> SanityCheck (cache this) = Some tt.
Proof.
  intros [_ [l Hl] HE].
  assert (Hstate : forall o e, cacheCoins (cache this) !! o = Some e ->
    (m_flags e = CLEAN /\ IsSpent (coin e) = false) \/ m_flags e = DIRTY \/ (m_flags e = DIRTY_FRESH /\ IsSpent (coin e) = false)).
  { intros o e E. destruct (HE o (coin e, m_flags e)) as [(H1 & H2 & _)|[H1|(H1 & H2 & _)]]; simpl in *; [|tauto..].
    rewrite entries_lookup. simpl. by rewrite E. }
  apply (SanityCheck_linked _ l Hl).
  - intros o e E. unfold is_flagged, IsDirty, IsFresh. by destruct (Hstate o e E) as [(-> & _)|[->|(-> & _)]].
  - intros o e E. unfold attr_ok, attr, IsDirty, IsFresh.
    destruct (Hstate o e E) as [(-> & ->)|[->|(-> & ->)]]; [done| |done]. by destruct (IsSpent (coin e)).
Qed.

(** ** Refinement of a plain map *)

(** What a cache means: its coins and best block, and those of its base. *)
Record coins_spec := { s_coins : gmap COutPoint Coin; s_best : uint256; s_base : gmap COutPoint Coin; s_base_best : uint256 }.

Inductive coins_op :=
| op_GetCoin (o : COutPoint) | op_HaveCoin (o : COutPoint) | op_AccessCoin (o : COutPoint)
| op_GetBestBlock | op_SetBestBlock (h : uint256)
| op_AddCoin (o : COutPoint) (c : Coin) (possible_overwrite : bool) | op_SpendCoin (o : COutPoint)
| op_Uncache (o : COutPoint) | op_Flush | op_Sync.

Inductive coins_result := res_none | res_coin (c : option Coin) | res_bool (b : bool) | res_hash (h : uint256).

(** A coin that is read as spent is no coin. *)
Definition unspent (c : Coin) : option Coin := if IsSpent c then None else Some c.

Definition run_op (this : CCoinsViewCache V) (op : coins_op) : option (CCoinsViewCache V * coins_result) :=
  match op with
  | op_GetCoin o => let! '(this, c) := Cache_GetCoin this o in Some (this, res_coin c)
  | op_HaveCoin o => let! '(this, b) := Cache_HaveCoin this o in Some (this, res_bool b)
  | op_AccessCoin o => let! '(this, c) := AccessCoin this o in Some (this, res_coin (unspent c))
  | op_GetBestBlock => let '(this, h) := Cache_GetBestBlock this in Some (this, res_hash h)
  | op_SetBestBlock h => Some (SetBestBlock this h, res_none)
  | op_AddCoin o c overwrite => let! next := AddCoin this o c overwrite in Some (next, res_none)
  | op_SpendCoin o => let! '(this, c) := SpendCoin this o in Some (this, res_coin (c ≫= unspent))
  | op_Uncache o => let! next := Uncache this o in Some (next, res_none)
  | op_Flush => let! '(this, b) := Flush this in Some (this, res_bool b)
  | op_Sync => let! '(this, b) := Sync this in Some (this, res_bool b)
  end.

(** The same calls on the plain map; undefined where the caller breaks the rules of the class: a
    spent coin or an overwrite that was not announced, and a write without a best block. *)
Definition spec_op (s : coins_spec) (op : coins_op) : option (coins_spec * coins_result) :=
  let own c h := {| s_coins := c; s_best := h; s_base := s_base s; s_base_best := s_base_best s |} in
  let best := if uint256_IsNull (s_best s) then s_base_best s else s_best s in
  match op with
  | op_GetCoin o | op_AccessCoin o => Some (s, res_coin (s_coins s !! o))
  | op_HaveCoin o => Some (s, res_bool (bool_decide (is_Some (s_coins s !! o))))
  | op_GetBestBlock => Some (own (s_coins s) best, res_hash best)
  | op_SetBestBlock h => Some (own (s_coins s) h, res_none)
  | op_AddCoin o c overwrite =>
      assert! negb (IsSpent c) && (overwrite || bool_decide (s_coins s !! o = None));
      Some (own (if IsUnspendable (scriptPubKey (out c)) then s_coins s else <[o := c]> (s_coins s)) (s_best s), res_none)
  | op_SpendCoin o => Some (own (delete o (s_coins s)) (s_best s), res_coin (s_coins s !! o))
  | op_Uncache o => Some (s, res_none)
  | op_Flush | op_Sync =>
      assert! negb (uint256_IsNull (s_best s));
      Some ({| s_coins := s_coins s; s_best := s_best s; s_base := s_coins s; s_base_best := s_best s |}, res_bool true)
  end.

Section Run.
Context {S : Type} (step : S -> coins_op -> option (S * coins_result)).
Fixpoint run (s : S) (ops : list coins_op) : option (S * list coins_result) :=
  match ops with
  | [] => Some (s, [])
  | op :: ops =>
      let! '(s, r) := step s op in
      let! '(s, rs) := run s ops in
      Some (s, r :: rs)
  end.
End Run.

Definition meaning (this : CCoinsViewCache V) : coins_spec :=
  {| s_coins := coins_of this; s_best := hashBlock this; s_base := utxo (base this); s_base_best := best_block (base this) |}.

Lemma same_meaning this this' c :
  same_base this this' -> coins_of this' = c ->
  meaning this' = {| s_coins := c; s_best := hashBlock this; s_base := utxo (base this); s_base_best := best_block (base this) |}.
Proof. intros (Hu & Hb & Hh) <-. unfold meaning. by rewrite Hu, Hb, Hh. Qed.

Lemma unspent_of c x : c = x -> IsSpent x = false -> unspent c = Some x.
Proof. intros -> H1. unfold unspent. by rewrite H1. Qed.

Lemma run_op_refines this op s' r :
  cache_ok this -> spec_op (meaning this) op = Some (s', r) ->
  exists this', run_op this op = Some (this', r) /\ cache_ok this' /\ meaning this' = s'.
Proof.
  intros Hok. destruct op; simpl; try (intros [= <- <-]).
  - destruct (Cache_GetCoin_ok this o Hok) as (this' & -> & Hok' & Hc & Hb). exists this'. by rewrite (same_meaning _ _ _ Hb Hc).
  - destruct (Cache_HaveCoin_ok this o Hok) as (this' & -> & Hok' & Hc & Hb). exists this'. by rewrite (same_meaning _ _ _ Hb Hc).
  - destruct (AccessCoin_ok this o Hok) as (this' & c & -> & Hok' & Hc & Hb & Hr). exists this'.
    rewrite (same_meaning _ _ _ Hb Hc). split_and!; try done.
    destruct (coins_of this !! o) as [x|] eqn:E; [|unfold unspent; by rewrite Hr].
    by rewrite (unspent_of c x Hr (coins_unspent _ _ _ Hok E)).
  - destruct (Cache_GetBestBlock_ok this Hok) as (this' & -> & Hok' & Hc & Hu & Hb & Hh). exists this'.
    split_and!; try done. unfold meaning, cache_best in *. by rewrite Hc, Hu, Hb, Hh.
  - eexists. split; [done|]. destruct Hok. by split.
  - destruct (negb (IsSpent c) && _) eqn:E; [|done]. intros [= <- <-]. apply andb_prop in E as [Hs Ho].
    apply negb_true_iff in Hs.
    destruct (AddCoin_ok this o c possible_overwrite Hok Hs) as (this' & -> & Hok' & Hb & Hc).
    { intros ->. by apply bool_decide_eq_true in Ho. }
    exists this'. by rewrite (same_meaning _ _ _ Hb Hc).
  - destruct (SpendCoin_ok this o Hok) as (this' & c & -> & Hok' & Hb & Hc & Hr). exists this'.
    rewrite (same_meaning _ _ _ Hb Hc). split_and!; try done.
    destruct (coins_of this !! o) as [x|] eqn:E.
    + rewrite Hr. simpl. by rewrite (unspent_of x x eq_refl (coins_unspent _ _ _ Hok E)).
    + destruct c as [c|]; [|done]. simpl. unfold unspent. by rewrite (Hr c eq_refl).
  - destruct (Uncache_ok this o Hok) as (this' & -> & Hok' & Hb & Hc). exists this'. by rewrite (same_meaning _ _ _ Hb Hc).
  - destruct (uint256_IsNull (hashBlock this)) eqn:Eh; [done|]. intros [= <- <-].
    destruct (Flush_ok this Hok Eh) as (this' & -> & Hok' & Hh & _ & Hc & Hu & Hb). exists this'.
    split_and!; try done. unfold meaning. by rewrite Hc, Hh, Hu, Hb.
  - destruct (uint256_IsNull (hashBlock this)) eqn:Eh; [done|]. intros [= <- <-].
    destruct (Sync_ok this Hok Eh) as (this' & -> & Hok' & Hh & _ & Hc & Hu & Hb). exists this'.
    split_and!; try done. unfold meaning. by rewrite Hc, Hh, Hu, Hb.
Qed.

Lemma run_refines this ops s' rs :
  cache_ok this -> run spec_op (meaning this) ops = Some (s', rs) ->
  exists this', run run_op this ops = Some (this', rs) /\ cache_ok this' /\ meaning this' = s'.
Proof.
  revert this s' rs. induction ops as [|op ops IH]; intros this s' rs Hok; simpl.
  - intros [= <- <-]. by exists this.
  - destruct (spec_op (meaning this) op) as [[s1 r]|] eqn:E1; [|done].
    destruct (run_op_refines this op s1 r Hok E1) as (this1 & -> & Hok1 & <-).
    destruct (run spec_op (meaning this1) ops) as [[s2 rs2]|] eqn:E2; [|done]. intros [= <- <-].
    destruct (IH this1 s2 rs2 Hok1 E2) as (this' & -> & Hok' & Hm). by exists this'.
Qed.

Lemma new_cache_ok b : view_ok b -> cache_ok (new_cache b) /\
  meaning (new_cache b) =
    {| s_coins := utxo b; s_best := replicate 32 0; s_base := utxo b; s_base_best := best_block b |}.
Proof.
  intros Hb. assert (E : entries empty_map = ∅) by apply fmap_empty. split.
  - split; [done|exists []; apply linked_empty|]. simpl. rewrite E. apply map_Forall_empty.
  - unfold meaning, coins_of. simpl. rewrite E. f_equal. apply map_eq. intros o. by rewrite seen_lookup, lookup_empty.
Qed.

End CacheLaws.

