(* ===== verification/CoinsDB.v ===== *)
(** The coins database: [CCoinsViewDB] of [src/src/txdb.cpp].

    LevelDB is the interface [CDBWrapper]: typed reads, a batch of changes that is applied as a
    whole, and the size estimate of a batch.  [CDBWrapperLaws] states its documented behaviour, that
    a store is a finite map and a batch changes it in order; a concrete map satisfies it.  The
    option that exits at random between batches is a test aid and is left out. *)

From S2P Require Import Prelude Params Primitives Serialize Block Script CoinsMap Coins.

#[local] Open Scope Z_scope.
#[local] Open Scope qbit_scope.

(** ** The store *)

Inductive db_change :=
| Erase_best | Write_best (h : uint256)
| Erase_heads | Write_heads (hs : list uint256)
| Erase_coin (o : COutPoint) | Write_coin (o : COutPoint) (c : Coin).

Class CDBWrapper (D : Type) := {
  Read_coin : D -> COutPoint -> option Coin;
  Exists_coin : D -> COutPoint -> bool;
  Read_best : D -> option uint256;
  Read_heads : D -> option (list uint256);
  WriteBatch : D -> list db_change -> D;
  ApproximateSize : list db_change -> Z }.

(** What a store contains. *)
Record db_contents := { db_coins : gmap COutPoint Coin; db_best : option uint256; db_heads : option (list uint256) }.

Definition apply_change (d : db_contents) (ch : db_change) : db_contents :=
  match ch with
  | Erase_best => {| db_coins := db_coins d; db_best := None; db_heads := db_heads d |}
  | Write_best h => {| db_coins := db_coins d; db_best := Some h; db_heads := db_heads d |}
  | Erase_heads => {| db_coins := db_coins d; db_best := db_best d; db_heads := None |}
  | Write_heads hs => {| db_coins := db_coins d; db_best := db_best d; db_heads := Some hs |}
  | Erase_coin o => {| db_coins := delete o (db_coins d); db_best := db_best d; db_heads := db_heads d |}
  | Write_coin o c => {| db_coins := <[o := c]> (db_coins d); db_best := db_best d; db_heads := db_heads d |}
  end.

Class CDBWrapperLaws (D : Type) `{CDBWrapper D} := {
  contents : D -> db_contents;
  Read_coin_law : forall d o, Read_coin d o = db_coins (contents d) !! o;
  Exists_coin_law : forall d o, Exists_coin d o = bool_decide (is_Some (db_coins (contents d) !! o));
  Read_best_law : forall d, Read_best d = db_best (contents d);
  Read_heads_law : forall d, Read_heads d = db_heads (contents d);
  WriteBatch_law : forall d b, contents (WriteBatch d b) = foldl apply_change (contents d) b }.

(** ** [CCoinsViewDB] *)

Record CCoinsViewDB (D : Type) := { m_db : D; batch_write_bytes : Z }.
Arguments m_db {D} _.
Arguments batch_write_bytes {D} _.
Arguments Build_CCoinsViewDB {D} _ _.

Abbreviation nDefaultDbBatchSize := (Z.shiftl 16 20)%Z.

Section DB.
Context {D : Type} `{CDBWrapper D}.

Definition DB_GetBestBlock (this : CCoinsViewDB D) : uint256 := default (replicate 32 0) (Read_best (m_db this)).
Definition GetHeadBlocks (this : CCoinsViewDB D) : list uint256 := default [] (Read_heads (m_db this)).

(** The tip the write starts from: the second of two recorded heads when one was interrupted. *)
Definition old_tip (this : CCoinsViewDB D) (hashBlock : uint256) : option uint256 :=
  let tip := DB_GetBestBlock this in
  if uint256_IsNull tip then
    match GetHeadBlocks this with
    | [new; old] => assert! bool_decide (new = hashBlock); Some old
    | _ => Some tip
    end
  else Some tip.

(** The database, the batch being filled, and the databases that were on disk after each partial
    batch. *)
Record writing := { w_db : D; w_batch : list db_change; w_partial : list D }.

Definition write_db (bytes : Z) (s : writing) (cursor : CoinsViewCacheCursor) (o : COutPoint)
  : option (writing * CoinsViewCacheCursor * pair_ptr) :=
  let! it := deref (m_map cursor) (pair_at o) in
  let batch :=
    (if IsDirty it then w_batch s ++ [if IsSpent (coin it) then Erase_coin o else Write_coin o (coin it)]
     else w_batch s) in
  let! '(cursor, next) := NextAndMaybeErase cursor o in
  let s :=
    (if bytes <? ApproximateSize batch then
       let db := WriteBatch (w_db s) batch in {| w_db := db; w_batch := []; w_partial := w_partial s ++ [db] |}
     else {| w_db := w_db s; w_batch := batch; w_partial := w_partial s |}) in
  Some (s, cursor, next).

(** [BatchWrite], with the databases of the partial batches. *)
Definition DB_write (this : CCoinsViewDB D) (cursor : CoinsViewCacheCursor) (hashBlock : uint256)
  : option (CCoinsViewDB D * CoinsViewCacheCursor * list D) :=
  assert! negb (uint256_IsNull hashBlock);
  let! tip := old_tip this hashBlock in
  let batch := [Erase_best; Write_heads [hashBlock; tip]] in
  let! it := Begin cursor in
  let! '(s, cursor) :=
    for_flagged (cursor_fuel cursor) (write_db (batch_write_bytes this))
      {| w_db := m_db this; w_batch := batch; w_partial := [] |} cursor it in
  let db := WriteBatch (w_db s) (w_batch s ++ [Erase_heads; Write_best hashBlock]) in
  Some (Build_CCoinsViewDB db (batch_write_bytes this), cursor, w_partial s).

Definition DB_BatchWrite (this : CCoinsViewDB D) (cursor : CoinsViewCacheCursor) (hashBlock : uint256)
  : option (CCoinsViewDB D * CoinsViewCacheCursor * bool) :=
  let! '(this, cursor, _) := DB_write this cursor hashBlock in Some (this, cursor, true).

#[export] Instance CCoinsViewDB_view : CCoinsView (CCoinsViewDB D) := {|
  GetCoin := fun this o => Some (this, Read_coin (m_db this) o);
  HaveCoin := fun this o => Some (this, Exists_coin (m_db this) o);
  GetBestBlock := fun this => (this, DB_GetBestBlock this);
  BatchWrite := DB_BatchWrite |}.

(** ** Writing *)

Context `{!CDBWrapperLaws D}.

Definition all_unspent (u : gmap COutPoint Coin) : Prop := map_Forall (fun _ c => IsSpent c = false) u.

Lemma write_one_unspent o e u : all_unspent u -> all_unspent (write_one o e u).
Proof.
  intros Hu. unfold write_one. destruct (is_dirty e.2); [|done]. destruct (IsSpent e.1) eqn:E.
  - by apply map_Forall_delete.
  - by apply map_Forall_insert_2.
Qed.

(** The database once the batch is written. *)
Definition pending (s : writing) : db_contents := foldl apply_change (contents (w_db s)) (w_batch s).

(** At each outpoint a coin of [u] is the one before the write or the one after it. *)
Definition mixed (before after u : gmap COutPoint Coin) : Prop := forall o, u !! o = before !! o \/ u !! o = after !! o.

(** The state of an interrupted write from [tip] to [hashBlock]. *)
Definition interrupted (hashBlock tip : uint256) (before after : gmap COutPoint Coin) (c : db_contents) : Prop :=
  db_best c = None /\ db_heads c = Some [hashBlock; tip] /\ mixed before after (db_coins c) /\ all_unspent (db_coins c).

Section Write.
Context (hashBlock tip : uint256) (before : gmap COutPoint Coin) (E0 : gmap COutPoint (Coin * Z)).

Definition write_inv (s : writing) : Prop :=
  interrupted hashBlock tip before (written E0 before) (pending s) /\
  Forall (fun d => interrupted hashBlock tip before (written E0 before) (contents d)) (w_partial s).

Lemma write_db_ok bytes s c pre o rem e :
  E0 !! o = Some (coin e, m_flags e) -> write_inv s ->
  linked (m_map c) (pre ++ o :: rem) -> (m_will_erase c = false -> pre = []) ->
  cacheCoins (m_map c) !! o = Some e -> (false = true -> is_fresh (m_flags e) = true -> db_coins (pending s) !! o = None) ->
  exists s' c', write_db bytes s c o = Some (s', c', head_ptr rem) /\ write_inv s' /\
    db_coins (pending s') = write_one o (coin e, m_flags e) (db_coins (pending s)) /\ advanced c pre o rem e c'.
Proof.
  intros HE0 [(Hb & Hh & Hmix & Hu) Hpart] Hl Hpre E _. unfold write_db. simpl deref. rewrite E.
  destruct (NextAndMaybeErase_advanced c pre o rem e Hl Hpre E) as (c' & -> & Adv).
  set (batch := if IsDirty e then _ else _).
  set (now := foldl apply_change (contents (w_db s)) batch).
  assert (Hnow : db_best now = None /\ db_heads now = Some [hashBlock; tip] /\
                 db_coins now = write_one o (coin e, m_flags e) (db_coins (pending s))).
  { subst now batch. unfold write_one. change (IsDirty e) with (is_dirty (m_flags e)). simpl.
    destruct (is_dirty (m_flags e)); [|done]. rewrite foldl_app. simpl. fold (pending s).
    by destruct (IsSpent (coin e)). }
  destruct Hnow as (Nb & Nh & Nc).
  assert (Hint : interrupted hashBlock tip before (written E0 before) now).
  { split_and!; [done|done| |rewrite Nc; by apply write_one_unspent].
    intros o'. rewrite Nc, write_one_lookup. case_decide as Ho; [subst o'|by apply Hmix].
    rewrite written_lookup, HE0. simpl. destruct (is_dirty (m_flags e)) eqn:Ed; [by right|].
    destruct (Hmix o) as [Hm|Hm]; [by left|]. rewrite written_lookup, HE0 in Hm. simpl in Hm. rewrite Ed in Hm. by left. }
  destruct (bytes <? ApproximateSize batch).
  - eexists _, c'. split; [done|]. unfold write_inv, pending. simpl. rewrite WriteBatch_law. fold now.
    split_and!; try done. apply Forall_app. split; [done|]. apply Forall_singleton. by rewrite WriteBatch_law.
  - eexists _, c'. split; [done|]. unfold write_inv, pending. simpl. fold now. by split_and!.
Qed.
End Write.

Lemma DB_write_ok this c h tip :
  all_unspent (db_coins (contents (m_db this))) -> ok_map (m_map c) -> uint256_IsNull h = false ->
  old_tip this h = Some tip ->
  let before := db_coins (contents (m_db this)) in
  let after := written (entries (m_map c)) before in
  exists this' c' partial, DB_write this c h = Some (this', c', partial) /\
    contents (m_db this') = {| db_coins := after; db_best := Some h; db_heads := None |} /\
    batch_write_bytes this' = batch_write_bytes this /\ all_unspent after /\
    Forall (fun d => interrupted h tip before after (contents d)) partial /\ passed c c'.
Proof.
  intros Hu [l Hl] Hh Htip before after. unfold DB_write. rewrite Hh, Htip. simpl negb. cbv iota.
  set (s0 := {| w_db := m_db this; w_batch := [Erase_best; Write_heads [h; tip]]; w_partial := [] |}).
  destruct (for_flagged_pass (write_db (batch_write_bytes this)) (write_inv h tip before (entries (m_map c)))
              (fun s => db_coins (pending s)) (entries (m_map c)) false (write_db_ok h tip before (entries (m_map c)) _) s0 c l)
    as (first & s & c' & -> & -> & [(Sb & Sh & _ & Su) Spart] & Sc & Hp); try done.
  { split; [|apply Forall_nil_2]. split_and!; try done. intros o. by left. }
  eexists _, c', _. split; [done|]. simpl. rewrite WriteBatch_law, foldl_app. fold (pending s).
  change (db_coins (pending s0)) with before in Sc. fold after in Sc.
  split_and!; try done; [|by rewrite <- Sc]. destruct (pending s) as [co b hs]. simpl in *. by subst.
Qed.

Definition db_ok (this : CCoinsViewDB D) : Prop :=
  all_unspent (db_coins (contents (m_db this))) /\ db_heads (contents (m_db this)) = None.

#[export] Program Instance CCoinsViewDB_laws : CoinsViewLaws (CCoinsViewDB D) := {|
  view_ok := db_ok; utxo := fun this => db_coins (contents (m_db this)); best_block := DB_GetBestBlock |}.
Next Obligation. intros this o c [Hu _] E. by apply (Hu o). Qed.
Next Obligation. intros this o Hok. exists this. by rewrite <- Read_coin_law. Qed.
Next Obligation. intros this o Hok. exists this. simpl. by rewrite Exists_coin_law. Qed.
Next Obligation. intros this Hok. by exists this. Qed.
Next Obligation.
  intros this c h [Hu Hheads] Hm Hh Hfresh. simpl.
  assert (exists tip, old_tip this h = Some tip) as [tip Htip].
  { unfold old_tip, GetHeadBlocks. rewrite Read_heads_law, Hheads. simpl. case_match; by eexists. }
  destruct (DB_write_ok this c h tip Hu Hm Hh Htip) as (this' & c' & part & E & Hc & _ & Hu' & _ & Hp).
  exists this', c'. unfold DB_BatchWrite. rewrite E. unfold db_ok, DB_GetBestBlock. rewrite Read_best_law, Hc. by split_and!.
Qed.

(** Writing the same entries again over an interrupted write. *)
Lemma mixed_written E before u : mixed before (written E before) u -> written E u = written E before.
Proof.
  intros Hmix. apply map_eq. intros o. rewrite !written_lookup. destruct (Hmix o) as [->| ->]; [done|].
  rewrite written_lookup. destruct (E !! o) as [[x f]|]; [|done]. simpl. by destruct (is_dirty f), (IsSpent x).
Qed.

Lemma retry_ok this d c h tip :
  let before := db_coins (contents (m_db this)) in
  let after := written (entries (m_map c)) before in
  interrupted h tip before after (contents d) -> ok_map (m_map c) -> uint256_IsNull h = false ->
  exists this' c' partial, DB_write (Build_CCoinsViewDB d (batch_write_bytes this)) c h = Some (this', c', partial) /\
    contents (m_db this') = {| db_coins := after; db_best := Some h; db_heads := None |}.
Proof.
  intros before after (Hb & Hh & Hmix & Hu) Hm Hnull.
  destruct (DB_write_ok (Build_CCoinsViewDB d (batch_write_bytes this)) c h tip Hu Hm Hnull)
    as (this' & c' & part & E & Hc & _).
  - unfold old_tip, DB_GetBestBlock, GetHeadBlocks. simpl. rewrite Read_best_law, Read_heads_law, Hb, Hh. simpl.
    by rewrite bool_decide_eq_true_2.
  - exists this', c', part. split; [done|]. rewrite Hc. f_equal. by apply mixed_written.
Qed.
End DB.

(** ** A store in memory *)

#[export] Instance memory_db : CDBWrapper db_contents := {|
  Read_coin := fun d o => db_coins d !! o;
  Exists_coin := fun d o => bool_decide (is_Some (db_coins d !! o));
  Read_best := db_best;
  Read_heads := db_heads;
  WriteBatch := foldl apply_change;
  ApproximateSize := fun b => Z.of_nat (length b) |}.

#[export] Program Instance memory_db_laws : CDBWrapperLaws db_contents := {| contents := id |}.
Solve All Obligations with done.

Definition memory_view (bytes : Z) : CCoinsViewDB db_contents :=
  Build_CCoinsViewDB {| db_coins := ∅; db_best := None; db_heads := None |} bytes.

Lemma memory_view_ok bytes : view_ok (memory_view bytes).
Proof. split; [apply map_Forall_empty|done]. Qed.

(** ** The contracts *)

Definition sample_coin (n : Z) : Coin := make_Coin {| nValue := n; scriptPubKey := [OP_1] |} 7 false.
Definition sample_out (n : Z) : COutPoint := {| op_hash := replicate 32 1; op_n := n |}.
Definition sample_best : uint256 := replicate 32 9.

(** Coins are added, one is spent before it was ever written and one after. *)
Definition sample_ops : list coins_op := [
  op_AddCoin (sample_out 0) (sample_coin 50) false; op_AddCoin (sample_out 1) (sample_coin 20) false;
  op_SpendCoin (sample_out 0); op_SetBestBlock sample_best; op_Sync; op_HaveCoin (sample_out 1);
  op_SpendCoin (sample_out 1); op_AddCoin (sample_out 1) (sample_coin 21) false; op_SpendCoin (sample_out 1);
  op_AddCoin (sample_out 2) (sample_coin 3) true; op_Flush; op_GetCoin (sample_out 1); op_AccessCoin (sample_out 2);
  op_Uncache (sample_out 2); op_GetBestBlock ].


(** C14: A write of a cache to the coins database can be interrupted between any two of its batches:
    every database left on disk names no best block but the pair of the new and the old tip, and
    holds at each outpoint the coin from before or from after the write; and writing the same cache
    again on top of it completes the write.  Without interruption the database holds the coins of
    the cache and the new tip. *)
Theorem coins_db_write_recoverable {D} `{CDBWrapperLaws D} (this : CCoinsViewDB D) (c : CoinsViewCacheCursor) (h : uint256) :
  db_ok this -> ok_map (m_map c) -> uint256_IsNull h = false ->
  let before := db_coins (contents (m_db this)) in
  let after := written (entries (m_map c)) before in
  let complete d := contents (m_db d) = {| db_coins := after; db_best := Some h; db_heads := None |} in
  exists this' c' partial, DB_write this c h = Some (this', c', partial) /\ complete this' /\
    forall d, d ∈ partial ->
      Read_best d = None /\ Read_heads d = Some [h; DB_GetBestBlock this] /\ mixed before after (db_coins (contents d)) /\
      exists again c'' partial', DB_write (Build_CCoinsViewDB d (batch_write_bytes this)) c h = Some (again, c'', partial') /\
        complete again.
Proof.
  intros [Hu Hheads] Hm Hnull before after complete.
  assert (Htip : old_tip this h = Some (DB_GetBestBlock this)).
  { unfold old_tip, GetHeadBlocks. rewrite Read_heads_law, Hheads. simpl. by case_match. }
  destruct (DB_write_ok this c h _ Hu Hm Hnull Htip) as (this' & c' & part & E & Hc & _ & _ & Hpart & _).
  exists this', c', part. split_and!; [done|done|]. intros d Hd.
  rewrite Forall_forall in Hpart. pose proof (Hpart d Hd) as (Hb & Hh & Hmix & _).
  rewrite Read_best_law, Read_heads_law. split_and!; [done|done|done|].
  by apply (retry_ok this d c h (DB_GetBestBlock this) (Hpart d Hd)).
Qed.

(** Two new coins in a cache over an empty database that writes a batch after every coin. *)
Definition sample_adds : list coins_op :=
  [op_AddCoin (sample_out 0) (sample_coin 50) false; op_AddCoin (sample_out 1) (sample_coin 20) false].

Lemma coins_db_write_recoverable_witness :
  let this := memory_view 2 in
  exists c after this' c' partial, DB_write this c sample_best = Some (this', c', partial) /\
    contents (m_db this') = {| db_coins := after; db_best := Some sample_best; db_heads := None |} /\
    after !! sample_out 1 = Some (sample_coin 20) /\
    forall d, d ∈ partial ->
      Read_best d = None /\ Read_heads d = Some [sample_best; replicate 32 0] /\ mixed ∅ after (db_coins (contents d)) /\
      exists again c'' partial', DB_write (Build_CCoinsViewDB d 2) c sample_best = Some (again, c'', partial') /\
        contents (m_db again) = {| db_coins := after; db_best := Some sample_best; db_heads := None |}.
Proof.
  intros this. destruct (new_cache_ok this (memory_view_ok 2)) as [Hok Hmean].
  destruct (run_refines (new_cache this) sample_adds _ _ Hok ltac:(vm_compute; reflexivity)) as (filled & _ & Hf & Hm).
  exists {| m_map := cache filled; m_will_erase := true |}, (written (entries (cache filled)) ∅).
  destruct (coins_db_write_recoverable this {| m_map := cache filled; m_will_erase := true |} sample_best)
    as (this' & c' & partial & E & Hc & Hp); [apply memory_view_ok|apply Hf|vm_compute; reflexivity|].
  exists this', c', partial. split_and!; [done|done| |done].
  assert (Hu : utxo (base filled) = ∅) by exact (f_equal s_base Hm).
  assert (Hco : coins_of filled !! sample_out 1 = Some (sample_coin 20)).
  { change (coins_of filled) with (s_coins (meaning filled)). rewrite Hm. vm_compute. reflexivity. }
  rewrite <- Hu, (written_seen _ _ (ok_entries _ Hf)). exact Hco.
Defined.
