(* ===== verification/Headers.v ===== *)
(** Header acceptance: [CheckBlockHeader], [ContextualCheckBlockHeader],
    [ChainstateManager::AcceptBlockHeader] and [ProcessNewBlockHeaders] of [src/src/validation.cpp],
    [CBlockIndex::GetMedianTimePast] of [src/src/chain.h] and the buried deployments of
    [src/src/deploymentstatus.h].

    The clock is an argument: [now] is [NodeClock::now()] in ticks, [ticks] of them to a second.
    [None] is a failed assertion or undefined behaviour; a rejected header is a [verdict], the
    result class and the reject reason the source gives.  Debug messages, logging, notifications and
    the self-check [CheckBlockIndex] are not modelled. *)

From stdpp Require Import gmap strings sorting.
From S2P Require Import Prelude ArithUint Params Version Primitives Sha256 Merkle Serialize Block Chain Asert Pow Genesis Networks AuxPow.

#[local] Open Scope Z_scope.
#[local] Open Scope qbit_scope.

(** ** Median time past *)

Definition nMedianTimeSpan : nat := 11.

(** The times of at most [n] blocks from [pindex] back, latest first. *)
Fixpoint past_times (n : nat) (idx : BlockMap) (pindex : option ptr) : option (list Z) :=
  match n, pindex with
  | S n, Some p =>
      let! b := idx !! p in
      let! ts := past_times n idx (pprev b) in
      Some (GetBlockTime b :: ts)
  | _, _ => Some []
  end.

Definition GetMedianTimePast (idx : BlockMap) (this : ptr) : option Z :=
  let! ts := past_times nMedianTimeSpan idx (Some this) in
  Some (get (merge_sort Z.le (rev ts)) (length ts / 2)).

(** ** Verdicts *)

Inductive BlockValidationResult :=
  BLOCK_RESULT_UNSET | BLOCK_CONSENSUS | BLOCK_CACHED_INVALID | BLOCK_INVALID_HEADER | BLOCK_MUTATED
| BLOCK_MISSING_PREV | BLOCK_INVALID_PREV | BLOCK_TIME_FUTURE | BLOCK_HEADER_LOW_WORK.

(** What [state] holds at the end; [None] is a valid block. *)
Abbreviation verdict := (option (BlockValidationResult * string)) (only parsing).

(** [if (c) return state.Invalid(r, s)]. *)
Notation "'invalid!' c ',' r ',' s ';' k" := (if c then Some (Some (r, s)) else k)
  (at level 200, c at level 99, r at level 99, s at level 99, k at level 200, right associativity) : qbit_scope.

(** [strprintf("%08x", version)]. *)
Definition hex_digit (n : Z) : Ascii.ascii := Ascii.ascii_of_nat (Z.to_nat (if n <? 10 then 48 + n else 87 + n)).
Definition hex08 (version : Z) : string :=
  foldr (fun i s => String (hex_digit (Z.shiftr (wrap 32 version) (4 * i) mod 16)) s) EmptyString [7; 6; 5; 4; 3; 2; 1; 0].

Definition version_reason (name : string) (version : Z) : string :=
  (name +:+ "(0x" +:+ hex08 version +:+ ")")%string.

(** ** The checks on a header *)

(** The overload for buried deployments, at the height after [pindexPrev]. *)
Definition DeploymentActiveAfter (height : Z) (params : Params) (dep : BuriedDeployment) : bool :=
  DeploymentHeight params dep <=? height.

(** [EITHER] is the default of the argument the call leaves out. *)
Definition CheckBlockHeader (fuzz : bool) (block : CBlockHeader) (consensusParams : Params) (fCheckPOW : bool) : verdict :=
  match Validate fuzz block consensusParams fCheckPOW EITHER with
  | Some reason => Some (BLOCK_INVALID_HEADER, reason)
  | None => None
  end.

Abbreviation MAX_TIMEWARP := 60%Z.

(** The time-warp rule of difficulty-adjustment blocks. *)
Definition timewarp (params : Params) (height : Z) (prev : CBlockIndex) (time : Z) : option bool :=
  if enforce_BIP94 params && negb (fPowUseASERT params) then
    let! interval := DifficultyAdjustmentInterval params in
    let! phase := srem 64 height interval in
    if phase =? 0 then
      let! earliest := sarith 64 (GetBlockTime prev - MAX_TIMEWARP) in
      Some (time <? earliest)
    else Some false
  else Some false.

Definition outdated_version (params : Params) (height version : Z) : bool :=
  ((version <? 2) && DeploymentActiveAfter height params DEPLOYMENT_HEIGHTINCB) ||
  ((version <? 3) && DeploymentActiveAfter height params DEPLOYMENT_DERSIG) ||
  ((version <? 4) && DeploymentActiveAfter height params DEPLOYMENT_CLTV).

Definition ContextualCheckBlockHeader (fuzz : bool) (ticks now : Z) (idx : BlockMap) (params : Params)
    (pindexPrev : ptr) (block : CBlockHeader) : option verdict :=
  let h := pure block in
  let! prev := idx !! pindexPrev in
  let! height := sarith 32 (nHeight prev + 1) in
  let! required := GetNextWorkRequired idx pindexPrev (Some block) params in
  invalid! negb (nBits h =? required), BLOCK_INVALID_HEADER, "bad-diffbits"%string;
  let! median := GetMedianTimePast idx pindexPrev in
  invalid! nTime h <=? median, BLOCK_INVALID_HEADER, "time-too-old"%string;
  let! warped := timewarp params height prev (nTime h) in
  invalid! warped, BLOCK_INVALID_HEADER, "time-timewarp-attack"%string;
  let! latest := sarith 64 (now + GetMaxFutureBlockTime params height * ticks) in
  invalid! latest <? nTime h * ticks, BLOCK_TIME_FUTURE, "time-too-new"%string;
  invalid! outdated_version params height (nVersion h), BLOCK_INVALID_HEADER, version_reason "bad-version" (nVersion h);
  let cadence_active := CadenceActiveAtHeight params height in
  invalid! negb cadence_active && SignalsAuxpow h, BLOCK_INVALID_HEADER, "bad-cadence-inactive"%string;
  invalid! cadence_active && negb (Version.HasCanonicalVersionLayout (nVersion h)), BLOCK_INVALID_HEADER,
    version_reason "bad-version-topbits" (nVersion h);
  invalid! cadence_active && Version.HasBIP9TopBitsShape (nVersion h) && HasReservedVersionBits h, BLOCK_INVALID_HEADER,
    version_reason "bad-version-reserved" (nVersion h);
  if SignalsAuxpow h then
    match Validate fuzz block params false (CommitmentValidationForHeight params height) with
    | Some reason => Some (Some (BLOCK_INVALID_HEADER, reason))
    | None => Some None
    end
  else Some None.

(** ** Acceptance *)

(** The members of [ChainstateManager] that header acceptance changes. *)
Record ChainstateManager := { m_blockman : BlockManager; m_best_header : option ptr }.

Definition failed (b : CBlockIndex) : bool := negb (Z.land (nStatus b) BLOCK_FAILED_MASK =? 0).

(** The last part of [AcceptBlockHeader]. *)
Definition add_header (s : ChainstateManager) (block : CBlockHeader) (min_pow_checked : bool)
    : option (ChainstateManager * verdict * option ptr) :=
  if negb min_pow_checked then Some (s, Some (BLOCK_HEADER_LOW_WORK, "too-little-chainwork"%string), None)
  else
    let! '(bm, pindex, best) := AddToBlockIndex HeaderGetHash (m_blockman s) block (m_best_header s) in
    Some ({| m_blockman := bm; m_best_header := best |}, None, Some pindex).

(** The new state, the verdict, and [*ppindex]. *)
Definition AcceptBlockHeader (fuzz : bool) (ticks now : Z) (params : Params) (s : ChainstateManager)
    (block : CBlockHeader) (min_pow_checked : bool) : option (ChainstateManager * verdict * option ptr) :=
  let idx := m_block_index (m_blockman s) in
  let hash := HeaderGetHash (pure block) in
  if bool_decide (hash = hashGenesisBlock params) then add_header s block min_pow_checked
  else
    match idx !! hash with
    | Some pindex =>
        if failed pindex then Some (s, Some (BLOCK_CACHED_INVALID, "duplicate-invalid"%string), Some hash)
        else
          match Validate fuzz block params true (CommitmentValidationForHeight params (nHeight pindex)) with
          | Some reason => Some (s, Some (BLOCK_INVALID_HEADER, reason), Some hash)
          | None => Some (s, None, Some hash)
          end
    | None =>
        match CheckBlockHeader fuzz block params true with
        | Some v => Some (s, Some v, None)
        | None =>
            match idx !! hashPrevBlock (pure block) with
            | None => Some (s, Some (BLOCK_MISSING_PREV, "prev-blk-not-found"%string), None)
            | Some prev =>
                if failed prev then Some (s, Some (BLOCK_INVALID_PREV, "bad-prevblk"%string), None)
                else
                  let! v := ContextualCheckBlockHeader fuzz ticks now idx params (hashPrevBlock (pure block)) block in
                  match v with
                  | Some v => Some (s, Some v, None)
                  | None => add_header s block min_pow_checked
                  end
            end
        end
    end.

(** Headers are taken in order until one is refused; [*ppindex] is the last one accepted.  Each header
    comes with the reading of the clock at its turn. *)
Fixpoint ProcessNewBlockHeaders (fuzz : bool) (ticks : Z) (params : Params) (s : ChainstateManager)
    (headers : list (Z * CBlockHeader)) (min_pow_checked : bool) (ppindex : option ptr)
    : option (ChainstateManager * verdict * option ptr) :=
  match headers with
  | [] => Some (s, None, ppindex)
  | (now, header) :: headers =>
      let! '(s, v, pindex) := AcceptBlockHeader fuzz ticks now params s header min_pow_checked in
      match v with
      | Some v => Some (s, Some v, ppindex)
      | None => ProcessNewBlockHeaders fuzz ticks params s headers min_pow_checked pindex
      end
  end.

Definition HasValidProofOfWork (fuzz : bool) (headers : list CBlockHeader) (consensusParams : Params) : bool :=
  forallb (fun header => match Validate fuzz header consensusParams true EITHER with None => true | Some _ => false end) headers.

(** ** The checks read the links of entries only, and a growing index keeps their results *)

(** Follows the lookup that [H] and the goal are stuck on. *)
Ltac follow H Hext :=
  match type of H with
  | context [?idx !! ?p] =>
      let b := fresh "b" in let E := fresh "E" in let b' := fresh "b'" in let E' := fresh "E'" in
      destruct (idx !! p) as [b|] eqn:E; [|discriminate H]; extended Hext p E b' E'; rewrite E'
  end.

(** Destructs a step that does not look at the index, in [H] and the goal alike. *)
Ltac step H := match type of H with (let! _ := ?e in _) = _ => destruct e; [|discriminate H] end.

Section Growth.
Context (idx idx' : BlockMap) (Hext : extends idx idx').

Lemma ancestor_loop_grow fuel p hw h q :
  ancestor_loop fuel idx p hw h = Some q -> ancestor_loop fuel idx' p hw h = Some q.
Proof.
  revert p hw; induction fuel as [|fuel IH]; intros p hw; cbn [ancestor_loop]; destruct (hw <=? h); auto.
  intros H; follow H Hext; rewrite Lskip, Lprev; destruct (pskip b); [case_match; [auto|]|]; destruct (pprev b); auto; discriminate.
Qed.

Lemma GetAncestor_grow p h r : GetAncestor idx p h = Some r -> GetAncestor idx' p h = Some r.
Proof.
  unfold GetAncestor; intros H; follow H Hext; rewrite Lheight; case_match; [exact H|].
  destruct (ancestor_loop _ idx p _ h) as [q|] eqn:Eq; [|discriminate]; rewrite (ancestor_loop_grow _ _ _ _ _ Eq); exact H.
Qed.

Lemma GetPreviousBlockForLane_grow p aux h r :
  GetPreviousBlockForLane idx p aux h = Some r -> GetPreviousBlockForLane idx' p aux h = Some r.
Proof.
  unfold GetPreviousBlockForLane; intros H; follow H Hext; unfold bi_SignalsAuxpow, bi_nVersion in *; rewrite Lheader.
  destruct (Bool.eqb _ aux); [exact H|]; rewrite Lperm, Laux.
  destruct (if aux then pprev_auxpow b else pprev_permissionless b) as [c|]; [|exact H].
  follow H Hext; rewrite Lheight0; exact H.
Qed.

Lemma skip_min_difficulty_grow fuel p i l r :
  skip_min_difficulty fuel idx p i l = Some r -> skip_min_difficulty fuel idx' p i l = Some r.
Proof.
  revert p; induction fuel as [|fuel IH]; intros p H; cbn [skip_min_difficulty] in *; follow H Hext;
    unfold bi_nBits in *; rewrite Lprev, Lheight, Lheader; destruct (pprev b) as [q|]; try exact H;
    step H; case_match; auto; discriminate.
Qed.

Lemma CalculateNextWorkRequiredLegacy_grow p t params r :
  CalculateNextWorkRequiredLegacy idx p t params = Some r -> CalculateNextWorkRequiredLegacy idx' p t params = Some r.
Proof.
  unfold CalculateNextWorkRequiredLegacy, period_start; intros H; follow H Hext.
  unfold GetBlockTime, bi_nTime, bi_nBits in *; rewrite Lheader, Lheight; step H; step H; destruct (enforce_BIP94 params); [|exact H].
  destruct (DifficultyAdjustmentInterval params); [|discriminate]; destruct (sarith 64 (_ - 1)); [|discriminate].
  destruct (sarith 64 (nHeight b - _)); [|discriminate].
  destruct (GetAncestor idx p _) as [[a|]|] eqn:Ea; try discriminate; rewrite (GetAncestor_grow _ _ _ Ea).
  cbn [mjoin option_join] in *; follow H Hext; rewrite Lheader0; exact H.
Qed.

Lemma IsCadenceActiveAfter_grow p params r :
  IsCadenceActiveAfter idx (Some p) params = Some r -> IsCadenceActiveAfter idx' (Some p) params = Some r.
Proof. unfold IsCadenceActiveAfter; intros H; follow H Hext; rewrite Lheight; exact H. Qed.

Lemma GetNextWorkRequiredLegacy_grow p pblock params r :
  GetNextWorkRequiredLegacy idx p pblock params = Some r -> GetNextWorkRequiredLegacy idx' p pblock params = Some r.
Proof.
  unfold GetNextWorkRequiredLegacy, period_start, min_difficulty_time, GetNextBlockIsAuxpow; intros H; step H.
  destruct (IsCadenceActiveAfter idx _ _) as [c|] eqn:Ec; [|discriminate]; rewrite (IsCadenceActiveAfter_grow _ _ _ Ec).
  follow H Hext; unfold GetBlockTime, bi_nTime, bi_nBits, bi_nVersion in *; rewrite Lheader, Lheight.
  step H; step H; step H; case_match; [case_match; [|exact H]|].
  - destruct (match pblock with Some _ => _ | None => _ end) as [[]|]; try exact H.
    destruct (skip_min_difficulty _ idx p _ _) as [q|] eqn:Eq; [|discriminate]; rewrite (skip_min_difficulty_grow _ _ _ _ _ Eq).
    follow H Hext; rewrite Lheader0; exact H.
  - destruct (sarith 64 (_ - 1)); [|discriminate]; destruct (sarith 64 (nHeight b - _)); [|discriminate].
    case_match; [|discriminate].
    destruct (GetAncestor idx p _) as [[a|]|] eqn:Ea; try discriminate; rewrite (GetAncestor_grow _ _ _ Ea).
    cbn [mjoin option_join] in *; follow H Hext; rewrite Lheader0; apply CalculateNextWorkRequiredLegacy_grow, H.
Qed.

Lemma GetNextWorkRequired_grow p pblock params r :
  GetNextWorkRequired idx p pblock params = Some r -> GetNextWorkRequired idx' p pblock params = Some r.
Proof.
  unfold GetNextWorkRequired, min_difficulty_time, GetNextBlockIsAuxpow, GetNextASERTWorkRequired_single; intros H; follow H Hext.
  unfold GetBlockTime, bi_nTime, bi_nBits, bi_nVersion in *; rewrite Lheader, Lheight; case_match; [exact H|].
  destruct (IsCadenceActiveAfter idx _ _) as [c|] eqn:Ec; [|discriminate]; rewrite (IsCadenceActiveAfter_grow _ _ _ Ec).
  step H; step H; case_match; [exact H|]; case_match; [apply GetNextWorkRequiredLegacy_grow, H|]; case_match; [exact H|].
  destruct (GetPreviousBlockForLane idx p _ _) as [s|] eqn:Es; [|discriminate]; rewrite (GetPreviousBlockForLane_grow _ _ _ _ Es).
  destruct s as [q|]; [|exact H]; follow H Hext.
  unfold GetASERTHeaderState, GetBlockTime, bi_nTime in *; rewrite Lheight0, Lcount0, Lheader0; exact H.
Qed.

Lemma past_times_grow n p ts : past_times n idx p = Some ts -> past_times n idx' p = Some ts.
Proof.
  revert p ts; induction n as [|n IH]; intros p ts; [auto|]; cbn [past_times]; destruct p as [p|]; [|auto].
  intros H; follow H Hext; unfold GetBlockTime, bi_nTime in *; rewrite Lheader, Lprev.
  destruct (past_times n idx (pprev b)) as [l|] eqn:El; [|discriminate]; rewrite (IH _ _ El); exact H.
Qed.

Lemma GetMedianTimePast_grow p m : GetMedianTimePast idx p = Some m -> GetMedianTimePast idx' p = Some m.
Proof.
  unfold GetMedianTimePast; destruct (past_times _ idx _) as [ts|] eqn:E; [|discriminate].
  rewrite (past_times_grow _ _ _ E); auto.
Qed.
End Growth.

(** ** The rules a header has to follow *)

(** The rules on a header whose parent is the entry [prev] at [q], but for those that consult the
    clock. *)
Record header_rules (params : Params) (idx : BlockMap) (q : ptr) (prev : CBlockIndex) (block : CBlockHeader) : Prop := {
  hr_height : nHeight prev + 1 < 2 ^ 31;
  hr_bits : GetNextWorkRequired idx q (Some block) params = Some (nBits (pure block));
  hr_time : exists median, GetMedianTimePast idx q = Some median /\ median < nTime (pure block);
  hr_timewarp : timewarp params (nHeight prev + 1) prev (nTime (pure block)) = Some false;
  hr_version : outdated_version params (nHeight prev + 1) (nVersion (pure block)) = false;
  hr_cadence : if CadenceActiveAtHeight params (nHeight prev + 1)
               then Version.HasCanonicalVersionLayout (nVersion (pure block)) = true /\
                    (Version.HasBIP9TopBitsShape (nVersion (pure block)) = true -> HasReservedVersionBits (pure block) = false)
               else SignalsAuxpow (pure block) = false;
  hr_commitment : SignalsAuxpow (pure block) = true ->
    Validate false block params false (CommitmentValidationForHeight params (nHeight prev + 1)) = None }.

(** The rule that consults the clock. *)
Definition not_too_new (ticks now : Z) (params : Params) (height time : Z) : Prop :=
  exists latest, sarith 64 (now + GetMaxFutureBlockTime params height * ticks) = Some latest /\ time * ticks <= latest.

Lemma ContextualCheckBlockHeader_spec ticks now idx params q prev block :
  idx !! q = Some prev -> 0 <= nHeight prev ->
  (ContextualCheckBlockHeader false ticks now idx params q block = Some None <->
   header_rules params idx q prev block /\ not_too_new ticks now params (nHeight prev + 1) (nTime (pure block))).
Proof.
  intros Hq H0; unfold ContextualCheckBlockHeader; rewrite Hq; split.
  - intros H; destruct (sarith 32 (nHeight prev + 1)) as [height|] eqn:Eh; [|discriminate].
    apply sarith_some in Eh as [-> Rh]; destruct (GetNextWorkRequired _ _ _ _) as [req|] eqn:Er; [|discriminate].
    destruct (Z.eqb_spec (nBits (pure block)) req) as [<-|]; cbn [negb] in H; [|discriminate].
    destruct (GetMedianTimePast idx q) as [m|] eqn:Em; [|discriminate].
    destruct (Z.leb_spec (nTime (pure block)) m); [discriminate|].
    destruct (timewarp _ _ _ _) as [[]|] eqn:Ew; try discriminate.
    destruct (sarith 64 _) as [latest|] eqn:El; [|discriminate].
    destruct (Z.ltb_spec latest (nTime (pure block) * ticks)); [discriminate|].
    destruct (outdated_version _ _ _) eqn:Ev; [discriminate|].
    unfold in_s in Rh; cbn in Rh; split; [|exists latest; split; [exact El | lia]].
    constructor; eauto; [lia | |].
    + destruct (CadenceActiveAtHeight _ _); cbn [negb andb] in H.
      * destruct (Version.HasCanonicalVersionLayout _); [|discriminate]; cbn [negb] in H; split; [reflexivity|].
        intros Ht; rewrite Ht in H; destruct (HasReservedVersionBits _); [discriminate | reflexivity].
      * destruct (SignalsAuxpow _); [discriminate | reflexivity].
    + intros Hs; rewrite Hs in H; destruct (Validate _ _ _ false _) as [e|]; [|reflexivity].
      repeat match type of H with (if ?c then _ else _) = _ => destruct c end; discriminate H.
  - intros ([Hh Hb (m & Hm & Ht) Hw Hv Hc Ha] & latest & Hl & Hlt).
    rewrite sarith_ok, Hb, Z.eqb_refl, Hm, (proj2 (Z.leb_gt _ _) Ht), Hw, Hl by (unfold in_s; cbn; lia); cbn [negb].
    rewrite (proj2 (Z.ltb_ge _ _) Hlt), Hv; destruct (CadenceActiveAtHeight _ _); cbn [negb andb].
    + destruct Hc as [-> Hr]; cbn [negb]; destruct (Version.HasBIP9TopBitsShape _); [rewrite (Hr eq_refl)|]; cbn [andb];
        destruct (SignalsAuxpow _); auto; rewrite (Ha eq_refl); reflexivity.
    + rewrite Hc; reflexivity.
Qed.

Lemma header_rules_grow params idx idx' q prev prev' block :
  extends idx idx' -> links prev' = links prev ->
  header_rules params idx q prev block -> header_rules params idx' q prev' block.
Proof.
  intros Hext L [Hh Hb (m & Hm & Ht) Hw Hv Hc Ha]; apply links_eq in L as (_ & _ & _ & _ & L5 & _ & _ & L8 & _).
  assert (Et : GetBlockTime prev' = GetBlockTime prev) by (unfold GetBlockTime, bi_nTime; rewrite L8; reflexivity).
  constructor; rewrite ?L5; auto.
  - exact (GetNextWorkRequired_grow idx idx' Hext _ _ _ _ Hb).
  - exists m; split; [exact (GetMedianTimePast_grow idx idx' Hext _ _ Hm) | exact Ht].
  - unfold timewarp in *; rewrite Et; exact Hw.
Qed.

(** ** The work behind a header *)

(** The hash that has to meet the target: the header's own, or the parent's in merged mining. *)
Definition pow_hash (block : CBlockHeader) : uint256 :=
  match auxpow block with Some a => GetParentBlockHash a | None => HeaderGetHash (pure block) end.

Lemma Validate_work block params mode :
  Validate false block params true mode = None ->
  CheckProofOfWork false (pow_hash block) (nBits (pure block)) params = true.
Proof.
  unfold Validate, HasAuxpow, pow_hash; destruct (SignalsAuxpow (pure block)), (auxpow block) as [a|]; cbn [negb andb];
    try discriminate; [|case_match; [discriminate|discriminate]|].
  - case_match; [discriminate|]; unfold CAuxPow_Validate; destruct (coinbase_tx a); [|discriminate].
    repeat (case_match; [discriminate|]); intros _; cbn [andb] in *.
    match goal with H : negb (CheckProofOfWork _ _ _ _) = false |- _ => apply negb_false_iff in H; exact H end.
  - destruct (CheckProofOfWork _ _ _ _); [reflexivity | discriminate].
Qed.

Lemma HeaderGetHash_ok h : uint256_ok (HeaderGetHash h).
Proof. rewrite HeaderGetHash_Hash; split; [apply limbs_Hash | apply length_Hash]. Qed.

Lemma pow_hash_ok block : uint256_ok (pow_hash block).
Proof. unfold pow_hash; destruct (auxpow block); apply HeaderGetHash_ok. Qed.

(** ** States reached by processing headers *)

Section Reach.
Context (params : Params).

(** The node starts from the genesis block, processes batches of headers, and in between records
    what it learns about blocks it has. *)
Inductive headers_reachable : ChainstateManager -> Prop :=
| hdr_genesis genesis bm h best :
    HeaderGetHash (pure genesis) = hashGenesisBlock params -> header_ok (pure genesis) ->
    hashPrevBlock (pure genesis) <> hashGenesisBlock params ->
    AddToBlockIndex HeaderGetHash empty_manager genesis None = Some (bm, h, best) ->
    headers_reachable {| m_blockman := bm; m_best_header := best |}
| hdr_process s ticks headers min_pow_checked ppindex s' v r :
    headers_reachable s -> Forall (fun x => header_ok (pure (snd x))) headers ->
    ProcessNewBlockHeaders false ticks params s headers min_pow_checked ppindex = Some (s', v, r) ->
    headers_reachable s'
| hdr_mark s p b b' dirty :
    headers_reachable s -> m_block_index (m_blockman s) !! p = Some b -> links b' = links b ->
    dirty ⊆ dom (m_block_index (m_blockman s)) ->
    headers_reachable {| m_blockman := {| m_block_index := <[p := b']> (m_block_index (m_blockman s));
                                          m_dirty_blockindex := dirty |};
                         m_best_header := m_best_header s |}.

(** What the index says of an entry: it is stored under its hash, it is the genesis block or its
    parent is in the index, its hash (or its merged-mining parent's) meets its target, and it
    followed the rules. *)
Definition entry_valid (idx : BlockMap) (p : ptr) (b : CBlockIndex) : Prop :=
  p = HeaderGetHash (pure (bi_header b)) /\
  match pprev b with
  | None => p = hashGenesisBlock params
  | Some q => q = hashPrevBlock (pure (bi_header b)) /\ Validate false (bi_header b) params true EITHER = None /\
      exists prev, idx !! q = Some prev /\ header_rules params idx q prev (bi_header b)
  end.

Definition headers_inv (s : ChainstateManager) : Prop :=
  let idx := m_block_index (m_blockman s) in
  index_reachable HeaderGetHash (m_blockman s) (m_best_header s) /\ is_Some (idx !! hashGenesisBlock params) /\
  forall p b, idx !! p = Some b -> entry_valid idx p b.

Lemma entry_valid_grow idx idx' p b b' :
  extends idx idx' -> links b' = links b -> entry_valid idx p b -> entry_valid idx' p b'.
Proof.
  intros Hext L [Hp Hv]; pose proof L as (L1 & _ & _ & _ & _ & _ & _ & L8 & _)%links_eq; unfold entry_valid; rewrite L1, L8.
  split; [exact Hp|]; destruct (pprev b) as [q|]; [|exact Hv]; destruct Hv as (Hq & Hval & prev & Hprev & Hr).
  destruct (Hext q prev Hprev) as (prev' & Hprev' & L'); eauto 7 using header_rules_grow.
Qed.

Lemma add_header_inv s block min_pow_checked s' v r :
  headers_inv s -> header_ok (pure block) ->
  (m_block_index (m_blockman s) !! HeaderGetHash (pure block) = None ->
   Validate false block params true EITHER = None /\
   exists prev, m_block_index (m_blockman s) !! hashPrevBlock (pure block) = Some prev /\
     header_rules params (m_block_index (m_blockman s)) (hashPrevBlock (pure block)) prev block) ->
  add_header s block min_pow_checked = Some (s', v, r) -> headers_inv s'.
Proof.
  intros Hinv Hok Hnew; unfold add_header; destruct min_pow_checked; cbn [negb]; [|intros [= <- <- <-]; exact Hinv].
  destruct (AddToBlockIndex _ _ _ _) as [[[bm pindex] best]|] eqn:E; [|discriminate]; intros Hs.
  apply (inj Some) in Hs; injection Hs as <- <- <-; destruct Hinv as (Hr & Hg & Hv).
  set (idx := m_block_index (m_blockman s)) in *; destruct (idx !! HeaderGetHash (pure block)) as [b|] eqn:Eh.
  { unfold AddToBlockIndex in E; fold idx in E; rewrite Eh in E; apply (inj Some) in E; injection E as <- <- <-.
    split; [exact Hr | split; [exact Hg | exact Hv]]. }
  destruct (Hnew eq_refl) as (Hval & prev & Hprev & Hrules).
  assert (Hacc : block_acceptable HeaderGetHash idx block).
  { split; [exact Hok|]; split; [intros Eq; rewrite Eq in Eh; fold idx in Eh; congruence|].
    intros pb Hpb; fold idx in Hprev; rewrite Hprev in Hpb; apply (inj Some) in Hpb as <-; apply (hr_height _ _ _ _ _ Hrules). }
  destruct (AddToBlockIndex_new HeaderGetHash (m_blockman s) block (m_best_header s)
    (index_reachable_inv _ _ _ Hr) Hacc Eh) as (b & best' & E' & _ & _ & Hb & Hp & _).
  rewrite E' in E; apply (inj Some) in E; injection E as <- <- <-; fold idx in E', Hp |- *.
  assert (Hext : extends idx (<[HeaderGetHash (pure block) := b]> idx))
    by (apply subseteq_extends, insert_subseteq; exact Eh).
  split; [eapply reach_add; [exact Hr | exact Hacc | exact E']|]; cbn [m_blockman m_block_index]; split.
  - destruct Hg as [g Hg]; destruct (Hext _ _ Hg) as (g' & -> & _); eauto.
  - intros p c [[<- <-]|[Hne Hc]]%lookup_insert_Some; [|eapply entry_valid_grow; eauto].
    split; rewrite Hb; [reflexivity|]; rewrite Hp, bool_decide_true by (rewrite Hprev; eauto).
    split; [reflexivity|]; split; [exact Hval|]; destruct (Hext _ _ Hprev) as (prev' & Hprev' & L); eauto using header_rules_grow.
Qed.

Lemma headers_inv_height s p b :
  headers_inv s -> m_block_index (m_blockman s) !! p = Some b -> 0 <= nHeight b.
Proof. intros (Hr & _) Hp; destruct (index_reachable_inv _ _ _ Hr) as (Hok & _); apply (Hok p b Hp). Qed.

Lemma AcceptBlockHeader_inv s ticks now block min_pow_checked s' v r :
  headers_inv s -> header_ok (pure block) ->
  AcceptBlockHeader false ticks now params s block min_pow_checked = Some (s', v, r) -> headers_inv s'.
Proof.
  intros Hinv Hok; unfold AcceptBlockHeader; set (idx := m_block_index (m_blockman s)).
  case_bool_decide as Eg; [apply add_header_inv; auto; intros E; destruct Hinv as (_ & [g Hg] & _); rewrite Eg in E; congruence|].
  destruct (idx !! HeaderGetHash (pure block)) as [b|] eqn:Eh.
  { destruct (failed b); [|destruct (Validate _ _ _ _ _)]; intros H; apply (inj Some) in H; injection H as <- <- <-; exact Hinv. }
  unfold CheckBlockHeader; destruct (Validate _ _ _ true _) eqn:Ev; [intros [= <- <- <-]; exact Hinv|].
  destruct (idx !! hashPrevBlock (pure block)) as [prev|] eqn:Ep; [|intros [= <- <- <-]; exact Hinv].
  destruct (failed prev); [intros [= <- <- <-]; exact Hinv|].
  destruct (ContextualCheckBlockHeader _ _ _ _ _ _ _) as [[|]|] eqn:Ec; [intros [= <- <- <-]; exact Hinv | | discriminate].
  apply (ContextualCheckBlockHeader_spec ticks now idx params _ prev block Ep (headers_inv_height s _ _ Hinv Ep)) in Ec as [Hrules _].
  apply add_header_inv; auto; intros _; split; [exact Ev | exists prev; split; [exact Ep | exact Hrules]].
Qed.

Lemma ProcessNewBlockHeaders_inv ticks headers min_pow_checked s ppindex s' v r :
  headers_inv s -> Forall (fun x => header_ok (pure (snd x))) headers ->
  ProcessNewBlockHeaders false ticks params s headers min_pow_checked ppindex = Some (s', v, r) -> headers_inv s'.
Proof.
  revert s ppindex; induction headers as [|[now header] headers IH]; intros s ppindex Hinv Hok; cbn [ProcessNewBlockHeaders].
  - intros [= <- <- <-]; exact Hinv.
  - inversion Hok as [|? ? Hh Hrest]; subst.
    destruct (AcceptBlockHeader _ _ _ _ _ _ _) as [[[s1 v1] r1]|] eqn:E; [|discriminate].
    pose proof (AcceptBlockHeader_inv s ticks now header min_pow_checked s1 v1 r1 Hinv Hh E) as Hinv1.
    destruct v1; [intros [= <- <- <-]; exact Hinv1 | eauto].
Qed.

Lemma genesis_inv genesis bm h best :
  HeaderGetHash (pure genesis) = hashGenesisBlock params -> header_ok (pure genesis) ->
  hashPrevBlock (pure genesis) <> hashGenesisBlock params ->
  AddToBlockIndex HeaderGetHash empty_manager genesis None = Some (bm, h, best) ->
  headers_inv {| m_blockman := bm; m_best_header := best |}.
Proof.
  intros Hh Hok Hp E.
  assert (Hacc : block_acceptable HeaderGetHash ∅ genesis).
  { split; [exact Hok|]; split; [congruence|]; intros pb H; rewrite lookup_empty in H; discriminate. }
  pose proof (reach_add HeaderGetHash empty_manager None genesis bm h best (reach_init _) Hacc E) as Hr.
  destruct (AddToBlockIndex_new HeaderGetHash empty_manager genesis None (index_reachable_inv _ _ _ (reach_init HeaderGetHash)) Hacc eq_refl)
    as (b & best' & E' & _ & _ & Hb & Hprev & _).
  rewrite E' in E; apply (inj Some) in E; injection E as <- <- <-.
  split; [exact Hr|]; cbn [m_blockman m_block_index empty_manager] in *; rewrite Hh; split; [rewrite lookup_insert_eq; eauto|].
  intros p c [[<- <-]|[Hne Hc]]%lookup_insert_Some; [|rewrite lookup_empty in Hc; discriminate].
  split; [congruence|]; rewrite Hprev; reflexivity.
Qed.

Lemma headers_reachable_inv s : headers_reachable s -> headers_inv s.
Proof.
  induction 1 as [genesis bm h best Hh Hok Hp E | s ticks headers mp pp s' v r _ IH Hok E | s p b b' dirty _ IH Hp L Hd].
  - exact (genesis_inv genesis bm h best Hh Hok Hp E).
  - exact (ProcessNewBlockHeaders_inv ticks headers mp s pp s' v r IH Hok E).
  - destruct IH as (Hr & Hg & Hv); set (idx := m_block_index (m_blockman s)) in *.
    pose proof (mark_extends idx p b b' Hp L) as Hext.
    split; [exact (reach_mark _ _ _ p b b' dirty Hr Hp L Hd)|]; cbn [m_blockman m_block_index]; fold idx; split.
    + destruct Hg as [g Hg]; destruct (Hext _ _ Hg) as (g' & -> & _); eauto.
    + intros q c [[<- <-]|[Hne Hc]]%lookup_insert_Some; eapply entry_valid_grow; eauto.
Qed.

(** Every entry descends from the genesis block. *)
Lemma headers_inv_genesis s p b :
  headers_inv s -> m_block_index (m_blockman s) !! p = Some b -> anc (m_block_index (m_blockman s)) (hashGenesisBlock params) p.
Proof.
  intros (Hr & _ & Hv) Hp; destruct (index_reachable_inv _ _ _ Hr) as (Hok & _).
  revert p b Hp; apply (lineage_ind _ _ Hok).
  - intros p b Hp Eq; destruct (Hv p b Hp) as [_ H]; rewrite Eq in H; subst p; apply anc_refl.
  - intros p b q bq Hp Eq _ IH; apply (anc_cases _ _ p b Hp); right; eauto.
Qed.

Lemma headers_inv_work s p b q :
  headers_inv s -> m_block_index (m_blockman s) !! p = Some b -> pprev b = Some q -> uint256_ok (powLimit params) ->
  u256 (pow_hash (bi_header b)) <= of_compact (bi_nBits b) <= u256 (powLimit params).
Proof.
  intros (Hr & _ & Hv) Hp Eq Hl; destruct (index_reachable_inv _ _ _ Hr) as (_ & Hdata & _).
  destruct (Hdata p b Hp) as (_ & _ & _ & _ & _ & _ & _ & Rb & _); destruct (Hv p b Hp) as [_ H]; rewrite Eq in H.
  destruct H as (_ & Hval & _); apply Validate_work, CheckProofOfWork_spec in Hval; auto using pow_hash_ok; unfold bi_nBits; tauto.
Qed.
End Reach.

(** ** The median *)

(** How many of the numbers are below [m]. *)
Definition below (m : Z) (l : list Z) : nat := length (filter (fun x => x < m) l).

Lemma below_cons m x l : below m (x :: l) = ((if bool_decide (x < m)%Z then 1 else 0) + below m l)%nat.
Proof. unfold below; rewrite filter_cons; case_bool_decide; case_decide; (contradiction || reflexivity). Qed.

Lemma below_perm m l l' : l ≡ₚ l' -> below m l = below m l'.
Proof. intros H; unfold below; rewrite H; reflexivity. Qed.

Lemma sorted_get x l k : StronglySorted Z.le (x :: l) -> (k < length l)%nat -> x <= get l k.
Proof.
  intros H Hk; inversion H as [|? ? _ Hall]; subst; rewrite Forall_forall in Hall; apply Hall.
  unfold get; apply nth_In, Hk.
Qed.

(** At most [k] numbers of a sorted list are below the one at [k], and that one is the least such. *)
Lemma sorted_below l k : StronglySorted Z.le l -> (k < length l)%nat -> (below (get l k) l <= k)%nat.
Proof.
  intros Hs; revert k; induction Hs as [|x l Hs IH Hall]; intros k Hk; [cbn in Hk; lia|].
  rewrite below_cons; destruct k as [|k]; cbn [length] in Hk.
  - change (get (x :: l) 0) with x; rewrite bool_decide_false by lia; clear -Hall.
    induction Hall as [|y l Hy _ IH]; [reflexivity|]; rewrite below_cons, bool_decide_false by lia; exact IH.
  - change (get (x :: l) (S k)) with (get l k); specialize (IH k ltac:(lia)); case_bool_decide; lia.
Qed.

Lemma sorted_above m l k : StronglySorted Z.le l -> (below m l <= k < length l)%nat -> m <= get l k.
Proof.
  intros Hs; revert k; induction Hs as [|x l Hs IH Hall]; intros k Hk; [cbn in Hk; lia|].
  rewrite below_cons in Hk; cbn [length] in Hk; case_bool_decide as Hx; destruct k as [|k]; try lia.
  - apply (IH k); lia.
  - change (get (x :: l) 0) with x; lia.
  - change (get (x :: l) (S k)) with (get l k).
    pose proof (sorted_get x l k (SSorted_cons _ Hs Hall) ltac:(lia)); lia.
Qed.

(** The value [GetMedianTimePast] picks. *)
Definition median (ts : list Z) : Z := get (merge_sort Z.le (rev ts)) (length ts / 2).

Lemma median_sorted ts : StronglySorted Z.le (merge_sort Z.le (rev ts)) /\ merge_sort Z.le (rev ts) ≡ₚ ts.
Proof.
  split; [apply Sorted_StronglySorted; [intros x y z; lia | apply Sorted_merge_sort, _]|].
  rewrite merge_sort_Permutation; symmetry; apply Permutation_rev.
Qed.

Lemma median_below ts : ts <> [] -> (below (median ts) ts <= length ts / 2)%nat.
Proof.
  intros Hne; destruct (median_sorted ts) as [Hs Hp]; rewrite <- (below_perm _ _ _ Hp); apply sorted_below; [exact Hs|].
  rewrite Hp; destruct ts; [contradiction|]; apply Nat.div_lt; cbn; lia.
Qed.

Lemma median_above m ts : ts <> [] -> (below m ts <= length ts / 2)%nat -> m <= median ts.
Proof.
  intros Hne Hb; destruct (median_sorted ts) as [Hs Hp]; apply sorted_above; [exact Hs|].
  rewrite (below_perm _ _ _ Hp), Hp; split; [exact Hb|]; destruct ts; [contradiction|]; apply Nat.div_lt; cbn; lia.
Qed.

(** A time above the median of the window does not lower the median of the next window. *)
Lemma median_next t ts n :
  ts <> [] -> median ts < t -> (length ts <= n)%nat -> median ts <= median (t :: take (n - 1) ts).
Proof.
  intros Hne Ht Hn; apply median_above; [discriminate|].
  rewrite below_cons, bool_decide_false by lia; pose proof (median_below ts Hne) as Hb; cbn [length Nat.add].
  assert (Hsub : (below (median ts) (take (n - 1) ts) <= below (median ts) ts)%nat).
  { generalize (median ts) as m; intros m; rewrite <- (take_drop (n - 1) ts) at 2; unfold below.
    rewrite list.filter_app, length_app; lia. }
  transitivity (length ts / 2)%nat; [lia|]; apply Nat.Div0.div_le_mono; rewrite length_take; lia.
Qed.

Lemma past_times_total idx n p :
  idx_ok idx -> (forall q, p = Some q -> is_Some (idx !! q)) -> is_Some (past_times n idx p).
Proof.
  intros Hok; revert p; induction n as [|n IH]; intros p Hp; [eauto|]; destruct p as [p|]; [|eauto]; cbn [past_times].
  destruct (Hp p eq_refl) as [b Hb]; rewrite Hb.
  destruct (IH (pprev b)) as [ts ->]; [|eauto]; intros q Eq; eapply entry_prev_in; eauto.
Qed.

Lemma past_times_S idx n p :
  past_times (S n) idx p = match p with
    | Some p => let! b := idx !! p in let! ts := past_times n idx (pprev b) in Some (GetBlockTime b :: ts)
    | None => Some [] end.
Proof. reflexivity. Qed.

Lemma past_times_take idx n p ts : past_times (S n) idx p = Some ts -> past_times n idx p = Some (take n ts).
Proof.
  revert p ts; induction n as [|n IH]; intros p ts; [reflexivity|]; rewrite past_times_S, (past_times_S idx n).
  destruct p as [p|]; [|intros [= <-]; reflexivity]; destruct (idx !! p) as [b|]; [|discriminate].
  destruct (past_times (S n) idx (pprev b)) as [l|] eqn:E; [|discriminate]; intros [= <-]; rewrite (IH _ _ E); reflexivity.
Qed.

Lemma past_times_length idx n p ts : past_times n idx p = Some ts -> (length ts <= n)%nat.
Proof.
  revert p ts; induction n as [|n IH]; intros p ts; cbn [past_times]; [intros [= <-]; cbn; lia|].
  destruct p as [p|]; [|intros [= <-]; cbn; lia]; destruct (idx !! p) as [b|]; [|discriminate].
  destruct (past_times n idx (pprev b)) as [l|] eqn:E; [|discriminate]; intros [= <-]; specialize (IH _ _ E); cbn; lia.
Qed.

Lemma GetMedianTimePast_total idx p : idx_ok idx -> is_Some (idx !! p) -> exists m, GetMedianTimePast idx p = Some m.
Proof.
  intros Hok Hp; unfold GetMedianTimePast; destruct (past_times_total idx nMedianTimeSpan (Some p) Hok) as [ts ->]; [congruence|].
  eauto.
Qed.

Lemma GetMedianTimePast_step idx p b q m :
  idx_ok idx -> idx !! p = Some b -> pprev b = Some q -> GetMedianTimePast idx q = Some m -> m < bi_nTime b ->
  exists m', GetMedianTimePast idx p = Some m' /\ m <= m'.
Proof.
  intros Hok Hp Eq; unfold GetMedianTimePast, nMedianTimeSpan.
  destruct (past_times 11 idx (Some q)) as [ts|] eqn:E; [|discriminate]; intros [= <-] Ht.
  rewrite past_times_S, Hp, Eq, (past_times_take idx 10 (Some q) ts E); eexists; split; [reflexivity|].
  change (median ts <= median (GetBlockTime b :: take (11 - 1) ts)).
  apply median_next; [|exact Ht | exact (past_times_length idx 11 _ _ E)].
  intros ->; cbn in E; destruct (idx !! q); [|discriminate]; case_match; discriminate.
Qed.

(** ** Totality *)

Section Total.
Context (params : Params) (N : asert_network params) (s : ChainstateManager) (Hinv : headers_inv params s).
Context (ticks now : Z) (Hticks : 0 < ticks <= 10 ^ 9) (Hnow : 0 <= now < 2 ^ 62).

Lemma latest_defined height : exists latest, sarith 64 (now + GetMaxFutureBlockTime params height * ticks) = Some latest.
Proof.
  eexists; apply sarith_ok; unfold in_s, GetMaxFutureBlockTime, MAX_FUTURE_BLOCK_TIME_V2, MAX_FUTURE_BLOCK_TIME_LEGACY.
  cbn [Z.sub]; case_match; lia.
Qed.

Lemma ContextualCheckBlockHeader_total q prev block :
  m_block_index (m_blockman s) !! q = Some prev -> nHeight prev + 1 < 2 ^ 31 ->
  exists v, ContextualCheckBlockHeader false ticks now (m_block_index (m_blockman s)) params q block = Some v.
Proof.
  intros Hq Hh; pose proof (headers_inv_height params s q prev Hinv Hq) as H0; destruct Hinv as (Hr & _).
  destruct (index_reachable_inv _ _ _ Hr) as (Hok & _); unfold ContextualCheckBlockHeader, timewarp; rewrite Hq.
  rewrite sarith_ok by (unfold in_s; cbn; lia).
  destruct (GetNextWorkRequired_defined HeaderGetHash _ _ Hr params q prev Hq Hh (Some block) N) as (n & -> & _).
  case_match; [eauto|]; destruct (GetMedianTimePast_total _ q Hok ltac:(rewrite Hq; eauto)) as [m ->].
  case_match; [eauto|]; rewrite (an_asert _ N), andb_false_r; destruct (latest_defined (nHeight prev + 1)) as [l ->].
  repeat case_match; eauto.
Qed.

Lemma add_header_total block min_pow_checked :
  block_acceptable HeaderGetHash (m_block_index (m_blockman s)) block ->
  exists s' v r, add_header s block min_pow_checked = Some (s', v, r) /\ (v <> None -> s' = s) /\
    (v = None <-> min_pow_checked = true) /\
    (v = None -> r = Some (HeaderGetHash (pure block)) /\
       is_Some (m_block_index (m_blockman s') !! HeaderGetHash (pure block))).
Proof.
  intros Hacc; unfold add_header; destruct min_pow_checked; cbn [negb].
  - destruct Hinv as (Hr & _).
    destruct (AddToBlockIndex_inv HeaderGetHash _ _ _ (index_reachable_inv _ _ _ Hr) Hacc) as (bm & best & -> & _ & _ & _ & b & Hb & _).
    eexists _, _, _; split; [reflexivity|]; split; [congruence|]; split; [split; reflexivity|]; cbn [m_blockman]; rewrite Hb; eauto.
  - eexists _, _, _; split; [reflexivity|]; split; [reflexivity|]; split; [split|]; discriminate.
Qed.
End Total.

(** ** A mined header on the regression-test network *)

Definition example_options : RegTestOptions := {|
  version_bits_parameters := []; activation_heights := []; cadence_activation_height := None;
  auxpow_display_commitment_height := None; outer_witness_activation_height := None; p2mr_activation_height := None;
  p2mr_validation_weight_v2_height := None; future_block_time_v2_height := None; enforce_bip94 := false;
  restricted_output_mode := true; asert := true; legacy_retarget := false |}.

Definition example_mined (prev : uint256) (time nonce : Z) : CBlockHeader :=
  {| pure := {| nVersion := 0x20000000; hashPrevBlock := prev; hashMerkleRoot := uint256_zero;
                nTime := time; nBits := 0x207fffff; nNonce := nonce |}; auxpow := None |}.

Definition regtest_header : CBlockHeader :=
  match regtest_genesis with Some b => header b | None => example_mined [] 0 0 end.

Definition no_state : ChainstateManager := {| m_blockman := empty_manager; m_best_header := None |}.

Definition added (r : option (BlockManager * ptr * option ptr)) : ChainstateManager :=
  match r with Some (bm, _, best) => {| m_blockman := bm; m_best_header := best |} | None => no_state end.

Definition processed (r : option (ChainstateManager * verdict * option ptr)) : ChainstateManager :=
  match r with Some (s, _, _) => s | None => no_state end.

Definition node_start : ChainstateManager := added (AddToBlockIndex HeaderGetHash empty_manager regtest_header None).

Definition node_synced : ChainstateManager :=
  processed (ProcessNewBlockHeaders false 1 (RegTestParams example_options) node_start
    [(1738713700, example_mined (hashGenesisBlock (RegTestParams example_options)) 1738713677 1)] true None).

Definition defined {A} (o : option A) : bool := match o with Some _ => true | None => false end.

Lemma defined_some {A} (o : option A) : defined o = true -> exists x, o = Some x.
Proof. destruct o; [eauto | discriminate]. Qed.

Lemma node_start_reachable : headers_reachable (RegTestParams example_options) node_start.
Proof.
  destruct (defined_some (AddToBlockIndex HeaderGetHash empty_manager regtest_header None)) as ([[bm h] best] & E);
    [vm_compute; reflexivity|].
  unfold node_start; rewrite E; apply (hdr_genesis _ regtest_header bm h best).
  - vm_compute; reflexivity.
  - repeat split; vm_compute; congruence.
  - apply (bool_decide_eq_false_1 (_ = _)); vm_compute; reflexivity.
  - exact E.
Qed.

Lemma node_synced_reachable : headers_reachable (RegTestParams example_options) node_synced.
Proof.
  unfold node_synced; set (hs := [_]).
  destruct (defined_some (ProcessNewBlockHeaders false 1 (RegTestParams example_options) node_start hs true None)) as ([[s v] r] & E);
    [vm_compute; reflexivity|].
  rewrite E; apply (hdr_process _ node_start 1 hs true None s v r); [exact node_start_reachable | | exact E].
  apply Forall_cons; [|apply Forall_nil]; repeat split; vm_compute; congruence.
Qed.

(** The mined block is in the index, with a parent. *)
Definition mined_hash : ptr :=
  HeaderGetHash (pure (example_mined (hashGenesisBlock (RegTestParams example_options)) 1738713677 1)).

Lemma node_synced_entry :
  exists b q, m_block_index (m_blockman node_synced) !! mined_hash = Some b /\ pprev b = Some q.
Proof.
  destruct (defined_some (m_block_index (m_blockman node_synced) !! mined_hash)) as [b E]; [vm_compute; reflexivity|].
  destruct (defined_some (let! b := m_block_index (m_blockman node_synced) !! mined_hash in pprev b)) as [q Eq];
    [vm_compute; reflexivity|].
  rewrite E in Eq; exists b, q; split; [exact E | exact Eq].
Qed.

(** ** Properties *)

(** C10: whatever batches of headers a node is sent, at whatever times, and whatever it records about
    blocks in between, every entry of its index is the genesis block or a valid descendant of it:
    stored under its hash, linked to the header it names, with the target difficulty selection
    requires after its parent, a time after the median of the eleven blocks before it, an admissible
    version and lane, and a hash (its own, or its merged-mining parent's) that meets its target. *)
Theorem accepted_headers_valid params s p b :
  headers_reachable params s -> uint256_ok (powLimit params) -> m_block_index (m_blockman s) !! p = Some b ->
  let idx := m_block_index (m_blockman s) in
  index_reachable HeaderGetHash (m_blockman s) (m_best_header s) /\
  p = HeaderGetHash (pure (bi_header b)) /\ anc idx (hashGenesisBlock params) p /\
  match pprev b with
  | None => p = hashGenesisBlock params
  | Some q => q = hashPrevBlock (pure (bi_header b)) /\
      u256 (pow_hash (bi_header b)) <= of_compact (bi_nBits b) <= u256 (powLimit params) /\
      exists prev, idx !! q = Some prev /\ header_rules params idx q prev (bi_header b)
  end.
Proof.
  intros Hr Hl Hp idx; pose proof (headers_reachable_inv params s Hr) as Hinv; pose proof Hinv as (Hi & _ & Hv).
  destruct (Hv p b Hp) as [Hh Hrules]; split; [exact Hi|]; split; [exact Hh|]; split; [exact (headers_inv_genesis params s p b Hinv Hp)|].
  destruct (pprev b) as [q|] eqn:Eq; [|exact Hrules]; destruct Hrules as (Hq & _ & Hprev).
  split; [exact Hq|]; split; [exact (headers_inv_work params s p b q Hinv Hp Eq Hl) | exact Hprev].
Qed.

Lemma accepted_headers_valid_witness :
  exists p b q prev, m_block_index (m_blockman node_synced) !! p = Some b /\ pprev b = Some q /\
    header_rules (RegTestParams example_options) (m_block_index (m_blockman node_synced)) q prev (bi_header b).
Proof.
  destruct node_synced_entry as (b & q & E & Eq).
  destruct (accepted_headers_valid (RegTestParams example_options) node_synced _ b node_synced_reachable (limit_ok _) E)
    as (_ & _ & _ & H).
  rewrite Eq in H; destruct H as (_ & _ & prev & _ & H); exists mined_hash, b, q, prev; split; [exact E|]; split; [exact Eq | exact H].
Defined.

(** C21: on an ASERT network header acceptance always returns, a refused header leaves the index and
    the best header as they were, and a header the node does not have is accepted exactly when its
    work is valid, its parent is known and not marked invalid, it follows the rules, it is not too far
    in the future, and the caller vouches for the work of its chain; it is then in the index. *)
Theorem AcceptBlockHeader_exact params s ticks now block min_pow_checked :
  headers_reachable params s -> asert_network params -> header_ok (pure block) ->
  (forall prev, m_block_index (m_blockman s) !! hashPrevBlock (pure block) = Some prev -> nHeight prev + 1 < 2 ^ 31) ->
  0 < ticks <= 10 ^ 9 -> 0 <= now < 2 ^ 62 -> HeaderGetHash (pure block) <> hashGenesisBlock params ->
  let idx := m_block_index (m_blockman s) in
  let hash := HeaderGetHash (pure block) in
  exists s' v r, AcceptBlockHeader false ticks now params s block min_pow_checked = Some (s', v, r) /\
    (v <> None -> s' = s) /\
    (v = None -> r = Some hash /\ is_Some (m_block_index (m_blockman s') !! hash)) /\
    (idx !! hash = None ->
     v = None <-> Validate false block params true EITHER = None /\ min_pow_checked = true /\
       exists prev, idx !! hashPrevBlock (pure block) = Some prev /\ failed prev = false /\
         header_rules params idx (hashPrevBlock (pure block)) prev block /\
         not_too_new ticks now params (nHeight prev + 1) (nTime (pure block))).
Proof.
  intros Hr N Hok Hh Ht Hn Hg idx hash; pose proof (headers_reachable_inv params s Hr) as Hinv; unfold AcceptBlockHeader.
  fold idx hash; rewrite bool_decide_false by exact Hg; destruct (idx !! hash) as [b|] eqn:Eh.
  { destruct (failed b); [|destruct (Validate _ _ _ _ _)]; eexists _, _, _; (split; [reflexivity|]);
      (split; [auto|]); (split; [intros H; first [discriminate H | split; [reflexivity | exists b; exact Eh]] | discriminate]). }
  unfold CheckBlockHeader; destruct (Validate _ _ _ true _) eqn:Ev.
  { eexists _, _, _; split; [reflexivity|]; split; [auto|]; split; [discriminate|]; split; [discriminate | intros [Hx _]; discriminate Hx]. }
  destruct (idx !! hashPrevBlock (pure block)) as [prev|] eqn:Ep.
  2: { eexists _, _, _; split; [reflexivity|]; split; [auto|]; split; [discriminate|]; split; [discriminate|].
       intros (_ & _ & prev & Hx & _); discriminate Hx. }
  destruct (failed prev) eqn:Ef.
  { eexists _, _, _; split; [reflexivity|]; split; [auto|]; split; [discriminate|]; split; [discriminate|].
    intros (_ & _ & prev' & [= <-] & Hf & _); congruence. }
  destruct (ContextualCheckBlockHeader_total params N s Hinv ticks now Ht Hn _ prev block Ep (Hh prev Ep)) as [v Hv].
  pose proof (ContextualCheckBlockHeader_spec ticks now idx params _ prev block Ep (headers_inv_height params s _ _ Hinv Ep)) as Hspec.
  fold idx in Hv; rewrite Hv in Hspec |- *; destruct v as [v|].
  { eexists _, _, _; split; [reflexivity|]; split; [auto|]; split; [discriminate|]; split; [discriminate|].
    intros (_ & _ & prev' & [= <-] & _ & Hrules & Hnew); discriminate (proj2 Hspec (conj Hrules Hnew)). }
  assert (Hacc : block_acceptable HeaderGetHash idx block) by (split; [exact Hok|]; split; [fold hash; congruence | exact Hh]).
  destruct (add_header_total params s Hinv block min_pow_checked Hacc) as (s' & v & r & E & H1 & H2 & H3).
  exists s', v, r; split; [exact E|]; split; [exact H1|]; split; [exact H3|]; intros _; rewrite H2.
  destruct (proj1 Hspec eq_refl) as [Hrules Hnew]; split; [eauto 10 | tauto].
Qed.

Lemma AcceptBlockHeader_exact_witness :
  exists s' r, AcceptBlockHeader false 1 1738713700 (RegTestParams example_options) node_start
      (example_mined (hashGenesisBlock (RegTestParams example_options)) 1738713677 1) true = Some (s', None, r) /\
    r = Some mined_hash /\ is_Some (m_block_index (m_blockman s') !! mined_hash).
Proof.
  destruct (AcceptBlockHeader_exact (RegTestParams example_options) node_start 1 1738713700
    (example_mined (hashGenesisBlock (RegTestParams example_options)) 1738713677 1) true) as (s' & v & r & E & _ & H & _).
  - exact node_start_reachable.
  - apply asert_network_regtest; reflexivity.
  - repeat split; vm_compute; congruence.
  - intros prev Hprev; assert (Hh : match m_block_index (m_blockman node_start) !! hashGenesisBlock (RegTestParams example_options) with
      Some b => nHeight b | None => 0 end = 0) by (vm_compute; reflexivity).
    cbn [pure example_mined hashPrevBlock] in Hprev; rewrite Hprev in Hh; lia.
  - lia.
  - lia.
  - apply (bool_decide_eq_false_1 (_ = _)); vm_compute; reflexivity.
  - assert (Hv : match AcceptBlockHeader false 1 1738713700 (RegTestParams example_options) node_start
      (example_mined (hashGenesisBlock (RegTestParams example_options)) 1738713677 1) true with Some (_, v, _) => defined v | None => true end = false)
      by (vm_compute; reflexivity).
    rewrite E in Hv; destruct v; [discriminate Hv|]; exists s', r; split; [exact E | exact (H eq_refl)].
Defined.

Lemma reachable_median_step params s p b q :
  headers_reachable params s -> m_block_index (m_blockman s) !! p = Some b -> pprev b = Some q ->
  let idx := m_block_index (m_blockman s) in
  exists before after, GetMedianTimePast idx q = Some before /\ GetMedianTimePast idx p = Some after /\
    before <= after /\ before < bi_nTime b.
Proof.
  intros Hr Hp Eq idx; destruct (headers_reachable_inv params s Hr) as (Hi & _ & Hv).
  destruct (index_reachable_inv _ _ _ Hi) as (Hok & _); destruct (Hv p b Hp) as [_ H]; rewrite Eq in H.
  destruct H as (_ & _ & prev & _ & Hrules); destruct (hr_time _ _ _ _ _ Hrules) as (m & Hm & Ht).
  destruct (GetMedianTimePast_step idx p b q m Hok Hp Eq Hm Ht) as (m' & Hm' & Hle); eauto 10.
Qed.

(** C33: along every branch a node has accepted the median time past never goes back: the median of a
    block's window is at least that of its parent's, although the times of blocks may go back.  So a
    lock time once passed stays passed. *)
Theorem median_time_never_decreases params s p b q :
  headers_reachable params s -> m_block_index (m_blockman s) !! p = Some b -> pprev b = Some q ->
  let idx := m_block_index (m_blockman s) in
  exists before after, GetMedianTimePast idx q = Some before /\ GetMedianTimePast idx p = Some after /\
    before <= after /\ before < bi_nTime b.
Proof. apply reachable_median_step. Qed.

Lemma median_time_never_decreases_witness :
  exists p q before after, GetMedianTimePast (m_block_index (m_blockman node_synced)) q = Some before /\
    GetMedianTimePast (m_block_index (m_blockman node_synced)) p = Some after /\ before <= after.
Proof.
  destruct node_synced_entry as (b & q & E & Eq).
  destruct (median_time_never_decreases (RegTestParams example_options) node_synced _ b q node_synced_reachable E Eq)
    as (before & after & H1 & H2 & H3 & _).
  exists mined_hash, q, before, after; split; [exact H1|]; split; [exact H2 | exact H3].
Defined.
