(* ===== verification/AssumeValid.v ===== *)
(** When script checks may be skipped: [WorkDurationExceeds], [HasAssumeValidBurial],
    [IsAssumedValidAncestor] and [ChainstateManager::CanSkipScriptChecks] of
    [src/src/validation.cpp].  The configured [-assumevalid] block and minimum chain work are
    arguments. *)

From stdpp Require Import gmap strings sorting.
From S2P Require Import Prelude ArithUint Params Version Primitives Chain Block Networks Headers.

#[local] Open Scope Z_scope.
#[local] Open Scope qbit_scope.

Abbreviation ASSUMEVALID_WORK_RATE_WINDOW := 120%nat.
Definition ASSUMEVALID_BURIAL_SECONDS : Z := 60 * 60 * 24 * 7 * 2.

(** [None] would be a division by zero. *)
Definition WorkDurationExceeds (work reference_work : base_uint) (elapsed_seconds seconds : Z) : option bool :=
  if EqualTo work 0 || EqualTo reference_work 0 || (elapsed_seconds =? 0) then Some false
  else
    let! work_quotient := div work reference_work in
    let seconds_quotient := arith_uint256 (seconds / elapsed_seconds) in
    if negb (eqb work_quotient seconds_quotient) then Some (gtb work_quotient seconds_quotient)
    else
      let work_remainder := sub work (mul work_quotient reference_work) in
      let seconds_remainder := seconds mod elapsed_seconds in
      let elapsed := arith_uint256 elapsed_seconds in
      let! reference_quotient := div reference_work elapsed in
      let reference_remainder := sub reference_work (mul reference_quotient elapsed) in
      let remainder_threshold := mul32 reference_quotient seconds_remainder in
      let remainder_threshold :=
        add remainder_threshold
          (arith_uint256 (wrap 64 (GetLow64 reference_remainder * seconds_remainder) / elapsed_seconds)) in
      Some (gtb work_remainder remainder_threshold).

(** [n] steps along [pprev]; the inner option is the pointer, null when the history is too short. *)
Fixpoint window_start (n : nat) (idx : BlockMap) (p : ptr) : option (option ptr) :=
  match n with
  | O => Some (Some p)
  | S n =>
      let! b := idx !! p in
      match pprev b with Some q => window_start n idx q | None => Some None end
  end.

Definition HasAssumeValidBurial (idx : BlockMap) (tip block_index : ptr) : option bool :=
  let! start := window_start ASSUMEVALID_WORK_RATE_WINDOW idx tip in
  match start with
  | None => Some false
  | Some window_start =>
      let! t := idx !! tip in
      let! w := idx !! window_start in
      let! b := idx !! block_index in
      if leb (nChainWork t) (nChainWork w) || leb (nChainWork t) (nChainWork b) then Some false
      else
        let! mt := GetMedianTimePast idx tip in
        let! mw := GetMedianTimePast idx window_start in
        let! elapsed := sarith 64 (mt - mw) in
        if (elapsed <=? 0) || (2 ^ 32 - 1 <? elapsed) then Some false
        else WorkDurationExceeds (sub (nChainWork t) (nChainWork b)) (sub (nChainWork t) (nChainWork w))
               (wrap 32 elapsed) ASSUMEVALID_BURIAL_SECONDS
  end.

Section Skip.
Context (AssumedValidBlock : uint256) (MinimumChainWork : base_uint).

Definition IsAssumedValidAncestor (s : ChainstateManager) (block_index : ptr) : option bool :=
  let idx := m_block_index (m_blockman s) in
  if uint256_IsNull AssumedValidBlock then Some false
  else
    match m_best_header s with
    | None => Some false
    | Some best =>
        let! bb := idx !! best in
        if ltb (nChainWork bb) MinimumChainWork then Some false
        else
          match idx !! AssumedValidBlock with
          | None => Some false
          | Some _ =>
              let! b := idx !! block_index in
              let! a := GetAncestor idx AssumedValidBlock (nHeight b) in
              if negb (bool_decide (a = Some block_index)) then Some false
              else let! a := GetAncestor idx best (nHeight b) in Some (bool_decide (a = Some block_index))
          end
    end.

Definition CanSkipScriptChecks (s : ChainstateManager) (block_index : ptr) (witness_unavailable : bool) : option bool :=
  let! assumed := IsAssumedValidAncestor s block_index in
  if negb assumed then Some false
  else if witness_unavailable then Some true
  else let! best := m_best_header s in HasAssumeValidBurial (m_block_index (m_blockman s)) best block_index.
End Skip.

(** ** The comparison of ratios *)

Lemma wf_mul32 W a b : wf W a -> in_u 32 b -> wf W (mul32 a b) /\ val (mul32 a b) = wrap (32 * Z.of_nat W) (val a * b).
Proof.
  intros [Ha La] Hb. destruct (mul32_loop_spec a b 0 La Hb ltac:(split; lia)) as (H1 & H2 & c & H3).
  split; [split; [unfold mul32; congruence|exact H2]|].
  rewrite <- Ha, <- H1. apply (lval_mod_unique 32 ltac:(lia) _ _ c H2). rewrite <- (Z.add_0_r (val a * b)), H3, H1. reflexivity.
Qed.

(** [floor (r * s / e)] from the quotient and the remainder of [r] by [e]. *)
Lemma threshold_floor r s e : 0 < e -> (r / e) * s + (r mod e) * s / e = r * s / e.
Proof.
  intros He. rewrite (Z.div_mod r e) at 3 by lia.
  replace ((e * (r / e) + r mod e) * s) with ((r mod e) * s + (r / e * s) * e) by ring.
  rewrite Z.div_add by lia. lia.
Qed.

Lemma quotient_order p q x y r e :
  p < q -> 0 <= x -> y < e -> 0 < r -> 0 < e -> r * (e * p + y) < (r * q + x) * e.
Proof.
  intros. assert (0 <= (r * e) * (q - p - 1)) by (apply Z.mul_nonneg_nonneg; [apply Z.mul_nonneg_nonneg; lia|lia]).
  assert (0 < r * (e - y)) by (apply Z.mul_pos_pos; lia). assert (0 <= x * e) by (apply Z.mul_nonneg_nonneg; lia). lia.
Qed.

Lemma ratio_compare w r s e :
  0 < r -> 0 < e ->
  (if w / r =? s / e then r * (s mod e) / e <? w mod r else s / e <? w / r) = (r * s <? w * e).
Proof.
  intros Hr He.
  pose proof (Z.div_mod w r ltac:(lia)) as Ew. pose proof (Z.mod_pos_bound w r Hr) as Rw.
  pose proof (Z.div_mod s e ltac:(lia)) as Es. pose proof (Z.mod_pos_bound s e He) as Rs.
  set (q := w / r) in *. set (p := s / e) in *. set (x := w mod r) in *. set (y := s mod e) in *.
  apply eq_true_iff_eq. rewrite Ew, Es. destruct (Z.eqb_spec q p) as [->|Hne]; rewrite !Z.ltb_lt.
  - pose proof (Z.div_mod (r * y) e ltac:(lia)). pose proof (Z.mod_pos_bound (r * y) e He). split; nia.
  - split; [intros; apply quotient_order; lia|]. intros. destruct (Z.lt_ge_cases p q); [done|exfalso].
    pose proof (quotient_order q p y x e r ltac:(lia) ltac:(lia) ltac:(lia) He Hr). lia.
Qed.

(** Quotient and remainder of two words. *)
Lemma div_rem a b :
  wf W256 a -> wf W256 b -> 0 < val b ->
  exists q, div a b = Some q /\ wf W256 q /\ val q = val a / val b /\
    wf W256 (sub a (mul q b)) /\ val (sub a (mul q b)) = val a mod val b.
Proof.
  intros Ha Hb Hpos. pose proof (div_spec W256 a b Ha Hb) as Hd. destruct (div a b) as [q|]; [|lia].
  destruct Hd as (_ & Wq & Vq). exists q. split_and!; auto using wf_sub, wf_mul.
  pose proof (val_range256 a Ha) as Ra. unfold in_u in Ra. pose proof (Z.div_mod (val a) (val b) ltac:(lia)) as E.
  pose proof (Z.mod_pos_bound (val a) (val b) Hpos). assert (0 <= val a / val b) by (apply Z.div_pos; lia).
  rewrite (val_sub W256), (val_mul W256), Vq by auto using wf_mul. change (32 * Z.of_nat W256) with 256.
  rewrite (wrap_small 256 (_ * _)) by (split; nia). rewrite wrap_small by (split; nia). lia.
Qed.

(** The threshold does not overflow. *)
Lemma threshold_exact r rq rr s e :
  wf W256 r -> wf W256 rq -> wf W256 rr -> 0 < e < 2 ^ 32 -> 0 <= s < e -> val rq = val r / e -> val rr = val r mod e ->
  let t := add (mul32 rq s) (arith_uint256 (wrap 64 (GetLow64 rr * s) / e)) in
  wf W256 t /\ val t = val r * s / e.
Proof.
  intros Hr Hq Hrr He Hs Vq Vr t. pose proof (val_range256 r Hr) as Rr. unfold in_u in Rr.
  pose proof (Z.mod_pos_bound (val r) e ltac:(lia)) as Rm. pose proof (Z.div_mod (val r) e ltac:(lia)) as E.
  assert (Hq0 : 0 <= val r / e) by (apply Z.div_pos; lia).
  assert (Elow : wrap 64 (GetLow64 rr * s) = (val r mod e) * s).
  { rewrite (GetLow64_spec W256), Vr, (wrap_small 64 (_ mod _)) by (done || (unfold W256; lia) || (split; lia)).
    apply wrap_small. split; nia. }
  assert (Rx : 0 <= (val r mod e) * s / e < 2 ^ 32) by (split; [apply Z.div_pos|apply Z.div_lt_upper_bound]; nia).
  destruct (wf_mul32 W256 rq s Hq ltac:(split; lia)) as [Wt Vt]. subst t. rewrite Elow.
  split; [apply wf_add; [done|]; apply wf_arith; split; lia|].
  rewrite (val_add W256), Vt, Vq, val_arith by (auto || (apply wf_arith; split; lia) || (split; lia)).
  change (32 * Z.of_nat W256) with 256. rewrite (wrap_small 256 (_ * _)), threshold_floor by (lia || split; nia).
  apply wrap_small. split; [apply Z.div_pos; nia|]. apply Z.div_lt_upper_bound; nia.
Qed.

Lemma WorkDurationExceeds_spec work reference elapsed seconds :
  wf W256 work -> wf W256 reference -> in_u 32 elapsed -> in_u 32 seconds ->
  WorkDurationExceeds work reference elapsed seconds =
    Some ((0 <? val reference) && (val reference * seconds <? val work * elapsed)).
Proof.
  intros Hw Hr He Hs. unfold WorkDurationExceeds.
  pose proof (val_range256 work Hw) as Rw. pose proof (val_range256 reference Hr) as Rr. unfold in_u in *.
  rewrite !(EqualTo_spec W256) by (done || (unfold W256; lia) || (unfold in_u; lia)).
  destruct (Z.eqb_spec (val work) 0) as [->|Nw]; cbn [orb].
  { rewrite Z.mul_0_l, (proj2 (Z.ltb_ge _ 0)) by nia. by rewrite andb_false_r. }
  destruct (Z.eqb_spec (val reference) 0) as [->|Nr]; cbn [orb]; [done|].
  destruct (Z.eqb_spec elapsed 0) as [->|Ne].
  { rewrite Z.mul_0_r, (proj2 (Z.ltb_ge _ 0)) by nia. by rewrite andb_false_r. }
  rewrite (proj2 (Z.ltb_lt 0 (val reference))) by lia. cbn [andb]. rewrite <- ratio_compare by lia.
  destruct (div_rem work reference Hw Hr ltac:(lia)) as (q & -> & Wq & Vq & Wwr & Vwr).
  assert (Hse : 0 <= seconds / elapsed < 2 ^ 32) by (split; [apply Z.div_pos|apply Z.div_lt_upper_bound]; nia).
  assert (Wse : wf W256 (arith_uint256 (seconds / elapsed))) by (apply wf_arith; split; lia).
  rewrite (eqb_spec W256), (gtb_spec W256), Vq, val_arith by (done || split; lia).
  destruct (val work / val reference =? seconds / elapsed); [|done]. cbn [negb].
  assert (Wel : wf W256 (arith_uint256 elapsed)) by (apply wf_arith; split; lia).
  assert (Vel : val (arith_uint256 elapsed) = elapsed) by (apply val_arith; split; lia).
  destruct (div_rem reference (arith_uint256 elapsed) Hr Wel) as (rq & -> & Wrq & Vrq & Wrr & Vrr); [lia|]. rewrite Vel in Vrq, Vrr.
  destruct (threshold_exact reference rq _ (seconds mod elapsed) elapsed Hr Wrq Wrr) as [Wt Vt];
    [lia|apply Z.mod_pos_bound; lia|done|done|].
  rewrite (gtb_spec W256), Vwr, Vt by done. reflexivity.
Qed.

(** ** Which blocks skip *)

Lemma window_start_back idx n p :
  idx_ok idx -> is_Some (idx !! p) -> window_start n idx p = Some (back idx p n).
Proof.
  intros Hok. revert p. induction n as [|n IH]; intros p [b Hp]; [done|]. simpl. rewrite Hp.
  destruct (pprev b) as [q|] eqn:Eq; [|done]. apply IH. eapply entry_prev_in; eauto.
Qed.

Lemma past_times_range idx n p ts :
  (forall q b, idx !! q = Some b -> data_ok idx b) -> past_times n idx p = Some ts -> Forall (in_u 32) ts.
Proof.
  intros Hd. revert p ts. induction n as [|n IH]; intros p ts; [intros [= <-]; apply Forall_nil_2|].
  rewrite past_times_S. destruct p as [p|]; [|intros [= <-]; apply Forall_nil_2].
  destruct (idx !! p) as [b|] eqn:Hp; [|done]. destruct (past_times n idx (pprev b)) as [l|] eqn:E; [|done].
  intros [= <-]. apply Forall_cons_2; [|by apply (IH (pprev b))]. by destruct (Hd p b Hp) as (_ & _ & _ & _ & _ & _ & H & _).
Qed.

Lemma GetMedianTimePast_range idx p m :
  (forall q b, idx !! q = Some b -> data_ok idx b) -> GetMedianTimePast idx p = Some m -> in_u 32 m.
Proof.
  intros Hd. unfold GetMedianTimePast. destruct (past_times _ idx _) as [ts|] eqn:E; [|done]. intros [= <-].
  pose proof (past_times_range _ _ _ _ Hd E) as Hr. destruct (median_sorted ts) as [_ Hp]. rewrite <- Hp in Hr.
  apply limbs_get; [lia|exact Hr].
Qed.

(** The rate of work over the last blocks of [best] would take more than the burial time to produce
    the work on top of [p]. *)
Definition buried (idx : BlockMap) (best p : ptr) : Prop :=
  exists w bb wb b mt mw, back idx best ASSUMEVALID_WORK_RATE_WINDOW = Some w /\
    idx !! best = Some bb /\ idx !! w = Some wb /\ idx !! p = Some b /\
    GetMedianTimePast idx best = Some mt /\ GetMedianTimePast idx w = Some mw /\ mw < mt /\
    val (nChainWork wb) < val (nChainWork bb) /\
    (val (nChainWork bb) - val (nChainWork wb)) * ASSUMEVALID_BURIAL_SECONDS <
    (val (nChainWork bb) - val (nChainWork b)) * (mt - mw).

Definition may_skip (s : ChainstateManager) (assumed : uint256) (min_work : base_uint) (p : ptr) (witness_unavailable : bool) : Prop :=
  let idx := m_block_index (m_blockman s) in
  uint256_IsNull assumed = false /\
  exists best bb, m_best_header s = Some best /\ idx !! best = Some bb /\ val min_work <= val (nChainWork bb) /\
    is_Some (idx !! assumed) /\ anc idx p assumed /\ anc idx p best /\
    (witness_unavailable = true \/ buried idx best p).

Section SkipSpec.
Context (bm : BlockManager) (best_header : option ptr) (Hinv : index_inv bm best_header).
#[local] Abbreviation idx := (m_block_index bm).

Lemma HasAssumeValidBurial_spec best p :
  is_Some (idx !! best) -> is_Some (idx !! p) ->
  exists r, HasAssumeValidBurial idx best p = Some r /\ (r = true <-> buried idx best p).
Proof.
  destruct Hinv as (Hok & Hdata & _). intros [bb Hbb] [b Hb]. unfold HasAssumeValidBurial.
  rewrite window_start_back by eauto. destruct (back idx best _) as [w|] eqn:Ew.
  2: { exists false. split; [done|]. split; [done|]. intros (w & _ & _ & _ & _ & _ & E & _). congruence. }
  destruct (back_in idx best _ w Hok ltac:(eauto) Ew) as [wb Hw]. rewrite Hbb, Hw, Hb.
  destruct (Hdata _ _ Hbb) as [Wbb _]. destruct (Hdata _ _ Hb) as [Wb _]. destruct (Hdata _ _ Hw) as [Ww _].
  pose proof (val_range256 _ Wbb) as Rbb. pose proof (val_range256 _ Wb) as Rb. pose proof (val_range256 _ Ww) as Rw. unfold in_u in *.
  destruct (GetMedianTimePast_total idx best Hok ltac:(eauto)) as [mt Hmt]. destruct (GetMedianTimePast_total idx w Hok ltac:(eauto)) as [mw Hmw].
  pose proof (GetMedianTimePast_range idx best mt Hdata Hmt) as Rt. pose proof (GetMedianTimePast_range idx w mw Hdata Hmw) as Rmw. unfold in_u in *.
  assert (Hiff : buried idx best p <-> mw < mt /\ val (nChainWork wb) < val (nChainWork bb) /\
    (val (nChainWork bb) - val (nChainWork wb)) * ASSUMEVALID_BURIAL_SECONDS < (val (nChainWork bb) - val (nChainWork b)) * (mt - mw)).
  { split; [intros (w' & bb' & wb' & b' & mt' & mw' & E1 & E2 & E3 & E4 & E5 & E6 & E7 & E8 & E9); simplify_eq; done|].
    intros (A1 & A2 & A3). by exists w, bb, wb, b, mt, mw. }
  setoid_rewrite Hiff. rewrite !(leb_spec W256) by done.
  destruct (Z.leb_spec (val (nChainWork bb)) (val (nChainWork wb))); cbn [orb]; [exists false; split; [done|]; split; [done|lia]|].
  destruct (Z.leb_spec (val (nChainWork bb)) (val (nChainWork b))).
  { exists false. split; [done|]. split; [done|]. unfold ASSUMEVALID_BURIAL_SECONDS. nia. }
  rewrite Hmt, Hmw, sarith_ok by (split; simpl; lia).
  destruct (Z.leb_spec (mt - mw) 0); cbn [orb]; [exists false; split; [done|]; split; [done|lia]|].
  rewrite (proj2 (Z.ltb_ge _ _)) by lia.
  rewrite WorkDurationExceeds_spec, !(val_sub W256) by (auto using wf_sub || (apply wrap_range; lia) || (unfold ASSUMEVALID_BURIAL_SECONDS; split; lia)).
  change (32 * Z.of_nat W256) with 256. rewrite (wrap_small 32), !(wrap_small 256) by (split; lia).
  rewrite (proj2 (Z.ltb_lt 0 _)) by lia. cbn [andb]. eexists. split; [done|]. rewrite Z.ltb_lt. split; [intros; split_and!; lia|intros (_ & _ & ?); lia].
Qed.

Lemma GetAncestor_is_anc p b q bq :
  idx !! p = Some b -> idx !! q = Some bq ->
  exists a, GetAncestor idx q (nHeight b) = Some a /\ (a = Some p <-> anc idx p q).
Proof.
  destruct Hinv as (Hok & _). intros Hp Hq. destruct (Hok p b Hp) as ((Hh & _) & _).
  destruct (Z.le_gt_cases (nHeight b) (nHeight bq)) as [Hle|Hgt].
  - destruct (GetAncestor_anc idx q bq (nHeight b) Hok Hq) as (a & ba & -> & Ha & Hha & Hanc); [lia|].
    eexists. split; [done|]. split; [by intros [= ->]|]. intros Hpa.
    destruct (anc_height idx p q bq Hok Hq Hpa) as (b' & Hb' & _ & B1). destruct (anc_height idx a q bq Hok Hq Hanc) as (ba' & Hba' & _ & B2).
    simplify_eq. rewrite Hha in B2. congruence.
  - rewrite (GetAncestor_spec idx q bq _ Hok Hq), (proj2 (Z.ltb_lt _ _)) by lia. exists None. split; [done|]. split; [done|].
    intros Hpa. destruct (anc_height idx p q bq Hok Hq Hpa) as (b' & Hb' & Hle & _). simplify_eq. lia.
Qed.
End SkipSpec.

Lemma CanSkipScriptChecks_ok params s assumed min_work p witness_unavailable :
  headers_reachable params s -> wf W256 min_work -> is_Some (m_block_index (m_blockman s) !! p) ->
  exists r, CanSkipScriptChecks assumed min_work s p witness_unavailable = Some r /\
    (r = true <-> may_skip s assumed min_work p witness_unavailable).
Proof.
  intros Hr Hmw [b Hp]. destruct (headers_reachable_inv params s Hr) as (Hi & _). apply index_reachable_inv in Hi as Hinv.
  destruct Hinv as (Hok & Hdata & Hbest & Hdirty). pose proof (conj Hok (conj Hdata (conj Hbest Hdirty)) : index_inv _ _) as Hinv.
  unfold CanSkipScriptChecks, IsAssumedValidAncestor, may_skip.
  destruct (uint256_IsNull assumed); [exists false; split; [done|]; split; [done|by intros [? _]]|].
  destruct (m_best_header s) as [best|] eqn:Eb.
  2: { exists false. split; [done|]. split; [done|]. by intros (_ & ? & ? & ? & _). }
  destruct Hbest as (bb & Hbb & _). rewrite Hbb. destruct (Hdata _ _ Hbb) as [Wbb _]. rewrite (ltb_spec W256) by done.
  destruct (Z.ltb_spec (val (nChainWork bb)) (val min_work)).
  { exists false. split; [done|]. split; [done|]. intros (_ & ? & ? & ? & ? & ? & _). simplify_eq. lia. }
  destruct (m_block_index (m_blockman s) !! assumed) as [ab|] eqn:Ea.
  2: { exists false. split; [done|]. split; [done|]. intros (_ & ? & ? & _ & _ & _ & [? ?] & _). done. }
  rewrite Hp. destruct (GetAncestor_is_anc _ _ Hinv p b assumed ab Hp Ea) as (a1 & -> & A1).
  destruct (GetAncestor_is_anc _ _ Hinv p b best bb Hp Hbb) as (a2 & -> & A2).
  case_bool_decide as E1; cbn [negb].
  2: { exists false. split; [done|]. split; [done|]. intros (_ & ? & ? & _ & _ & _ & _ & H1 & _). by apply A1 in H1. }
  case_bool_decide as E2; cbn [negb].
  2: { exists false. split; [done|]. split; [done|]. intros (_ & ? & ? & ? & _ & _ & _ & _ & H1 & _). simplify_eq. by apply A2 in H1. }
  apply A1 in E1. apply A2 in E2. destruct witness_unavailable.
  { exists true. split; [done|]. split; [|done]. intros _. split; [done|]. exists best, bb. split_and!; eauto. }
  destruct (HasAssumeValidBurial_spec _ _ Hinv best p ltac:(eauto) ltac:(eauto)) as (r & -> & Hiff). exists r. split; [done|].
  rewrite Hiff. split.
  - intros Hbur. split; [done|]. exists best, bb. split_and!; eauto.
  - intros (_ & best' & ? & ? & _ & _ & _ & _ & _ & [?|?]); by simplify_eq.
Qed.

(** C20: Script checks are skipped exactly when the rule says so, on every index a node has built: the
    assumed-valid block is set and known, the best header has the configured work, the block is an
    ancestor of both, and, unless its witness is gone, the work on top of it would take more than two
    weeks at the rate of the last 120 headers.  The comparison is the one of the exact products,
    although the code never computes them: its 256-bit words do not overflow and it never divides by
    zero. *)
Theorem script_checks_skipped_exactly params s assumed min_work p witness_unavailable :
  headers_reachable params s -> wf W256 min_work -> is_Some (m_block_index (m_blockman s) !! p) ->
  exists r, CanSkipScriptChecks assumed min_work s p witness_unavailable = Some r /\
    (r = true <-> may_skip s assumed min_work p witness_unavailable).
Proof. apply CanSkipScriptChecks_ok. Qed.

Lemma script_checks_skipped_exactly_witness :
  CanSkipScriptChecks mined_hash (arith_uint256 0) node_synced mined_hash true = Some true /\
  CanSkipScriptChecks mined_hash (arith_uint256 0) node_synced mined_hash false = Some false.
Proof.
  destruct node_synced_entry as (b & q & E & _).
  assert (Hw : wf W256 (arith_uint256 0)) by (apply wf_arith; split; lia).
  destruct (script_checks_skipped_exactly (RegTestParams example_options) node_synced mined_hash (arith_uint256 0) mined_hash true
              node_synced_reachable Hw (ex_intro _ b E)) as (r & E1 & _).
  split; [|vm_compute; reflexivity]. rewrite E1. revert E1. vm_compute. intros [= <-]. reflexivity.
Defined.
