(* ===== verification/TxCheck.v ===== *)
(** Checks on one transaction: [src/src/consensus/tx_check.cpp] and [src/src/consensus/tx_verify.cpp].

    A rejection is a [tx_verdict], the result class and the reason; [None] around a result is a
    failed assertion, a thrown exception or an overflow of a signed integer. *)

From stdpp Require Import gmap strings sorting.
From S2P Require Import Prelude Params Primitives Serialize Block Script Chain Networks CoinsMap Coins Headers.

#[local] Open Scope Z_scope.
#[local] Open Scope qbit_scope.

Definition MAX_BLOCK_WEIGHT : Z := 2000000.
Abbreviation COINBASE_MATURITY := 1000%Z.
Definition WITNESS_SCALE_FACTOR : Z := 1.
Abbreviation LOCKTIME_VERIFY_SEQUENCE := (Z.shiftl 1 0)%Z.
Abbreviation LOCKTIME_THRESHOLD := 500000000%Z.

Inductive TxValidationResult :=
  TX_RESULT_UNSET | TX_CONSENSUS | TX_INPUTS_NOT_STANDARD | TX_NOT_STANDARD | TX_MISSING_INPUTS | TX_PREMATURE_SPEND
| TX_WITNESS_MUTATED | TX_WITNESS_STRIPPED | TX_CONFLICT | TX_MEMPOOL_POLICY | TX_NO_MEMPOOL | TX_RECONSIDERABLE
| TX_UNKNOWN.

(** What [state] holds at the end; [None] is a valid transaction. *)
Abbreviation tx_verdict := (option (TxValidationResult * string)) (only parsing).

(** ** [CheckTransaction] *)

(** The loop over the outputs, and what follows it. *)
Fixpoint check_outputs (outs : list CTxOut) (nValueOut : Z) (next : option tx_verdict) : option tx_verdict :=
  match outs with
  | [] => next
  | txout :: outs =>
      invalid! nValue txout <? 0, TX_CONSENSUS, "bad-txns-vout-negative"%string;
      invalid! MAX_MONEY <? nValue txout, TX_CONSENSUS, "bad-txns-vout-toolarge"%string;
      let! nValueOut := sarith 64 (nValueOut + nValue txout) in
      invalid! negb (MoneyRange nValueOut), TX_CONSENSUS, "bad-txns-txouttotal-toolarge"%string;
      check_outputs outs nValueOut next
  end.

(** Whether [vInOutPoints.insert] finds an outpoint that is already there. *)
Fixpoint duplicate_input (ins : list CTxIn) (vInOutPoints : gset COutPoint) : bool :=
  match ins with
  | [] => false
  | txin :: ins =>
      if decide (prevout txin ∈ vInOutPoints) then true
      else duplicate_input ins ({[ prevout txin ]} ∪ vInOutPoints)
  end.

Definition size_no_witness (tx : CTransaction) : Z := Z.of_nat (length (SerializeTransaction false tx)).

Definition CheckTransaction (tx : CTransaction) : option tx_verdict :=
  invalid! match vin tx with [] => true | _ => false end, TX_CONSENSUS, "bad-txns-vin-empty"%string;
  invalid! match vout tx with [] => true | _ => false end, TX_CONSENSUS, "bad-txns-vout-empty"%string;
  invalid! MAX_BLOCK_WEIGHT <? size_no_witness tx * WITNESS_SCALE_FACTOR, TX_CONSENSUS, "bad-txns-oversize"%string;
  check_outputs (vout tx) 0
    (invalid! duplicate_input (vin tx) ∅, TX_CONSENSUS, "bad-txns-inputs-duplicate"%string;
     if IsCoinBase tx then
       let! txin := head (vin tx) in
       let n := Z.of_nat (length (scriptSig txin)) in
       invalid! (n <? 2) || (100 <? n), TX_CONSENSUS, "bad-cb-length"%string;
       Some None
     else
       invalid! existsb (fun txin => COutPoint_IsNull (prevout txin)) (vin tx), TX_CONSENSUS, "bad-txns-prevout-null"%string;
       Some None).

(** ** Lock times *)

Definition IsFinalTx (tx : CTransaction) (nBlockHeight nBlockTime : Z) : bool :=
  if nLockTime tx =? 0 then true
  else if nLockTime tx <? (if nLockTime tx <? LOCKTIME_THRESHOLD then nBlockHeight else nBlockTime) then true
  else forallb (fun txin => nSequence txin =? SEQUENCE_FINAL) (vin tx).

(** The loop over the inputs and the heights of the coins they spend. *)
Fixpoint sequence_locks_loop (idx : BlockMap) (block : ptr) (ins : list CTxIn) (prevHeights : list Z) (nMinHeight nMinTime : Z)
  : option (list Z * (Z * Z)) :=
  match ins, prevHeights with
  | [], [] => Some ([], (nMinHeight, nMinTime))
  | txin :: ins, nCoinHeight :: rest =>
      if negb (Z.land (nSequence txin) SEQUENCE_LOCKTIME_DISABLE_FLAG =? 0) then
        let! '(rest, locks) := sequence_locks_loop idx block ins rest nMinHeight nMinTime in
        Some (0 :: rest, locks)
      else
        let mask := Z.land (nSequence txin) SEQUENCE_LOCKTIME_MASK in
        let! '(nMinHeight, nMinTime) :=
          (if negb (Z.land (nSequence txin) SEQUENCE_LOCKTIME_TYPE_FLAG =? 0) then
             let! before := sarith 32 (nCoinHeight - 1) in
             let! anc := GetAncestor idx block (Z.max before 0) in
             let! p := anc in
             let! nCoinTime := GetMedianTimePast idx p in
             let! t := sarith 64 (nCoinTime + wrap 32 (Z.shiftl mask SEQUENCE_LOCKTIME_GRANULARITY)) in
             let! t := sarith 64 (t - 1) in
             Some (nMinHeight, Z.max nMinTime t)
           else
             let! h := sarith 32 (nCoinHeight + mask) in
             let! h := sarith 32 (h - 1) in
             Some (Z.max nMinHeight h, nMinTime)) in
        let! '(rest, locks) := sequence_locks_loop idx block ins rest nMinHeight nMinTime in
        Some (nCoinHeight :: rest, locks)
  | _, _ => None
  end.

(** Returns [prevHeights] as the call leaves it, and the pair of locks. *)
Definition CalculateSequenceLocks (idx : BlockMap) (tx : CTransaction) (flags : Z) (prevHeights : list Z) (block : ptr)
  : option (list Z * (Z * Z)) :=
  assert! (length prevHeights =? length (vin tx))%nat;
  let fEnforceBIP68 := (2 <=? tx_version tx) && negb (Z.land flags LOCKTIME_VERIFY_SEQUENCE =? 0) in
  if negb fEnforceBIP68 then Some (prevHeights, (-1, -1))
  else sequence_locks_loop idx block (vin tx) prevHeights (-1) (-1).

Definition EvaluateSequenceLocks (idx : BlockMap) (block : ptr) (lockPair : Z * Z) : option bool :=
  let! b := idx !! block in
  let! prev := pprev b in
  let! nBlockTime := GetMedianTimePast idx prev in
  Some (negb ((nHeight b <=? lockPair.1) || (nBlockTime <=? lockPair.2))).

Definition SequenceLocks (idx : BlockMap) (tx : CTransaction) (flags : Z) (prevHeights : list Z) (block : ptr) : option bool :=
  let! '(_, locks) := CalculateSequenceLocks idx tx flags prevHeights block in
  EvaluateSequenceLocks idx block locks.

(** ** [Consensus::CheckTxInputs] *)

Section Inputs.
Context {V : Type} `{CCoinsView V}.

(** The loop over the inputs: the view after it, and the value of the coins or the rejection. *)
Fixpoint check_inputs (inputs : CCoinsViewCache V) (ins : list CTxIn) (nSpendHeight nValueIn : Z)
  : option (CCoinsViewCache V * ((TxValidationResult * string) + Z)) :=
  match ins with
  | [] => Some (inputs, inr nValueIn)
  | txin :: ins =>
      let! '(inputs, coin) := AccessCoin inputs (prevout txin) in
      assert! negb (IsSpent coin);
      let! immature :=
        (if fCoinBase coin then
           let! depth := sarith 32 (nSpendHeight - coin_nHeight coin) in Some (depth <? COINBASE_MATURITY)
         else Some false) in
      if (immature : bool) then Some (inputs, inl (TX_PREMATURE_SPEND, "bad-txns-premature-spend-of-coinbase"%string))
      else
        let! nValueIn := sarith 64 (nValueIn + nValue (out coin)) in
        if negb (MoneyRange (nValue (out coin))) || negb (MoneyRange nValueIn)
        then Some (inputs, inl (TX_CONSENSUS, "bad-txns-inputvalues-outofrange"%string))
        else check_inputs inputs ins nSpendHeight nValueIn
  end.

(** The view, and the rejection or the fee. *)
Definition CheckTxInputs (tx : CTransaction) (inputs : CCoinsViewCache V) (nSpendHeight : Z)
  : option (CCoinsViewCache V * ((TxValidationResult * string) + Z)) :=
  let! '(inputs, have) := HaveInputs inputs tx in
  if negb have then Some (inputs, inl (TX_MISSING_INPUTS, "bad-txns-inputs-missingorspent"%string))
  else
    let! '(inputs, r) := check_inputs inputs (vin tx) nSpendHeight 0 in
    match r with
    | inl reason => Some (inputs, inl reason)
    | inr nValueIn =>
        let! value_out := GetValueOut tx in
        if nValueIn <? value_out then Some (inputs, inl (TX_CONSENSUS, "bad-txns-in-belowout"%string))
        else
          let! txfee_aux := sarith 64 (nValueIn - value_out) in
          if negb (MoneyRange txfee_aux) then Some (inputs, inl (TX_CONSENSUS, "bad-txns-fee-outofrange"%string))
          else Some (inputs, inr txfee_aux)
    end.
End Inputs.

(** ** What [CheckTransaction] accepts *)

Definition sum_out (outs : list CTxOut) : Z := foldr (fun o s => nValue o + s) 0 outs.

Lemma MoneyRange_spec v : MoneyRange v = true <-> 0 <= v <= MAX_MONEY.
Proof. unfold MoneyRange. rewrite andb_true_iff, !Z.leb_le. done. Qed.

Lemma money_add_no_overflow a b : 0 <= a <= MAX_MONEY -> 0 <= b <= MAX_MONEY -> sarith 64 (a + b) = Some (a + b).
Proof. unfold MAX_MONEY, COIN. intros Ha Hb. apply sarith_ok. split; simpl; lia. Qed.

(** Every amount is in range, and so is their sum on top of [acc]. *)
Definition amounts_ok (acc : Z) (outs : list CTxOut) : Prop :=
  Forall (fun o => 0 <= nValue o <= MAX_MONEY) outs /\ acc + sum_out outs <= MAX_MONEY.

#[global] Instance amounts_ok_dec acc outs : Decision (amounts_ok acc outs).
Proof. unfold amounts_ok. apply _. Defined.

Lemma sum_out_nonneg outs : Forall (fun o => 0 <= nValue o <= MAX_MONEY) outs -> 0 <= sum_out outs.
Proof. induction 1; simpl; lia. Qed.

Lemma amounts_ok_cons acc o outs :
  amounts_ok acc (o :: outs) <-> 0 <= nValue o <= MAX_MONEY /\ acc + nValue o <= MAX_MONEY /\ amounts_ok (acc + nValue o) outs.
Proof.
  unfold amounts_ok. rewrite Forall_cons_iff. simpl. split.
  - intros [[H1 H2] H3]. pose proof (sum_out_nonneg _ H2). split_and!; try done; lia.
  - intros (H1 & _ & H2 & H3). split_and!; try done; lia.
Qed.

Lemma check_outputs_spec outs acc next :
  0 <= acc <= MAX_MONEY ->
  if decide (amounts_ok acc outs) then check_outputs outs acc next = next
  else exists reason, check_outputs outs acc next = Some (Some (TX_CONSENSUS, reason)).
Proof.
  revert acc. induction outs as [|o outs IH]; intros acc Hacc; simpl.
  - rewrite decide_True; [done|]. split; [apply Forall_nil_2|simpl; lia].
  - destruct (Z.ltb_spec (nValue o) 0) as [Hn|Hn].
    { rewrite decide_False; [by eexists|]. rewrite amounts_ok_cons. lia. }
    destruct (Z.ltb_spec MAX_MONEY (nValue o)) as [Hm|Hm].
    { rewrite decide_False; [by eexists|]. rewrite amounts_ok_cons. lia. }
    rewrite money_add_no_overflow by lia. destruct (MoneyRange (acc + nValue o)) eqn:Er; simpl.
    + apply MoneyRange_spec in Er. specialize (IH _ Er).
      destruct (decide (amounts_ok (acc + nValue o) outs)) as [Ho|Ho].
      * rewrite decide_True; [done|]. rewrite amounts_ok_cons. split_and!; [lia..|done].
      * rewrite decide_False; [done|]. rewrite amounts_ok_cons. tauto.
    + assert (~ acc + nValue o <= MAX_MONEY).
      { intros H. apply not_true_iff_false in Er. apply Er, MoneyRange_spec. lia. }
      rewrite decide_False; [by eexists|]. rewrite amounts_ok_cons. tauto.
Qed.

Lemma duplicate_input_spec ins seen :
  duplicate_input ins seen = false <-> NoDup (map prevout ins) /\ forall i, i ∈ ins -> prevout i ∉ seen.
Proof.
  revert seen. induction ins as [|i ins IH]; intros seen; simpl.
  - split; [|done]. split; [apply NoDup_nil_2|set_solver].
  - rewrite list.NoDup_cons. case_decide as Hin.
    + split; [done|]. intros [_ H]. destruct (H i); [by left|done].
    + rewrite IH. split.
      * intros [Hnd Hn]. split_and!; [|done|set_solver].
        intros (j & Ej & Hj)%list_elem_of_fmap. apply (Hn j Hj). rewrite <- Ej. set_solver.
      * intros [[Hi Hnd] Hn]. split; [done|]. intros j Hj [Ej%elem_of_singleton|Hs]%elem_of_union.
        -- apply Hi. rewrite <- Ej. by apply (list_elem_of_fmap_2 prevout).
        -- apply (Hn j); [by right|done].
Qed.

(** The rules, without the order they are checked in. *)
Record tx_ok (tx : CTransaction) : Prop := {
  tx_ok_vin : vin tx <> [];
  tx_ok_vout : vout tx <> [];
  tx_ok_size : size_no_witness tx <= MAX_BLOCK_WEIGHT;
  tx_ok_amounts : amounts_ok 0 (vout tx);
  tx_ok_inputs : NoDup (map prevout (vin tx));
  tx_ok_coinbase : IsCoinBase tx = true -> Forall (fun i => 2 <= Z.of_nat (length (scriptSig i)) <= 100) (vin tx);
  tx_ok_prevouts : IsCoinBase tx = false -> Forall (fun i => COutPoint_IsNull (prevout i) = false) (vin tx) }.

Lemma CheckTransaction_cases tx :
  (CheckTransaction tx = Some None /\ tx_ok tx) \/
  (exists reason, CheckTransaction tx = Some (Some (TX_CONSENSUS, reason)) /\ ~ tx_ok tx).
Proof.
  unfold CheckTransaction.
  destruct (vin tx) as [|i ins] eqn:Ei; [right; eexists; split; [done|]; by intros []|].
  destruct (vout tx) as [|o outs] eqn:Eo; [right; eexists; split; [done|]; by intros []|]. rewrite <- Ei, <- Eo.
  unfold WITNESS_SCALE_FACTOR. rewrite Z.mul_1_r. destruct (Z.ltb_spec MAX_BLOCK_WEIGHT (size_no_witness tx)).
  { right. eexists. split; [done|]. intros []. lia. }
  set (next := if duplicate_input (vin tx) ∅ then _ else _).
  pose proof (check_outputs_spec (vout tx) 0 next ltac:(unfold MAX_MONEY, COIN; lia)) as Ho.
  case_decide as Ham.
  2: { destruct Ho as [r ->]. right. eexists. split; [done|]. by intros []. }
  rewrite Ho. subst next. destruct (duplicate_input (vin tx) ∅) eqn:Ed.
  { right. eexists. split; [done|]. intros [_ _ _ _ Hnd _ _]. apply not_false_iff_true in Ed. apply Ed.
    apply duplicate_input_spec. split; [done|set_solver]. }
  apply duplicate_input_spec in Ed as [Hnd _]. destruct (IsCoinBase tx) eqn:Ec.
  - assert (Hins : ins = []) by (unfold IsCoinBase in Ec; rewrite Ei in Ec; by destruct ins).
    rewrite Ei, Hins. change (head [i]) with (Some i). cbv beta iota zeta.
    destruct ((Z.of_nat (length (scriptSig i)) <? 2) || (100 <? Z.of_nat (length (scriptSig i)))) eqn:El.
    + right. eexists. split; [done|]. intros [_ _ _ _ _ Hc _]. specialize (Hc Ec). rewrite Ei in Hc.
      apply Forall_cons_1 in Hc as [Hc _]. apply orb_true_iff in El. rewrite !Z.ltb_lt in El. lia.
    + left. split; [done|]. apply orb_false_iff in El. rewrite !Z.ltb_ge in El.
      split; rewrite ?Ec; try done; rewrite ?Ei, ?Eo, ?Hins; try done. intros _. apply Forall_singleton. lia.
  - destruct (existsb (fun txin => COutPoint_IsNull (prevout txin)) (vin tx)) eqn:En.
    + right. eexists. split; [done|]. intros [_ _ _ _ _ _ Hp]. specialize (Hp Ec).
      apply existsb_exists in En as (j & Hj & Hn). rewrite Forall_forall in Hp. rewrite Hp in Hn; [done|].
      by apply list_elem_of_In.
    + left. split; [done|]. split; rewrite ?Ec; try done; rewrite ?Ei, ?Eo; try done. rewrite <- Ei. intros _.
      apply Forall_forall. intros j Hj. destruct (COutPoint_IsNull (prevout j)) eqn:Ej; [|done].
      apply not_true_iff_false in En. destruct En. apply existsb_exists. exists j. by apply list_elem_of_In in Hj.
Qed.

Lemma GetValueOut_loop_ok outs acc :
  0 <= acc -> amounts_ok acc outs -> GetValueOut_loop outs acc = Some (acc + sum_out outs).
Proof.
  revert acc. induction outs as [|o outs IH]; intros acc Hacc Ham; simpl.
  - destruct Ham as [_ Ham]. simpl in Ham. rewrite (proj2 (MoneyRange_spec acc)) by lia. f_equal. lia.
  - apply amounts_ok_cons in Ham as (H1 & H2 & H3).
    rewrite !(proj2 (MoneyRange_spec _)) by lia. simpl. rewrite IH by (lia || done). f_equal. lia.
Qed.

Lemma GetValueOut_ok tx : tx_ok tx -> GetValueOut tx = Some (sum_out (vout tx)).
Proof. intros Hok. apply GetValueOut_loop_ok; [done|apply Hok]. Qed.

(** ** What [CheckTxInputs] accepts *)

(** Coins with amounts and heights in range, as every accepted transaction creates them. *)
Definition coin_sane (c : Coin) : Prop := 0 <= nValue (out c) <= MAX_MONEY /\ in_u 31 (coin_nHeight c).
Definition coins_sane (u : gmap COutPoint Coin) : Prop := map_Forall (fun _ => coin_sane) u.

Definition value_at (u : gmap COutPoint Coin) (o : COutPoint) : Z := from_option (fun c => nValue (out c)) 0 (u !! o).
Definition value_in (u : gmap COutPoint Coin) (ins : list CTxIn) : Z := foldr (fun i s => value_at u (prevout i) + s) 0 ins.

Definition spendable (u : gmap COutPoint Coin) (h : Z) (i : CTxIn) : Prop :=
  exists c, u !! prevout i = Some c /\ (fCoinBase c = true -> COINBASE_MATURITY <= h - coin_nHeight c).

Lemma value_at_nonneg u o : coins_sane u -> 0 <= value_at u o <= MAX_MONEY.
Proof.
  intros Hu. unfold value_at. destruct (u !! o) as [c|] eqn:E; simpl; [apply (Hu o c E)|]. unfold MAX_MONEY, COIN. lia.
Qed.

Lemma value_in_nonneg u ins : coins_sane u -> 0 <= value_in u ins.
Proof. intros Hu. induction ins as [|i ins IH]; simpl; [lia|]. pose proof (value_at_nonneg u (prevout i) Hu). lia. Qed.

Section InputsOk.
Context {V : Type} `{CoinsViewLaws V}.
Implicit Types inputs : CCoinsViewCache V.

(** A cache after reads. *)
Definition reads (inputs inputs' : CCoinsViewCache V) : Prop :=
  cache_ok inputs' /\ coins_of inputs' = coins_of inputs /\ same_base inputs inputs'.

Lemma reads_trans a b c : reads a b -> reads b c -> reads a c.
Proof. intros (A1 & A2 & A3) (B1 & B2 & B3). split_and!; [done|congruence|by transitivity b]. Qed.

Lemma have_all_ok inputs ins :
  cache_ok inputs ->
  exists inputs' b, have_all inputs ins = Some (inputs', b) /\ reads inputs inputs' /\
    (b = true <-> Forall (fun i => is_Some (coins_of inputs !! prevout i)) ins).
Proof.
  revert inputs. induction ins as [|i ins IH]; intros inputs Hok; simpl.
  - exists inputs, true. split_and!; [done|done|]. split; [intros _; apply Forall_nil_2|done].
  - destruct (Cache_HaveCoin_ok inputs (prevout i) Hok) as (in1 & -> & Hok1 & Hc & Hb).
    case_bool_decide as Hsome; simpl.
    + destruct (IH in1 Hok1) as (in2 & b & -> & Hr & Hiff). exists in2, b. split_and!; [done| |].
      * by apply (reads_trans _ in1).
      * rewrite Hiff, Hc, Forall_cons_iff. tauto.
    + exists in1, false. split_and!; [done|done|]. rewrite Forall_cons_iff. split; [done|]. by intros [? _].
Qed.

Lemma check_inputs_ok inputs ins h acc :
  cache_ok inputs -> coins_sane (coins_of inputs) -> 0 <= h < 2 ^ 31 -> 0 <= acc <= MAX_MONEY ->
  Forall (fun i => is_Some (coins_of inputs !! prevout i)) ins ->
  exists inputs' r, check_inputs inputs ins h acc = Some (inputs', r) /\ reads inputs inputs' /\
    match r with
    | inr v => Forall (spendable (coins_of inputs) h) ins /\ v = acc + value_in (coins_of inputs) ins /\ v <= MAX_MONEY
    | inl _ => ~ (Forall (spendable (coins_of inputs) h) ins /\ acc + value_in (coins_of inputs) ins <= MAX_MONEY)
    end.
Proof.
  revert inputs acc. induction ins as [|i ins IH]; intros inputs acc Hok Hsane Hh Hacc Hhave; simpl.
  - exists inputs, (inr acc). split_and!; [done|done|apply Forall_nil_2|lia|lia].
  - apply Forall_cons_1 in Hhave as [[c Ec] Hhave].
    destruct (AccessCoin_ok inputs (prevout i) Hok) as (in1 & c' & -> & Hok1 & Hc & Hb & Hr). rewrite Ec in Hr. subst c'.
    assert (R1 : reads inputs in1) by done.
    rewrite (coins_unspent _ _ _ Hok Ec). simpl negb. cbv iota.
    destruct (Hsane _ _ Ec) as [Hv Hht]. unfold in_u in Hht.
    assert (exists immature : bool, (if fCoinBase c then let! depth := sarith 32 (h - coin_nHeight c) in Some (depth <? COINBASE_MATURITY)
      else Some false) = Some immature /\ (immature = false <-> spendable (coins_of inputs) h i)) as (immature & -> & Him).
    { destruct (fCoinBase c) eqn:Ecb.
      - rewrite sarith_ok by (split; simpl; lia). eexists. split; [done|]. rewrite Z.ltb_ge. split.
        + intros Hd. exists c. split; [done|]. intros _. lia.
        + intros (c1 & E1 & Hd). rewrite Ec in E1. simplify_eq. specialize (Hd Ecb). lia.
      - exists false. split; [done|]. split; [|done]. intros _. exists c. split; [done|]. intros E. congruence. }
    assert (Hva : value_at (coins_of inputs) (prevout i) = nValue (out c)) by (unfold value_at; by rewrite Ec).
    pose proof (value_in_nonneg (coins_of inputs) ins Hsane) as Hnn.
    destruct immature.
    { eexists _, _. split_and!; [done|done|]. intros [Hs _]. apply Forall_cons_1 in Hs as [Hs _]. by apply Him in Hs. }
    rewrite money_add_no_overflow by lia. rewrite (proj2 (MoneyRange_spec (nValue (out c)))) by lia. simpl.
    destruct (MoneyRange (acc + nValue (out c))) eqn:Er; simpl.
    + apply MoneyRange_spec in Er.
      destruct (IH in1 (acc + nValue (out c))) as (in2 & r & -> & R2 & Hres); rewrite ?Hc; try done.
      rewrite Hc in Hres. eexists _, r. split_and!; [done|by apply (reads_trans _ in1)|].
      rewrite Hva. destruct r as [r|v].
      * intros [Hf Hle]. apply Forall_cons_1 in Hf as [_ Hf]. apply Hres. split; [done|lia].
      * destruct Hres as (Hf & -> & Hle). split_and!; [apply Forall_cons_2; [by apply Him|done]|lia|lia].
    + eexists _, _. split_and!; [done|done|]. intros [_ Hle]. apply not_true_iff_false in Er. apply Er, MoneyRange_spec. lia.
Qed.

(** The fee of a transaction, when its inputs can be spent. *)
Definition pays (u : gmap COutPoint Coin) (h : Z) (tx : CTransaction) (fee : Z) : Prop :=
  Forall (spendable u h) (vin tx) /\ fee = value_in u (vin tx) - sum_out (vout tx) /\
  0 <= fee /\ value_in u (vin tx) <= MAX_MONEY.

Lemma CheckTxInputs_ok inputs tx h :
  cache_ok inputs -> coins_sane (coins_of inputs) -> 0 <= h < 2 ^ 31 -> tx_ok tx -> IsCoinBase tx = false ->
  exists inputs' r, CheckTxInputs tx inputs h = Some (inputs', r) /\ reads inputs inputs' /\
    match r with
    | inr fee => pays (coins_of inputs) h tx fee
    | inl _ => forall fee, ~ pays (coins_of inputs) h tx fee
    end.
Proof.
  intros Hok Hsane Hh Htx Hcb. unfold CheckTxInputs, HaveInputs. rewrite Hcb.
  destruct (have_all_ok inputs (vin tx) Hok) as (in1 & b & -> & R1 & Hb). destruct b; simpl negb; cbv iota.
  2: { eexists _, _. split_and!; [done|done|]. intros fee (Hs & _).
       enough (false = true) by done. apply Hb. eapply Forall_impl; [exact Hs|]. intros i (c & -> & _). by eexists. }
  destruct R1 as (Hok1 & Hc & Hsb). apply proj1 in Hb. specialize (Hb eq_refl).
  destruct (check_inputs_ok in1 (vin tx) h 0) as (in2 & r & -> & R2 & Hr); rewrite ?Hc; try done.
  rewrite Hc in Hr. assert (R : reads inputs in2) by by apply (reads_trans _ in1).
  destruct r as [reason|v].
  - eexists _, _. split_and!; [done|done|]. intros fee (Hs & _ & _ & Hle). apply Hr. split; [done|lia].
  - destruct Hr as (Hs & -> & Hle). rewrite (GetValueOut_ok tx Htx), Z.add_0_l.
    destruct (tx_ok_amounts _ Htx) as [Hpos Hmax]. pose proof (sum_out_nonneg _ Hpos).
    destruct (Z.ltb_spec (value_in (coins_of inputs) (vin tx)) (sum_out (vout tx))).
    { eexists _, _. split_and!; [done|done|]. intros fee (_ & -> & Hfee & _). lia. }
    rewrite Z.add_0_l in Hle. rewrite sarith_ok by (unfold MAX_MONEY, COIN in *; split; simpl; lia).
    rewrite (proj2 (MoneyRange_spec _)) by lia. eexists _, _. split_and!; [done|done|]. split_and!; [done|done|lia|done].
Qed.
End InputsOk.

(** ** Lock times of later blocks *)

Lemma GetAncestor_child idx p b q bq h :
  idx_ok idx -> idx !! p = Some b -> pprev b = Some q -> idx !! q = Some bq -> h <= nHeight bq ->
  GetAncestor idx p h = GetAncestor idx q h.
Proof.
  intros Hok Hp Eq Hq Hh. rewrite (GetAncestor_spec idx p b h Hok Hp), (GetAncestor_spec idx q bq h Hok Hq).
  destruct (Hok p b Hp) as (_ & Hl & _). rewrite Eq in Hl. destruct Hl as (bq' & Hq' & Hhb & _). simplify_eq.
  destruct (Z.ltb_spec h 0); [by rewrite !orb_true_r|]. rewrite !(proj2 (Z.ltb_ge _ _)) by lia. simpl.
  replace (Z.to_nat (nHeight b - h)) with (S (Z.to_nat (nHeight bq - h))) by lia. simpl. by rewrite Hp, Eq.
Qed.

(** The locks of a transaction are the same for the child of a block. *)
Lemma sequence_locks_child idx p b q ins hs mh mt r :
  idx_ok idx -> idx !! p = Some b -> pprev b = Some q ->
  sequence_locks_loop idx q ins hs mh mt = Some r -> sequence_locks_loop idx p ins hs mh mt = Some r.
Proof.
  intros Hok Hp Eq. destruct (Hok p b Hp) as (_ & Hl & _). rewrite Eq in Hl. destruct Hl as (bq & Hq & _ & _).
  revert hs mh mt r. induction ins as [|i ins IH]; intros [|h hs] mh mt r; simpl; try done.
  destruct (negb (Z.land (nSequence i) SEQUENCE_LOCKTIME_DISABLE_FLAG =? 0)).
  { destruct (sequence_locks_loop idx q ins hs mh mt) as [x|] eqn:E; [|done]. by rewrite (IH _ _ _ _ E). }
  destruct (negb (Z.land (nSequence i) SEQUENCE_LOCKTIME_TYPE_FLAG =? 0)).
  - destruct (sarith 32 (h - 1)) as [before|]; [|done].
    rewrite (GetAncestor_spec idx q bq _ Hok Hq). destruct (nHeight bq <? Z.max before 0) eqn:Eh; [done|].
    apply Z.ltb_ge in Eh as Eh'. rewrite (GetAncestor_child idx p b q bq _ Hok Hp Eq Hq Eh').
    rewrite (GetAncestor_spec idx q bq _ Hok Hq), Eh. simpl.
    destruct (if _ <? 0 then None else _) as [a|]; [|done]. destruct (GetMedianTimePast idx a) as [m|]; [|done].
    destruct (sarith 64 (m + _)) as [t|]; [|done]. destruct (sarith 64 (t - 1)) as [t'|]; [|done].
    destruct (sequence_locks_loop idx q ins hs mh (Z.max mt t')) as [x|] eqn:E; [|done]. by rewrite (IH _ _ _ _ E).
  - destruct (sarith 32 (h + _)) as [x|]; [|done]. destruct (sarith 32 (x - 1)) as [y|]; [|done].
    destruct (sequence_locks_loop idx q ins hs (Z.max mh y) mt) as [z|] eqn:E; [|done]. by rewrite (IH _ _ _ _ E).
Qed.

Lemma IsFinalTx_later tx h t h' t' : h <= h' -> t <= t' -> IsFinalTx tx h t = true -> IsFinalTx tx h' t' = true.
Proof.
  intros Hh Ht. unfold IsFinalTx. destruct (nLockTime tx =? 0); [done|].
  destruct (nLockTime tx <? LOCKTIME_THRESHOLD).
  - destruct (Z.ltb_spec (nLockTime tx) h), (Z.ltb_spec (nLockTime tx) h'); try done; lia.
  - destruct (Z.ltb_spec (nLockTime tx) t), (Z.ltb_spec (nLockTime tx) t'); try done; lia.
Qed.

(** C26: A transaction whose lock times are satisfied for a block stays satisfied for every child of
    the block, on every branch a node has accepted: the relative locks (BIP 68) computed from the
    same coins still hold one block later, and so does the absolute lock time measured against the
    median time past (BIP 113).  So a final transaction never becomes non-final as the chain grows. *)
Theorem locks_stay_satisfied params s tx flags prevHeights p b q bq :
  headers_reachable params s ->
  let idx := m_block_index (m_blockman s) in
  idx !! p = Some b -> pprev b = Some q -> idx !! q = Some bq ->
  (SequenceLocks idx tx flags prevHeights q = Some true -> SequenceLocks idx tx flags prevHeights p = Some true) /\
  (forall cutoff, GetMedianTimePast idx q = Some cutoff -> IsFinalTx tx (nHeight bq + 1) cutoff = true ->
     exists cutoff', GetMedianTimePast idx p = Some cutoff' /\ IsFinalTx tx (nHeight b + 1) cutoff' = true).
Proof.
  intros Hr idx Hp Eq Hq. destruct (headers_reachable_inv params s Hr) as (Hi & _).
  destruct (index_reachable_inv _ _ _ Hi) as (Hok & _). fold idx in Hok.
  destruct (Hok p b Hp) as (_ & Hl & _). rewrite Eq in Hl. destruct Hl as (bq' & Hq' & Hh & _). simplify_eq.
  destruct (reachable_median_step params s p b q Hr Hp Eq) as (mq & mp & Hmq & Hmp & Hle & _). fold idx in Hmq, Hmp.
  split.
  - unfold SequenceLocks, CalculateSequenceLocks. destruct (_ =? _)%nat; [|done].
    assert (Heval : forall locks, EvaluateSequenceLocks idx q locks = Some true -> EvaluateSequenceLocks idx p locks = Some true).
    { intros [lh lt]. unfold EvaluateSequenceLocks. rewrite Hq, Hp, Eq, Hmq.
      destruct (pprev bq) as [q'|] eqn:Eq'; [|done]. simpl.
      destruct (reachable_median_step params s q bq q' Hr Hq Eq') as (m0 & m1 & H0 & H1 & Hle' & _). fold idx in H0, H1.
      simplify_eq. rewrite H0. intros [= H]. f_equal. apply negb_true_iff, orb_false_iff in H as [Ha Hb].
      apply Z.leb_gt in Ha, Hb. apply negb_true_iff, orb_false_iff. rewrite !Z.leb_gt. lia. }
    destruct (negb _); [apply Heval|].
    destruct (sequence_locks_loop idx q (vin tx) prevHeights (-1) (-1)) as [[hs locks]|] eqn:E; [|done].
    rewrite (sequence_locks_child idx p b q _ _ _ _ _ Hok Hp Eq E). apply Heval.
  - intros cutoff Hc Hf. simplify_eq. exists mp. split; [done|]. apply (IsFinalTx_later tx (nHeight bq + 1) mq); [lia|done|done].
Qed.

Definition locked_tx : CTransaction :=
  {| vin := [{| prevout := {| op_hash := replicate 32 5; op_n := 0 |}; scriptSig := []; nSequence := 1; scriptWitness := [] |}];
     vout := [{| nValue := 1; scriptPubKey := [OP_1] |}]; tx_version := 2; nLockTime := 1 |}.

(** A node with two blocks over the genesis block. *)
Definition second_header : CBlockHeader := example_mined mined_hash 1738713700 1.
Definition second_hash : ptr := HeaderGetHash (pure second_header).
Definition node_deeper : ChainstateManager :=
  processed (ProcessNewBlockHeaders false 1 (RegTestParams example_options) node_synced [(1738713800, second_header)] true None).

Lemma node_deeper_reachable : headers_reachable (RegTestParams example_options) node_deeper.
Proof.
  unfold node_deeper. set (hs := [_]).
  destruct (defined_some (ProcessNewBlockHeaders false 1 (RegTestParams example_options) node_synced hs true None)) as ([[s v] r] & E);
    [vm_compute; reflexivity|].
  rewrite E. apply (hdr_process _ node_synced 1 hs true None s v r); [exact node_synced_reachable| |exact E].
  apply Forall_cons_2; [|apply Forall_nil_2]; repeat split; vm_compute; congruence.
Qed.

Lemma locks_stay_satisfied_witness :
  let idx := m_block_index (m_blockman node_deeper) in
  SequenceLocks idx locked_tx LOCKTIME_VERIFY_SEQUENCE [0] mined_hash = Some true /\
  SequenceLocks idx locked_tx LOCKTIME_VERIFY_SEQUENCE [0] second_hash = Some true.
Proof.
  intros idx.
  destruct (defined_some (idx !! second_hash)) as [b E]; [vm_compute; reflexivity|].
  destruct (defined_some (idx !! mined_hash)) as [bq Eq]; [vm_compute; reflexivity|].
  assert (Ep : bool_decide ((idx !! second_hash) ≫= pprev = Some mined_hash) = true) by (vm_compute; reflexivity).
  apply bool_decide_eq_true_1 in Ep. rewrite E in Ep. simpl in Ep.
  assert (Hs : SequenceLocks idx locked_tx LOCKTIME_VERIFY_SEQUENCE [0] mined_hash = Some true) by (vm_compute; reflexivity).
  split; [exact Hs|].
  exact (proj1 (locks_stay_satisfied (RegTestParams example_options) node_deeper locked_tx LOCKTIME_VERIFY_SEQUENCE [0]
    second_hash b mined_hash bq node_deeper_reachable E Ep Eq) Hs).
Defined.

(** C18: [CheckTransaction] always returns a verdict, without signed overflow in the sum of the
    outputs, and accepts exactly the transactions with at least one input and one output, within
    the size limit, whose outputs are each and in total between zero and the money limit, that
    spend no outpoint twice (CVE-2018-17144), and whose inputs are one null outpoint with a script
    of 2 to 100 bytes or no null outpoint at all. *)
Theorem CheckTransaction_exact tx :
  (CheckTransaction tx = Some None <-> tx_ok tx) /\
  (CheckTransaction tx <> Some None -> exists reason, CheckTransaction tx = Some (Some (TX_CONSENSUS, reason))).
Proof.
  destruct (CheckTransaction_cases tx) as [[-> Hok]|(reason & -> & Hno)]; [done|].
  split; [split; [done|by intros ?]|]. intros _. by eexists.
Qed.
