(* ===== verification/Undo.v ===== *)
(** The coins of a transaction and of a block, forwards and backwards: [UpdateCoins],
    [ApplyTxInUndo] and [Chainstate::DisconnectBlock] of [src/src/validation.cpp], [AccessByTxid] of
    [src/src/coins.cpp] and the undo records of [src/src/undo.h].

    [DisconnectBlock] reads the undo record of the block from a file; what the read returns is an
    argument.  The theorem of the file says that disconnecting a block restores the coins exactly. *)

From stdpp Require Import gmap strings.
From S2P Require Import Prelude ArithUint Version Primitives Sha256 Serialize Block Script Chain CoinsMap Coins TxCheck.
From S2P Require Import Params.

#[local] Open Scope Z_scope.
#[local] Open Scope qbit_scope.

(** ** Undo records *)

Record CTxUndo := { vprevout : list Coin }.
Record CBlockUndo := { vtxundo : list CTxUndo }.

Inductive DisconnectResult := DISCONNECT_OK | DISCONNECT_UNCLEAN | DISCONNECT_FAILED.

Definition MIN_TRANSACTION_OUTPUT_WEIGHT : Z := WITNESS_SCALE_FACTOR * Z.of_nat (length (Ser CTxOut_fmt CTxOut_null)).
Definition MAX_OUTPUTS_PER_BLOCK : Z := MAX_BLOCK_WEIGHT / MIN_TRANSACTION_OUTPUT_WEIGHT.

(** The two blocks whose coinbases were overwritten by later ones. *)
Definition IsBIP30Unspendable (block_hash : uint256) (block_height : Z) : bool :=
  ((block_height =? 91722) && bool_decide (block_hash = uint256_hex 0x00000000000271a2dc26e7667f8419f2e15416dc6955e5a6c6cdf3f2574dd08e)) ||
  ((block_height =? 91812) && bool_decide (block_hash = uint256_hex 0x00000000000af0aed4792b1acee3d966af36cf5def14935db8de83d6f9306f2f)).

Section Operations.
Context {V : Type} `{CCoinsView V}.
#[local] Abbreviation Cache := (CCoinsViewCache V).

(** ** Forwards *)

(** The loop over the inputs; [assert(is_spent)] in each turn. *)
Fixpoint spend_inputs (inputs : Cache) (ins : list CTxIn) (vprevout : list Coin) : option (Cache * list Coin) :=
  match ins with
  | [] => Some (inputs, vprevout)
  | txin :: ins =>
      let! '(inputs, moved) := SpendCoin inputs (prevout txin) in
      let! c := moved in
      spend_inputs inputs ins (vprevout ++ [c])
  end.

Definition UpdateCoins (tx : CTransaction) (inputs : Cache) (txundo : CTxUndo) (nHeight : Z) : option (Cache * CTxUndo) :=
  let! '(inputs, prevouts) :=
    (if negb (IsCoinBase tx) then spend_inputs inputs (vin tx) (vprevout txundo) else Some (inputs, vprevout txundo)) in
  let! inputs := AddCoins inputs tx nHeight false in
  Some (inputs, {| vprevout := prevouts |}).

(** ** Backwards *)

(** The outputs of [txid] from index [n] on; [fuel] is the number left below [MAX_OUTPUTS_PER_BLOCK]. *)
Fixpoint access_by_txid (fuel : nat) (view : Cache) (txid : uint256) (n : Z) : option (Cache * Coin) :=
  match fuel with
  | O => Some (view, coinEmpty)
  | S fuel =>
      let! '(view, alternate) := AccessCoin view {| op_hash := txid; op_n := n |} in
      if negb (IsSpent alternate) then Some (view, alternate) else access_by_txid fuel view txid (wrap 32 (n + 1))
  end.

Definition AccessByTxid (view : Cache) (txid : uint256) : option (Cache * Coin) :=
  access_by_txid (Z.to_nat MAX_OUTPUTS_PER_BLOCK) view txid 0.

Definition ApplyTxInUndo (undo : Coin) (view : Cache) (o : COutPoint) : option (Cache * DisconnectResult) :=
  let! '(view, have) := Cache_HaveCoin view o in
  let fClean := negb have in
  let! '(view, undo) :=
    (if coin_nHeight undo =? 0 then
       let! '(view, alternate) := AccessByTxid view (op_hash o) in
       if negb (IsSpent alternate)
       then Some (view, Some {| out := out undo; fCoinBase := fCoinBase alternate; coin_nHeight := coin_nHeight alternate |})
       else Some (view, None)
     else Some (view, Some undo)) in
  match undo with
  | None => Some (view, DISCONNECT_FAILED)
  | Some undo =>
      let! view := AddCoin view o undo (negb fClean) in
      Some (view, if fClean then DISCONNECT_OK else DISCONNECT_UNCLEAN)
  end.

(** The loop that removes the outputs of a transaction; the flag is [fClean]. *)
Fixpoint remove_outputs (view : Cache) (txid : uint256) (outs : list CTxOut) (o nHeight : Z)
    (is_coinbase is_bip30_exception fClean : bool) : option (Cache * bool) :=
  match outs with
  | [] => Some (view, fClean)
  | txout :: outs =>
      if IsUnspendable (scriptPubKey txout)
      then remove_outputs view txid outs (o + 1) nHeight is_coinbase is_bip30_exception fClean
      else
        let! '(view, moved) := SpendCoin view {| op_hash := txid; op_n := wrap 32 o |} in
        let mismatch :=
          match moved with
          | Some c => negb (bool_decide (txout = out c)) || negb (nHeight =? coin_nHeight c) || negb (Bool.eqb is_coinbase (fCoinBase c))
          | None => true
          end in
        remove_outputs view txid outs (o + 1) nHeight is_coinbase is_bip30_exception
          (if mismatch && negb is_bip30_exception then false else fClean)
  end.

(** The loop that restores the inputs, last one first; [None] is [DISCONNECT_FAILED]. *)
Fixpoint restore_inputs (view : Cache) (spent : list (COutPoint * Coin)) (fClean : bool) : option (Cache * option bool) :=
  match spent with
  | [] => Some (view, Some fClean)
  | (o, undo) :: spent =>
      let! '(view, res) := ApplyTxInUndo undo view o in
      match res with
      | DISCONNECT_FAILED => Some (view, None)
      | DISCONNECT_UNCLEAN => restore_inputs view spent false
      | DISCONNECT_OK => restore_inputs view spent fClean
      end
  end.

(** One transaction with its undo record; the coinbase has none. *)
Definition disconnect_tx (view : Cache) (tx : CTransaction) (undo : option CTxUndo) (nHeight : Z) (fEnforceBIP30 fClean : bool)
  : option (Cache * option bool) :=
  let is_coinbase := IsCoinBase tx in
  let! '(view, fClean) :=
    remove_outputs view (GetHash tx) (vout tx) 0 nHeight is_coinbase (is_coinbase && negb fEnforceBIP30) fClean in
  match undo with
  | None => Some (view, Some fClean)
  | Some txundo =>
      if negb (length (vprevout txundo) =? length (vin tx))%nat then Some (view, None)
      else restore_inputs view (rev (zip (map prevout (vin tx)) (vprevout txundo))) fClean
  end.

(** Transactions are given last one first. *)
Fixpoint disconnect_txs (view : Cache) (txs : list (CTransaction * option CTxUndo)) (nHeight : Z) (fEnforceBIP30 fClean : bool)
  : option (Cache * option bool) :=
  match txs with
  | [] => Some (view, Some fClean)
  | (tx, undo) :: txs =>
      let! '(view, r) := disconnect_tx view tx undo nHeight fEnforceBIP30 fClean in
      match r with
      | None => Some (view, None)
      | Some fClean => disconnect_txs view txs nHeight fEnforceBIP30 fClean
      end
  end.

(** [undo] is what [ReadBlockUndo] returned, [None] when it failed. *)
Definition DisconnectBlock (idx : BlockMap) (undo : option CBlockUndo) (block : CBlock) (pindex : ptr) (view : Cache)
  : option (Cache * DisconnectResult) :=
  let! b := idx !! pindex in
  match undo with
  | None => Some (view, DISCONNECT_FAILED)
  | Some blockUndo =>
      if negb (length (vtxundo blockUndo) + 1 =? length (vtx block))%nat then Some (view, DISCONNECT_FAILED)
      else
        let fEnforceBIP30 := negb (IsBIP30Unspendable pindex (nHeight b)) in
        let! '(view, r) :=
          disconnect_txs view (rev (zip (vtx block) (None :: map Some (vtxundo blockUndo)))) (nHeight b) fEnforceBIP30 true in
        match r with
        | None => Some (view, DISCONNECT_FAILED)
        | Some fClean =>
            let! prev := pprev b in
            Some (SetBestBlock view prev, if (fClean : bool) then DISCONNECT_OK else DISCONNECT_UNCLEAN)
        end
  end.
End Operations.

(** ** The coins as a map *)

Definition insert_all (l : list (COutPoint * Coin)) (u : gmap COutPoint Coin) : gmap COutPoint Coin :=
  foldr (fun x u => <[x.1 := x.2]> u) u l.
Definition delete_all (ks : list COutPoint) (u : gmap COutPoint Coin) : gmap COutPoint Coin := foldr delete u ks.

Lemma insert_all_comm l k c u : k ∉ l.*1 -> insert_all l (<[k := c]> u) = <[k := c]> (insert_all l u).
Proof.
  induction l as [|x l IH]; simpl; [done|]. intros Hk. rewrite not_elem_of_cons in Hk. destruct Hk as [Hne Hk].
  rewrite IH by done. by apply insert_insert_ne.
Qed.

Lemma insert_all_not l u o : o ∉ l.*1 -> insert_all l u !! o = u !! o.
Proof.
  induction l as [|x l IH]; simpl; [done|]. rewrite not_elem_of_cons. intros [Hne Hk]. rewrite lookup_insert_ne by done. auto.
Qed.

Lemma insert_all_agree l (u v : gmap COutPoint Coin) o : (forall k c, (k, c) ∈ l -> u !! k = Some c) -> o ∈ l.*1 -> insert_all l v !! o = u !! o.
Proof.
  induction l as [|[k c] l IH]; simpl; intros Hl Ho; [by apply elem_of_nil in Ho|].
  destruct (decide (k = o)) as [->|Hne].
  - rewrite lookup_insert_eq. symmetry. apply Hl. by left.
  - rewrite lookup_insert_ne by done. apply IH; [|by apply elem_of_cons in Ho as [->|?]]. intros k' c' Hin. apply Hl. by right.
Qed.

Lemma delete_all_lookup ks u o : delete_all ks u !! o = if decide (o ∈ ks) then None else u !! o.
Proof.
  induction ks as [|k ks IH]; [done|]. change (delete_all (k :: ks) u) with (delete k (delete_all ks u)).
  destruct (decide (k = o)) as [->|Hne].
  - rewrite lookup_delete_eq, decide_True by by left. done.
  - rewrite lookup_delete_ne, IH by done. apply decide_ext. rewrite elem_of_cons. naive_solver.
Qed.

Lemma delete_all_comm ks k u : delete_all ks (delete k u) = delete k (delete_all ks u).
Proof. induction ks as [|x ks IH]; simpl; [done|]. rewrite IH. apply delete_delete. Qed.

Lemma delete_insert_all l (u : gmap COutPoint Coin) : (forall k, k ∈ l.*1 -> u !! k = None) -> delete_all l.*1 (insert_all l u) = u.
Proof.
  intros Hf. apply map_eq. intros o. rewrite delete_all_lookup. case_decide as Ho; [by rewrite Hf|by apply insert_all_not].
Qed.

Lemma restore_all l ks (u : gmap COutPoint Coin) :
  (forall k c, (k, c) ∈ l -> u !! k = Some c) -> ks ⊆ l.*1 -> l.*1 ⊆ ks -> insert_all l (delete_all ks u) = u.
Proof.
  intros Hl H1 H2. apply map_eq. intros o. destruct (decide (o ∈ l.*1)) as [Ho|Ho]; [by apply insert_all_agree|].
  rewrite insert_all_not, delete_all_lookup by done. rewrite decide_False by (intros ?; by apply Ho, H1). done.
Qed.

(** The outputs of a transaction that become coins. *)
Fixpoint new_coins (txid : uint256) (outs : list CTxOut) (i nHeight : Z) (fCoinbase : bool) : list (COutPoint * Coin) :=
  match outs with
  | [] => []
  | o :: outs =>
      let rest := new_coins txid outs (i + 1) nHeight fCoinbase in
      if IsUnspendable (scriptPubKey o) then rest
      else ({| op_hash := txid; op_n := wrap 32 i |}, make_Coin o nHeight fCoinbase) :: rest
  end.

Definition spent_coins (u : gmap COutPoint Coin) (ins : list CTxIn) : list Coin :=
  map (fun i => default coinEmpty (u !! prevout i)) ins.

Definition without_inputs (u : gmap COutPoint Coin) (tx : CTransaction) : gmap COutPoint Coin :=
  if IsCoinBase tx then u else delete_all (map prevout (vin tx)) u.

(** What a transaction does to the coins. *)
Definition apply_tx (u : gmap COutPoint Coin) (tx : CTransaction) (nHeight : Z) : gmap COutPoint Coin :=
  insert_all (new_coins (GetHash tx) (vout tx) 0 nHeight (IsCoinBase tx)) (without_inputs u tx).

Definition apply_txs (u : gmap COutPoint Coin) (txs : list CTransaction) (nHeight : Z) : gmap COutPoint Coin :=
  foldl (fun u tx => apply_tx u tx nHeight) u txs.

Definition undo_of (u : gmap COutPoint Coin) (tx : CTransaction) : CTxUndo :=
  {| vprevout := if IsCoinBase tx then [] else spent_coins u (vin tx) |}.

Fixpoint undos_of (u : gmap COutPoint Coin) (txs : list CTransaction) (nHeight : Z) : list CTxUndo :=
  match txs with
  | [] => []
  | tx :: txs => undo_of u tx :: undos_of (apply_tx u tx nHeight) txs nHeight
  end.

Lemma length_undos u txs h : length (undos_of u txs h) = length txs.
Proof. revert u. induction txs as [|tx txs IH]; intros u; simpl; [done|by rewrite IH]. Qed.

(** No coin has the identifier of the transaction. *)
Definition fresh (u : gmap COutPoint Coin) (tx : CTransaction) : Prop := forall n, u !! {| op_hash := GetHash tx; op_n := n |} = None.

(** The shape of a transaction that can be applied. *)
Record applies (u : gmap COutPoint Coin) (tx : CTransaction) : Prop := {
  app_values : Forall (fun o => nValue o <> -1) (vout tx);
  app_count : Z.of_nat (length (vout tx)) <= 2 ^ 32;
  app_inputs : IsCoinBase tx = false -> NoDup (map prevout (vin tx)) /\ Forall (fun i => is_Some (u !! prevout i)) (vin tx);
  app_fresh : IsCoinBase tx = false -> fresh u tx }.

Lemma new_coins_keys txid outs i h cb k :
  0 <= i -> i + Z.of_nat (length outs) <= 2 ^ 32 -> k ∈ (new_coins txid outs i h cb).*1 -> op_hash k = txid /\ i <= op_n k.
Proof.
  revert i. induction outs as [|o outs IH]; simpl; intros i Hi Hl Hk; [by apply elem_of_nil in Hk|].
  destruct (IsUnspendable (scriptPubKey o)); [|apply elem_of_cons in Hk as [->|Hk]].
  - destruct (IH (i + 1)) as [? ?]; [lia|lia|done|]. split; [done|lia].
  - simpl. rewrite wrap_small by (split; lia). split; [done|lia].
  - destruct (IH (i + 1)) as [? ?]; [lia|lia|done|]. split; [done|lia].
Qed.

Lemma without_inputs_fresh u tx : fresh u tx -> fresh (without_inputs u tx) tx.
Proof.
  intros Hf n. unfold without_inputs. destruct (IsCoinBase tx); [apply Hf|]. rewrite delete_all_lookup. case_decide; [done|apply Hf].
Qed.

(** A coin that [AddCoin] stores and whose undo record is complete. *)
Definition coin_live (c : Coin) : Prop := 0 < coin_nHeight c /\ IsUnspendable (scriptPubKey (out c)) = false.
Definition coins_live (u : gmap COutPoint Coin) : Prop := map_Forall (fun _ => coin_live) u.
Definition coins_unspent_all (u : gmap COutPoint Coin) : Prop := map_Forall (fun _ c => IsSpent c = false) u.

(** A property of coins that survives a transaction, when its outputs have it. *)
Lemma apply_tx_forall (P : Coin -> Prop) u tx h :
  map_Forall (fun _ => P) u ->
  Forall (fun o => IsUnspendable (scriptPubKey o) = false -> P (make_Coin o h (IsCoinBase tx))) (vout tx) ->
  map_Forall (fun _ => P) (apply_tx u tx h).
Proof.
  intros Hu. unfold apply_tx.
  assert (Hw : map_Forall (fun _ => P) (without_inputs u tx)).
  { unfold without_inputs. destruct (IsCoinBase tx); [done|]. intros o c. rewrite delete_all_lookup. case_decide; [done|apply Hu]. }
  generalize 0 as i, (IsCoinBase tx) as cb. intros i cb. revert i. induction (vout tx) as [|o outs IH]; intros i Ho; simpl; [done|].
  apply Forall_cons_1 in Ho as [Ho Houts]. destruct (IsUnspendable (scriptPubKey o)); [by apply IH|]. simpl.
  apply map_Forall_insert_2; [by apply Ho|by apply IH].
Qed.

Lemma apply_tx_live u tx h : 0 < h < 2 ^ 31 -> coins_live u -> coins_live (apply_tx u tx h).
Proof.
  intros Hh Hu. apply apply_tx_forall; [done|]. apply Forall_forall. intros o _ Ho. split; [|done].
  simpl. rewrite wrap_small by (split; lia). lia.
Qed.

Lemma apply_tx_unspent u tx h : applies u tx -> coins_unspent_all u -> coins_unspent_all (apply_tx u tx h).
Proof.
  intros Happ Hu. apply apply_tx_forall; [done|]. eapply Forall_impl; [apply (app_values _ _ Happ)|].
  intros o Ho _. by apply Z.eqb_neq.
Qed.

(** Each transaction can be applied after the ones before it, and its identifier is new. *)
Fixpoint applies_all (u : gmap COutPoint Coin) (txs : list CTransaction) (nHeight : Z) : Prop :=
  match txs with
  | [] => True
  | tx :: txs => applies u tx /\ fresh u tx /\ applies_all (apply_tx u tx nHeight) txs nHeight
  end.

(** ** The cache follows the map *)

Section OperationsOk.
Context {V : Type} `{CoinsViewLaws V}.
Implicit Types view : CCoinsViewCache V.

(** The cache now holds [u'], over the same base. *)
Definition holds view view' (u' : gmap COutPoint Coin) : Prop :=
  cache_ok view' /\ coins_of view' = u' /\ same_base view view'.

Lemma holds_trans a b c ub uc : holds a b ub -> holds b c uc -> holds a c uc.
Proof. intros (_ & _ & A) (B1 & B2 & B3). split_and!; [done|done|by transitivity b]. Qed.

Lemma spend_inputs_ok view ins acc :
  cache_ok view -> NoDup (map prevout ins) -> Forall (fun i => is_Some (coins_of view !! prevout i)) ins ->
  exists view', spend_inputs view ins acc = Some (view', acc ++ spent_coins (coins_of view) ins) /\
    holds view view' (delete_all (map prevout ins) (coins_of view)).
Proof.
  revert view acc. induction ins as [|i ins IH]; intros view acc Hok Hnd Hin; simpl.
  - exists view. by rewrite app_nil_r.
  - apply list.NoDup_cons in Hnd as [Hi Hnd]. apply Forall_cons_1 in Hin as [[c Hc] Hin].
    destruct (SpendCoin_ok view (prevout i) Hok) as (v1 & r & -> & Hok1 & Hb1 & Hc1 & Hr). rewrite Hc in Hr. subst r.
    assert (Hother : forall j, j ∈ ins -> coins_of v1 !! prevout j = coins_of view !! prevout j).
    { intros j Hj. rewrite Hc1. apply lookup_delete_ne. intros E. apply Hi. rewrite E. by apply (list_elem_of_fmap_2 prevout). }
    destruct (IH v1 (acc ++ [c]) Hok1 Hnd) as (v2 & -> & Hh).
    { rewrite Forall_forall in *. intros j Hj. rewrite Hother by done. by apply Hin. }
    exists v2. rewrite <- app_assoc. simpl. rewrite Hc. simpl. split.
    + do 4 f_equal. unfold spent_coins. apply map_ext_in. intros j Hj%list_elem_of_In. by rewrite Hother.
    + apply (holds_trans _ v1 _ (delete (prevout i) (coins_of view))); [done|].
      rewrite Hc1, delete_all_comm in Hh. done.
Qed.

Lemma add_outputs_ok view txid outs i h cb :
  cache_ok view -> Forall (fun o => nValue o <> -1) outs -> 0 <= i -> i + Z.of_nat (length outs) <= 2 ^ 32 ->
  (cb = false -> forall n, i <= n -> coins_of view !! {| op_hash := txid; op_n := n |} = None) ->
  exists view', add_outputs view txid outs i h cb false = Some view' /\
    holds view view' (insert_all (new_coins txid outs i h cb) (coins_of view)).
Proof.
  revert view i. induction outs as [|o outs IH]; intros view i Hok Hv Hi Hl Hf; simpl; [by exists view|].
  apply Forall_cons_1 in Hv as [Ho Hv]. simpl in Hl.
  assert (Hs : IsSpent (make_Coin o h cb) = false) by (by apply Z.eqb_neq).
  destruct (AddCoin_ok view {| op_hash := txid; op_n := wrap 32 i |} (make_Coin o h cb) cb Hok Hs) as (v1 & -> & Hok1 & Hb1 & Hc1).
  { intros ->. rewrite wrap_small by (split; lia). apply Hf; [done|lia]. }
  simpl scriptPubKey in Hc1.
  destruct (IH v1 (i + 1)) as (v2 & -> & Hh); [done|done|lia|lia| |].
  { intros -> n Hn. rewrite Hc1. case_match; [apply Hf; [done|lia]|].
    rewrite lookup_insert_ne; [apply Hf; [done|lia]|]. rewrite wrap_small by (split; lia). intros [= E]. lia. }
  exists v2. split; [done|]. apply (holds_trans _ v1 _ (coins_of v1)); [by split_and!|]. rewrite Hc1 in Hh.
  destruct (IsUnspendable (scriptPubKey o)); [done|]. simpl. rewrite insert_all_comm in Hh; [done|].
  intros Hk. apply new_coins_keys in Hk as [_ Hk]; [|lia|lia]. simpl in Hk. rewrite wrap_small in Hk by (split; lia). lia.
Qed.

Lemma UpdateCoins_ok view tx h :
  cache_ok view -> applies (coins_of view) tx ->
  exists view', UpdateCoins tx view {| vprevout := [] |} h = Some (view', undo_of (coins_of view) tx) /\
    holds view view' (apply_tx (coins_of view) tx h).
Proof.
  intros Hok [Hv Hn Hin Hf]. unfold UpdateCoins, undo_of, apply_tx, AddCoins. cbn [vprevout].
  assert (exists v1, (if negb (IsCoinBase tx) then spend_inputs view (vin tx) [] else Some (view, [])) =
      Some (v1, if IsCoinBase tx then [] else spent_coins (coins_of view) (vin tx)) /\
      holds view v1 (without_inputs (coins_of view) tx)) as (v1 & -> & H1).
  { unfold without_inputs. destruct (IsCoinBase tx); [by exists view|]. destruct (Hin eq_refl) as [Hnd Hall].
    destruct (spend_inputs_ok view (vin tx) [] Hok Hnd Hall) as (v1 & E & Hh). by exists v1. }
  destruct H1 as (Hok1 & Hc1 & Hb1).
  destruct (add_outputs_ok v1 (GetHash tx) (vout tx) 0 h (IsCoinBase tx)) as (v2 & -> & Hh); [done|done|lia|lia| |].
  { intros Ecb n _. rewrite Hc1. by apply (without_inputs_fresh _ tx (Hf Ecb)). }
  exists v2. split; [done|]. rewrite Hc1 in Hh. by apply (holds_trans _ v1 _ (coins_of v1)).
Qed.

(** ** Backwards *)

Lemma remove_outputs_ok view u txid outs i h cb ex clean :
  cache_ok view -> coins_of view = insert_all (new_coins txid outs i h cb) u -> 0 <= i -> i + Z.of_nat (length outs) <= 2 ^ 32 ->
  in_u 31 h -> (forall n, i <= n -> u !! {| op_hash := txid; op_n := n |} = None) ->
  exists view', remove_outputs view txid outs i h cb ex clean = Some (view', clean) /\ holds view view' u.
Proof.
  revert view i. induction outs as [|o outs IH]; intros view i Hok Hc Hi Hl Hh Hf; simpl in *; [by exists view|].
  destruct (IsUnspendable (scriptPubKey o)).
  { apply IH; [done|done|lia|lia|done|]. intros n Hn. apply Hf. lia. }
  simpl in Hc. set (k := {| op_hash := txid; op_n := wrap 32 i |}) in *.
  assert (Hk : insert_all (new_coins txid outs (i + 1) h cb) u !! k = None).
  { rewrite insert_all_not; [apply Hf; rewrite wrap_small by (split; lia); lia|].
    intros Hin. apply new_coins_keys in Hin as [_ Hin]; [|lia|lia]. simpl in Hin. rewrite wrap_small in Hin by (split; lia). lia. }
  destruct (SpendCoin_ok view k Hok) as (v1 & r & -> & Hok1 & Hb1 & Hc1 & Hr). rewrite Hc, lookup_insert_eq in Hr. subst r.
  unfold make_Coin. cbn [out coin_nHeight fCoinBase]. rewrite bool_decide_true by done.
  rewrite (wrap_small 31 h) by done. rewrite Z.eqb_refl, Bool.eqb_reflx. cbn [negb orb andb].
  rewrite Hc, delete_insert_id in Hc1 by done.
  destruct (IH v1 (i + 1)) as (v2 & E2 & Hh2); [done|done|lia|lia|done|intros n Hn; apply Hf; lia|].
  exists v2. split; [exact E2|]. by apply (holds_trans _ v1 _ (coins_of v1)).
Qed.

Lemma ApplyTxInUndo_ok view o c :
  cache_ok view -> coins_of view !! o = None -> IsSpent c = false -> coin_live c ->
  exists view', ApplyTxInUndo c view o = Some (view', DISCONNECT_OK) /\ holds view view' (<[o := c]> (coins_of view)).
Proof.
  intros Hok Ho Hc [Hh Hs]. unfold ApplyTxInUndo.
  destruct (Cache_HaveCoin_ok view o Hok) as (v1 & -> & Hok1 & Hc1 & Hb1). rewrite Ho. rewrite bool_decide_false by (by intros [? ?]).
  cbn [negb]. rewrite (proj2 (Z.eqb_neq _ _)) by lia.
  destruct (AddCoin_ok v1 o c false Hok1 Hc) as (v2 & -> & Hok2 & Hb2 & Hc2); [by rewrite Hc1|].
  rewrite Hs, Hc1 in Hc2. exists v2. split; [done|]. apply (holds_trans _ v1 _ (coins_of v1)); by split_and!.
Qed.

Lemma restore_inputs_ok view l clean :
  cache_ok view -> NoDup l.*1 -> (forall k c, (k, c) ∈ l -> coins_of view !! k = None /\ IsSpent c = false /\ coin_live c) ->
  exists view', restore_inputs view l clean = Some (view', Some clean) /\ holds view view' (insert_all l (coins_of view)).
Proof.
  revert view. induction l as [|[k c] l IH]; intros view Hok Hnd Hl; simpl; [by exists view|].
  simpl in Hnd. apply list.NoDup_cons in Hnd as [Hk Hnd].
  destruct (Hl k c ltac:(by left)) as (Hn & Hc & Hlive).
  destruct (ApplyTxInUndo_ok view k c Hok Hn Hc Hlive) as (v1 & -> & Hok1 & Hc1 & Hb1).
  destruct (IH v1 Hok1 Hnd) as (v2 & -> & Hh).
  { intros k' c' Hin. destruct (Hl k' c' ltac:(by right)) as (Hn' & Hc' & Hlive'). rewrite Hc1. split; [|done].
    rewrite lookup_insert_ne; [done|]. intros ->. apply Hk. by apply (list_elem_of_fmap_2 fst _ (k', c')). }
  exists v2. split; [done|]. rewrite Hc1, insert_all_comm in Hh by done. by apply (holds_trans _ v1 _ (coins_of v1)).
Qed.

(** One transaction and back. *)
Lemma disconnect_tx_ok view u tx h enforce clean :
  cache_ok view -> coins_of view = apply_tx u tx h -> applies u tx -> fresh u tx -> in_u 31 h ->
  coins_live u -> coins_unspent_all u ->
  exists view', disconnect_tx view tx (if IsCoinBase tx then None else Some (undo_of u tx)) h enforce clean =
      Some (view', Some clean) /\ holds view view' u.
Proof.
  intros Hok Hc [Hv Hn Hin _] Hf Hh Hlive Huns. unfold disconnect_tx.
  pose proof (without_inputs_fresh u tx Hf) as Hf1.
  destruct (remove_outputs_ok view (without_inputs u tx) (GetHash tx) (vout tx) 0 h (IsCoinBase tx)
              (IsCoinBase tx && negb enforce) clean) as (v1 & -> & Hok1 & Hc1 & Hb1); [done|done|lia|lia|done|intros; apply Hf1|].
  unfold without_inputs, undo_of in *. destruct (IsCoinBase tx); [by exists v1|]. destruct (Hin eq_refl) as [Hnd Hall].
  cbn [vprevout]. unfold spent_coins at 1. rewrite length_map, Nat.eqb_refl. cbn [negb].
  set (l := zip (map prevout (vin tx)) (spent_coins u (vin tx))).
  assert (Hkeys : l.*1 = map prevout (vin tx)) by (apply fst_zip; unfold spent_coins; rewrite !length_map; lia).
  assert (Hval : forall k c, (k, c) ∈ l -> u !! k = Some c).
  { intros k c Hkc. unfold l, spent_coins in Hkc. rewrite zip_with_fmap_l, zip_with_fmap_r, zip_with_diag in Hkc.
    apply list_elem_of_fmap in Hkc as (i & [= -> ->] & Hi). rewrite Forall_forall in Hall. destruct (Hall i Hi) as [c ->]. done. }
  rewrite (rev_alt l). change (rev_append l []) with (reverse l).
  destruct (restore_inputs_ok v1 (reverse l) clean Hok1) as (v2 & -> & Hh2).
  - rewrite fmap_reverse, reverse_Permutation, Hkeys. done.
  - intros k c Hkc. rewrite elem_of_reverse in Hkc. pose proof (Hval k c Hkc) as Hu.
    split_and!; [|by apply (Huns k)|by apply (Hlive k)]. rewrite Hc1, delete_all_lookup, decide_True; [done|].
    rewrite <- Hkeys. by apply (list_elem_of_fmap_2 fst _ (k, c)).
  - exists v2. split; [done|]. rewrite Hc1, restore_all in Hh2; [by apply (holds_trans _ v1 _ (coins_of v1))|..].
    + intros k c Hkc. rewrite elem_of_reverse in Hkc. by apply Hval.
    + rewrite fmap_reverse, Hkeys. intros x. by rewrite elem_of_reverse.
    + rewrite fmap_reverse, Hkeys. intros x. by rewrite elem_of_reverse.
Qed.

Lemma disconnect_txs_app view l1 l2 h enforce clean :
  disconnect_txs view (l1 ++ l2) h enforce clean =
  let! '(view, r) := disconnect_txs view l1 h enforce clean in
  match r with None => Some (view, None) | Some clean => disconnect_txs view l2 h enforce clean end.
Proof.
  revert view clean. induction l1 as [|[tx undo] l1 IH]; intros view clean; simpl; [done|].
  destruct (disconnect_tx view tx undo h enforce clean) as [[v [c|]]|]; [apply IH|done|done].
Qed.

Lemma disconnect_txs_ok view u txs h enforce clean :
  cache_ok view -> coins_of view = apply_txs u txs h -> applies_all u txs h -> Forall (fun tx => IsCoinBase tx = false) txs ->
  0 < h < 2 ^ 31 -> coins_live u -> coins_unspent_all u ->
  exists view', disconnect_txs view (rev (zip txs (map Some (undos_of u txs h)))) h enforce clean = Some (view', Some clean) /\
    holds view view' u.
Proof.
  intros Hok Hc Happ Hncb Hh. revert u Hc Happ Hncb. induction txs as [|tx txs IH]; intros u Hc Happ Hncb Hlive Huns; simpl.
  { exists view. by split_and!. }
  destruct Happ as (Htx & Hf & Happ). apply Forall_cons_1 in Hncb as [Hcb Hncb].
  destruct (IH (apply_tx u tx h)) as (v1 & E1 & Hok1 & Hc1 & Hb1); [done|done|done|by apply apply_tx_live|by apply apply_tx_unspent|].
  rewrite disconnect_txs_app, E1. simpl.
  destruct (disconnect_tx_ok v1 u tx h enforce clean) as (v2 & E2 & Hh2); try done; [split; lia|]. rewrite Hcb in E2. rewrite E2.
  exists v2. split; [done|]. by apply (holds_trans _ v1 _ (coins_of v1)).
Qed.

(** Disconnecting a block restores the coins from before it. *)
Lemma DisconnectBlock_ok idx view u block coinbase txs p b q :
  cache_ok view -> vtx block = coinbase :: txs -> IsCoinBase coinbase = true -> Forall (fun tx => IsCoinBase tx = false) txs ->
  idx !! p = Some b -> pprev b = Some q -> 0 < nHeight b < 2 ^ 31 ->
  coins_of view = apply_txs u (vtx block) (nHeight b) -> applies_all u (vtx block) (nHeight b) ->
  coins_live u -> coins_unspent_all u ->
  exists view', DisconnectBlock idx (Some {| vtxundo := undos_of (apply_tx u coinbase (nHeight b)) txs (nHeight b) |}) block p view =
      Some (view', DISCONNECT_OK) /\
    cache_ok view' /\ coins_of view' = u /\ hashBlock view' = q /\ utxo (base view') = utxo (base view).
Proof.
  intros Hok Evtx Hcb Hncb Hp Hq Hh Hc Happ Hlive Huns. unfold DisconnectBlock. rewrite Hp, Evtx. cbn [vtxundo].
  rewrite Evtx in Happ, Hc. destruct Happ as (Hcbok & Hcbf & Happ). set (h := nHeight b) in *. set (u1 := apply_tx u coinbase h) in *.
  rewrite length_undos. simpl length. rewrite Nat.add_1_r, Nat.eqb_refl. cbn [negb]. simpl zip. cbn [rev].
  destruct (disconnect_txs_ok view u1 txs h (negb (IsBIP30Unspendable p h)) true) as (v1 & E1 & Hok1 & Hc1 & Hb1);
    try done; [by apply apply_tx_live|by apply apply_tx_unspent|].
  rewrite disconnect_txs_app, E1. simpl.
  destruct (disconnect_tx_ok v1 u coinbase h (negb (IsBIP30Unspendable p h)) true) as (v2 & E2 & Hok2 & Hc2 & Hb2); try done; [split; lia|].
  rewrite Hcb in E2. rewrite E2, Hq. eexists. split; [done|].
  assert (Hb : same_base view v2) by by transitivity v1. destruct Hok2 as [K1 K2 K3]. split_and!; [by split|done|done|apply Hb].
Qed.
End OperationsOk.
