(* ===== verification/SigOps.v ===== *)
(** Signature operations and output templates: the script predicates and [GetSigOpCount] of
    [src/src/script/script.cpp], [CountWitnessSigOps] of [src/src/script/interpreter.cpp], the sums
    of [src/src/consensus/tx_verify.cpp] and [src/src/consensus/restricted_outputs.h].

    [None] is a failed assertion, or fuel that runs out; the lemmas exclude both.  The fuel of a loop
    over a script is its length, as every instruction has at least one byte. *)

From stdpp Require Import strings sorting.
From S2P Require Import Prelude Primitives Serialize Block Script CoinsMap Coins Headers TxCheck Params.

#[local] Open Scope Z_scope.
#[local] Open Scope qbit_scope.

Abbreviation OP_16 := 0x60.
Abbreviation OP_EQUAL := 0x87.
Abbreviation OP_HASH160 := 0xa9.
Abbreviation OP_CHECKSIGVERIFY := 0xad.
Abbreviation OP_CHECKMULTISIG := 0xae.
Abbreviation OP_CHECKMULTISIGVERIFY := 0xaf.
Abbreviation MAX_PUBKEYS_PER_MULTISIG := 20.

Abbreviation SCRIPT_VERIFY_P2SH := (Z.shiftl 1 0).
Abbreviation SCRIPT_VERIFY_WITNESS := (Z.shiftl 1 11).
Abbreviation WITNESS_V0_SCRIPTHASH_SIZE := 32.
Abbreviation WITNESS_V0_KEYHASH_SIZE := 20.
Abbreviation WITNESS_V2_P2MR_SIZE := 32.

(** ** Templates *)

Definition script_size (script : CScript) : Z := Z.of_nat (length script).

Definition DecodeOP_N (opcode : Z) : option Z :=
  if opcode =? OP_0 then Some 0
  else assert! (OP_1 <=? opcode) && (opcode <=? OP_16); Some (opcode - (OP_1 - 1)).

Definition IsPayToAnchor (script : CScript) : bool :=
  (script_size script =? 4) && (get script 0 =? OP_1) && (get script 1 =? 0x02) && (get script 2 =? 0x4e) && (get script 3 =? 0x73).

Definition IsPayToScriptHash (script : CScript) : bool :=
  (script_size script =? 23) && (get script 0 =? OP_HASH160) && (get script 1 =? 0x14) && (get script 22 =? OP_EQUAL).

(** The version and the program; the outer option is the assertion of [DecodeOP_N]. *)
Definition IsWitnessProgram (script : CScript) : option (option (Z * list Z)) :=
  if (script_size script <? 4) || (42 <? script_size script) then Some None
  else if negb (get script 0 =? OP_0) && ((get script 0 <? OP_1) || (OP_16 <? get script 0)) then Some None
  else if get script 1 + 2 =? script_size script then
    let! version := DecodeOP_N (get script 0) in Some (Some (version, drop 2 script))
  else Some None.

Definition IsReservedFutureWitnessOutput (script : CScript) : option bool :=
  let! w := IsWitnessProgram script in
  Some (match w with Some (version, _) => (3 <=? version) && (version <=? 16) | None => false end).

Fixpoint push_only_loop (fuel : nat) (pc : list Z) : option bool :=
  match pc with
  | [] => Some true
  | _ =>
      match fuel with
      | O => None
      | S fuel =>
          match GetScriptOp pc with
          | None => Some false
          | Some (opcode, _, pc) => if OP_16 <? opcode then Some false else push_only_loop fuel pc
          end
      end
  end.

Definition IsPushOnly (script : CScript) : option bool := push_only_loop (length script) script.

(** ** Counting *)

(** [n] is an [unsigned int]. *)
Fixpoint sigop_loop (fuel : nat) (fAccurate : bool) (pc : list Z) (lastOpcode n : Z) : option Z :=
  match pc with
  | [] => Some n
  | _ =>
      match fuel with
      | O => None
      | S fuel =>
          match GetScriptOp pc with
          | None => Some n
          | Some (opcode, _, pc) =>
              let! n :=
                (if (opcode =? OP_CHECKSIG) || (opcode =? OP_CHECKSIGVERIFY) then Some (wrap 32 (n + 1))
                 else if (opcode =? OP_CHECKMULTISIG) || (opcode =? OP_CHECKMULTISIGVERIFY) then
                   if fAccurate && (OP_1 <=? lastOpcode) && (lastOpcode <=? OP_16) then
                     let! k := DecodeOP_N lastOpcode in Some (wrap 32 (n + k))
                   else Some (wrap 32 (n + MAX_PUBKEYS_PER_MULTISIG))
                 else Some n) in
              sigop_loop fuel fAccurate pc opcode n
          end
      end
  end.

Definition GetSigOpCount (script : CScript) (fAccurate : bool) : option Z :=
  sigop_loop (length script) fAccurate script OP_INVALIDOPCODE 0.

(** The last push of a [scriptSig], when it only pushes; the inner [None] is the early [return 0]. *)
Fixpoint last_push (fuel : nat) (pc vData : list Z) : option (option (list Z)) :=
  match pc with
  | [] => Some (Some vData)
  | _ =>
      match fuel with
      | O => None
      | S fuel =>
          match GetScriptOp pc with
          | None => Some None
          | Some (opcode, data, pc) => if OP_16 <? opcode then Some None else last_push fuel pc data
          end
      end
  end.

(** The overload for a pay-to-script-hash output. *)
Definition GetSigOpCount_P2SH (script scriptSig : CScript) : option Z :=
  if negb (IsPayToScriptHash script) then GetSigOpCount script true
  else
    let! r := last_push (length scriptSig) scriptSig [] in
    match r with
    | None => Some 0
    | Some subscript => GetSigOpCount subscript true
    end.

Definition WitnessSigOps (witversion : Z) (witprogram : list Z) (witness : list (list Z)) : option Z :=
  if (witversion =? 0) && (script_size witprogram =? WITNESS_V0_KEYHASH_SIZE) then Some 1
  else if (witversion =? 0) && (script_size witprogram =? WITNESS_V0_SCRIPTHASH_SIZE) && (0 <? length witness)%nat then
    GetSigOpCount (List.last witness []) true
  else Some 0.

(** [scriptSig.GetOp] to the end; [IsPushOnly] has found every instruction well formed. *)
Fixpoint last_data (fuel : nat) (pc data : list Z) : option (list Z) :=
  match pc with
  | [] => Some data
  | _ =>
      match fuel with
      | O => None
      | S fuel => let! '(_, data, pc) := GetScriptOp pc in last_data fuel pc data
      end
  end.

Definition CountWitnessSigOps (scriptSig scriptPubKey : CScript) (witness : list (list Z)) (flags : Z) : option Z :=
  if Z.land flags SCRIPT_VERIFY_WITNESS =? 0 then Some 0
  else
    assert! negb (Z.land flags SCRIPT_VERIFY_P2SH =? 0);
    let! w := IsWitnessProgram scriptPubKey in
    match w with
    | Some (version, program) => WitnessSigOps version program witness
    | None =>
        let! push_only := IsPushOnly scriptSig in
        if IsPayToScriptHash scriptPubKey && push_only then
          let! data := last_data (length scriptSig) scriptSig [] in
          let! w := IsWitnessProgram data in
          match w with
          | Some (version, program) => WitnessSigOps version program witness
          | None => Some 0
          end
        else Some 0
    end.

(** ** Transactions *)

(** A sum of [unsigned int] counts. *)
Definition add_counts (counts : list (option Z)) (n : Z) : option Z :=
  foldl (fun n k => let! n := n in let! k := k in Some (wrap 32 (n + k))) (Some n) counts.

Definition GetLegacySigOpCount (tx : CTransaction) : option Z :=
  let! n := add_counts (map (fun txin => GetSigOpCount (scriptSig txin) false) (vin tx)) 0 in
  add_counts (map (fun txout => GetSigOpCount (scriptPubKey txout) false) (vout tx)) n.

Section Views.
Context {V : Type} `{CCoinsView V}.

Fixpoint p2sh_loop (inputs : CCoinsViewCache V) (ins : list CTxIn) (nSigOps : Z) : option (CCoinsViewCache V * Z) :=
  match ins with
  | [] => Some (inputs, nSigOps)
  | txin :: ins =>
      let! '(inputs, coin) := AccessCoin inputs (prevout txin) in
      assert! negb (IsSpent coin);
      let script := scriptPubKey (out coin) in
      let! nSigOps :=
        (if IsPayToScriptHash script then
           let! k := GetSigOpCount_P2SH script (scriptSig txin) in Some (wrap 32 (nSigOps + k))
         else Some nSigOps) in
      p2sh_loop inputs ins nSigOps
  end.

Definition GetP2SHSigOpCount (tx : CTransaction) (inputs : CCoinsViewCache V) : option (CCoinsViewCache V * Z) :=
  if IsCoinBase tx then Some (inputs, 0) else p2sh_loop inputs (vin tx) 0.

(** [nSigOps] is an [int64_t]; the count added is a [size_t]. *)
Fixpoint witness_loop (inputs : CCoinsViewCache V) (ins : list CTxIn) (flags nSigOps : Z) : option (CCoinsViewCache V * Z) :=
  match ins with
  | [] => Some (inputs, nSigOps)
  | txin :: ins =>
      let! '(inputs, coin) := AccessCoin inputs (prevout txin) in
      assert! negb (IsSpent coin);
      let! k := CountWitnessSigOps (scriptSig txin) (scriptPubKey (out coin)) (scriptWitness txin) flags in
      witness_loop inputs ins flags (swrap 64 (nSigOps + k))
  end.

Definition GetTransactionSigOpCost (tx : CTransaction) (inputs : CCoinsViewCache V) (flags : Z)
  : option (CCoinsViewCache V * Z) :=
  let! legacy := GetLegacySigOpCount tx in
  let nSigOps := wrap 32 (legacy * WITNESS_SCALE_FACTOR) in
  if IsCoinBase tx then Some (inputs, nSigOps)
  else
    let! '(inputs, nSigOps) :=
      (if negb (Z.land flags SCRIPT_VERIFY_P2SH =? 0) then
         let! '(inputs, k) := GetP2SHSigOpCount tx inputs in
         let! n := sarith 64 (nSigOps + wrap 32 (k * WITNESS_SCALE_FACTOR)) in Some (inputs, n)
       else Some (inputs, nSigOps)) in
    witness_loop inputs (vin tx) flags nSigOps.
End Views.

(** ** Restricted outputs *)

Definition IsRestrictedOutputModeP2MROutput (script : CScript) : option bool :=
  let! w := IsWitnessProgram script in
  Some (match w with Some (version, program) => (version =? 2) && (script_size program =? WITNESS_V2_P2MR_SIZE) | None => false end).

Definition IsRestrictedOutputModeExemptOutput (script : CScript) : bool :=
  match script with op :: _ => op =? OP_RETURN | [] => false end || IsPayToAnchor script.

Definition IsRestrictedOutputModeConsensusOutput (script : CScript) (consensus : Params) (height : Z) : option bool :=
  let! p2mr := IsRestrictedOutputModeP2MROutput script in
  if (p2mr : bool) then Some true
  else
    let! reserved :=
      (if OuterReservedWitnessActiveAtHeight consensus height then IsReservedFutureWitnessOutput script else Some false) in
    Some (reserved || IsRestrictedOutputModeExemptOutput script).

Fixpoint all_restricted (outs : list CTxOut) (consensus : Params) (height : Z) : option bool :=
  match outs with
  | [] => Some true
  | txout :: outs =>
      let! ok := IsRestrictedOutputModeConsensusOutput (scriptPubKey txout) consensus height in
      if (ok : bool) then all_restricted outs consensus height else Some false
  end.

Definition HasOnlyRestrictedOutputModeOutputs (tx : CTransaction) (consensus : Params) (height : Z) : option bool :=
  all_restricted (vout tx) consensus height.

(** ** The counts are defined and bounded *)

Lemma push_size_shrinks opcode pc n rest : push_size opcode pc = Some (n, rest) -> (length rest <= length pc)%nat.
Proof.
  unfold push_size. destruct (_ <? _); [by intros [= _ ->]|]. destruct (_ =? _); [destruct pc; [done|]; intros [= _ ->]; simpl; lia|].
  destruct (_ =? _); destruct (_ <? _)%nat; try done; intros [= _ <-]; rewrite length_drop; lia.
Qed.

Lemma GetScriptOp_shrinks pc opcode data rest :
  GetScriptOp pc = Some (opcode, data, rest) -> (length rest < length pc)%nat.
Proof.
  destruct pc as [|x pc]; [done|]. simpl. destruct (_ <=? _); [|intros [= _ _ ->]; lia].
  destruct (push_size x pc) as [[n p]|] eqn:E; [|done]. apply push_size_shrinks in E.
  destruct (_ <? _); [done|]. intros [= _ _ <-]. rewrite length_drop. lia.
Qed.

Lemma DecodeOP_N_range opcode :
  (OP_1 <=? opcode) && (opcode <=? OP_16) = true -> exists k, DecodeOP_N opcode = Some k /\ 1 <= k <= 16.
Proof.
  unfold DecodeOP_N. intros H. rewrite H. apply andb_prop in H as [H1 H2].
  apply Z.leb_le in H1, H2. rewrite (proj2 (Z.eqb_neq _ _)) by lia. eexists. split; [done|lia].
Qed.

Lemma sigop_loop_ok fuel accurate pc last n :
  (length pc <= fuel)%nat -> 0 <= n -> n + 20 * Z.of_nat (length pc) < 2 ^ 32 ->
  exists k, sigop_loop fuel accurate pc last n = Some k /\ n <= k <= n + 20 * Z.of_nat (length pc).
Proof.
  revert pc last n. induction fuel as [|fuel IH]; intros [|x pc] last n Hf Hn Hb;
    try (eexists; split; [done|simpl; lia]); [simpl in Hf; lia|].
  cbn [sigop_loop].
  destruct (GetScriptOp (x :: pc)) as [[[opcode data] rest]|] eqn:E; [|exists n; split; [done|lia]].
  pose proof (GetScriptOp_shrinks _ _ _ _ E) as Hr.
  assert (exists d, (if (opcode =? OP_CHECKSIG) || (opcode =? OP_CHECKSIGVERIFY) then Some (wrap 32 (n + 1))
      else if (opcode =? OP_CHECKMULTISIG) || (opcode =? OP_CHECKMULTISIGVERIFY) then
        if accurate && (OP_1 <=? last) && (last <=? OP_16) then
          match DecodeOP_N last with Some k => Some (wrap 32 (n + k)) | None => None end
        else Some (wrap 32 (n + MAX_PUBKEYS_PER_MULTISIG))
      else Some n) = Some (n + d) /\ 0 <= d <= 20) as (d & -> & Hd).
  { assert (Hw : forall d, 0 <= d <= 20 -> wrap 32 (n + d) = n + d) by (intros d Hd; apply wrap_small; unfold in_u; lia).
    destruct (_ || _); [exists 1; rewrite Hw by lia; split; [done|lia]|].
    destruct (_ || _); [|exists 0; rewrite Z.add_0_r; split; [done|lia]].
    destruct (accurate && (OP_1 <=? last) && (last <=? OP_16)) eqn:Ea.
    - rewrite <- andb_assoc in Ea. apply andb_prop in Ea as [_ Ea]. destruct (DecodeOP_N_range last Ea) as (k & -> & Hk).
      exists k. rewrite Hw by lia. split; [done|lia].
    - exists 20. rewrite Hw by lia. split; [done|lia]. }
  destruct (IH rest opcode (n + d)) as (k & Hk & Hrange); [lia..|]. exists k. split; [done|lia].
Qed.

Lemma GetSigOpCount_ok script accurate :
  20 * script_size script < 2 ^ 32 ->
  exists k, GetSigOpCount script accurate = Some k /\ 0 <= k <= 20 * script_size script.
Proof. intros Hb. apply (sigop_loop_ok (length script) accurate script OP_INVALIDOPCODE 0); [lia|lia|exact Hb]. Qed.

Lemma add_counts_ok {A} (f : A -> option Z) (size : A -> Z) l n :
  (forall x, 20 * size x < 2 ^ 32 -> exists k, f x = Some k /\ 0 <= k <= 20 * size x) ->
  (forall x, 0 <= size x) -> 0 <= n -> n + 20 * foldr (fun x s => size x + s) 0 l < 2 ^ 32 ->
  exists k, add_counts (map f l) n = Some k /\ n <= k <= n + 20 * foldr (fun x s => size x + s) 0 l.
Proof.
  intros Hf Hs. unfold add_counts. revert n. induction l as [|x l IH]; intros n Hn Hb; simpl in *.
  - exists n. split; [done|lia].
  - pose proof (Hs x) as Hx. assert (Hl : 0 <= foldr (fun x s => size x + s) 0 l).
    { clear -Hs. induction l as [|y l IH]; simpl; [lia|]. specialize (Hs y). lia. }
    destruct (Hf x ltac:(lia)) as (k & -> & Hk). rewrite wrap_small by (unfold in_u; lia).
    destruct (IH (n + k)) as (r & -> & Hr); [lia..|]. exists r. split; [done|lia].
Qed.

(** The bytes of the scripts of a transaction. *)
Definition input_bytes (tx : CTransaction) : Z := foldr (fun i s => script_size (scriptSig i) + s) 0 (vin tx).
Definition output_bytes (tx : CTransaction) : Z := foldr (fun o s => script_size (scriptPubKey o) + s) 0 (vout tx).

Lemma GetLegacySigOpCount_ok tx :
  20 * (input_bytes tx + output_bytes tx) < 2 ^ 32 ->
  exists k, GetLegacySigOpCount tx = Some k /\ 0 <= k <= 20 * (input_bytes tx + output_bytes tx).
Proof.
  intros Hb. unfold GetLegacySigOpCount.
  assert (Ho : 0 <= output_bytes tx).
  { unfold output_bytes, script_size. induction (vout tx); simpl; lia. }
  destruct (add_counts_ok (fun txin => GetSigOpCount (scriptSig txin) false) (fun i => script_size (scriptSig i)) (vin tx) 0)
    as (n & -> & Hn); [intros x; apply GetSigOpCount_ok|unfold script_size; lia|lia|fold (input_bytes tx); lia|].
  fold (input_bytes tx) in Hn.
  destruct (add_counts_ok (fun txout => GetSigOpCount (scriptPubKey txout) false) (fun o => script_size (scriptPubKey o)) (vout tx) n)
    as (k & -> & Hk); [intros x; apply GetSigOpCount_ok|unfold script_size; lia|lia|fold (output_bytes tx); lia|].
  fold (output_bytes tx) in Hk. exists k. split; [done|lia].
Qed.

(** ** The counts are defined for every script *)

Lemma wrap32_range z : in_u 32 (wrap 32 z).
Proof. apply wrap_range. lia. Qed.

Lemma sigop_loop_total fuel accurate pc last n :
  (length pc <= fuel)%nat -> in_u 32 n -> exists k, sigop_loop fuel accurate pc last n = Some k /\ in_u 32 k.
Proof.
  revert pc last n. induction fuel as [|fuel IH]; intros [|x pc] last n Hf Hn; try (by eexists); [simpl in Hf; lia|].
  cbn [sigop_loop]. destruct (GetScriptOp (x :: pc)) as [[[opcode data] rest]|] eqn:E; [|by exists n].
  pose proof (GetScriptOp_shrinks _ _ _ _ E) as Hr.
  match goal with |- context [match ?e with Some n => sigop_loop _ _ _ _ n | None => None end] =>
    assert (exists n', e = Some n' /\ in_u 32 n') as (n' & -> & Hn') end.
  { destruct (_ || _); [eexists; split; [done|apply wrap32_range]|]. destruct (_ || _); [|by exists n].
    destruct (accurate && (OP_1 <=? last) && (last <=? OP_16)) eqn:Ea; [|eexists; split; [done|apply wrap32_range]].
    rewrite <- andb_assoc in Ea. apply andb_prop in Ea as [_ Ea]. destruct (DecodeOP_N_range last Ea) as (k & -> & Hk).
    eexists. split; [done|apply wrap32_range]. }
  apply IH; [lia|done].
Qed.

Lemma GetSigOpCount_total script accurate : exists k, GetSigOpCount script accurate = Some k /\ in_u 32 k.
Proof. apply sigop_loop_total; [done|split; lia]. Qed.

Lemma last_push_total fuel pc data : (length pc <= fuel)%nat -> exists r, last_push fuel pc data = Some r.
Proof.
  revert pc data. induction fuel as [|fuel IH]; intros [|x pc] data Hf; try (by eexists); [simpl in Hf; lia|].
  cbn [last_push]. destruct (GetScriptOp (x :: pc)) as [[[opcode d] rest]|] eqn:E; [|by eexists].
  pose proof (GetScriptOp_shrinks _ _ _ _ E). destruct (OP_16 <? opcode); [by eexists|]. apply IH. lia.
Qed.

Lemma GetSigOpCount_P2SH_total script sig : exists k, GetSigOpCount_P2SH script sig = Some k /\ in_u 32 k.
Proof.
  unfold GetSigOpCount_P2SH. destruct (negb _); [apply GetSigOpCount_total|].
  destruct (last_push_total (length sig) sig [] ltac:(done)) as [[r|] ->]; [apply GetSigOpCount_total|].
  exists 0. split; [done|split; lia].
Qed.

Lemma push_only_loop_total fuel pc : (length pc <= fuel)%nat -> exists b, push_only_loop fuel pc = Some b.
Proof.
  revert pc. induction fuel as [|fuel IH]; intros [|x pc] Hf; try (by eexists); [simpl in Hf; lia|].
  cbn [push_only_loop]. destruct (GetScriptOp (x :: pc)) as [[[opcode d] rest]|] eqn:E; [|by eexists].
  pose proof (GetScriptOp_shrinks _ _ _ _ E). destruct (OP_16 <? opcode); [by eexists|]. apply IH. lia.
Qed.

(** A script that only pushes is read to its end. *)
Lemma last_data_total fuel pc data :
  push_only_loop fuel pc = Some true -> exists r, last_data fuel pc data = Some r.
Proof.
  revert pc data. induction fuel as [|fuel IH]; intros [|x pc] data; [by exists data|done|by exists data|].
  cbn [push_only_loop last_data]. destruct (GetScriptOp (x :: pc)) as [[[opcode d] rest]|]; [|done].
  destruct (OP_16 <? opcode); [done|]. apply IH.
Qed.

Lemma IsWitnessProgram_total script : exists w, IsWitnessProgram script = Some w.
Proof.
  unfold IsWitnessProgram. destruct (_ || _); [by eexists|]. destruct (negb _ && _) eqn:E; [by eexists|].
  destruct (_ =? script_size script); [|by eexists]. unfold DecodeOP_N. destruct (get script 0 =? OP_0); [by eexists|]. simpl in E.
  apply orb_false_iff in E as [E1 E2]. apply Z.ltb_ge in E1, E2.
  rewrite (proj2 (Z.leb_le _ _) E1), (proj2 (Z.leb_le _ _) E2). by eexists.
Qed.

Lemma WitnessSigOps_total version program witness : exists k, WitnessSigOps version program witness = Some k /\ in_u 32 k.
Proof.
  unfold WitnessSigOps. destruct (_ && _); [exists 1; split; [done|split; lia]|].
  destruct (_ && _ && _); [apply GetSigOpCount_total|exists 0; split; [done|split; lia]].
Qed.

(** Flags that check witnesses also check script hashes. *)
Definition flags_consistent (flags : Z) : Prop :=
  Z.land flags SCRIPT_VERIFY_WITNESS <> 0 -> Z.land flags SCRIPT_VERIFY_P2SH <> 0.

Lemma CountWitnessSigOps_total sig script witness flags :
  flags_consistent flags -> exists k, CountWitnessSigOps sig script witness flags = Some k /\ in_u 32 k.
Proof.
  intros Hf. assert (Z0 : in_u 32 0) by (split; lia). unfold CountWitnessSigOps.
  destruct (Z.eqb_spec (Z.land flags SCRIPT_VERIFY_WITNESS) 0) as [|Hw]; [by exists 0|].
  rewrite (proj2 (Z.eqb_neq _ _) (Hf Hw)). cbn [negb].
  destruct (IsWitnessProgram_total script) as [[[version program]|] ->]; [apply WitnessSigOps_total|].
  unfold IsPushOnly. destruct (push_only_loop_total (length sig) sig ltac:(done)) as [b Eb]. rewrite Eb.
  destruct (IsPayToScriptHash script); [|by exists 0]. destruct b; [|by exists 0].
  destruct (last_data_total (length sig) sig [] Eb) as [data ->]. cbn [andb].
  destruct (IsWitnessProgram_total data) as [[[version program]|] ->]; [apply WitnessSigOps_total|by exists 0].
Qed.

Lemma add_counts_total counts n :
  Forall (fun c => is_Some c) counts -> in_u 32 n -> exists k, add_counts counts n = Some k /\ in_u 32 k.
Proof.
  unfold add_counts. intros Hc. revert n. induction Hc as [|c counts [k ->] _ IH]; intros n Hn; simpl; [by exists n|].
  apply IH, wrap32_range.
Qed.

Lemma GetLegacySigOpCount_total tx : exists k, GetLegacySigOpCount tx = Some k /\ in_u 32 k.
Proof.
  unfold GetLegacySigOpCount.
  assert (Hall : forall {A} (f : A -> option Z) l, (forall x, exists k, f x = Some k /\ in_u 32 k) -> Forall (fun c => is_Some c) (map f l)).
  { intros A f l Hf. induction l as [|x l IH]; simpl; [apply Forall_nil_2|]. apply Forall_cons_2; [|done].
    destruct (Hf x) as (k & -> & _). by eexists. }
  destruct (add_counts_total (map (fun txin => GetSigOpCount (scriptSig txin) false) (vin tx)) 0) as (n & -> & Hn);
    [apply Hall; intros; apply GetSigOpCount_total|split; lia|].
  apply add_counts_total; [apply Hall; intros; apply GetSigOpCount_total|done].
Qed.

Lemma all_restricted_total outs consensus height : exists b, all_restricted outs consensus height = Some b.
Proof.
  induction outs as [|o outs IH]; simpl; [by eexists|].
  unfold IsRestrictedOutputModeConsensusOutput, IsRestrictedOutputModeP2MROutput, IsReservedFutureWitnessOutput.
  destruct (IsWitnessProgram_total (scriptPubKey o)) as [w ->].
  match goal with |- context [match ?e with Some ok => if ok then _ else _ | None => None end] =>
    assert (exists b, e = Some b) as [b ->] end; [|destruct b; [done|by eexists]].
  destruct (match w with Some _ => _ | None => false end); [by eexists|].
  destruct (OuterReservedWitnessActiveAtHeight consensus height); by eexists.
Qed.

(** ** The cost of a transaction *)

Definition script_at (u : gmap COutPoint Coin) (i : CTxIn) : CScript := scriptPubKey (out (default coinEmpty (u !! prevout i))).

Definition p2sh_count (u : gmap COutPoint Coin) (i : CTxIn) : Z :=
  if IsPayToScriptHash (script_at u i) then default 0 (GetSigOpCount_P2SH (script_at u i) (scriptSig i)) else 0.

Definition witness_count (u : gmap COutPoint Coin) (flags : Z) (i : CTxIn) : Z :=
  default 0 (CountWitnessSigOps (scriptSig i) (script_at u i) (scriptWitness i) flags).

Definition sum_counts {A} (f : A -> Z) (l : list A) : Z := foldr (fun x n => f x + n) 0 l.

(** The cost of a transaction that spends the coins [u]; the script hash count is an [unsigned int]. *)
Definition sigop_cost (u : gmap COutPoint Coin) (flags : Z) (tx : CTransaction) : Z :=
  default 0 (GetLegacySigOpCount tx) +
  (if IsCoinBase tx then 0
   else (if Z.land flags SCRIPT_VERIFY_P2SH =? 0 then 0 else wrap 32 (sum_counts (p2sh_count u) (vin tx))) +
        sum_counts (witness_count u flags) (vin tx)).

Lemma witness_count_range u flags i : flags_consistent flags -> 0 <= witness_count u flags i < 2 ^ 32.
Proof.
  intros Hf. unfold witness_count. destruct (CountWitnessSigOps_total (scriptSig i) (script_at u i) (scriptWitness i) flags Hf) as (k & -> & Hk).
  exact Hk.
Qed.

Lemma sum_counts_range {A} (f : A -> Z) l : (forall x, 0 <= f x < 2 ^ 32) -> 0 <= sum_counts f l <= 2 ^ 32 * Z.of_nat (length l).
Proof. intros Hf. induction l as [|x l IH]; simpl; [lia|]. specialize (Hf x). lia. Qed.

Lemma sigop_cost_range u flags tx :
  flags_consistent flags -> 0 <= sigop_cost u flags tx < 2 ^ 33 + 2 ^ 32 * Z.of_nat (length (vin tx)).
Proof.
  intros Hf. unfold sigop_cost. destruct (GetLegacySigOpCount_total tx) as (k & -> & Hk). unfold in_u in Hk. cbn [from_option id].
  pose proof (sum_counts_range (witness_count u flags) (vin tx) (fun i => witness_count_range u flags i Hf)).
  pose proof (wrap32_range (sum_counts (p2sh_count u) (vin tx))) as Hw. unfold in_u in Hw.
  destruct (IsCoinBase tx); [lia|]. destruct (_ =? 0); lia.
Qed.

Section Cost.
Context {V : Type} `{CoinsViewLaws V}.
Implicit Types inputs : CCoinsViewCache V.

Lemma p2sh_loop_ok inputs ins n :
  cache_ok inputs -> Forall (fun i => is_Some (coins_of inputs !! prevout i)) ins ->
  in_u 32 n -> exists inputs', p2sh_loop inputs ins n = Some (inputs', wrap 32 (n + sum_counts (p2sh_count (coins_of inputs)) ins)) /\
    reads inputs inputs'.
Proof.
  revert inputs n. induction ins as [|i ins IH]; intros inputs n Hok Hin Hn; simpl.
  { exists inputs. split; [|done]. by rewrite Z.add_0_r, wrap_small. }
  apply Forall_cons_1 in Hin as [[c Hc] Hin].
  destruct (AccessCoin_ok inputs (prevout i) Hok) as (in1 & c' & -> & Hok1 & Hc1 & Hb1 & Hr). rewrite Hc in Hr. subst c'.
  rewrite (coins_unspent _ _ _ Hok Hc). cbn [negb].
  assert (exists m, (if IsPayToScriptHash (scriptPubKey (out c)) then let! k := GetSigOpCount_P2SH (scriptPubKey (out c)) (scriptSig i) in
    Some (wrap 32 (n + k)) else Some n) = Some m /\ m = wrap 32 (n + p2sh_count (coins_of inputs) i)) as (m & -> & Hm).
  { unfold p2sh_count, script_at. rewrite Hc. cbn [from_option id]. destruct (IsPayToScriptHash (scriptPubKey (out c))).
    - destruct (GetSigOpCount_P2SH_total (scriptPubKey (out c)) (scriptSig i)) as (k & -> & _). by eexists.
    - exists n. by rewrite Z.add_0_r, wrap_small. }
  destruct (IH in1 m Hok1) as (in2 & -> & R2); [by rewrite Hc1|subst m; apply wrap32_range|].
  exists in2. split; [|by apply (reads_trans _ in1)]. rewrite Hc1, Hm. unfold wrap. rewrite Zplus_mod_idemp_l. do 3 f_equal. lia.
Qed.

Lemma witness_loop_ok inputs ins flags n :
  cache_ok inputs -> flags_consistent flags -> Forall (fun i => is_Some (coins_of inputs !! prevout i)) ins ->
  0 <= n -> n + 2 ^ 32 * Z.of_nat (length ins) < 2 ^ 63 ->
  exists inputs', witness_loop inputs ins flags n = Some (inputs', n + sum_counts (witness_count (coins_of inputs) flags) ins) /\
    reads inputs inputs'.
Proof.
  intros Hok Hf. revert inputs n Hok. induction ins as [|i ins IH]; intros inputs n Hok Hin Hn Hl; simpl in *.
  { exists inputs. by rewrite Z.add_0_r. }
  apply Forall_cons_1 in Hin as [[c Hc] Hin].
  destruct (AccessCoin_ok inputs (prevout i) Hok) as (in1 & c' & -> & Hok1 & Hc1 & Hb1 & Hr). rewrite Hc in Hr. subst c'.
  rewrite (coins_unspent _ _ _ Hok Hc). cbn [negb]. unfold witness_count at 1, script_at. rewrite Hc. cbn [from_option id].
  destruct (CountWitnessSigOps_total (scriptSig i) (scriptPubKey (out c)) (scriptWitness i) flags Hf) as (k & -> & Hk). unfold in_u in Hk.
  cbn [from_option id]. rewrite swrap_small by (split; simpl; lia).
  destruct (IH in1 (n + k) Hok1) as (in2 & -> & R2); [by rewrite Hc1|lia|lia|].
  exists in2. split; [|by apply (reads_trans _ in1)]. rewrite Hc1. do 2 f_equal. lia.
Qed.

Lemma GetTransactionSigOpCost_ok inputs tx flags :
  cache_ok inputs -> flags_consistent flags -> Z.of_nat (length (vin tx)) < 2 ^ 30 ->
  (IsCoinBase tx = false -> Forall (fun i => is_Some (coins_of inputs !! prevout i)) (vin tx)) ->
  exists inputs', GetTransactionSigOpCost tx inputs flags = Some (inputs', sigop_cost (coins_of inputs) flags tx) /\ reads inputs inputs'.
Proof.
  intros Hok Hf Hl Hin. unfold GetTransactionSigOpCost, sigop_cost, GetP2SHSigOpCount, WITNESS_SCALE_FACTOR.
  destruct (GetLegacySigOpCount_total tx) as (n & -> & Hn). rewrite Z.mul_1_r, (wrap_small 32 n) by done. cbn [from_option id].
  destruct (IsCoinBase tx) eqn:Ecb; [exists inputs; by rewrite Z.add_0_r|]. specialize (Hin eq_refl). unfold in_u in Hn.
  destruct (Z.land flags SCRIPT_VERIFY_P2SH =? 0); cbn [negb].
  { destruct (witness_loop_ok inputs (vin tx) flags n Hok Hf Hin) as (in1 & -> & R); [lia|lia|]. by exists in1. }
  destruct (p2sh_loop_ok inputs (vin tx) 0 Hok Hin) as (in1 & -> & R1); [split; lia|]. rewrite Z.add_0_l, Z.mul_1_r.
  set (k := wrap 32 (sum_counts _ _)). assert (Hk : in_u 32 k) by apply wrap32_range. rewrite (wrap_small 32 k) by done. unfold in_u in Hk.
  rewrite sarith_ok by (split; simpl; lia). pose proof R1 as (Hok1 & Hc1 & _).
  destruct (witness_loop_ok in1 (vin tx) flags (n + k) Hok1 Hf) as (in2 & -> & R2); [by rewrite Hc1|lia|lia|].
  exists in2. split; [|by apply (reads_trans _ in1)]. rewrite Hc1. do 2 f_equal. lia.
Qed.
End Cost.
