(* ===== verification/BlockCheck.v ===== *)
(** Checks on a block that need no coins: [CheckMerkleRoot], [CheckWitnessMalleation],
    [CheckBlockWeight], [CheckBlock], [ContextualCheckBlock], [IsBlockMutated] and the witness
    commitment of the miner, of [src/src/validation.cpp] and [src/src/consensus/validation.h].

    The mutable flags of a block are a state of their own.  The solution check of signet runs a
    script and is an argument. *)

From stdpp Require Import gmap strings sorting.
From S2P Require Import Prelude ArithUint Params Version Primitives Sha256 Merkle Serialize Block Script Chain AuxPow.
From S2P Require Import CoinsMap Coins Headers TxCheck SigOps.

#[local] Open Scope Z_scope.
#[local] Open Scope qbit_scope.

Abbreviation Params := Params.Params.

Definition MAX_BLOCK_SIGOPS_COST : Z := 80000.
Definition NO_WITNESS_COMMITMENT : Z := -1.
Definition MINIMUM_WITNESS_COMMITMENT : nat := 38.

(** What the checks remember in a block. *)
Record block_flags := { fChecked : bool; m_checked_witness_commitment : bool; m_checked_merkle_root : bool }.

Definition no_flags : block_flags :=
  {| fChecked := false; m_checked_witness_commitment := false; m_checked_merkle_root := false |}.

Section Checks.
Context `{MultiWay}.

(** ** The Merkle root *)

Definition CheckMerkleRoot (f : block_flags) (block : CBlock) : option (block_flags * verdict) :=
  if m_checked_merkle_root f then Some (f, None)
  else
    let! '(merkle_root, mutated) := BlockMerkleRoot block in
    if negb (bool_decide (hashMerkleRoot (pure (header block)) = merkle_root))
    then Some (f, Some (BLOCK_MUTATED, "bad-txnmrklroot"%string))
    else if (mutated : bool) then Some (f, Some (BLOCK_MUTATED, "bad-txns-duplicate"%string))
    else Some ({| fChecked := fChecked f; m_checked_witness_commitment := m_checked_witness_commitment f;
                  m_checked_merkle_root := true |}, None).

(** ** The witness commitment *)

Definition commitment_header : list Z := [OP_RETURN; 0x24; 0xaa; 0x21; 0xa9; 0xed].

Definition is_commitment (script : CScript) : bool :=
  (MINIMUM_WITNESS_COMMITMENT <=? length script)%nat && bool_decide (take 6 script = commitment_header).

(** The loop over the outputs of the coinbase; the last match stays. *)
Fixpoint commitment_loop (outs : list CTxOut) (o commitpos : Z) : Z :=
  match outs with
  | [] => commitpos
  | vout :: outs => commitment_loop outs (o + 1) (if is_commitment (scriptPubKey vout) then o else commitpos)
  end.

Definition GetWitnessCommitmentIndex (block : CBlock) : Z :=
  match vtx block with
  | [] => NO_WITNESS_COMMITMENT
  | coinbase :: _ => commitment_loop (vout coinbase) 0 NO_WITNESS_COMMITMENT
  end.

Definition HasAnyWitnessData (block : CBlock) : bool := existsb HasWitness (vtx block).

Definition no_witness_allowed (f : block_flags) (block : CBlock) : option (block_flags * verdict) :=
  if HasAnyWitnessData block then Some (f, Some (BLOCK_MUTATED, "unexpected-witness"%string)) else Some (f, None).

Definition CheckWitnessMalleation (f : block_flags) (block : CBlock) (expect_witness_commitment allow_stripped : bool)
  : option (block_flags * verdict) :=
  if expect_witness_commitment then
    if m_checked_witness_commitment f then Some (f, None)
    else
      let commitpos := GetWitnessCommitmentIndex block in
      if negb (commitpos =? NO_WITNESS_COMMITMENT) then
        if allow_stripped && negb (HasAnyWitnessData block) then Some (f, None)
        else
          let! coinbase := head (vtx block) in
          let! txin := head (vin coinbase) in
          match scriptWitness txin with
          | [nonce] =>
              if negb (length nonce =? 32)%nat then Some (f, Some (BLOCK_MUTATED, "bad-witness-nonce-size"%string))
              else
                let! '(hash_witness, _) := BlockWitnessMerkleRoot block in
                let! out := vout coinbase !! Z.to_nat commitpos in
                if negb (bool_decide (Hash2 hash_witness nonce = take 32 (drop 6 (scriptPubKey out))))
                then Some (f, Some (BLOCK_MUTATED, "bad-witness-merkle-match"%string))
                else Some ({| fChecked := fChecked f; m_checked_witness_commitment := true;
                              m_checked_merkle_root := m_checked_merkle_root f |}, None)
          | _ => Some (f, Some (BLOCK_MUTATED, "bad-witness-nonce-size"%string))
          end
      else no_witness_allowed f block
  else no_witness_allowed f block.

(** ** Sizes *)

Definition block_size (allow_witness : bool) (block : CBlock) : option Z :=
  let! bytes := SerializeBlock allow_witness block in Some (Z.of_nat (length bytes)).

Definition GetBlockWeight (block : CBlock) : option Z :=
  let! base := block_size false block in
  let! total := block_size true block in
  Some (base * (WITNESS_SCALE_FACTOR - 1) + total).

Definition CheckBlockWeight (block : CBlock) : option verdict :=
  let! weight := GetBlockWeight block in
  invalid! MAX_BLOCK_WEIGHT <? weight, BLOCK_CONSENSUS, "bad-blk-weight"%string;
  Some None.

(** ** [CheckBlock] *)

(** The first transaction that is rejected; [CheckBlock] asserts the class of the rejection. *)
Fixpoint check_transactions (txs : list CTransaction) (next : option verdict) : option verdict :=
  match txs with
  | [] => next
  | tx :: txs =>
      let! v := CheckTransaction tx in
      match v with
      | Some (TX_CONSENSUS, reason) => Some (Some (BLOCK_CONSENSUS, reason))
      | Some _ => None
      | None => check_transactions txs next
      end
  end.

(** The checks after the Merkle root. *)
Definition check_contents (block : CBlock) : option verdict :=
  let count := Z.of_nat (length (vtx block)) in
  let! oversize :=
    (if (count =? 0) || (MAX_BLOCK_WEIGHT <? count * WITNESS_SCALE_FACTOR) then Some true
     else let! size := block_size false block in Some (MAX_BLOCK_WEIGHT <? size * WITNESS_SCALE_FACTOR)) in
  invalid! (oversize : bool), BLOCK_CONSENSUS, "bad-blk-length"%string;
  invalid! match vtx block with coinbase :: _ => negb (IsCoinBase coinbase) | [] => true end,
    BLOCK_CONSENSUS, "bad-cb-missing"%string;
  invalid! existsb IsCoinBase (tail (vtx block)), BLOCK_CONSENSUS, "bad-cb-multiple"%string;
  check_transactions (vtx block)
    (let! nSigOps := add_counts (map GetLegacySigOpCount (vtx block)) 0 in
     invalid! MAX_BLOCK_SIGOPS_COST <? wrap 32 (nSigOps * WITNESS_SCALE_FACTOR), BLOCK_CONSENSUS, "bad-blk-sigops"%string;
     Some None).

Definition CheckBlock (fuzz : bool) (signet_solution : CBlock -> bool) (consensusParams : Params) (f : block_flags)
    (block : CBlock) (fCheckPOW fCheckMerkleRoot : bool) : option (block_flags * verdict) :=
  if fChecked f then Some (f, None)
  else
    match CheckBlockHeader fuzz (header block) consensusParams fCheckPOW with
    | Some v => Some (f, Some v)
    | None =>
        if signet_blocks consensusParams && fCheckPOW && negb (signet_solution block)
        then Some (f, Some (BLOCK_CONSENSUS, "bad-signet-blksig"%string))
        else
          let! '(f, v) := (if fCheckMerkleRoot then CheckMerkleRoot f block else Some (f, None)) in
          match v with
          | Some v => Some (f, Some v)
          | None =>
              let! v := check_contents block in
              match v with
              | Some v => Some (f, Some v)
              | None =>
                  Some ({| fChecked := if fCheckPOW && fCheckMerkleRoot then true else fChecked f;
                           m_checked_witness_commitment := m_checked_witness_commitment f;
                           m_checked_merkle_root := m_checked_merkle_root f |}, None)
              end
          end
    end.

(** ** [IsBlockMutated] *)

Definition IsBlockMutated (f : block_flags) (block : CBlock) (check_witness_root : bool) : option (block_flags * bool) :=
  let! '(f, v) := CheckMerkleRoot f block in
  match v with
  | Some _ => Some (f, true)
  | None =>
      if match vtx block with coinbase :: _ => negb (IsCoinBase coinbase) | [] => true end
      then Some (f, existsb (fun tx => size_no_witness tx =? 64) (vtx block))
      else
        let! '(f, v) := CheckWitnessMalleation f block check_witness_root false in
        Some (f, match v with Some _ => true | None => false end)
  end.

(** ** The commitment of a new block *)

(** The nonce of the coinbase input, at the height after [pindexPrev]. *)
Definition set_nonce (coinbase : CTransaction) : option CTransaction :=
  match vin coinbase with
  | txin :: ins =>
      Some {| vin := set_witness txin [replicate 32 0] :: ins; vout := vout coinbase;
              tx_version := tx_version coinbase; nLockTime := nLockTime coinbase |}
  | [] => None
  end.

Definition UpdateUncommittedBlockStructures (params : Params) (height : Z) (block : CBlock) : option CBlock :=
  if negb (GetWitnessCommitmentIndex block =? NO_WITNESS_COMMITMENT) && DeploymentActiveAfter height params DEPLOYMENT_SEGWIT then
    match vtx block with
    | coinbase :: txs =>
        if HasWitness coinbase then Some block
        else
          let! coinbase := set_nonce coinbase in Some {| header := header block; vtx := coinbase :: txs |}
    | [] => None
    end
  else Some block.

(** The block, and the commitment returned. *)
Definition GenerateCoinbaseCommitment (params : Params) (height : Z) (block : CBlock) : option (CBlock * list Z) :=
  let! '(block, commitment) :=
    (if GetWitnessCommitmentIndex block =? NO_WITNESS_COMMITMENT then
       let! '(witnessroot, _) := BlockWitnessMerkleRoot block in
       let script := commitment_header ++ Hash2 witnessroot (replicate 32 0) in
       match vtx block with
       | coinbase :: txs =>
           let coinbase := {| vin := vin coinbase; vout := vout coinbase ++ [{| nValue := 0; scriptPubKey := script |}];
                              tx_version := tx_version coinbase; nLockTime := nLockTime coinbase |} in
           Some ({| header := header block; vtx := coinbase :: txs |}, script)
       | [] => None
       end
     else Some (block, [])) in
  let! block := UpdateUncommittedBlockStructures params height block in
  Some (block, commitment).

(** ** [ContextualCheckBlock] *)

Definition RequiresWitnessForPeerBlock (params : Params) (height : Z) : bool := DeploymentHeight params DEPLOYMENT_SEGWIT <=? height.

(** [pindex] is given by the height of its entry. *)
Definition ContextualCheckBlock (idx : BlockMap) (params : Params) (f : block_flags) (block : CBlock)
    (pindexPrev : option ptr) (pindex : option Z) (requested_stripped : bool) : option (block_flags * verdict) :=
  let! nHeight :=
    (match pindexPrev with
     | None => Some 0
     | Some p => let! b := idx !! p in sarith 32 (Chain.nHeight b + 1)
     end) in
  let expect_witness_commitment := DeploymentActiveAfter nHeight params DEPLOYMENT_SEGWIT in
  let! nLockTimeCutoff :=
    (if DeploymentActiveAfter nHeight params DEPLOYMENT_CSV then
       let! p := pindexPrev in GetMedianTimePast idx p
     else Some (nTime (pure (header block)))) in
  if negb (forallb (fun tx => IsFinalTx tx nHeight nLockTimeCutoff) (vtx block))
  then Some (f, Some (BLOCK_CONSENSUS, "bad-txns-nonfinal"%string))
  else
    let! height_ok :=
      (if DeploymentActiveAfter nHeight params DEPLOYMENT_HEIGHTINCB then
         let expect := push_int64 [] nHeight in
         let! coinbase := head (vtx block) in
         let! txin := head (vin coinbase) in
         Some (bool_decide (take (length expect) (scriptSig txin) = expect))
       else Some true) in
    if negb height_ok then Some (f, Some (BLOCK_CONSENSUS, "bad-cb-height"%string))
    else
      let requires := match pindex with Some h => RequiresWitnessForPeerBlock params h | None => false end in
      if requested_stripped && match pindex with Some _ => true | None => false end && requires && negb (HasAnyWitnessData block)
      then Some (f, Some (BLOCK_MUTATED, "bad-blk-missing-witness"%string))
      else
        let allow_stripped := requested_stripped && match pindex with Some _ => true | None => false end && negb requires in
        let! '(f, v) := CheckWitnessMalleation f block expect_witness_commitment allow_stripped in
        match v with
        | Some v => Some (f, Some v)
        | None => let! v := CheckBlockWeight block in Some (f, v)
        end.
End Checks.

(** ** A new block carries a valid commitment *)

#[local] Opaque Hash Hash2 SHA256D64 HashWriter_GetHash ComputeMerkleRoot.

Lemma commitment_loop_none outs o pos :
  commitment_loop outs o pos = NO_WITNESS_COMMITMENT -> 0 <= o -> pos = NO_WITNESS_COMMITMENT /\
  Forall (fun out => is_commitment (scriptPubKey out) = false) outs.
Proof.
  unfold NO_WITNESS_COMMITMENT. revert o pos. induction outs as [|x outs IH]; intros o pos E Ho; simpl in E; [done|].
  destruct (IH _ _ E ltac:(lia)) as [Hp Hf]. destruct (is_commitment (scriptPubKey x)) eqn:Ex; [lia|].
  split; [done|]. by apply Forall_cons_2.
Qed.

Lemma commitment_loop_last outs out o pos :
  Forall (fun out => is_commitment (scriptPubKey out) = false) outs -> is_commitment (scriptPubKey out) = true ->
  commitment_loop (outs ++ [out]) o pos = o + Z.of_nat (length outs).
Proof.
  intros Hf Hout. revert o pos. induction Hf as [|x outs Hx _ IH]; intros o pos; simpl.
  - rewrite Hout. lia.
  - rewrite Hx, IH. lia.
Qed.

Lemma GetWitnessHash_Hash tx : GetWitnessHash tx = Hash (SerializeTransaction true tx).
Proof.
  unfold GetWitnessHash. destruct (HasWitness tx) eqn:E; simpl; [apply HashWriter_Hash|].
  rewrite GetHash_Hash. unfold SerializeTransaction. by rewrite E.
Qed.

(** The leaves of the witness tree over the transactions after the coinbase. *)
Definition witness_leaves (txs : list CTransaction) : list uint256 := uint256_zero :: map GetWitnessHash txs.

Lemma witness_leaves_32 txs : all_32 (witness_leaves txs).
Proof.
  apply Forall_cons_2; [done|]. induction txs; simpl; [apply Forall_nil_2|].
  apply Forall_cons_2; [rewrite GetWitnessHash_Hash; apply length_Hash|done].
Qed.

Lemma merkle_root_32 l : all_32 l -> length (merkle_root l) = 32%nat.
Proof.
  intros Hl. unfold merkle_root, Merkle.node. generalize (Z.to_nat 0) as i. intros i.
  assert (Hlev : all_32 (lev l (depth l))) by (destruct (depth l); [exact Hl|apply up_32]).
  destruct (decide (i < length (lev l (depth l)))%nat) as [Hi|Hi].
  - unfold all_32 in Hlev. rewrite Forall_forall in Hlev. apply Hlev. apply list_elem_of_In, nth_In. lia.
  - rewrite nth_overflow by lia. reflexivity.
Qed.

Section Generate.
Context `{MultiWayLaws}.

Lemma BlockWitnessMerkleRoot_spec block coinbase txs :
  vtx block = coinbase :: txs ->
  BlockWitnessMerkleRoot block = Some (merkle_root (witness_leaves txs), duplicated (witness_leaves txs)).
Proof. intros E. unfold BlockWitnessMerkleRoot. rewrite E. apply ComputeMerkleRoot_spec, witness_leaves_32. Qed.

Lemma is_commitment_new h : length h = 32%nat -> is_commitment (commitment_header ++ h) = true.
Proof.
  intros E. unfold is_commitment, MINIMUM_WITNESS_COMMITMENT. by rewrite length_app, E.
Qed.

End Generate.

(** ** What a checked block hash commits to *)

(** With as many leaves on both sides no mutation has to be excluded. *)
Lemma up_inj_length l1 l2 :
  all_32 l1 -> all_32 l2 -> no_collision (pair_inputs l1) (pair_inputs l2) -> length l1 = length l2 -> up l1 = up l2 -> l1 = l2.
Proof.
  revert l2. induction l1 as [|a|a b l1 IH] using pair_ind; intros l2 H1 H2 Hno Hlen Hu.
  - by destruct l2.
  - destruct l2 as [|c [|? ?]]; try (exfalso; clear -Hlen; simpl in Hlen; lia). apply Forall_cons_1 in H1 as [Ha _], H2 as [Hc _].
    cbn [up] in Hu. apply (f_equal (hd [])) in Hu.
    destruct (Hash2_inj a a c c _ _ Ha Ha Hc Hc Hno ltac:(by left) ltac:(by left) Hu) as [-> _]. reflexivity.
  - destruct l2 as [|c [|d l2]]; try (exfalso; clear -Hlen; simpl in Hlen; lia).
    apply Forall_cons_1 in H1 as [Ha H1], H2 as [Hc H2]. apply Forall_cons_1 in H1 as [Hb H1], H2 as [Hd H2].
    cbn [up] in Hu. pose proof (f_equal (hd []) Hu) as Hh. apply (f_equal tail) in Hu.
    destruct (Hash2_inj a b c d _ _ Ha Hb Hc Hd Hno ltac:(by left) ltac:(by left) Hh) as [-> ->].
    rewrite (IH l2 H1 H2); [reflexivity| |simpl in Hlen; lia|exact Hu].
    revert Hno. apply no_collision_mono; intros x Hx; by right.
Qed.

Lemma merkle_root_binding_length d l1 l2 :
  depth l1 = d -> length l1 = length l2 -> all_32 l1 -> all_32 l2 ->
  no_collision (tree_inputs l1) (tree_inputs l2) -> merkle_root l1 = merkle_root l2 -> l1 = l2.
Proof.
  revert l1 l2. induction d as [|d IH]; intros l1 l2 D1 Hlen H1 H2 Hno Hr;
    (assert (D2 : depth l2 = depth l1) by (unfold depth; by rewrite Hlen)); rewrite D1 in D2.
  - apply depth_zero in D1, D2. rewrite (proj1 (small_tree l1 D1)), (proj1 (small_tree l2 D2)) in Hr.
    destruct l1 as [|a [|? ?]], l2 as [|b [|? ?]]; simpl in *; try done; try lia. by subst.
  - destruct (depth_succ l1 d D1) as [L1 D1'], (depth_succ l2 d D2) as [L2 D2'].
    rewrite (merkle_root_up l1 L1), (merkle_root_up l2 L2) in Hr. rewrite (tree_inputs_up l1 L1), (tree_inputs_up l2 L2) in Hno.
    apply up_inj_length; [done|done| |done|].
    + revert Hno. apply no_collision_mono; intros x Hx; apply in_or_app; by left.
    + apply IH; [done| |by apply up_32..| |done]; [by rewrite !length_up, Hlen|].
      revert Hno. apply no_collision_mono; intros x Hx; apply in_or_app; by right.
Qed.

(** The strings hashed for the witness commitment. *)
Definition nonce_inputs (b : CBlock) : list (list Z) :=
  match vtx b with
  | coinbase :: txs => map (fun i => merkle_root (witness_leaves txs) ++ List.last (scriptWitness i) []) (vin coinbase)
  | [] => []
  end.

Definition all_inputs (b : CBlock) : list (list Z) :=
  block_inputs b ++ map (SerializeTransaction true) (tail (vtx b)) ++ tree_inputs (witness_leaves (tail (vtx b))) ++ nonce_inputs b.

Lemma strip_tx_id tx : HasWitness tx = false -> strip_tx tx = tx.
Proof. intros H. destruct tx. unfold strip_tx. simpl. f_equal. by apply strip_no_witness. Qed.

Lemma stripped_txs b : HasAnyWitnessData b = false -> map strip_tx (vtx b) = vtx b.
Proof.
  unfold HasAnyWitnessData. induction (vtx b) as [|tx txs IH]; simpl; [done|].
  intros [H1 H2]%orb_false_iff. by rewrite strip_tx_id, IH.
Qed.

Lemma wtxids_inj txs1 txs2 :
  Forall (valid (tx_fmt true)) txs1 -> Forall (valid (tx_fmt true)) txs2 ->
  no_collision (map (SerializeTransaction true) txs1) (map (SerializeTransaction true) txs2) ->
  map GetWitnessHash txs1 = map GetWitnessHash txs2 -> txs1 = txs2.
Proof.
  intros H1. revert txs2. induction H1 as [|t1 txs1 Ht1 _ IH]; intros [|t2 txs2] H2 Hno E; [reflexivity|discriminate E|discriminate E|].
  apply Forall_cons_1 in H2 as [Ht2 H2]. pose proof (f_equal (hd []) E) as Eh. apply (f_equal tail) in E. cbn [map hd tail] in *.
  f_equal.
  - apply (lawful_inj (tx_fmt true) (tx_lawful true)); [done|done|]. rewrite !GetWitnessHash_Hash in Eh.
    apply Hno; [by left|by left|done].
  - apply IH; [done| |done]. revert Hno. apply no_collision_mono; intros x Hx; by right.
Qed.

Lemma commitment_index_strip b1 b2 :
  map strip_tx (vtx b1) = map strip_tx (vtx b2) -> GetWitnessCommitmentIndex b1 = GetWitnessCommitmentIndex b2.
Proof.
  unfold GetWitnessCommitmentIndex. destruct (vtx b1) as [|c1 t1], (vtx b2) as [|c2 t2]; intros E; try done.
  pose proof (f_equal (fun l => from_option vout [] (head l)) E) as Ev. cbn in Ev. by rewrite Ev.
Qed.

(** Coinbases that differ at most in a witness that both carry. *)
Lemma coinbase_eq c1 c2 i1 i2 r1 r2 w :
  IsCoinBase c1 = true -> strip_tx c1 = strip_tx c2 -> vin c1 = i1 :: r1 -> vin c2 = i2 :: r2 ->
  scriptWitness i1 = w -> scriptWitness i2 = w -> c1 = c2.
Proof.
  intros Hcb E E1 E2 W1 W2. unfold IsCoinBase in Hcb. rewrite E1 in Hcb. destruct r1; [|done].
  pose proof (f_equal vin E) as Ev. pose proof (f_equal vout E) as Eo. pose proof (f_equal tx_version E) as En.
  pose proof (f_equal nLockTime E) as El. simpl in Ev, Eo, En, El. rewrite E1, E2 in Ev. destruct r2; [|done].
  simpl in Ev. injection Ev as Hp Hs Hq.
  destruct c1, c2. simpl in *. subst. f_equal. f_equal. destruct i1, i2. simpl in *. by subst.
Qed.

Section Commits.
Context `{MultiWayLaws}.

Lemma CheckMerkleRoot_accepts f b :
  CheckMerkleRoot no_flags b = Some (f, None) ->
  BlockMerkleRoot b = Some (hashMerkleRoot (pure (header b)), false) /\ m_checked_witness_commitment f = false.
Proof.
  unfold CheckMerkleRoot. simpl. destruct (BlockMerkleRoot b) as [[root mutated]|]; [|discriminate].
  case_bool_decide as E; [|discriminate]. simpl. destruct mutated; [discriminate|]. intros E'. apply (inj Some) in E'.
  injection E' as <-. rewrite E. split; reflexivity.
Qed.

(** An accepted block without stripping has no witness, or a coinbase witness that opens the commitment. *)
Lemma CheckWitnessMalleation_accepts f f' b expect :
  m_checked_witness_commitment f = false -> CheckWitnessMalleation f b expect false = Some (f', None) ->
  if expect && negb (GetWitnessCommitmentIndex b =? NO_WITNESS_COMMITMENT) then
    exists coinbase txs i ins nonce out, vtx b = coinbase :: txs /\ vin coinbase = i :: ins /\ scriptWitness i = [nonce] /\
      length nonce = 32%nat /\ vout coinbase !! Z.to_nat (GetWitnessCommitmentIndex b) = Some out /\
      Hash2 (merkle_root (witness_leaves txs)) nonce = take 32 (drop 6 (scriptPubKey out))
  else HasAnyWitnessData b = false.
Proof.
  intros Hf. unfold CheckWitnessMalleation, no_witness_allowed. rewrite Hf.
  destruct expect; cbn [andb]; [|destruct (HasAnyWitnessData b); [discriminate|reflexivity]].
  destruct (GetWitnessCommitmentIndex b =? NO_WITNESS_COMMITMENT); cbn [negb];
    [destruct (HasAnyWitnessData b); [discriminate|reflexivity]|].
  destruct (vtx b) as [|coinbase txs] eqn:Ev; [discriminate|]. change (head (?x :: _)) with (Some x). cbv beta iota.
  destruct (vin coinbase) as [|i ins] eqn:Ei; [discriminate|]. change (head (?x :: _)) with (Some x). cbv beta iota.
  destruct (scriptWitness i) as [|nonce [|? ?]] eqn:Ew; [discriminate| |discriminate].
  destruct (Nat.eqb_spec (length nonce) 32) as [En|En]; [|discriminate]. cbn [negb].
  rewrite (BlockWitnessMerkleRoot_spec b coinbase txs Ev).
  destruct (vout coinbase !! _) as [out|] eqn:Eo; [|discriminate]. case_bool_decide as Eh; [|discriminate]. intros _.
  exists coinbase, txs, i, ins, nonce, out. repeat split; try reflexivity; assumption.
Qed.

(** C15: The hash of a block that passes CheckMerkleRoot and CheckWitnessMalleation pins down its
    transactions with their witnesses: two such blocks with the same header hash, whose first
    transactions are coinbases and whose transaction counts need the same number of Merkle levels,
    have equal transactions, provided that no two different strings hashed for them have the same
    double SHA-256.  The witness tree needs no check for duplicates of its own. *)
Theorem checked_block_hash_pins_witnesses expect b1 b2 f1 f2 g1 g2 :
  block_in_range b1 -> block_in_range b2 -> Forall (valid (tx_fmt true)) (vtx b1) -> Forall (valid (tx_fmt true)) (vtx b2) ->
  Forall (fun tx => IsCoinBase tx = true) (take 1 (vtx b1)) -> vtx b1 <> [] -> vtx b2 <> [] ->
  depth (map GetHash (vtx b1)) = depth (map GetHash (vtx b2)) ->
  no_collision (all_inputs b1) (all_inputs b2) ->
  CheckMerkleRoot no_flags b1 = Some (f1, None) -> CheckWitnessMalleation f1 b1 expect false = Some (g1, None) ->
  CheckMerkleRoot no_flags b2 = Some (f2, None) -> CheckWitnessMalleation f2 b2 expect false = Some (g2, None) ->
  HeaderGetHash (pure (header b1)) = HeaderGetHash (pure (header b2)) -> vtx b1 = vtx b2.
Proof.
  intros R1 R2 V1 V2 Hcb N1 N2 Hd Hno M1 W1 M2 W2 Hh.
  apply CheckMerkleRoot_accepts in M1 as [M1 F1], M2 as [M2 F2].
  destruct (block_commits b1 b2 R1 R2 N1 N2 Hd) as [_ Hstrip]; [|exact M1|exact M2|exact Hh|].
  { revert Hno. apply no_collision_mono; intros x Hx; apply in_or_app; left; exact Hx. }
  apply CheckWitnessMalleation_accepts in W1; [|exact F1]. apply CheckWitnessMalleation_accepts in W2; [|exact F2].
  pose proof (commitment_index_strip b1 b2 Hstrip) as Hidx. rewrite <- Hidx in W2. destruct (expect && _).
  2: { rewrite (stripped_txs b1 W1), (stripped_txs b2 W2) in Hstrip. exact Hstrip. }
  destruct W1 as (c1 & t1 & i1 & r1 & n1 & o1 & Ev1 & Ei1 & Ew1 & L1 & Eo1 & H1).
  destruct W2 as (c2 & t2 & i2 & r2 & n2 & o2 & Ev2 & Ei2 & Ew2 & L2 & Eo2 & H2).
  rewrite Ev1, Ev2 in *. cbn [map] in Hstrip. pose proof (f_equal tail Hstrip) as Htl. cbn [tail] in Htl.
  assert (Hc : strip_tx c1 = strip_tx c2) by exact (f_equal (hd c1) Hstrip).
  assert (Ho : o1 = o2).
  { assert (Ev : vout c1 = vout c2) by exact (f_equal vout Hc). rewrite Ev, Eo2 in Eo1. apply (inj Some) in Eo1. symmetry. exact Eo1. }
  subst o2. rewrite <- H2 in H1. unfold all_inputs, nonce_inputs in Hno. rewrite Ev1, Ev2, Ei1, Ei2 in Hno. cbn [tail map] in Hno.
  rewrite Ew1, Ew2 in Hno. cbn [List.last] in Hno.
  assert (L1' : length (merkle_root (witness_leaves t1)) = 32%nat) by apply merkle_root_32, witness_leaves_32.
  assert (L2' : length (merkle_root (witness_leaves t2)) = 32%nat) by apply merkle_root_32, witness_leaves_32.
  destruct (Hash2_inj _ _ _ _ _ _ L1' L1 L2' L2 Hno) as [Hr Hn]; [| |exact H1|].
  1, 2: repeat (apply in_or_app; right); left; reflexivity.
  subst n2. f_equal.
  - apply (coinbase_eq c1 c2 i1 i2 r1 r2 [n1]); [|exact Hc|exact Ei1|exact Ei2|exact Ew1|exact Ew2].
    apply Forall_cons_1 in Hcb as [Hcb _]. exact Hcb.
  - apply Forall_cons_1 in V1 as [_ V1], V2 as [_ V2]. apply (wtxids_inj t1 t2 V1 V2).
    + revert Hno. apply no_collision_mono; intros x Hx; apply in_or_app; right; apply in_or_app; left; exact Hx.
    + assert (Hl : witness_leaves t1 = witness_leaves t2); [|exact (f_equal tail Hl)].
      apply (merkle_root_binding_length (depth (witness_leaves t1))); [reflexivity| |apply witness_leaves_32..| |exact Hr].
      * unfold witness_leaves. cbn [length]. rewrite !length_map.
        apply (f_equal length) in Htl. rewrite !length_map in Htl. rewrite Htl. reflexivity.
      * revert Hno. apply no_collision_mono; intros x Hx; apply in_or_app; right; apply in_or_app; right; apply in_or_app; left; exact Hx.
Qed.
End Commits.

(** ** A block with a commitment *)

Definition bare_block : CBlock := {| header := header example_block; vtx := [strip_tx example_tx] |}.


Definition committed_coinbase : CTransaction := {|
  vin := map (fun i => set_witness i [replicate 32 0]) (vin example_tx);
  vout := vout example_tx ++
    [{| nValue := 0; scriptPubKey := commitment_header ++ Hash2 uint256_zero (replicate 32 0) |}];
  tx_version := tx_version example_tx; nLockTime := nLockTime example_tx |}.

Definition committed_block : CBlock := {|
  header := {| pure := {| nVersion := 0x20000000; hashPrevBlock := uint256_zero; hashMerkleRoot := GetHash committed_coinbase;
                          nTime := 1; nBits := 0x1a7f1ab5; nNonce := 2 |}; auxpow := None |};
  vtx := [committed_coinbase] |}.

Lemma limbs_check l : forallb (fun x => (0 <=? x) && (x <? 256)) l = true -> limbs 8 l.
Proof.
  intros E. apply Forall_forall. intros x Hx. rewrite forallb_forall in E.
  specialize (E x ltac:(by apply list_elem_of_In)). apply andb_prop in E as [E1 E2]. apply Z.leb_le in E1. apply Z.ltb_lt in E2.
  unfold in_u. lia.
Qed.

Lemma committed_coinbase_valid : valid (tx_fmt true) committed_coinbase /\ valid (tx_fmt false) (strip_tx committed_coinbase).
Proof.
  assert (Hin : valid vin_fmt (map strip (vin committed_coinbase))).
  { split; [|unfold MAX_SIZE; cbn; lia]. apply Forall_cons_2; [|apply Forall_nil_2]. split; [|reflexivity]. cbn [fst snd].
    split; [split; [split; [split; [reflexivity|apply limbs_check; reflexivity]|cbn; unfold in_u, NULL_INDEX; lia]|reflexivity]|].
    split; [split; [apply limbs_check; reflexivity|unfold MAX_SIZE; cbn; lia]|cbn; unfold in_u, SEQUENCE_FINAL; lia]. }
  assert (Hout : valid vout_fmt (vout committed_coinbase)).
  { split; [|unfold MAX_SIZE; cbn; lia].
    apply Forall_cons_2; [|apply Forall_cons_2; [|apply Forall_nil_2]]; (split; [|reflexivity]); cbn [fst snd].
    - split; [cbn; unfold in_s; lia|]. split; [apply limbs_check; reflexivity|unfold MAX_SIZE; cbn; lia].
    - split; [cbn; unfold in_s; lia|]. split; [apply limbs_check; vm_compute; reflexivity|].
      apply Z.leb_le. vm_compute. reflexivity. }
  split; (split; [cbn; unfold in_u; lia|]); (split; [cbn; unfold in_u; lia|]).
  - split; [exact Hin|]. split; [exact Hout|]. split; [|discriminate].
    apply Forall_cons_2; [|apply Forall_nil_2]. split; [|unfold MAX_SIZE; cbn; lia].
    apply Forall_cons_2; [|apply Forall_nil_2]. split; [apply limbs_check; reflexivity|unfold MAX_SIZE; cbn; lia].
  - split; [exact Hin|]. split; [exact Hout|]. reflexivity.
Qed.

Lemma committed_in_range : block_in_range committed_block.
Proof.
  split; [|apply Forall_cons_2; [apply committed_coinbase_valid|apply Forall_nil_2]].
  split; [|reflexivity]. cbn [fst snd]. split; [cbn; unfold in_s; lia|].
  split; [split; [reflexivity|apply limbs_check; reflexivity]|].
  split; [apply GetHash_valid|]. cbn. unfold in_u. lia.
Qed.

Lemma no_collision_distinct xs : bool_decide (NoDup (map Hash xs)) = true -> no_collision xs xs.
Proof.
  intros Hnd%bool_decide_eq_true a b Ha Hb E. apply list_elem_of_In, list_elem_of_lookup in Ha as [i Hi], Hb as [j Hj].
  assert (Hij : i = j).
  { apply (proj1 (NoDup_alt (map Hash xs)) Hnd i j (Hash a)).
    - change (map Hash xs) with (Hash <$> xs). rewrite list_lookup_fmap, Hi. reflexivity.
    - change (map Hash xs) with (Hash <$> xs). rewrite list_lookup_fmap, Hj, E. reflexivity. }
  subst j. rewrite Hi in Hj. apply (inj Some) in Hj. exact Hj.
Qed.

Lemma checked_block_hash_pins_witnesses_witness :
  exists f g, CheckMerkleRoot no_flags committed_block = Some (f, None) /\
    CheckWitnessMalleation f committed_block true false = Some (g, None) /\ vtx committed_block = vtx committed_block.
Proof.
  set (f := {| fChecked := false; m_checked_witness_commitment := false; m_checked_merkle_root := true |}).
  set (g := {| fChecked := false; m_checked_witness_commitment := true; m_checked_merkle_root := true |}).
  assert (E1 : CheckMerkleRoot no_flags committed_block = Some (f, None)) by (vm_compute; reflexivity).
  assert (E2 : CheckWitnessMalleation f committed_block true false = Some (g, None)) by (vm_compute; reflexivity).
  exists f, g. split; [exact E1|]. split; [exact E2|].
  apply (checked_block_hash_pins_witnesses true committed_block committed_block f f g g committed_in_range committed_in_range).
  - apply Forall_cons_2; [apply committed_coinbase_valid|apply Forall_nil_2].
  - apply Forall_cons_2; [apply committed_coinbase_valid|apply Forall_nil_2].
  - apply Forall_cons_2; [reflexivity|apply Forall_nil_2].
  - discriminate.
  - discriminate.
  - reflexivity.
  - apply no_collision_distinct. vm_compute. reflexivity.
  - exact E1.
  - exact E2.
  - exact E1.
  - exact E2.
  - reflexivity.
Defined.
