(* ===== verification/ScriptChecks.v ===== *)
(** The script checks of a transaction: [CScriptCheck], [ValidationCache] and [CheckInputScripts] of
    [src/src/validation.cpp], with the verification flags of [src/src/script/interpreter.h] and
    [src/src/policy/policy.h].

    The interpreter is an argument, [VerifyScript]: it sees the scripts and the witness of an input,
    the flags, and the transaction with the outputs it spends, and returns the text of an error.  The
    cache of verified transactions is the interface [ScriptExecutionCache]; it may forget. *)

From stdpp Require Import gmap strings.
From S2P Require Import Prelude ArithUint Version Primitives Sha256 Merkle Serialize Block Script CoinsMap Coins TxCheck Undo SigOps BlockCheck.
From S2P Require Import Params.

#[local] Open Scope Z_scope.
#[local] Open Scope qbit_scope.

(** ** Flags *)

Abbreviation SCRIPT_VERIFY_STRICTENC := (Z.shiftl 1 1).
Abbreviation SCRIPT_VERIFY_DERSIG := (Z.shiftl 1 2).
Abbreviation SCRIPT_VERIFY_LOW_S := (Z.shiftl 1 3).
Abbreviation SCRIPT_VERIFY_NULLDUMMY := (Z.shiftl 1 4).
Abbreviation SCRIPT_VERIFY_MINIMALDATA := (Z.shiftl 1 6).
Abbreviation SCRIPT_VERIFY_DISCOURAGE_UPGRADABLE_NOPS := (Z.shiftl 1 7).
Abbreviation SCRIPT_VERIFY_CLEANSTACK := (Z.shiftl 1 8).
Abbreviation SCRIPT_VERIFY_CHECKLOCKTIMEVERIFY := (Z.shiftl 1 9).
Abbreviation SCRIPT_VERIFY_CHECKSEQUENCEVERIFY := (Z.shiftl 1 10).
Abbreviation SCRIPT_VERIFY_DISCOURAGE_UPGRADABLE_WITNESS_PROGRAM := (Z.shiftl 1 12).
Abbreviation SCRIPT_VERIFY_MINIMALIF := (Z.shiftl 1 13).
Abbreviation SCRIPT_VERIFY_NULLFAIL := (Z.shiftl 1 14).
Abbreviation SCRIPT_VERIFY_WITNESS_PUBKEYTYPE := (Z.shiftl 1 15).
Abbreviation SCRIPT_VERIFY_CONST_SCRIPTCODE := (Z.shiftl 1 16).
Abbreviation SCRIPT_VERIFY_TAPROOT := (Z.shiftl 1 17).
Abbreviation SCRIPT_VERIFY_DISCOURAGE_UPGRADABLE_TAPROOT_VERSION := (Z.shiftl 1 18).
Abbreviation SCRIPT_VERIFY_DISCOURAGE_OP_SUCCESS := (Z.shiftl 1 19).
Abbreviation SCRIPT_VERIFY_DISCOURAGE_UPGRADABLE_PUBKEYTYPE := (Z.shiftl 1 20).
Abbreviation SCRIPT_VERIFY_P2MR_RULES := (Z.shiftl 1 21).
Abbreviation SCRIPT_VERIFY_P2MR_LEGACY_VALIDATION_WEIGHT := (Z.shiftl 1 22).

Definition MANDATORY_SCRIPT_VERIFY_FLAGS : Z :=
  foldl Z.lor SCRIPT_VERIFY_P2SH [SCRIPT_VERIFY_DERSIG; SCRIPT_VERIFY_NULLDUMMY; SCRIPT_VERIFY_CHECKLOCKTIMEVERIFY;
    SCRIPT_VERIFY_CHECKSEQUENCEVERIFY; SCRIPT_VERIFY_WITNESS; SCRIPT_VERIFY_TAPROOT; SCRIPT_VERIFY_P2MR_RULES].

Definition STANDARD_SCRIPT_VERIFY_FLAGS : Z :=
  foldl Z.lor MANDATORY_SCRIPT_VERIFY_FLAGS [SCRIPT_VERIFY_STRICTENC; SCRIPT_VERIFY_MINIMALDATA;
    SCRIPT_VERIFY_DISCOURAGE_UPGRADABLE_NOPS; SCRIPT_VERIFY_CLEANSTACK; SCRIPT_VERIFY_MINIMALIF; SCRIPT_VERIFY_NULLFAIL;
    SCRIPT_VERIFY_LOW_S; SCRIPT_VERIFY_DISCOURAGE_UPGRADABLE_WITNESS_PROGRAM; SCRIPT_VERIFY_WITNESS_PUBKEYTYPE;
    SCRIPT_VERIFY_CONST_SCRIPTCODE; SCRIPT_VERIFY_DISCOURAGE_UPGRADABLE_TAPROOT_VERSION;
    SCRIPT_VERIFY_DISCOURAGE_OP_SUCCESS; SCRIPT_VERIFY_DISCOURAGE_UPGRADABLE_PUBKEYTYPE].

Definition STANDARD_NOT_MANDATORY_VERIFY_FLAGS : Z :=
  Z.land STANDARD_SCRIPT_VERIFY_FLAGS (wrap 32 (Z.lnot MANDATORY_SCRIPT_VERIFY_FLAGS)).

(** ** The cache of verified transactions *)

(** [contains c e erase] also says that [e] may be dropped when [erase] is set. *)
Class ScriptExecutionCache (C : Type) := {
  contains : C -> uint256 -> bool -> C * bool;
  cache_insert : C -> uint256 -> C }.

(** [stored c e]: a lookup of [e] may succeed. *)
Class ScriptExecutionCacheLaws (C : Type) `{ScriptExecutionCache C} := {
  stored : C -> uint256 -> Prop;
  contains_stored : forall c e erase, snd (contains c e erase) = true -> stored c e;
  contains_keeps : forall c e erase x, stored (fst (contains c e erase)) x -> stored c x;
  insert_stored : forall c e x, stored (cache_insert c e) x -> x = e \/ stored c x }.

Record ValidationCache (C : Type) := { m_script_execution_cache_hasher : CSHA256; m_script_execution_cache : C }.
Arguments m_script_execution_cache_hasher {C} _.
Arguments m_script_execution_cache {C} _.
Arguments Build_ValidationCache {C} _ _.

(** The constructor, with the random nonce and the uninitialised buffer of the hasher. *)
Definition new_ValidationCache {C} (garbage : list Z) (nonce : uint256) (empty : C) : ValidationCache C :=
  Build_ValidationCache (Write (Write (CSHA256_init garbage) nonce) nonce) empty.

Definition with_execution_cache {C} (vc : ValidationCache C) (c : C) : ValidationCache C :=
  Build_ValidationCache (m_script_execution_cache_hasher vc) c.

(** [flags] is written as its four bytes in memory. *)
Definition hashCacheEntry {C} (vc : ValidationCache C) (tx : CTransaction) (flags : Z) : uint256 :=
  snd (Finalize (Write (Write (m_script_execution_cache_hasher vc) (GetWitnessHash tx)) (WriteLE32 flags))).

(** ** Checks *)

Record CScriptCheck := { m_tx_out : CTxOut; ptxTo : CTransaction; nIn : nat; nFlags : Z; txdata : list CTxOut }.

Section Checks.
Context {V C : Type} `{CCoinsView V} `{ScriptExecutionCache C}.
Context (VerifyScript : CScript -> CScript -> list (list Z) -> Z -> CTransaction * nat * Z * list CTxOut -> option string).

(** [CScriptCheck::operator()]: the error, if any. *)
Definition run_check (check : CScriptCheck) : option (option string) :=
  let! txin := vin (ptxTo check) !! nIn check in
  Some (VerifyScript (scriptSig txin) (scriptPubKey (m_tx_out check)) (scriptWitness txin) (nFlags check)
          (ptxTo check, nIn check, nValue (m_tx_out check), txdata check)).

Fixpoint spent_outputs (inputs : CCoinsViewCache V) (ins : list CTxIn) : option (CCoinsViewCache V * list CTxOut) :=
  match ins with
  | [] => Some (inputs, [])
  | txin :: ins =>
      let! '(inputs, coin) := AccessCoin inputs (prevout txin) in
      assert! negb (IsSpent coin);
      let! '(inputs, outs) := spent_outputs inputs ins in
      Some (inputs, out coin :: outs)
  end.

Definition script_checks (tx : CTransaction) (flags : Z) (outs : list CTxOut) : list CScriptCheck :=
  imap (fun i o => {| m_tx_out := o; ptxTo := tx; nIn := i; nFlags := flags; txdata := outs |}) outs.

Definition script_failed (flags : Z) (error : string) : TxValidationResult * string :=
  if negb (Z.land flags STANDARD_NOT_MANDATORY_VERIFY_FLAGS =? 0)
  then (TX_NOT_STANDARD, ("mempool-script-verify-flag-failed (" +:+ error +:+ ")")%string)
  else (TX_CONSENSUS, ("block-script-verify-flag-failed (" +:+ error +:+ ")")%string).

(** The checks in order, up to the first that fails. *)
Fixpoint run_inline (checks : list CScriptCheck) (flags : Z) : option (option (TxValidationResult * string)) :=
  match checks with
  | [] => Some None
  | check :: checks =>
      let! result := run_check check in
      match result with
      | Some error => Some (Some (script_failed flags error))
      | None => run_inline checks flags
      end
  end.

(** The outputs a transaction spends: those of [spent], when another caller has read them already. *)
Definition CheckInputScripts (tx : CTransaction) (inputs : CCoinsViewCache V) (flags : Z) (cacheFullScriptStore : bool)
    (spent : option (list CTxOut)) (validation_cache : ValidationCache C) (pvChecks : bool)
  : option (CCoinsViewCache V * ValidationCache C * ((TxValidationResult * string) + list CScriptCheck)) :=
  if IsCoinBase tx then Some (inputs, validation_cache, inr [])
  else
    let entry := hashCacheEntry validation_cache tx flags in
    let '(c, hit) := contains (m_script_execution_cache validation_cache) entry (negb cacheFullScriptStore) in
    let validation_cache := with_execution_cache validation_cache c in
    if (hit : bool) then Some (inputs, validation_cache, inr [])
    else
      let! '(inputs, outs) := (match spent with Some outs => Some (inputs, outs) | None => spent_outputs inputs (vin tx) end) in
      assert! (length outs =? length (vin tx))%nat;
      let checks := script_checks tx flags outs in
      if (pvChecks : bool) then Some (inputs, validation_cache, inr checks)
      else
        let! failed := run_inline checks flags in
        match failed with
        | Some reason => Some (inputs, validation_cache, inl reason)
        | None =>
            let validation_cache :=
              (if cacheFullScriptStore then with_execution_cache validation_cache (cache_insert c entry) else validation_cache) in
            Some (inputs, validation_cache, inr [])
        end.
End Checks.

(** ** What the checks decide *)

Section ChecksOk.
Context {V C : Type} `{CoinsViewLaws V} `{ScriptExecutionCacheLaws C}.
Context (VerifyScript : CScript -> CScript -> list (list Z) -> Z -> CTransaction * nat * Z * list CTxOut -> option string).
Implicit Types inputs : CCoinsViewCache V.

(** Every input script verifies against the outputs [outs]. *)
Definition verified (tx : CTransaction) (flags : Z) (outs : list CTxOut) : Prop :=
  Forall (fun check => run_check VerifyScript check = Some None) (script_checks tx flags outs).

Lemma spent_outputs_ok inputs ins :
  cache_ok inputs -> Forall (fun i => is_Some (coins_of inputs !! prevout i)) ins ->
  exists inputs', spent_outputs inputs ins = Some (inputs', map out (spent_coins (coins_of inputs) ins)) /\ reads inputs inputs'.
Proof.
  revert inputs. induction ins as [|i ins IH]; intros inputs Hok Hin; simpl; [by exists inputs|].
  apply Forall_cons_1 in Hin as [[c Hc] Hin].
  destruct (AccessCoin_ok inputs (prevout i) Hok) as (in1 & c' & -> & Hok1 & Hc1 & Hb1 & Hr). rewrite Hc in Hr. subst c'.
  rewrite (coins_unspent _ _ _ Hok Hc). cbn [negb].
  destruct (IH in1 Hok1) as (in2 & -> & R2); [by rewrite Hc1|]. rewrite Hc1, Hc. exists in2. split; [done|].
  by apply (reads_trans _ in1).
Qed.

Lemma run_inline_ok checks flags :
  Forall (fun c => is_Some (vin (ptxTo c) !! nIn c)) checks ->
  exists r, run_inline VerifyScript checks flags = Some r /\
    match r with
    | None => Forall (fun c => run_check VerifyScript c = Some None) checks
    | Some reason => exists c error, c ∈ checks /\ run_check VerifyScript c = Some (Some error) /\ reason = script_failed flags error
    end.
Proof.
  induction checks as [|c checks IH]; intros Hin; simpl; [exists None; split; [done|apply Forall_nil_2]|].
  apply Forall_cons_1 in Hin as [[txin Htx] Hin].
  assert (exists r, run_check VerifyScript c = Some r) as [r Er] by (unfold run_check; rewrite Htx; eauto).
  rewrite Er. destruct r as [error|].
  - eexists. split; [done|]. exists c, error. split_and!; [by left|done|done].
  - destruct (IH Hin) as (r & -> & Hr). exists r. split; [done|]. destruct r as [reason|].
    + destruct Hr as (c' & error & Hc & E1 & E2). exists c', error. split_and!; [by right|done|done].
    + by apply Forall_cons_2.
Qed.

Lemma script_checks_inputs tx flags outs :
  length outs = length (vin tx) -> Forall (fun c => is_Some (vin (ptxTo c) !! nIn c)) (script_checks tx flags outs).
Proof.
  intros Hl. apply Forall_forall. intros c (i & o & -> & Ho)%elem_of_lookup_imap. simpl.
  apply lookup_lt_is_Some. rewrite <- Hl. by eapply lookup_lt_Some.
Qed.
End ChecksOk.
