(* ===== verification/CuckooCache.v ===== *)
(** The cache of verified entries: [src/src/cuckoocache.h], with [FastRange32] of
    [src/src/util/fastrange.h] and [SignatureCacheHasher] of [src/src/util/hasher.h].

    A table of slots, each with a collection flag (the element may be overwritten) and an epoch flag
    (the element is of the recent epoch).  An element has eight places.  The depth limit comes from
    [std::log2] on a [float], whose rounding the C++ standard leaves open: it is the argument [log2]. *)

From S2P Require Import Prelude.
From stdpp Require Import list.

#[local] Open Scope Z_scope.
#[local] Open Scope qbit_scope.

Module Cuckoo.

(** The high half of the product. *)
Definition FastRange32 (x n : Z) : Z := wrap 32 (Z.shiftr (wrap 64 (x * n)) 32).

(** ** [bit_packed_atomic_flags] *)

(** The bytes of [mem] after the constructor, with every flag set. *)
Definition bit_packed_atomic_flags (size : Z) : list Z := replicate (Z.to_nat (wrap 32 (size + 7) / 8)) 0xFF.

Definition bit_set (mem : list Z) (s : Z) : option (list Z) :=
  let! m := mem !! Z.to_nat (Z.shiftr s 3) in
  Some (<[Z.to_nat (Z.shiftr s 3) := Z.lor m (wrap 8 (Z.shiftl 1 (Z.land s 7)))]> mem).

Definition bit_unset (mem : list Z) (s : Z) : option (list Z) :=
  let! m := mem !! Z.to_nat (Z.shiftr s 3) in
  Some (<[Z.to_nat (Z.shiftr s 3) := Z.land m (wrap 8 (Z.lnot (Z.shiftl 1 (Z.land s 7))))]> mem).

Definition bit_is_set (mem : list Z) (s : Z) : option bool :=
  let! m := mem !! Z.to_nat (Z.shiftr s 3) in
  Some (negb (Z.land (Z.shiftl 1 (Z.land s 7)) m =? 0)).

(** ** [cache] *)

Record cache (Element : Type) := {
  table : list Element;
  size : Z;
  collection_flags : list Z;
  epoch_flags : list bool;
  epoch_heuristic_counter : Z;
  epoch_size : Z;
  depth_limit : Z }.
Arguments table {_} _.
Arguments size {_} _.
Arguments collection_flags {_} _.
Arguments epoch_flags {_} _.
Arguments epoch_heuristic_counter {_} _.
Arguments epoch_size {_} _.
Arguments depth_limit {_} _.

(** The index that is no slot. *)
Abbreviation invalid := (2 ^ 32 - 1).

Section Cache.
(** [null] is a default-constructed element, [hash_function k] the hash number [k]. *)
Context {Element : Type} `{EqDecision Element} (null : Element) (hash_function : nat -> Element -> Z) (log2 : Z -> Z).
#[local] Abbreviation cache := (cache Element).

Definition compute_hashes (c : cache) (e : Element) : list Z := map (fun k => FastRange32 (hash_function k e) (size c)) (seq 0 8).

Definition with_flags (c : cache) (flags : list Z) (epochs : list bool) (counter : Z) : cache := {|
  table := table c; size := size c; collection_flags := flags; epoch_flags := epochs;
  epoch_heuristic_counter := counter; epoch_size := epoch_size c; depth_limit := depth_limit c |}.

Definition with_slots (c : cache) (elements : list Element) (flags : list Z) (epochs : list bool) : cache := {|
  table := elements; size := size c; collection_flags := flags; epoch_flags := epochs;
  epoch_heuristic_counter := epoch_heuristic_counter c; epoch_size := epoch_size c; depth_limit := depth_limit c |}.

Definition allow_erase (c : cache) (n : Z) : option cache :=
  let! flags := bit_set (collection_flags c) n in Some (with_flags c flags (epoch_flags c) (epoch_heuristic_counter c)).

Definition please_keep (c : cache) (n : Z) : option cache :=
  let! flags := bit_unset (collection_flags c) n in Some (with_flags c flags (epoch_flags c) (epoch_heuristic_counter c)).

(** [epoch_flags[n] = b]. *)
Definition set_epoch (c : cache) (n : Z) (b : bool) : option cache :=
  assert! (Z.to_nat n <? length (epoch_flags c))%nat;
  Some (with_flags c (collection_flags c) (<[Z.to_nat n := b]> (epoch_flags c)) (epoch_heuristic_counter c)).

(** ** Epochs *)

(** The loop that counts the recent elements that are kept, for [n] slots from [i] on. *)
Fixpoint count_unused (c : cache) (n : nat) (i epoch_unused_count : Z) : option Z :=
  match n with
  | O => Some epoch_unused_count
  | S n =>
      let! recent := epoch_flags c !! Z.to_nat i in
      let! unused := (if (recent : bool) then let! free := bit_is_set (collection_flags c) i in Some (negb free) else Some false) in
      count_unused c n (i + 1) (wrap 32 (epoch_unused_count + Z.b2z unused))
  end.

(** The loop that makes the recent epoch the old one and gives up the old one. *)
Fixpoint age_epochs (c : cache) (n : nat) (i : Z) : option cache :=
  match n with
  | O => Some c
  | S n =>
      let! recent := epoch_flags c !! Z.to_nat i in
      let! c := (if (recent : bool) then set_epoch c i false else allow_erase c i) in
      age_epochs c n (i + 1)
  end.

Definition epoch_check (c : cache) : option cache :=
  if negb (epoch_heuristic_counter c =? 0)
  then Some (with_flags c (collection_flags c) (epoch_flags c) (epoch_heuristic_counter c - 1))
  else
    let! epoch_unused_count := count_unused c (Z.to_nat (size c)) 0 0 in
    if epoch_size c <=? epoch_unused_count then
      let! c := age_epochs c (Z.to_nat (size c)) 0 in
      Some (with_flags c (collection_flags c) (epoch_flags c) (epoch_size c))
    else
      Some (with_flags c (collection_flags c) (epoch_flags c)
              (Z.max 1 (Z.max (epoch_size c / 16) (epoch_size c - epoch_unused_count)))).

(** ** Set-up *)

Definition empty_cache : cache := {|
  table := []; size := 0; collection_flags := bit_packed_atomic_flags 0; epoch_flags := [];
  epoch_heuristic_counter := 0; epoch_size := 0; depth_limit := 0 |}.

Definition setup (c : cache) (new_size : Z) : cache :=
  let size := Z.max 2 new_size in
  let epoch_size := Z.max 1 (wrap 32 (45 * size) / 100) in {|
  table := resize (Z.to_nat size) null (table c); size := size; collection_flags := bit_packed_atomic_flags size;
  epoch_flags := resize (Z.to_nat size) false (epoch_flags c);
  epoch_heuristic_counter := epoch_size; epoch_size := epoch_size; depth_limit := wrap 8 (log2 size) |}.

(** The cache, the number of elements and their size in bytes. *)
Definition setup_bytes (sizeof_Element : Z) (c : cache) (bytes : Z) : cache * (Z * Z) :=
  let requested_num_elems := Z.min (bytes / sizeof_Element) (2 ^ 32 - 1) in
  let c := setup c requested_num_elems in
  (c, (size c, wrap 64 (size c * sizeof_Element))).

(** ** [insert] and [contains] *)

(** The first place that holds [e]; [None] when the table is left. *)
Fixpoint find_element (c : cache) (e : Element) (locs : list Z) : option (option Z) :=
  match locs with
  | [] => Some None
  | loc :: locs =>
      let! x := table c !! Z.to_nat loc in
      if bool_decide (x = e) then Some (Some loc) else find_element c e locs
  end.

(** The first place whose element may be overwritten. *)
Fixpoint first_free (c : cache) (locs : list Z) : option (option Z) :=
  match locs with
  | [] => Some None
  | loc :: locs =>
      let! free := bit_is_set (collection_flags c) loc in
      if (free : bool) then Some (Some loc) else first_free c locs
  end.

(** [std::find(locs.begin(), locs.end(), loc) - locs.begin()]. *)
Fixpoint index_of (loc : Z) (locs : list Z) : Z :=
  match locs with
  | [] => 0
  | l :: locs => if l =? loc then 0 else 1 + index_of loc locs
  end.

(** The loop of [insert]; [depth] turns are left. *)
Fixpoint insert_loop (depth : nat) (c : cache) (e : Element) (last_loc : Z) (last_epoch : bool) (locs : list Z) : option cache :=
  match depth with
  | O => Some c
  | S depth =>
      let! free := first_free c locs in
      match free with
      | Some loc =>
          assert! (Z.to_nat loc <? length (table c))%nat;
          let! c := please_keep (with_slots c (<[Z.to_nat loc := e]> (table c)) (collection_flags c) (epoch_flags c)) loc in
          set_epoch c loc last_epoch
      | None =>
          let! last_loc := locs !! Z.to_nat (Z.land (1 + index_of last_loc locs) 7) in
          let! evicted := table c !! Z.to_nat last_loc in
          let! epoch := epoch_flags c !! Z.to_nat last_loc in
          let! c := set_epoch (with_slots c (<[Z.to_nat last_loc := e]> (table c)) (collection_flags c) (epoch_flags c)) last_loc last_epoch in
          insert_loop depth c evicted last_loc epoch (compute_hashes c evicted)
      end
  end.

Definition insert (c : cache) (e : Element) : option cache :=
  let! c := epoch_check c in
  let locs := compute_hashes c e in
  let! found := find_element c e locs in
  match found with
  | Some loc => let! c := please_keep c loc in set_epoch c loc true
  | None => insert_loop (Z.to_nat (depth_limit c)) c e invalid true locs
  end.

Definition contains (c : cache) (e : Element) (erase : bool) : option (cache * bool) :=
  let! found := find_element c e (compute_hashes c e) in
  match found with
  | Some loc => let! c := (if erase then allow_erase c loc else Some c) in Some (c, true)
  | None => Some (c, false)
  end.
End Cache.

(** ** The flags as bits *)

Definition flagged (mem : list Z) (s : Z) : bool := Z.testbit (nth (Z.to_nat (Z.shiftr s 3)) mem 0) (Z.land s 7).

Lemma byte_of s : 0 <= s -> Z.shiftr s 3 = s / 8 /\ Z.land s 7 = s mod 8.
Proof. intros Hs. split; [by rewrite Z.shiftr_div_pow2|]. change 7 with (Z.ones 3). by rewrite Z.land_ones. Qed.

Lemma byte_lookup mem s : 0 <= s < 8 * Z.of_nat (length mem) -> mem !! Z.to_nat (Z.shiftr s 3) = Some (nth (Z.to_nat (Z.shiftr s 3)) mem 0).
Proof.
  intros Hs. destruct (byte_of s) as [-> _]; [lia|]. assert (Hl : (Z.to_nat (s / 8) < length mem)%nat) by (pose proof (Z.div_lt_upper_bound s 8 (Z.of_nat (length mem))); lia).
  destruct (lookup_lt_is_Some_2 mem _ Hl) as [m E]. rewrite E. f_equal. symmetry. by apply nth_lookup_Some.
Qed.

Lemma one_bit k : 0 <= k < 8 -> wrap 8 (Z.shiftl 1 k) = 2 ^ k.
Proof.
  intros Hk. rewrite Z.shiftl_1_l. apply wrap_small. split; [lia|]. apply Z.pow_lt_mono_r; lia.
Qed.

Lemma bit_is_set_ok mem s : 0 <= s < 8 * Z.of_nat (length mem) -> bit_is_set mem s = Some (flagged mem s).
Proof.
  intros Hs. unfold bit_is_set, flagged. rewrite byte_lookup by done. f_equal. destruct (byte_of s) as [_ Ek]; [lia|]. rewrite Ek, Z.shiftl_1_l.
  pose proof (Z.mod_pos_bound s 8). set (k := s mod 8) in *. set (m := nth _ mem 0). destruct (Z.testbit m k) eqn:E.
  - apply negb_true_iff, Z.eqb_neq. intros Hz. apply (f_equal (fun z => Z.testbit z k)) in Hz. rewrite Z.land_spec, Z.pow2_bits_true, E, Z.bits_0 in Hz by lia. done.
  - apply negb_false_iff, Z.eqb_eq. apply Z.bits_inj'. intros i Hi. rewrite Z.land_spec, Z.bits_0, Z.pow2_bits_eqb by lia.
    destruct (Z.eqb_spec k i) as [<-|]; [|done]. by rewrite E.
Qed.

(** A byte is replaced by one that differs in the bit of [s] at most. *)
Lemma flagged_insert mem s i m b :
  0 <= s < 8 * Z.of_nat (length mem) -> 0 <= i ->
  (forall k, 0 <= k < 8 -> Z.testbit m k = if k =? Z.land s 7 then b else Z.testbit (nth (Z.to_nat (Z.shiftr s 3)) mem 0) k) ->
  flagged (<[Z.to_nat (Z.shiftr s 3) := m]> mem) i = if i =? s then b else flagged mem i.
Proof.
  intros Hs Hi Hm. unfold flagged. destruct (byte_of s) as [Es Ek]; [lia|]. destruct (byte_of i Hi) as [Ei Eki]. rewrite Es, Ek in Hm. rewrite Es, Ei, Eki.
  pose proof (Z.mod_pos_bound i 8). pose proof (Z.div_mod s 8). pose proof (Z.div_mod i 8). pose proof (Z.div_pos s 8). pose proof (Z.div_pos i 8).
  assert (Hl : (Z.to_nat (s / 8) < length mem)%nat) by (pose proof (Z.div_lt_upper_bound s 8 (Z.of_nat (length mem))); lia).
  destruct (Z.eq_dec (i / 8) (s / 8)) as [E|E].
  - rewrite E. rewrite (nth_lookup_Some _ _ _ m) by (by apply list_lookup_insert_eq). rewrite Hm by lia.
    destruct (Z.eqb_spec (i mod 8) (s mod 8)), (Z.eqb_spec i s); try done; subst; lia.
  - rewrite !nth_lookup, list_lookup_insert_ne by lia. destruct (Z.eqb_spec i s); [subst; lia|done].
Qed.

Lemma bit_set_ok mem s : 0 <= s < 8 * Z.of_nat (length mem) ->
  exists mem', bit_set mem s = Some mem' /\ length mem' = length mem /\ forall i, 0 <= i -> flagged mem' i = (i =? s) || flagged mem i.
Proof.
  intros Hs. unfold bit_set. rewrite byte_lookup by done. eexists. split; [done|]. split; [apply length_insert|]. intros i Hi.
  rewrite (flagged_insert _ _ _ _ true); [by destruct (i =? s)|done|done|]. intros k Hk. destruct (byte_of s) as [_ Ek]; [lia|]. pose proof (Z.mod_pos_bound s 8).
  rewrite Ek, one_bit, Z.lor_spec, Z.pow2_bits_eqb, (Z.eqb_sym k) by lia. destruct (_ =? k); btauto.
Qed.

Lemma bit_unset_ok mem s : 0 <= s < 8 * Z.of_nat (length mem) ->
  exists mem', bit_unset mem s = Some mem' /\ length mem' = length mem /\ forall i, 0 <= i -> flagged mem' i = negb (i =? s) && flagged mem i.
Proof.
  intros Hs. unfold bit_unset. rewrite byte_lookup by done. eexists. split; [done|]. split; [apply length_insert|]. intros i Hi.
  rewrite (flagged_insert _ _ _ _ false); [by destruct (i =? s)|done|done|]. intros k Hk. destruct (byte_of s) as [_ Ek]; [lia|]. pose proof (Z.mod_pos_bound s 8).
  rewrite Ek, Z.land_spec, testbit_wrap, Z.lnot_spec, Z.shiftl_1_l, Z.pow2_bits_eqb, (Z.eqb_sym k), (proj2 (Z.ltb_lt k 8)) by lia. destruct (_ =? k); simpl; btauto.
Qed.

Lemma FastRange32_range x n : in_u 32 x -> 0 < n < 2 ^ 32 -> 0 <= FastRange32 x n < n.
Proof.
  intros [Hx Hx'] Hn. unfold FastRange32. rewrite (wrap_small 64) by (split; [nia|]; change (2 ^ 64) with (2 ^ 32 * 2 ^ 32); nia).
  rewrite Z.shiftr_div_pow2 by lia. assert (Hd : 0 <= x * n / 2 ^ 32 < n). { split; [apply Z.div_pos; nia|]. apply Z.div_lt_upper_bound; nia. }
  rewrite wrap_small by (split; lia). done.
Qed.

(** ** Slots *)

Section Slots.
Context {Element : Type} `{EqDecision Element}.
#[local] Abbreviation cache := (cache Element).

(** An element, whether it may be overwritten, whether it is recent. *)
#[local] Abbreviation slot := (Element * bool * bool)%type.

Definition slots (c : cache) : list slot :=
  imap (fun i x => (x, flagged (collection_flags c) (Z.of_nat i), nth i (epoch_flags c) false)) (table c).

Definition living_slot (s : slot) : option (Element * bool) := if snd (fst s) then None else Some (fst (fst s), snd s).

(** The elements that are kept, with their epochs. *)
Definition living (c : cache) : list (Element * bool) := omap living_slot (slots c).

Record geometry (c : cache) : Prop := {
  g_size : 2 <= size c <= 2 ^ 32 - 8;
  g_table : Z.of_nat (length (table c)) = size c;
  g_flags : Z.of_nat (length (collection_flags c)) = (size c + 7) / 8;
  g_epochs : Z.of_nat (length (epoch_flags c)) = size c }.

(** The members that no operation changes but the counter. *)
Definition frame (c : cache) : Z * Z * Z := (size c, epoch_size c, depth_limit c).

Lemma slots_lookup c i : slots c !! i = (fun x => (x, flagged (collection_flags c) (Z.of_nat i), nth i (epoch_flags c) false)) <$> table c !! i.
Proof. apply list_lookup_imap. Qed.

Lemma length_slots c : length (slots c) = length (table c).
Proof. apply length_imap. Qed.

Lemma table_slots c : table c = map (fun s => fst (fst s)) (slots c).
Proof.
  apply list_eq. intros i. change (map ?f ?l) with (f <$> l). rewrite list_lookup_fmap, slots_lookup. by destruct (table c !! i).
Qed.

(** An operation on one slot. *)
Lemma slots_alter c c' n (g : slot -> slot) :
  (forall j s, slots c !! j = Some s -> slots c' !! j = Some (if (j =? n)%nat then g s else s)) -> length (table c') = length (table c) ->
  slots c' = alter g n (slots c).
Proof.
  intros Hj Hl. apply list_eq. intros j. destruct (slots c !! j) as [s|] eqn:E.
  - rewrite (Hj j s E). destruct (Nat.eqb_spec j n) as [->|Hne]; [by rewrite list_lookup_alter_eq, E|by rewrite list_lookup_alter_ne, E].
  - rewrite (lookup_ge_None_2 (slots c')), (lookup_ge_None_2 (alter g n (slots c))); [done|..].
    all: apply lookup_ge_None_1 in E; rewrite ?length_alter, ?length_slots in *; lia.
Qed.

Lemma geometry_flags c n : geometry c -> 0 <= n < size c -> 0 <= n < 8 * Z.of_nat (length (collection_flags c)).
Proof. intros [? _ -> _] Hn. pose proof (Z.div_mod (size c + 7) 8). pose proof (Z.mod_pos_bound (size c + 7) 8). lia. Qed.

#[local] Abbreviation counter := epoch_heuristic_counter.

Lemma allow_erase_ok c n : geometry c -> 0 <= n < size c -> exists c', allow_erase c n = Some c' /\ geometry c' /\ frame c' = frame c /\
  counter c' = counter c /\ slots c' = alter (fun s => (fst (fst s), true, snd s)) (Z.to_nat n) (slots c).
Proof.
  intros G Hn. unfold allow_erase. destruct (bit_set_ok _ _ (geometry_flags c n G Hn)) as (mem & -> & Hl & Hf). eexists. split; [done|]. split_and!; try done.
  - destruct G. split; simpl; try done. congruence.
  - apply slots_alter; [|done]. intros j s. rewrite !slots_lookup. simpl. destruct (table c !! j); [|done]. intros [= <-]. simpl. rewrite Hf by lia.
    destruct (Nat.eqb_spec j (Z.to_nat n)) as [->|]; [by rewrite Z2Nat.id, Z.eqb_refl by lia|]. rewrite (proj2 (Z.eqb_neq _ _)) by lia. done.
Qed.

Lemma please_keep_ok c n : geometry c -> 0 <= n < size c -> exists c', please_keep c n = Some c' /\ geometry c' /\ frame c' = frame c /\
  counter c' = counter c /\ slots c' = alter (fun s => (fst (fst s), false, snd s)) (Z.to_nat n) (slots c).
Proof.
  intros G Hn. unfold please_keep. destruct (bit_unset_ok _ _ (geometry_flags c n G Hn)) as (mem & -> & Hl & Hf). eexists. split; [done|]. split_and!; try done.
  - destruct G. split; simpl; try done. congruence.
  - apply slots_alter; [|done]. intros j s. rewrite !slots_lookup. simpl. destruct (table c !! j); [|done]. intros [= <-]. simpl. rewrite Hf by lia.
    destruct (Nat.eqb_spec j (Z.to_nat n)) as [->|]; [by rewrite Z2Nat.id, Z.eqb_refl by lia|]. rewrite (proj2 (Z.eqb_neq _ _)) by lia. done.
Qed.

Lemma set_epoch_ok c n b : geometry c -> 0 <= n < size c -> exists c', set_epoch c n b = Some c' /\ geometry c' /\ frame c' = frame c /\
  counter c' = counter c /\ slots c' = alter (fun s => (fst s, b)) (Z.to_nat n) (slots c).
Proof.
  intros G Hn. pose proof (g_epochs c G). unfold set_epoch. rewrite (proj2 (Nat.ltb_lt _ _)) by lia. eexists. split; [done|]. split_and!; try done.
  - destruct G. split; simpl; rewrite ?length_insert; done.
  - apply slots_alter; [|done]. intros j s. rewrite !slots_lookup. simpl. destruct (table c !! j); [|done]. intros [= <-]. simpl.
    rewrite !nth_lookup. destruct (Nat.eqb_spec j (Z.to_nat n)) as [->|]; [by rewrite list_lookup_insert_eq by lia|by rewrite list_lookup_insert_ne].
Qed.

(** An element is written over another. *)
Lemma set_element_ok c n e : geometry c -> let c' := with_slots c (<[n := e]> (table c)) (collection_flags c) (epoch_flags c) in
  geometry c' /\ frame c' = frame c /\ counter c' = counter c /\ slots c' = alter (fun s => (e, snd (fst s), snd s)) n (slots c).
Proof.
  intros G. split_and!; try done.
  - destruct G. split; simpl; rewrite ?length_insert; done.
  - apply slots_alter; [|apply length_insert]. intros j s. rewrite !slots_lookup. simpl. destruct (table c !! j) eqn:E; [|done]. intros [= <-].
    destruct (Nat.eqb_spec j n) as [->|]; [rewrite list_lookup_insert_eq by (by eapply lookup_lt_Some)|rewrite list_lookup_insert_ne, E by done]; done.
Qed.

(** ** Living elements *)

Lemma living_change (l : list slot) i s t :
  l !! i = Some s -> omap living_slot [s] ++ omap living_slot (<[i := t]> l) ≡ₚ omap living_slot [t] ++ omap living_slot l.
Proof.
  intros E. assert (Hl : (i < length l)%nat) by (by eapply lookup_lt_Some). rewrite <- !omap_app. apply omap_Permutation. simpl.
  rewrite insert_take_drop by done. rewrite <- (take_drop_middle l i s E) at 3. rewrite <- !Permutation_middle. apply perm_swap.
Qed.

Lemma alter_insert_list (l : list slot) i (g : slot -> slot) s : l !! i = Some s -> alter g i l = <[i := g s]> l.
Proof.
  intros E. apply list_eq. intros j. destruct (Nat.eq_dec i j) as [<-|Hne].
  - rewrite list_lookup_alter_eq, E, list_lookup_insert_eq by (by eapply lookup_lt_Some). done.
  - rewrite list_lookup_alter_ne, list_lookup_insert_ne by done. done.
Qed.

(** The kept elements of an epoch. *)
Definition epoch_count (recent : bool) (l : list (Element * bool)) : Z := Z.of_nat (length (filter (fun x => snd x = recent) l)).

Lemma epoch_count_perm b l k : l ≡ₚ k -> epoch_count b l = epoch_count b k.
Proof. intros E. unfold epoch_count. f_equal. apply Permutation_length. by apply filter_Permutation. Qed.

Lemma epoch_count_cons b x l : epoch_count b (x :: l) = (if Bool.eqb (snd x) b then 1 else 0) + epoch_count b l.
Proof. unfold epoch_count. rewrite filter_cons. destruct (decide (snd x = b)) as [->|Hne]; destruct b; destruct (snd x) eqn:E; simpl; try lia; congruence. Qed.

Lemma epoch_count_nonneg b l : 0 <= epoch_count b l.
Proof. unfold epoch_count. lia. Qed.

Lemma epoch_count_app b l k : epoch_count b (l ++ k) = epoch_count b l + epoch_count b k.
Proof. unfold epoch_count. rewrite filter_app, length_app. lia. Qed.

Lemma epoch_count_both l : epoch_count true l + epoch_count false l = Z.of_nat (length l).
Proof. induction l as [|[x []] l IH]; [done|..]; rewrite !epoch_count_cons; simpl length; simpl; lia. Qed.

(** ** Epochs *)

Lemma slots_at c i : geometry c -> 0 <= i < size c -> exists x r,
  table c !! Z.to_nat i = Some x /\ epoch_flags c !! Z.to_nat i = Some r /\ bit_is_set (collection_flags c) i = Some (flagged (collection_flags c) i) /\
  slots c !! Z.to_nat i = Some (x, flagged (collection_flags c) i, r).
Proof.
  intros G Hi. pose proof (g_table c G). pose proof (g_epochs c G). destruct (lookup_lt_is_Some_2 (table c) (Z.to_nat i)) as [x Ex]; [lia|].
  destruct (lookup_lt_is_Some_2 (epoch_flags c) (Z.to_nat i)) as [r Er]; [lia|]. exists x, r. split_and!; try done.
  - apply bit_is_set_ok. by apply geometry_flags.
  - rewrite slots_lookup, Ex. simpl. rewrite Z2Nat.id by lia. repeat f_equal. rewrite nth_lookup, Er. done.
Qed.

Lemma count_unused_ok c n i acc :
  geometry c -> 0 <= i -> i + Z.of_nat n = size c -> 0 <= acc <= i ->
  count_unused c n i acc = Some (acc + epoch_count true (omap living_slot (drop (Z.to_nat i) (slots c)))).
Proof.
  intros G. pose proof (g_size c G). revert i acc. induction n as [|n IH]; intros i acc Hi Hn Hacc; cbn [count_unused].
  - rewrite drop_ge by (pose proof (g_table c G); rewrite length_slots; lia). simpl. unfold epoch_count. simpl. f_equal. lia.
  - destruct (slots_at c i G) as (x & r & _ & -> & -> & Es); [lia|]. rewrite (drop_S _ _ _ Es). cbn [omap list_omap living_slot fst snd].
    replace (S (Z.to_nat i)) with (Z.to_nat (i + 1)) by lia. destruct r; [destruct (flagged _ i)|]; cbn [negb Z.b2z].
    1,2: rewrite wrap_small by (split; lia); rewrite IH by lia; f_equal; simpl; rewrite ?epoch_count_cons; simpl; lia.
    rewrite wrap_small by (split; lia). rewrite IH by lia. f_equal. destruct (flagged _ i); simpl; rewrite ?epoch_count_cons; simpl; lia.
Qed.

Definition aged (s : slot) : slot := (fst (fst s), if snd s then snd (fst s) else true, false).

Lemma age_epochs_ok c n i (l : list slot) :
  geometry c -> 0 <= i -> i + Z.of_nat n = size c -> slots c = map aged (take (Z.to_nat i) l) ++ drop (Z.to_nat i) l -> length l = length (table c) ->
  exists c', age_epochs c n i = Some c' /\ geometry c' /\ frame c' = frame c /\ counter c' = counter c /\ slots c' = map aged l.
Proof.
  revert c i. induction n as [|n IH]; intros c i G Hi Hn Es Hl; cbn [age_epochs].
  - exists c. split_and!; try done. pose proof (g_table c G). rewrite Es, drop_ge, take_ge, app_nil_r by lia. done.
  - destruct (slots_at c i G) as (x & r & _ & -> & _ & Ei); [lia|]. set (f := flagged (collection_flags c) i) in *. pose proof (g_table c G) as Gt.
    assert (El : l !! Z.to_nat i = Some (x, f, r)).
    { rewrite Es, lookup_app_r, length_map, length_take, lookup_drop in Ei by (rewrite length_map, length_take; lia). rewrite <- Ei. f_equal. lia. }
    assert (Ha : forall g, slots c = map aged (take (Z.to_nat i) l) ++ drop (Z.to_nat i) l -> g (x, f, r) = aged (x, f, r) ->
      alter g (Z.to_nat i) (slots c) = map aged (take (Z.to_nat (i + 1)) l) ++ drop (Z.to_nat (i + 1)) l).
    { intros g -> Eg. replace (Z.to_nat (i + 1)) with (S (Z.to_nat i)) by lia. rewrite (take_S_r _ _ _ El), map_app, <- app_assoc. simpl. rewrite <- Eg, (drop_S _ _ _ El).
      set (k := map aged (take (Z.to_nat i) l)). assert (Hk : Z.to_nat i = (length k + 0)%nat) by (unfold k; rewrite length_map, length_take; lia).
      rewrite Hk at 1. by rewrite alter_app_r. }
    destruct r.
    + destruct (set_epoch_ok c i false G) as (c1 & -> & G1 & F1 & N1 & S1); [lia|].
      destruct (IH c1 (i + 1)) as (c' & E' & G' & F' & N' & S'); try done; try lia; [injection F1 as -> _ _; lia|rewrite S1; by apply Ha|..].
      { rewrite <- (length_slots c1), S1, length_alter, length_slots. done. }
      exists c'. rewrite F', N'. by split_and!.
    + destruct (allow_erase_ok c i G) as (c1 & -> & G1 & F1 & N1 & S1); [lia|].
      destruct (IH c1 (i + 1)) as (c' & E' & G' & F' & N' & S'); try done; try lia; [injection F1 as -> _ _; lia|rewrite S1; by apply Ha|..].
      { rewrite <- (length_slots c1), S1, length_alter, length_slots. done. }
      exists c'. rewrite F', N'. by split_and!.
Qed.

Lemma living_aged (l : list slot) :
  epoch_count true (omap living_slot (map aged l)) = 0 /\ epoch_count false (omap living_slot (map aged l)) = epoch_count true (omap living_slot l).
Proof.
  induction l as [|[[x f] r] l [IH1 IH2]]; [done|]. cbn [map omap list_omap aged living_slot fst snd] in *.
  destruct r, f; simpl; rewrite ?epoch_count_cons; simpl; by rewrite ?IH1, ?IH2.
Qed.

Lemma table_aged c c' : slots c' = map aged (slots c) -> table c' = table c.
Proof. intros E. rewrite !table_slots, E, map_map. done. Qed.

(** The most elements an epoch keeps. *)
Definition epoch_bound (c : cache) : Z := epoch_size c + Z.max 1 (epoch_size c / 16).

(** Between operations ([n = 0]), or with [n] elements about to enter the recent epoch. *)
Definition loaded (n : Z) (c : cache) : Prop :=
  0 <= counter c /\ 1 <= epoch_size c /\ epoch_count true (living c) + counter c + n <= epoch_bound c /\ epoch_count false (living c) <= epoch_bound c.

Lemma epoch_check_ok c : geometry c -> loaded 0 c -> exists c', epoch_check c = Some c' /\ geometry c' /\ frame c' = frame c /\ loaded 1 c' /\
  table c' = table c /\ (slots c' = slots c \/ slots c' = map aged (slots c)).
Proof.
  intros G (Hc & He & Hr & Ho). unfold epoch_check. destruct (Z.eqb_spec (counter c) 0) as [E0|E0]; cbn [negb].
  - pose proof (g_size c G). rewrite count_unused_ok by (try done; lia). rewrite Z.add_0_l, drop_0. set (cur := epoch_count true _).
    pose proof (epoch_count_nonneg true (living c)). pose proof (Z.div_pos (epoch_size c) 16).
    destruct (Z.leb_spec (epoch_size c) cur) as [Hle|Hlt].
    + destruct (age_epochs_ok c (Z.to_nat (size c)) 0 (slots c)) as (c1 & -> & G1 & F1 & N1 & S1); try done; [lia|apply length_slots|].
      eexists. split; [done|]. change (living c) with (omap living_slot (slots c)) in *. fold cur in Hr. destruct (living_aged (slots c)) as [A1 A2].
      fold cur in A2. assert (Ee : epoch_size c1 = epoch_size c) by (by injection F1). split_and!.
      * destruct G1. by split.
      * exact F1.
      * unfold loaded, living, epoch_bound. change (slots (with_flags _ _ _ _)) with (slots c1). rewrite S1, A1, A2. simpl. rewrite Ee.
        unfold epoch_bound in *. lia.
      * exact (table_aged _ _ S1).
      * by right.
    + eexists. split; [done|]. split_and!; try done; [by destruct G|..|by left]. unfold loaded, living, epoch_bound in *. simpl.
      change (slots (with_flags _ _ _ _)) with (slots c). fold cur. lia.
  - eexists. split; [done|]. split_and!; try done; [by destruct G|..|by left]. unfold loaded, living, epoch_bound in *. simpl. change (slots (with_flags _ _ _ _)) with (slots c). lia.
Qed.
End Slots.

(** ** Places *)

Section Places.
Context {Element : Type} `{EqDecision Element} (null : Element) (hash_function : nat -> Element -> Z) (log2 : Z -> Z).
Context (Hhash : forall k e, in_u 32 (hash_function k e)).
#[local] Abbreviation cache := (cache Element).
#[local] Abbreviation counter := epoch_heuristic_counter.
#[local] Abbreviation compute_hashes := (compute_hashes hash_function).

(** Every element is at one of its places; the elements of a new table are not. *)
Definition in_place (c : cache) : Prop := forall i x f r, slots c !! i = Some (x, f, r) -> x <> null -> Z.of_nat i ∈ compute_hashes c x.

(** No place of [e] can be overwritten. *)
Definition taken (c : cache) (e : Element) : Prop := Forall (fun loc => flagged (collection_flags c) loc = false) (compute_hashes c e).

Lemma places_range c e loc : geometry c -> loc ∈ compute_hashes c e -> 0 <= loc < size c.
Proof.
  intros G Hl. pose proof (g_size c G). apply list_elem_of_In, in_map_iff in Hl as (k & <- & _). apply FastRange32_range; [apply Hhash|lia].
Qed.

Lemma frame_places c c' e : frame c' = frame c -> compute_hashes c' e = compute_hashes c e.
Proof. intros F. unfold Cuckoo.compute_hashes. by injection F as -> _ _. Qed.

Lemma first_free_ok (c : cache) locs : geometry c -> (forall loc, loc ∈ locs -> 0 <= loc < size c) -> exists r, first_free c locs = Some r /\
  match r with Some loc => loc ∈ locs /\ flagged (collection_flags c) loc = true | None => Forall (fun loc => flagged (collection_flags c) loc = false) locs end.
Proof.
  intros G. induction locs as [|loc locs IH]; intros Hr; cbn [first_free]; [by exists None|].
  destruct (slots_at c loc G) as (x & r & _ & _ & -> & _); [apply Hr; by left|]. destruct (flagged _ loc) eqn:E.
  - exists (Some loc). split; [done|]. split; [by left|done].
  - destruct IH as (o & -> & Ho); [intros l Hl; apply Hr; by right|]. exists o. split; [done|]. destruct o as [l|]; [|by apply Forall_cons_2].
    split; [right|]; apply Ho.
Qed.

Lemma find_element_ok (c : cache) e locs : geometry c -> (forall loc, loc ∈ locs -> 0 <= loc < size c) -> exists r, find_element c e locs = Some r /\
  match r with Some loc => loc ∈ locs /\ table c !! Z.to_nat loc = Some e | None => Forall (fun loc => table c !! Z.to_nat loc <> Some e) locs end.
Proof.
  intros G. induction locs as [|loc locs IH]; intros Hr; cbn [find_element]; [by exists None|].
  destruct (slots_at c loc G) as (x & r & Ex & _); [apply Hr; by left|]. rewrite Ex. case_bool_decide as E.
  - exists (Some loc). subst x. split; [done|]. split; [by left|done].
  - destruct IH as (o & -> & Ho); [intros l Hl; apply Hr; by right|]. exists o. split; [done|]. destruct o as [l|].
    + split; [right|]; apply Ho.
    + apply Forall_cons_2; [congruence|done].
Qed.

Lemma in_place_insert c c' loc e f r : in_place c -> frame c' = frame c -> 0 <= loc -> loc ∈ compute_hashes c e ->
  slots c' = <[Z.to_nat loc := (e, f, r)]> (slots c) -> in_place c'.
Proof.
  intros Hp F Hloc Hin E i x f' r' Hi Hx. rewrite (frame_places c c' x F). rewrite E in Hi. destruct (Nat.eq_dec i (Z.to_nat loc)) as [->|Hne].
  - apply list_lookup_insert_Some in Hi as [(_ & Hi & _)|(? & _)]; [|done]. injection Hi as <- _ _. by rewrite Z2Nat.id.
  - rewrite list_lookup_insert_ne in Hi by done. by apply (Hp i x f' r').
Qed.

(** An element is written to one of its places. *)
Lemma write_free_ok (c : cache) e loc r x r0 : geometry c -> 0 <= loc < size c -> slots c !! Z.to_nat loc = Some (x, true, r0) ->
  exists c1 c', please_keep (with_slots c (<[Z.to_nat loc := e]> (table c)) (collection_flags c) (epoch_flags c)) loc = Some c1 /\
    set_epoch c1 loc r = Some c' /\ geometry c' /\ frame c' = frame c /\ counter c' = counter c /\ slots c' = <[Z.to_nat loc := (e, false, r)]> (slots c).
Proof.
  intros G Hl Es. destruct (set_element_ok c (Z.to_nat loc) e G) as (G0 & F0 & N0 & S0).
  destruct (please_keep_ok _ loc G0) as (c1 & E1 & G1 & F1 & N1 & S1); [done|]. destruct (set_epoch_ok c1 loc r G1) as (c' & E' & G' & F' & N' & S').
  { injection F1 as -> _ _. done. }
  exists c1, c'. split_and!; try done; [congruence|congruence|]. rewrite S', S1, S0, !list_alter_alter_eq. by rewrite (alter_insert_list _ _ _ _ Es).
Qed.

Lemma insert_loop_ok n c e last_loc r : geometry c -> in_place c -> exists c',
  insert_loop hash_function n c e last_loc r (compute_hashes c e) = Some c' /\ geometry c' /\ in_place c' /\ frame c' = frame c /\ counter c' = counter c /\
  (living c' ≡ₚ (e, r) :: living c \/ (exists y, y :: living c' ≡ₚ (e, r) :: living c) /\ (n <> 0%nat -> taken c e)).
Proof.
  revert c e last_loc r. induction n as [|n IH]; intros c e last_loc r G Hp; cbn [insert_loop].
  - exists c. split_and!; try done. right. split; [by exists (e, r)|done].
  - destruct (first_free_ok c (compute_hashes c e) G) as (o & -> & Ho); [intros l; by apply places_range|]. destruct o as [loc|].
    + destruct Ho as [Hin Hf]. pose proof (places_range c e loc G Hin) as Hr. destruct (slots_at c loc G Hr) as (x & r0 & _ & _ & _ & Es). rewrite Hf in Es.
      pose proof (g_table c G). rewrite (proj2 (Nat.ltb_lt _ _)) by lia.
      destruct (write_free_ok c e loc r x r0 G Hr Es) as (c1 & c' & -> & -> & G' & F' & N' & S'). exists c'. split_and!; try done.
      * apply (in_place_insert c c' loc e false r); try done; lia.
      * left. unfold living. rewrite S'. exact (living_change (slots c) _ _ (e, false, r) Es).
    + set (j := Z.land (1 + index_of last_loc (compute_hashes c e)) 7).
      assert (Hj : 0 <= j < 8). { unfold j. change 7 with (Z.ones 3). rewrite Z.land_ones by lia. by apply Z.mod_pos_bound. }
      destruct (lookup_lt_is_Some_2 (compute_hashes c e) (Z.to_nat j)) as [loc El]; [unfold Cuckoo.compute_hashes; rewrite length_map, length_seq; lia|]. rewrite El.
      assert (Hin : loc ∈ compute_hashes c e) by (by eapply list_elem_of_lookup_2). pose proof (places_range c e loc G Hin) as Hr.
      destruct (slots_at c loc G Hr) as (y & ry & -> & -> & _ & Es). rewrite (proj1 (Forall_forall _ _) Ho loc Hin) in Es.
      destruct (set_element_ok c (Z.to_nat loc) e G) as (G0 & F0 & N0 & S0). destruct (set_epoch_ok _ loc r G0) as (c1 & -> & G1 & F1 & N1 & S1); [done|].
      assert (S1' : slots c1 = <[Z.to_nat loc := (e, false, r)]> (slots c)).
      { rewrite S1, S0, list_alter_alter_eq. by rewrite (alter_insert_list _ _ _ _ Es). }
      assert (Hc1 : (y, ry) :: living c1 ≡ₚ (e, r) :: living c) by (unfold living; rewrite S1'; exact (living_change (slots c) _ _ (e, false, r) Es)).
      assert (Hp1 : in_place c1) by (apply (in_place_insert c c1 loc e false r); [done|congruence|lia|done|done]).
      destruct (IH c1 y loc ry G1 Hp1) as (c' & E' & G' & P' & F' & N' & D). exists c'. split_and!; try done; [congruence|congruence|].
      destruct D as [D|[(z & D) _]]; [left; by rewrite D|right]. split; [exists z; by rewrite D|done].
Qed.

(** ** The operations *)

Record cuckoo_ok (c : cache) : Prop := {
  co_geometry : geometry c;
  co_in_place : in_place c;
  co_loaded : loaded 0 c;
  co_depth : 1 <= depth_limit c }.

(** What leaves when an element enters. *)
Lemma loaded_lost n (c c' : cache) lost gained :
  loaded n c -> frame c' = frame c -> counter c' = counter c -> lost ++ living c' ≡ₚ gained ++ living c ->
  epoch_count true gained <= n -> epoch_count false gained = 0 -> loaded 0 c'.
Proof.
  intros (Hc & He & Hr & Ho) F N P Hg Hg'. pose proof (epoch_count_perm true _ _ P) as P1. pose proof (epoch_count_perm false _ _ P) as P2.
  rewrite !epoch_count_app in P1, P2. pose proof (epoch_count_nonneg true lost). pose proof (epoch_count_nonneg false lost).
  unfold loaded, epoch_bound in *. injection F as _ Ee _. rewrite Ee, N. lia.
Qed.

(** The element is found at [loc] and kept. *)
Lemma keep_ok c e loc : geometry c -> in_place c -> loaded 1 c -> loc ∈ compute_hashes c e -> table c !! Z.to_nat loc = Some e -> exists c1 c',
  please_keep c loc = Some c1 /\ set_epoch c1 loc true = Some c' /\ geometry c' /\ in_place c' /\ frame c' = frame c /\ loaded 0 c' /\
  exists lost, lost ++ living c' ≡ₚ (e, true) :: living c /\ (lost = [] \/ exists r, lost = [(e, r)]).
Proof.
  intros G Hp Hl Hin Et. pose proof (places_range c e loc G Hin) as Hr. destruct (slots_at c loc G Hr) as (x & r & Ex & _ & _ & Es).
  rewrite Et in Ex. injection Ex as <-. destruct (please_keep_ok c loc G Hr) as (c1 & E1 & G1 & F1 & N1 & S1).
  destruct (set_epoch_ok c1 loc true G1) as (c' & E' & G' & F' & N' & S'); [by injection F1 as -> _ _|].
  assert (S2 : slots c' = <[Z.to_nat loc := (e, false, true)]> (slots c)).
  { rewrite S', S1, list_alter_alter_eq. by rewrite (alter_insert_list _ _ _ _ Es). }
  assert (F2 : frame c' = frame c) by congruence. pose proof (living_change (slots c) _ _ (e, false, true) Es) as P. rewrite <- S2 in P.
  exists c1, c'. split_and!; try done; [apply (in_place_insert c c' loc e false true); try done; lia|..].
  - by apply (loaded_lost 1 c c' (omap living_slot [(e, flagged (collection_flags c) loc, r)]) [(e, true)]); [..|congruence|exact P|done|done].
  - eexists. split; [exact P|]. destruct (flagged _ loc); [by left|right; by exists r].
Qed.

Lemma insert_ok c e : cuckoo_ok c -> exists c1 c', epoch_check c = Some c1 /\ table c1 = table c /\ insert hash_function c e = Some c' /\ cuckoo_ok c' /\
  frame c' = frame c /\ exists lost, lost ++ living c' ≡ₚ (e, true) :: living c1 /\
    (lost = [] \/ (exists r, lost = [(e, r)]) \/ (exists y, lost = [y]) /\ taken c1 e).
Proof.
  intros [G Hp Hl Hd]. destruct (epoch_check_ok c G Hl) as (c1 & E1 & G1 & F1 & L1 & T1 & S1).
  assert (Hp1 : in_place c1).
  { intros i x f r Hi Hx. rewrite (frame_places c c1 x F1). destruct S1 as [S1|S1]; rewrite S1 in Hi; [by apply (Hp i x f r)|].
    change (map aged (slots c)) with (aged <$> slots c) in Hi. rewrite list_lookup_fmap in Hi. destruct (slots c !! i) as [[[x0 f0] r0]|] eqn:Ei; [|done].
    injection Hi as <- _ _. by apply (Hp i x0 f0 r0). }
  assert (Hd1 : 1 <= depth_limit c1) by (by injection F1 as _ _ ->). unfold insert. rewrite E1. exists c1.
  destruct (find_element_ok c1 e (compute_hashes c1 e) G1) as (o & -> & Ho); [intros l; by apply places_range|]. destruct o as [loc|].
  - destruct (keep_ok c1 e loc G1 Hp1 L1) as (c2 & c' & -> & -> & G' & P' & F' & L' & lost & Q & D); [apply Ho|apply Ho|].
    exists c'. split_and!; try done; [split; try done; by injection F' as _ _ ->|congruence|]. exists lost. split; [done|]. tauto.
  - destruct (insert_loop_ok (Z.to_nat (depth_limit c1)) c1 e invalid true G1 Hp1) as (c' & E' & G' & P' & F' & N' & D).
    exists c'. assert (Hlost : exists lost, lost ++ living c' ≡ₚ (e, true) :: living c1 /\ (lost = [] \/ (exists r, lost = [(e, r)]) \/ (exists y, lost = [y]) /\ taken c1 e)).
    { destruct D as [D|[(y & D) Ht]]; [by exists []; split; [|left]|]. exists [y]. split; [done|]. right. right. split; [by exists y|apply Ht; lia]. }
    split_and!; try done; [|congruence]. destruct Hlost as (lost & Q & _). split; try done; [|by injection F' as _ _ ->].
    by apply (loaded_lost 1 c1 c' lost [(e, true)]).
Qed.

Lemma elem_table (c : cache) (x : Element) : x ∈ table c <-> exists i f r, slots c !! i = Some (x, f, r).
Proof.
  split.
  - intros [i Hi]%list_elem_of_lookup. exists i. rewrite slots_lookup, Hi. simpl. eauto.
  - intros (i & f & r & Hi). rewrite slots_lookup in Hi. destruct (table c !! i) eqn:E; [|done]. injection Hi as -> _ _. by eapply list_elem_of_lookup_2.
Qed.

Lemma living_table (c : cache) x r : (x, r) ∈ living c -> x ∈ table c.
Proof.
  intros ([[x' f] r'] & Hs & E)%list_elem_of_omap. apply list_elem_of_lookup in Hs as [i Hi]. unfold living_slot in E. simpl in E.
  destruct f; [done|]. injection E as -> ->. apply elem_table. eauto.
Qed.

Lemma contains_ok c e erase : cuckoo_ok c -> exists c' b, contains hash_function c e erase = Some (c', b) /\ cuckoo_ok c' /\ frame c' = frame c /\ table c' = table c /\
  (e <> null -> b = true <-> e ∈ table c) /\ exists lost, lost ++ living c' ≡ₚ living c /\ (lost = [] \/ erase = true /\ exists r, lost = [(e, r)]).
Proof.
  intros [G Hp Hl Hd]. unfold contains. destruct (find_element_ok c e (compute_hashes c e) G) as (o & -> & Ho); [intros l; by apply places_range|].
  destruct o as [loc|].
  - destruct Ho as [Hin Et]. assert (Hb : e <> null -> true = true <-> e ∈ table c) by (intros _; split; [intros _; by eapply list_elem_of_lookup_2|done]).
    destruct erase; [|exists c, true; split_and!; try done; exists []; by split; [|left]].
    pose proof (places_range c e loc G Hin) as Hr. destruct (slots_at c loc G Hr) as (x & r & Ex & _ & _ & Es). rewrite Et in Ex. injection Ex as <-.
    destruct (allow_erase_ok c loc G Hr) as (c1 & -> & G1 & F1 & N1 & S1). rewrite (alter_insert_list _ _ _ _ Es) in S1. cbn [fst snd] in S1.
    pose proof (living_change (slots c) _ _ (e, true, r) Es) as P. rewrite <- S1 in P. cbn [omap list_omap living_slot fst snd app] in P.
    exists c1, true. split_and!; try done.
    + split; try done; [apply (in_place_insert c c1 loc e true r); try done; lia|..|by injection F1 as _ _ ->].
      by apply (loaded_lost 0 c c1 (omap living_slot [(e, flagged (collection_flags c) loc, r)]) []).
    + rewrite (table_slots c1), S1. change (map ?g ?l) with (g <$> l). rewrite list_fmap_insert. cbn [fst]. change (fmap ?g (slots c)) with (map g (slots c)).
      rewrite <- table_slots. by apply list_insert_id.
    + eexists. split; [exact P|]. simpl. destruct (flagged _ loc); [by left|right]. split; [done|by exists r].
  - exists c, false. split_and!; try done; [|exists []; by split; [|left]]. intros He. split; [done|]. intros (i & f & r & Hi)%elem_table.
    pose proof (Hp i e f r Hi He) as Hin. rewrite Forall_forall in Ho. destruct (Ho _ Hin). rewrite Nat2Z.id. rewrite slots_lookup in Hi.
    destruct (table c !! i); [|done]. by injection Hi as -> _ _.
Qed.

(** ** A cache over time *)

(** [std::log2] of a [float] that is at least two and below [2^32], or rounded up to it. *)
Context (Hlog2 : forall n, 2 <= n < 2 ^ 32 -> 1 <= log2 n <= 32).

Lemma flagged_new n s : 0 <= s < 8 * Z.of_nat n -> flagged (replicate n 0xFF) s = true.
Proof.
  intros Hs. unfold flagged. destruct (byte_of s) as [E1 E2]; [lia|]. rewrite E1, E2. pose proof (Z.div_lt_upper_bound s 8 (Z.of_nat n)). pose proof (Z.div_pos s 8).
  rewrite (nth_lookup_Some _ _ _ 0xFF) by (apply lookup_replicate_2; lia). change 0xFF with (Z.ones 8). rewrite Z.ones_spec_low; [done|].
  pose proof (Z.mod_pos_bound s 8). lia.
Qed.

Lemma setup_ok n : 0 <= n <= 2 ^ 32 - 8 -> cuckoo_ok (setup null log2 empty_cache n).
Proof.
  intros Hn. set (c := setup null log2 empty_cache n). assert (Hs : size c = Z.max 2 n) by done.
  assert (Et : table c = replicate (Z.to_nat (size c)) null) by apply resize_nil.
  assert (Ef : collection_flags c = replicate (Z.to_nat ((size c + 7) / 8)) 0xFF).
  { unfold c. cbn [setup collection_flags size]. unfold bit_packed_atomic_flags. rewrite wrap_small by (split; lia). done. }
  assert (Ee : epoch_flags c = replicate (Z.to_nat (size c)) false) by apply resize_nil.
  assert (Hc : 1 <= epoch_size c /\ counter c = epoch_size c) by (split; [apply Z.le_max_l|done]).
  assert (Hd : 1 <= depth_limit c).
  { unfold c. cbn [setup depth_limit]. pose proof (Hlog2 (Z.max 2 n)). rewrite wrap_small by (split; lia). lia. }
  clearbody c. assert (G : geometry c).
  { split; [lia|rewrite Et, length_replicate; lia|rewrite Ef, length_replicate; pose proof (Z.div_pos (size c + 7) 8); lia|rewrite Ee, length_replicate; lia]. }
  assert (Es : forall i s, slots c !! i = Some s -> fst s = (null, true)).
  { intros i s. rewrite slots_lookup, Et. destruct (replicate _ null !! i) as [x|] eqn:E; [|done]. apply lookup_replicate in E as [-> Hi]. intros [= <-]. simpl.
    rewrite Ef, flagged_new; [done|]. pose proof (geometry_flags c (Z.of_nat i) G ltac:(lia)) as Hf. rewrite Ef, length_replicate in Hf. lia. }
  assert (El : living c = []).
  { unfold living. revert Es. generalize (slots c). intros l Es. induction l as [|s l IH]; [done|]. specialize (Es 0%nat s eq_refl) as E0.
    cbn [omap list_omap]. destruct s as [[x f] r]. injection E0 as -> ->. apply IH. intros i s Hi. exact (Es (S i) s Hi). }
  split; [done| |unfold loaded, epoch_bound; rewrite El; unfold epoch_count; simpl; lia|done].
  intros i x f r Hi Hx. by injection (Es i _ Hi) as -> _.
Qed.

Inductive operation := op_insert (e : Element) | op_contains (e : Element) (erase : bool).

Fixpoint run_cache (c : cache) (ops : list operation) : option cache :=
  match ops with
  | [] => Some c
  | op_insert e :: ops => let! c := insert hash_function c e in run_cache c ops
  | op_contains e erase :: ops => let! '(c, _) := contains hash_function c e erase in run_cache c ops
  end.

Lemma run_ok c ops : cuckoo_ok c -> exists c', run_cache c ops = Some c' /\ cuckoo_ok c' /\ frame c' = frame c.
Proof.
  revert c. induction ops as [|[e|e erase] ops IH]; intros c Hc; cbn [run_cache]; [by exists c|..].
  - destruct (insert_ok c e Hc) as (_ & c1 & _ & _ & -> & Hc1 & F1 & _). destruct (IH c1 Hc1) as (c' & E & Hc' & F). exists c'. rewrite F. done.
  - destruct (contains_ok c e erase Hc) as (c1 & b & -> & Hc1 & F1 & _). destruct (IH c1 Hc1) as (c' & E & Hc' & F). exists c'. rewrite F. done.
Qed.

Lemma elem_of_insert_inv (l : list Element) i e x : x ∈ <[i := e]> l -> x = e \/ x ∈ l.
Proof.
  intros [j Hj]%list_elem_of_lookup. apply list_lookup_insert_Some in Hj as [(_ & <- & _)|(_ & Hj)]; [by left|]. right. by eapply list_elem_of_lookup_2.
Qed.

(** Nothing but what was inserted is ever in the table. *)
Lemma insert_loop_elements n c e last_loc r locs c' x : insert_loop hash_function n c e last_loc r locs = Some c' -> x ∈ table c' -> x = e \/ x ∈ table c.
Proof.
  revert c e last_loc r locs. induction n as [|n IH]; intros c e last_loc r locs; cbn [insert_loop]; [intros [= ->]; by right|].
  destruct (first_free c locs) as [[loc|]|]; [..|done].
  - destruct (_ <? _)%nat; [|done]. unfold please_keep, set_epoch. destruct (bit_unset _ loc); [|done]. cbn [epoch_flags with_flags].
    destruct (_ <? _)%nat; [|done]. intros [= <-]. cbn [table with_flags with_slots]. intros Hx. by apply elem_of_insert_inv in Hx.
  - destruct (locs !! _) as [loc|]; [|done]. destruct (table c !! _) as [y|] eqn:Ey; [|done]. destruct (epoch_flags c !! _); [|done].
    unfold set_epoch at 1. destruct (_ <? _)%nat; [|done]. intros E Hx. destruct (IH _ _ _ _ _ E Hx) as [->|Hx']; [right; by eapply list_elem_of_lookup_2|].
    cbn [table with_flags with_slots] in Hx'. by apply elem_of_insert_inv in Hx'.
Qed.

Lemma epoch_check_table (c c' : cache) : epoch_check c = Some c' -> table c' = table c.
Proof.
  assert (Ha : forall n (c : cache) i c', age_epochs c n i = Some c' -> table c' = table c).
  { clear c c'. induction n as [|n IH]; intros c i c'; cbn [age_epochs]; [by intros [= ->]|]. destruct (epoch_flags c !! _) as [r|]; [|done].
    unfold set_epoch, allow_erase. destruct r; [destruct (_ <? _)%nat; [|done]|destruct (bit_set _ i); [|done]]; intros E; by rewrite (IH _ _ _ E). }
  unfold epoch_check. destruct (negb _); [by intros [= <-]|]. destruct (count_unused _ _ _ _) as [u|]; [|done]. destruct (_ <=? _); [|by intros [= <-]].
  destruct (age_epochs c _ _) as [c1|] eqn:E; [|done]. intros [= <-]. by rewrite <- (Ha _ _ _ _ E).
Qed.

Lemma insert_elements c e c' x : insert hash_function c e = Some c' -> x ∈ table c' -> x = e \/ x ∈ table c.
Proof.
  unfold insert. destruct (epoch_check c) as [c1|] eqn:E1; [|done]. rewrite <- (epoch_check_table c c1 E1).
  destruct (find_element c1 e _) as [[loc|]|]; [..|done]; [|apply insert_loop_elements].
  unfold please_keep, set_epoch. destruct (bit_unset _ loc); [|done]. destruct (_ <? _)%nat; [|done]. intros [= <-]. by right.
Qed.

Lemma find_element_in (c : cache) e locs loc : find_element c e locs = Some (Some loc) -> e ∈ table c.
Proof.
  induction locs as [|l locs IH]; cbn [find_element]; [done|]. destruct (table c !! Z.to_nat l) as [x|] eqn:E; [|done].
  case_bool_decide as Ex; [subst x; intros _; by eapply list_elem_of_lookup_2|done].
Qed.

Lemma contains_elements c e erase c' b :
  contains hash_function c e erase = Some (c', b) -> table c' = table c /\ (b = true -> e ∈ table c).
Proof.
  unfold contains. destruct (find_element c e _) as [[loc|]|] eqn:E; [..|done]; [|by intros [= <- <-]]. apply find_element_in in E.
  destruct erase; [|by intros [= <- <-]]. unfold allow_erase. destruct (bit_set _ loc); [|done]. by intros [= <- <-].
Qed.

Lemma setup_elements n x : x ∈ table (setup null log2 empty_cache n) -> x = null.
Proof. cbn [setup table empty_cache]. rewrite resize_nil. by intros ?%elem_of_replicate_inv. Qed.

(** C16: [insert] keeps its documented promise at every cache that can arise: it never leaves the table,
    and of the elements kept after the epochs were checked, together with the new one, at most one is
    lost: none, or the older copy of the element itself, or one, and that only when all eight places of
    the element are taken.  A lookup finds exactly the elements of the table, those that were given up
    but not yet overwritten included, and no element enters the table but by insertion. *)
Theorem insert_loses_at_most_one n ops c e :
  0 <= n <= 2 ^ 32 - 8 -> run_cache (setup null log2 empty_cache n) ops = Some c ->
  exists c1 c', epoch_check c = Some c1 /\ insert hash_function c e = Some c' /\
    (exists lost, lost ++ living c' ≡ₚ (e, true) :: living c1 /\ (lost = [] \/ (exists r, lost = [(e, r)]) \/ (exists y, lost = [y]) /\ taken c1 e)) /\
    (forall x erase, x <> null -> exists c2, contains hash_function c' x erase = Some (c2, bool_decide (x ∈ table c')) /\ table c2 = table c') /\
    (forall x r, (x, r) ∈ living c' -> x ∈ table c') /\ (forall x, x ∈ table c' -> x = e \/ x ∈ table c).
Proof.
  intros Hn Hr. destruct (run_ok _ ops (setup_ok n Hn)) as (c0 & E0 & Hc & _). rewrite Hr in E0. injection E0 as <-.
  destruct (insert_ok c e Hc) as (c1 & c' & E1 & _ & E' & Hc' & _ & Hlost). exists c1, c'. split_and!; try done.
  - intros x erase Hx. destruct (contains_ok c' x erase Hc') as (c2 & b & E2 & _ & _ & T2 & Hb & _). exists c2. split; [|done]. rewrite E2. do 2 f_equal.
    specialize (Hb Hx). case_bool_decide as Hin; [by apply Hb|]. destruct b; [|done]. by destruct Hin; apply Hb.
  - intros x r. apply living_table.
  - intros x. by apply (insert_elements c e).
Qed.

Lemma load_bound (c : cache) : cuckoo_ok c -> Z.of_nat (length (living c)) <= 2 * epoch_bound c.
Proof. intros [_ _ (H1 & H2 & H3 & H4) _]. rewrite <- epoch_count_both. lia. Qed.


(** C40: A very large cache keeps almost nothing: from 95,443,718 slots on the product [45 * size] of [setup] leaves 32 bits: the 95,453,184 slots of
    2,913 MiB, which [-maxsigcachesize=5826] asks for, keep no more than 9,050 elements. *)
Theorem oversized_cache_keeps_few ops :
  exists c, run_cache (fst (setup_bytes null log2 32 empty_cache (2913 * 2 ^ 20))) ops = Some c /\ size c = 95453184 /\ Z.of_nat (length (living c)) <= 9050.
Proof.
  destruct (run_ok _ ops (setup_ok 95453184 ltac:(lia))) as (c & E & Hc & F). exists c. split; [exact E|]. pose proof (load_bound c Hc) as Hb.
  injection F as Es Ee _. unfold epoch_bound in Hb. rewrite Ee in Hb. split; [exact Es|exact Hb].
Qed.

(** The header promises [2^32 - 2] elements; their collection flags would get no memory. *)
Theorem largest_cache_has_no_flags c : size (setup null log2 c (2 ^ 32 - 2)) = 2 ^ 32 - 2 /\ collection_flags (setup null log2 c (2 ^ 32 - 2)) = [].
Proof. split; reflexivity. Qed.
End Places.

(** ** An example *)

Definition sample_hash (k : nat) (e : Z) : Z := wrap 32 (e * (2654435761 + 2 * Z.of_nat k)).

Lemma sample_hash_range k e : in_u 32 (sample_hash k e).
Proof. by apply wrap_range. Qed.

Definition sample_log2 (n : Z) : Z := Z.log2 n.

Lemma sample_log2_range n : 2 <= n < 2 ^ 32 -> 1 <= sample_log2 n <= 32.
Proof.
  intros Hn. unfold sample_log2. pose proof (Z.log2_le_mono 2 n). pose proof (Z.log2_lt_pow2 n 32). change (Z.log2 2) with 1 in *. lia.
Qed.

Lemma insert_loses_at_most_one_witness :
  let ops := [op_insert 5; op_insert 7; op_contains 5 true; op_insert 9] in
  exists c c1 c', run_cache sample_hash (setup 0 sample_log2 empty_cache 3) ops = Some c /\ epoch_check c = Some c1 /\ insert sample_hash c 11 = Some c' /\
    exists lost, lost ++ living c' ≡ₚ (11, true) :: living c1.
Proof.
  intros ops. destruct (run_cache sample_hash (setup 0 sample_log2 empty_cache 3) ops) as [c|] eqn:E; [|vm_compute in E; discriminate E].
  destruct (insert_loses_at_most_one 0 sample_hash sample_log2 sample_hash_range sample_log2_range 3 ops c 11 ltac:(lia) E)
    as (c1 & c' & E1 & E' & (lost & P & _) & _). exists c, c1, c'. split; [reflexivity|]. split; [exact E1|]. split; [exact E'|]. exists lost. exact P.
Defined.


Lemma oversized_cache_keeps_few_witness :
  exists c, run_cache sample_hash (fst (setup_bytes 0 sample_log2 32 empty_cache (2913 * 2 ^ 20))) [op_insert 3; op_contains 3 true] = Some c /\
    Z.of_nat (length (living c)) <= 9050.
Proof.
  destruct (oversized_cache_keeps_few 0 sample_hash sample_log2 sample_hash_range sample_log2_range [op_insert 3; op_contains 3 true]) as (c & E & _ & H).
  exists c. split; [exact E|exact H].
Defined.
End Cuckoo.
