(* ===== verification/ScriptCache.v ===== *)
(** The cuckoo cache as the cache of verified transactions: [m_script_execution_cache] of
    [ValidationCache] ([src/src/validation.h]) is a [CuckooCache::cache<uint256, SignatureCacheHasher>],
    and so an instance of the interface [ScriptChecks] is written against. *)

From stdpp Require Import gmap.
From S2P Require Import Prelude ArithUint Version Primitives Sha256 Merkle ScriptChecks CuckooCache Params.

#[local] Open Scope Z_scope.

(** The four bytes of the key at [4 * hash_select], in the byte order of the machine. *)
Definition SignatureCacheHasher (hash_select : nat) (key : uint256) : Z := wrap 32 (lval 8 (take 4 (drop (4 * hash_select) key))).

Lemma SignatureCacheHasher_range k key : in_u 32 (SignatureCacheHasher k key).
Proof. by apply wrap_range. Qed.

(** An access out of range leaves the cache alone here; [insert_loses_at_most_one] shows that there is none. *)
#[export] Instance script_cache : ScriptExecutionCache (Cuckoo.cache uint256) := {|
  contains := fun c e erase => default (c, false) (Cuckoo.contains SignatureCacheHasher c e erase);
  cache_insert := fun c e => default c (Cuckoo.insert SignatureCacheHasher c e) |}.

#[export] Program Instance script_cache_laws : ScriptExecutionCacheLaws (Cuckoo.cache uint256) := {| stored := fun c e => e ∈ Cuckoo.table c |}.
Next Obligation.
  intros c e erase. simpl. destruct (Cuckoo.contains _ c e erase) as [[c' b]|] eqn:E; [|done]. by apply (Cuckoo.contains_elements SignatureCacheHasher c e erase c').
Qed.
Next Obligation.
  intros c e erase x. simpl. destruct (Cuckoo.contains _ c e erase) as [[c' b]|] eqn:E; [|done].
  destruct (Cuckoo.contains_elements SignatureCacheHasher c e erase c' b E) as [Et _]. simpl. by rewrite Et.
Qed.
Next Obligation.
  intros c e x. simpl. destruct (Cuckoo.insert _ c e) as [c'|] eqn:E; [|by right]. by apply (Cuckoo.insert_elements SignatureCacheHasher c e).
Qed.

(** The constructor of [ValidationCache] sets the table up. *)
Definition new_script_cache (log2 : Z -> Z) (script_execution_cache_bytes : Z) : Cuckoo.cache uint256 :=
  fst (Cuckoo.setup_bytes uint256_zero log2 32 Cuckoo.empty_cache script_execution_cache_bytes).

(** A new table holds the null entry only. *)
Lemma new_script_cache_empty log2 bytes e : stored (new_script_cache log2 bytes) e -> e = uint256_zero.
Proof. apply Cuckoo.setup_elements. Qed.
