(* ===== verification/CheckQueue.v ===== *)
(** The queue of script checks: [CCheckQueue] of [src/src/checkqueue.h].

    A critical section is one step, from the lock to its release or to a wait; the checks of a batch
    are another.  Thread 0 is the caller of [Add] and [Complete], the others are the workers, and the
    scheduler picks any thread that can move.  A thread waits until it is notified; it may also wake
    without a notification.  The destructor is not modelled: [m_request_stop] stays false. *)

From S2P Require Import Prelude.
From stdpp Require Import gmap.

#[local] Open Scope Z_scope.
#[local] Open Scope qbit_scope.

Module Queue.
Section Threads.
Context {T R : Type} (check : T -> option R) (nBatchSize : Z).

(** ** The state *)

(** The members guarded by [m_mutex]. *)
Record CCheckQueue := { queue : list T; nIdle : Z; nTotal : Z; m_result : option R; nTodo : Z }.

(** The variables of [Loop]. *)
Record locals := { vChecks : list T; nNow : Z; local_result : option R; do_work : bool }.

Inductive thread :=
| outside                                    (* the caller, between calls *)
| at_lock (l : locals)                       (* about to take the lock at the top of the loop *)
| waiting (l : locals) (notified : bool)     (* in [cond.wait] *)
| working (l : locals).                      (* executing a batch without the lock *)

Definition new_locals : locals := {| vChecks := []; nNow := 0; local_result := None; do_work := false |}.

(** ** [Loop] *)

(** The clean-up of the previous run, or the count of a new thread; whether the master is notified. *)
Definition clean_up (fMaster : bool) (q : CCheckQueue) (l : locals) : CCheckQueue * locals * bool :=
  if negb (nNow l =? 0) then
    let swap := match local_result l, m_result q with Some _, None => true | _, _ => false end in
    let todo := wrap 32 (nTodo q - nNow l) in
    ({| queue := queue q; nIdle := nIdle q; nTotal := nTotal q;
        m_result := if swap then local_result l else m_result q; nTodo := todo |},
     {| vChecks := vChecks l; nNow := nNow l; local_result := if swap then m_result q else local_result l; do_work := do_work l |},
     (todo =? 0) && negb fMaster)
  else
    ({| queue := queue q; nIdle := nIdle q; nTotal := nTotal q + 1; m_result := m_result q; nTodo := nTodo q |}, l, false).

(** [nNow], the size of the next batch; the quotient is of unsigned integers. *)
Definition batch_size (q : CCheckQueue) : Z :=
  Z.max 1 (Z.min nBatchSize (Z.of_nat (length (queue q)) / (nTotal q + nIdle q + 1))).

(** The inner [while] and what follows it under the lock: the new state and either a result to
    return, a wait or a batch.  [None] is a batch larger than the queue. *)
Definition select (fMaster : bool) (q : CCheckQueue) (l : locals) : option (CCheckQueue * (option R + thread)) :=
  match queue q with
  | [] =>
      if fMaster && (nTodo q =? 0) then
        Some ({| queue := []; nIdle := nIdle q; nTotal := nTotal q - 1; m_result := None; nTodo := nTodo q |}, inl (m_result q))
      else
        Some ({| queue := []; nIdle := nIdle q + 1; nTotal := nTotal q; m_result := m_result q; nTodo := nTodo q |}, inr (waiting l false))
  | _ =>
      let n := batch_size q in
      let left := Z.of_nat (length (queue q)) - n in
      assert! 0 <=? left;
      Some ({| queue := take (Z.to_nat left) (queue q); nIdle := nIdle q; nTotal := nTotal q; m_result := m_result q; nTodo := nTodo q |},
            inr (working {| vChecks := drop (Z.to_nat left) (queue q); nNow := n; local_result := local_result l;
                            do_work := match m_result q with Some _ => false | None => true end |}))
  end.

(** The loop over a batch, up to the first error. *)
Fixpoint run_batch (checks : list T) (local_result : option R) : option R :=
  match checks with
  | [] => local_result
  | c :: checks => match check c with Some e => Some e | None => run_batch checks None end
  end.

Definition execute (l : locals) : locals :=
  {| vChecks := []; nNow := nNow l; local_result := if do_work l then run_batch (vChecks l) (local_result l) else local_result l; do_work := do_work l |}.

Definition Add (q : CCheckQueue) (checks : list T) : CCheckQueue :=
  {| queue := queue q ++ checks; nIdle := nIdle q; nTotal := nTotal q; m_result := m_result q;
     nTodo := wrap 32 (nTodo q + Z.of_nat (length checks)) |}.

(** ** Threads *)

Definition notify (t : thread) : thread := match t with waiting l _ => waiting l true | _ => t end.

(** The whole: the shared members, the threads, and the checks added since the last result. *)
Record system := { shared : CCheckQueue; threads : list thread; added : list T }.

Definition is_master (i : nat) : bool := match i with O => true | _ => false end.

(** A thread goes on after [select]; a result ends the call. *)
Definition settle (s : system) (i : nat) (ts : list thread) (x : CCheckQueue * (option R + thread)) : system * option (option R) :=
  match x with
  | (q, inl r) => ({| shared := q; threads := <[i := outside]> ts; added := [] |}, Some r)
  | (q, inr t) => ({| shared := q; threads := <[i := t]> ts; added := added s |}, None)
  end.

(** The steps of the threads; a result is what [Complete] returns. *)
Inductive thread_step (s : system) : system -> option (option R) -> Prop :=
| step_lock i l q l' wake x s' r :
    threads s !! i = Some (at_lock l) -> clean_up (is_master i) (shared s) l = (q, l', wake) ->
    select (is_master i) q l' = Some x ->
    settle s i (if wake : bool then alter notify 0%nat (threads s) else threads s) x = (s', r) -> thread_step s s' r
| step_wake i l x s' r :
    threads s !! i = Some (waiting l true) ->
    select (is_master i) {| queue := queue (shared s); nIdle := nIdle (shared s) - 1; nTotal := nTotal (shared s);
                            m_result := m_result (shared s); nTodo := nTodo (shared s) |} l = Some x ->
    settle s i (threads s) x = (s', r) -> thread_step s s' r
| step_execute i l :
    threads s !! i = Some (working l) ->
    thread_step s {| shared := shared s; threads := <[i := at_lock (execute l)]> (threads s); added := added s |} None.

(** [notify_one] and [notify_all] on the condition variable of the workers, while the master is outside. *)
Definition notified_by (all : bool) (ts ts' : list thread) : Prop :=
  if all then ts' = map notify ts
  else (exists i l, ts !! i = Some (waiting l false) /\ ts' = alter notify i ts) \/ ((forall i l, ts !! i <> Some (waiting l false)) /\ ts' = ts).

(** The calls of the owner, and wake-ups without a notification. *)
Inductive owner_step (s : system) : system -> Prop :=
| step_add checks ts :
    threads s !! 0%nat = Some outside -> checks <> [] -> Z.of_nat (length (added s) + length checks) < 2 ^ 32 ->
    notified_by (negb (length checks =? 1)%nat) (threads s) ts ->
    owner_step s {| shared := Add (shared s) checks; threads := ts; added := added s ++ checks |}
| step_complete :
    threads s !! 0%nat = Some outside ->
    owner_step s {| shared := shared s; threads := <[0%nat := at_lock new_locals]> (threads s); added := added s |}
| step_spurious i l :
    threads s !! i = Some (waiting l false) ->
    owner_step s {| shared := shared s; threads := <[i := waiting l true]> (threads s); added := added s |}.

Definition new_queue : CCheckQueue := {| queue := []; nIdle := 0; nTotal := 0; m_result := None; nTodo := 0 |}.

(** A new queue with [n] workers that have just started. *)
Definition start (n : nat) : system := {| shared := new_queue; threads := outside :: replicate n (at_lock new_locals); added := [] |}.

Inductive reachable (n : nat) : system -> Prop :=
| reach_start : reachable n (start n)
| reach_thread s s' r : reachable n s -> thread_step s s' r -> reachable n s'
| reach_owner s s' : reachable n s -> owner_step s s' -> reachable n s'.

(** ** The invariant *)

Definition sum_of (f : thread -> Z) (ts : list thread) : Z := foldr (fun t n => f t + n) 0 ts.

(** Checks a thread has taken and not yet accounted for. *)
Definition pending (t : thread) : Z := match t with at_lock l | working l => nNow l | _ => 0 end.
Definition idle (t : thread) : Z := match t with waiting _ _ => 1 | _ => 0 end.
Definition entered (t : thread) : Z := match t with waiting _ _ | working _ => 1 | at_lock l => if nNow l =? 0 then 0 else 1 | outside => 0 end.

(** An error that a check of this round gives. *)
Definition origin (ad : list T) (e : R) : Prop := exists c, c ∈ ad /\ check c = Some e.

Definition thread_ok (q : CCheckQueue) (ad : list T) (t : thread) : Prop :=
  match t with
  | outside | waiting _ _ => True
  | at_lock l => 0 <= nNow l /\ (nNow l = 0 -> local_result l = None) /\ forall e, local_result l = Some e -> m_result q <> None \/ origin ad e
  | working l => 1 <= nNow l /\ Z.of_nat (length (vChecks l)) = nNow l /\ vChecks l ⊆ ad /\ (do_work l = false -> m_result q <> None)
  end.

(** A thread that still has to run, or to report, a failed check. *)
Definition will_report (c : T) (t : thread) : Prop :=
  match t with
  | working l => do_work l = true /\ c ∈ vChecks l
  | at_lock l => nNow l <> 0 /\ local_result l <> None
  | _ => False
  end.

(** [k] threads are inside a critical section; they stand as [outside] in the list. *)
Record inv (k : Z) (q : CCheckQueue) (ts : list thread) (ad : list T) : Prop := {
  inv_todo : nTodo q = Z.of_nat (length (queue q)) + sum_of pending ts;
  inv_bound : nTodo q <= Z.of_nat (length ad) < 2 ^ 32;
  inv_idle : nIdle q = sum_of idle ts;
  inv_total : nTotal q = sum_of entered ts + k;
  inv_threads : Forall (thread_ok q ad) ts;
  inv_queue : queue q ⊆ ad;
  inv_result : forall e, m_result q = Some e -> origin ad e;
  inv_found : forall c, c ∈ ad -> check c <> None -> c ∈ queue q \/ m_result q <> None \/ exists t, t ∈ ts /\ will_report c t;
  inv_sleep : forall l, ts !! 0%nat = Some (waiting l false) -> queue q = [] /\ nTodo q <> 0 }.

Lemma sum_of_insert f ts i x y : ts !! i = Some x -> sum_of f (<[i := y]> ts) = sum_of f ts - f x + f y.
Proof. revert i. induction ts as [|t ts IH]; intros [|i] Hi; simpl in *; try done; [simplify_eq; lia|]. rewrite (IH i Hi). lia. Qed.

Lemma sum_of_nonneg f ts : Forall (fun t => 0 <= f t) ts -> 0 <= sum_of f ts.
Proof. induction 1; simpl; lia. Qed.

Lemma sum_of_alter f ts i : (forall t, f (notify t) = f t) -> sum_of f (alter notify i ts) = sum_of f ts.
Proof.
  intros Hf. revert i. induction ts as [|t ts IH]; intros [|i]; try done.
  - change (f (notify t) + sum_of f ts = f t + sum_of f ts). by rewrite Hf.
  - change (f t + sum_of f (alter notify i ts) = f t + sum_of f ts). by rewrite IH.
Qed.

Lemma sum_of_notify f ts : (forall t, f (notify t) = f t) -> sum_of f (map notify ts) = sum_of f ts.
Proof. intros Hf. induction ts as [|t ts IH]; simpl; [done|]. by rewrite Hf, IH. Qed.

Lemma elem_of_insert_other (ts : list thread) (i : nat) (x y t : thread) : ts !! i = Some x -> t ∈ ts -> t <> x -> t ∈ <[i := y]> ts.
Proof.
  intros Hi [j Hj]%list_elem_of_lookup Hne. apply list_elem_of_lookup. exists j. rewrite list_lookup_insert_ne; [done|]. intros ->. congruence.
Qed.

Lemma elem_of_insert_new (ts : list thread) (i : nat) (x y : thread) : ts !! i = Some x -> y ∈ <[i := y]> ts.
Proof. intros Hi. apply list_elem_of_lookup. exists i. apply list_lookup_insert_eq. by eapply lookup_lt_Some. Qed.

Lemma pending_nonneg q ad ts : Forall (thread_ok q ad) ts -> Forall (fun t => 0 <= pending t) ts.
Proof. intros Ht. eapply Forall_impl; [exact Ht|]. intros [|l|l b|l]; simpl; lia. Qed.

Lemma idle_nonneg ts : Forall (fun t => 0 <= idle t) ts.
Proof. apply Forall_forall. intros [|l|l b|l] _; simpl; lia. Qed.

Lemma entered_nonneg ts : Forall (fun t => 0 <= entered t) ts.
Proof. apply Forall_forall. intros [|l|l b|l] _; simpl; try lia. destruct (_ =? 0); lia. Qed.

(** The state of threads that others rely on is that of the result only. *)
Lemma thread_ok_result q q' ad t : (m_result q <> None -> m_result q' <> None) -> thread_ok q ad t -> thread_ok q' ad t.
Proof. intros Hm. destruct t as [|l|l b|l]; simpl; naive_solver. Qed.

Lemma thread_ok_notify q ad t : thread_ok q ad t -> thread_ok q ad (notify t).
Proof. by destruct t. Qed.

Lemma run_batch_found checks r c : c ∈ checks -> check c <> None -> run_batch checks r <> None.
Proof.
  revert r. induction checks as [|x checks IH]; intros r Hc Hn; simpl; [by apply elem_of_nil in Hc|].
  destruct (check x) eqn:E; [done|]. apply IH; [|done]. apply elem_of_cons in Hc as [->|Hc]; [congruence|done].
Qed.

Lemma run_batch_origin checks r ad e : checks <> [] -> checks ⊆ ad -> run_batch checks r = Some e -> origin ad e.
Proof.
  intros Hne. destruct checks as [|x checks]; [done|]. clear Hne. revert x r. induction checks as [|y checks IH]; intros x r Hs; cbn [run_batch].
  - destruct (check x) eqn:E; [|done]. intros [= ->]. exists x. split; [apply Hs; by left|done].
  - destruct (check x) eqn:E; [intros [= ->]; exists x; split; [apply Hs; by left|done]|]. apply (IH y None). intros z Hz. apply Hs. by right.
Qed.

(** ** The steps keep it *)

(** A thread that reports nothing is taken out of the list. *)
Lemma found_without (ts : list thread) i t c (y : thread) :
  ts !! i = Some t -> ~ will_report c t -> (exists t', t' ∈ ts /\ will_report c t') -> exists t', t' ∈ <[i := y]> ts /\ will_report c t'.
Proof.
  intros Hi Hn (t' & Ht' & Hr). exists t'. split; [|done]. apply (elem_of_insert_other _ _ t); [done|done|]. intros ->. done.
Qed.

Lemma inv_clean_up fMaster q l q' l' wake ts ad i :
  inv 0 q ts ad -> ts !! i = Some (at_lock l) -> fMaster = is_master i -> clean_up fMaster q l = (q', l', wake) ->
  inv 1 q' (<[i := outside]> (if wake then alter notify 0%nat ts else ts)) ad.
Proof.
  intros [I1 I2 I3 I4 I5 I6 I7 I8 I9] Hi -> E. assert (Hl : thread_ok q ad (at_lock l)) by (rewrite Forall_forall in I5; apply I5; by eapply list_elem_of_lookup_2).
  destruct Hl as (Hn & _ & Ho). pose proof (sum_of_insert pending ts i _ outside Hi) as S1. pose proof (sum_of_insert idle ts i _ outside Hi) as S2.
  pose proof (sum_of_insert entered ts i _ outside Hi) as S3. cbn [pending idle entered] in S1, S2, S3.
  assert (Hp : 0 <= sum_of pending (<[i := outside]> ts)).
  { apply sum_of_nonneg, (pending_nonneg q ad). by apply Forall_insert. }
  unfold clean_up in E. destruct (Z.eqb_spec (nNow l) 0) as [E0|E0]; cbn [negb] in E; injection E as <- <- <-.
  - split; cbn [queue nIdle nTotal m_result nTodo]; try done; try lia.
    + by apply Forall_insert.
    + intros c Hc Hf. destruct (I8 c Hc Hf) as [?|[?|Hr]]; [by left|by right; left|]. right. right. eapply found_without; [done|simpl; tauto|done].
    + intros l0. destruct i as [|i]; [by rewrite list_lookup_insert_eq by (by eapply lookup_lt_Some)|]. rewrite list_lookup_insert_ne by done. apply I9.
  - rewrite !wrap_small by (split; lia). match goal with |- inv 1 ?x _ _ => set (q' := x) end.
    assert (Hmono : m_result q <> None -> m_result q' <> None) by (intros Hm; simpl; destruct (local_result l), (m_result q); done).
    assert (Hloc : local_result l <> None -> m_result q' <> None) by (intros Hm; simpl; destruct (local_result l), (m_result q); done).
    set (ts' := if _ : bool then _ else ts).
    assert (Hi' : ts' !! i = Some (at_lock l)).
    { subst ts'. destruct i as [|i]; [by rewrite andb_false_r|]. destruct (_ && _); [by rewrite list_lookup_alter_ne|done]. }
    assert (Hsum : forall f, (forall t, f (notify t) = f t) -> sum_of f ts' = sum_of f ts).
    { intros f Hf. subst ts'. destruct (_ && _); [by apply sum_of_alter|done]. }
    assert (Hthr : Forall (thread_ok q ad) ts').
    { subst ts'. destruct (_ && _); [|done]. apply Forall_alter; [done|]. intros t _. apply thread_ok_notify. }
    rewrite <- (Hsum pending) in * by (by intros []). rewrite <- (Hsum idle) in * by (by intros []). rewrite <- (Hsum entered) in * by (by intros []).
    split; rewrite ?(sum_of_insert _ ts' i _ outside Hi'); cbn [pending idle entered].
    + simpl. lia.
    + simpl. lia.
    + simpl. lia.
    + rewrite (proj2 (Z.eqb_neq _ _) E0). simpl. lia.
    + apply Forall_insert; [|done]. eapply Forall_impl; [exact Hthr|]. intros t. by apply thread_ok_result.
    + exact I6.
    + intros e. simpl. destruct (local_result l) as [e'|] eqn:El, (m_result q) as [r|] eqn:Er; intros [= <-]; try (apply I7; done).
      destruct (Ho e' eq_refl) as [?|?]; done.
    + intros c Hc Hf. assert (local_result l = None \/ local_result l <> None) as [Hn'|Hn'] by (destruct (local_result l); [right|left]; done); [|right; left; by apply Hloc].
      destruct (I8 c Hc Hf) as [?|[?|(t & Ht & Hr)]]; [by left|right; left; auto|]. right. right. exists t. split; [|done].
      apply (elem_of_insert_other _ _ (at_lock l)); [done| |intros ->; simpl in Hr; tauto].
      subst ts'. destruct (_ && _); [|done]. apply list_elem_of_lookup in Ht as [j Hj]. apply list_elem_of_lookup.
      destruct (decide (j = 0%nat)) as [->|Hj0].
      * exists 0%nat. rewrite list_lookup_alter_eq, Hj. simpl. by destruct t.
      * exists j. by rewrite list_lookup_alter_ne.
    + intros l0. destruct i as [|i]; [by rewrite list_lookup_insert_eq by (by eapply lookup_lt_Some)|]. rewrite list_lookup_insert_ne by done.
      subst ts'. cbn [is_master negb]. rewrite andb_true_r. destruct (Z.eqb_spec (nTodo q - nNow l) 0).
      * rewrite list_lookup_alter_eq. destruct (ts !! 0%nat) as [[]|]; simpl; done.
      * intros Hs. split; [by apply (I9 l0)|done].
Qed.

Lemma inv_wake q ts ad i l :
  inv 0 q ts ad -> ts !! i = Some (waiting l true) ->
  inv 1 {| queue := queue q; nIdle := nIdle q - 1; nTotal := nTotal q; m_result := m_result q; nTodo := nTodo q |} (<[i := outside]> ts) ad.
Proof.
  intros [I1 I2 I3 I4 I5 I6 I7 I8 I9] Hi. split; rewrite ?(sum_of_insert _ ts i _ outside Hi); cbn [pending idle entered queue nIdle nTotal m_result nTodo]; try done; try lia.
  - by apply Forall_insert.
  - intros c Hc Hf. destruct (I8 c Hc Hf) as [?|[?|Hr]]; [by left|by right; left|]. right. right. eapply found_without; [done|by intros []|done].
  - intros l0. destruct i as [|i]; [by rewrite list_lookup_insert_eq by (by eapply lookup_lt_Some)|]. rewrite list_lookup_insert_ne by done. apply I9.
Qed.

Lemma batch_size_range q ts ad :
  inv 1 q ts ad -> queue q <> [] -> 1 <= batch_size q <= Z.of_nat (length (queue q)).
Proof.
  intros [_ _ I3 I4 _ _ _ _ _] Hq. unfold batch_size. destruct (queue q) as [|c cs]; [done|]. cbn [length].
  pose proof (sum_of_nonneg _ _ (idle_nonneg ts)). pose proof (sum_of_nonneg _ _ (entered_nonneg ts)).
  assert (Z.of_nat (S (length cs)) / (nTotal q + nIdle q + 1) <= Z.of_nat (S (length cs))); [|lia].
  apply Z.div_le_upper_bound; [lia|]. nia.
Qed.

(** What the master returns is the verdict on the checks of the round. *)
Definition verdict_of (ad : list T) (r : option R) : Prop :=
  match r with None => Forall (fun c => check c = None) ad | Some e => origin ad e end.

Lemma inv_return q ts ad :
  inv 1 q ts ad -> queue q = [] -> nTodo q = 0 ->
  verdict_of ad (m_result q) /\
  inv 0 {| queue := []; nIdle := nIdle q; nTotal := nTotal q - 1; m_result := None; nTodo := nTodo q |} ts [].
Proof.
  intros [I1 I2 I3 I4 I5 I6 I7 I8 I9] Hq H0. rewrite Hq in *. cbn [length] in I1.
  assert (Hidle : Forall (fun t => pending t = 0) ts).
  { assert (Hs : sum_of pending ts = 0) by lia. pose proof (pending_nonneg _ _ _ I5) as Hn. clear -Hs Hn. induction Hn as [|t ts Ht Hn IH]; [apply Forall_nil_2|].
    simpl in Hs. pose proof (sum_of_nonneg _ _ Hn). apply Forall_cons_2; [lia|apply IH; lia]. }
  split.
  - destruct (m_result q) as [e|] eqn:Er; [by apply I7|]. apply Forall_forall. intros c Hc. destruct (check c) eqn:Ec; [|done].
    exfalso. destruct (I8 c Hc) as [Hn|[Hn|(t & Ht & Hr)]]; [congruence|by apply elem_of_nil in Hn|congruence|].
    rewrite Forall_forall in Hidle, I5. specialize (Hidle t Ht). specialize (I5 t Ht).
    destruct t as [|l|l b|l]; simpl in *; try done; [by destruct Hr|]. destruct I5 as [I5 _]. lia.
  - split; cbn [queue nIdle nTotal m_result nTodo length]; try done; try lia.
    + rewrite Forall_forall in Hidle, I5 |- *. intros t Ht. specialize (Hidle t Ht). specialize (I5 t Ht). destruct t as [|l|l b|l]; simpl in *; try done.
      * destruct I5 as (J1 & J2 & _). split_and!; [done|done|]. intros e He. rewrite J2 in He; done.
      * lia.
    + intros c Hc. by apply elem_of_nil in Hc.
Qed.

(** The end of a critical section: a result, a wait or a batch. *)
Lemma inv_select q ts ad i l :
  inv 1 q ts ad -> ts !! i = Some outside ->
  exists q' x, select (is_master i) q l = Some (q', x) /\
    match x with
    | inl r => is_master i = true /\ verdict_of ad r /\ inv 0 q' ts []
    | inr t => inv 0 q' (<[i := t]> ts) ad
    end.
Proof.
  intros I Hi. pose proof I as [I1 I2 I3 I4 I5 I6 I7 I8 I9]. unfold select. destruct (queue q) as [|c0 cs] eqn:Eq.
  - destruct (is_master i && (nTodo q =? 0)) eqn:Em.
    + apply andb_prop in Em as [Em E0]. apply Z.eqb_eq in E0. destruct (inv_return q ts ad I Eq E0) as [Hv Hi']. eexists _, (inl _). split; [done|]. by split_and!.
    + eexists _, (inr _). split; [done|]. pose proof (sum_of_insert idle ts i _ (waiting l false) Hi). pose proof (sum_of_insert entered ts i _ (waiting l false) Hi).
      pose proof (sum_of_insert pending ts i _ (waiting l false) Hi). cbn [pending idle entered] in *.
      split; cbn [queue nIdle nTotal m_result nTodo]; try done; try (simpl; simpl in I1; lia).
      * by apply Forall_insert.
      * intros c Hc Hf. destruct (I8 c Hc Hf) as [?|[?|Hr]]; [by left|by right; left|]. right. right. eapply found_without; [done|by intros []|done].
      * intros l0 Hl0. split; [done|]. destruct i as [|i]; [|by rewrite list_lookup_insert_ne in Hl0 by done; destruct (I9 l0 Hl0)].
        simpl in Em. by apply Z.eqb_neq.
  - pose proof (batch_size_range q ts ad I ltac:(by rewrite Eq)) as Hb. rewrite <- Eq in *. set (n := batch_size q) in *. clear Eq.
    rewrite (proj2 (Z.leb_le _ _)) by lia. set (k := Z.to_nat (Z.of_nat (length (queue q)) - n)).
    assert (Hk : (k <= length (queue q))%nat) by lia. assert (Hn : Z.of_nat k + n = Z.of_nat (length (queue q))) by lia.
    eexists _, (inr _). split; [done|]. set (t := working _).
    pose proof (sum_of_insert idle ts i _ t Hi). pose proof (sum_of_insert entered ts i _ t Hi). pose proof (sum_of_insert pending ts i _ t Hi).
    cbn [pending idle entered nNow t] in *.
    assert (Hsub : drop k (queue q) ⊆ ad) by (intros x Hx; apply I6; by eapply subseteq_drop).
    split; cbn [queue nIdle nTotal m_result nTodo]; try done; try (rewrite ?length_take; lia).
    + apply Forall_insert; [eapply Forall_impl; [exact I5|]; intros x; by apply thread_ok_result|]. simpl. split_and!; [lia|rewrite length_drop; lia|done|].
      by destruct (m_result q).
    + intros x Hx. apply I6. by eapply subseteq_take.
    + intros c Hc Hf. destruct (I8 c Hc Hf) as [Hin|[?|Hr]]; [|by right; left|right; right; eapply found_without; [done|by intros []|done]].
      rewrite <- (take_drop k (queue q)) in Hin. apply elem_of_app in Hin as [Hin|Hin]; [by left|]. right.
      destruct (m_result q) eqn:Er; [by left|]. right. exists t. split; [by apply (elem_of_insert_new _ _ outside)|done].
    + intros l0 Hl0. destruct i as [|i].
      * rewrite list_lookup_insert_eq in Hl0 by (by eapply lookup_lt_Some). done.
      * rewrite list_lookup_insert_ne in Hl0 by done. destruct (I9 l0 Hl0) as [E0 _]. rewrite E0 in *. simpl in *. split; [by rewrite take_nil|lia].
Qed.

Lemma inv_execute q ts ad i l : inv 0 q ts ad -> ts !! i = Some (working l) -> inv 0 q (<[i := at_lock (execute l)]> ts) ad.
Proof.
  intros [I1 I2 I3 I4 I5 I6 I7 I8 I9] Hi.
  assert (Hl : thread_ok q ad (working l)) by (rewrite Forall_forall in I5; apply I5; by eapply list_elem_of_lookup_2).
  destruct Hl as (L1 & L2 & L3 & L4). assert (Hne : vChecks l <> []) by (intros E; rewrite E in L2; simpl in L2; lia).
  split; rewrite ?(sum_of_insert _ ts i _ (at_lock (execute l)) Hi); cbn [pending idle entered execute nNow]; try done; try lia.
  - rewrite (proj2 (Z.eqb_neq _ _)) by lia. lia.
  - apply Forall_insert; [done|]. simpl. split_and!; [lia|lia|]. intros e. destruct (do_work l); [|left; by apply L4].
    intros E. right. by apply (run_batch_origin (vChecks l) (local_result l)).
  - intros c Hc Hf. destruct (I8 c Hc Hf) as [?|[?|(t & Ht & Hr)]]; [by left|by right; left|]. right. right.
    apply list_elem_of_lookup in Ht as [j Hj]. destruct (decide (i = j)) as [<-|Hij].
    + rewrite Hi in Hj. injection Hj as <-. destruct Hr as [D1 D2]. exists (at_lock (execute l)). split; [by eapply elem_of_insert_new|].
      simpl. rewrite D1. split; [lia|]. by apply (run_batch_found _ _ c).
    + exists t. split; [|done]. apply list_elem_of_lookup. exists j. by rewrite list_lookup_insert_ne.
  - intros l0. destruct i as [|i]; [by rewrite list_lookup_insert_eq by (by eapply lookup_lt_Some)|]. rewrite list_lookup_insert_ne by done. apply I9.
Qed.

(** Notifications change nothing but which threads are awake. *)
Definition maybe_notified (t t' : thread) : Prop := t' = t \/ t' = notify t.

Lemma notified_by_maybe all ts ts' : notified_by all ts ts' -> Forall2 maybe_notified ts ts'.
Proof.
  assert (Hrefl : Forall2 maybe_notified ts ts) by (apply Forall_Forall2_diag, Forall_forall; intros; by left).
  unfold notified_by. destruct all.
  - intros ->. clear Hrefl. induction ts as [|t ts IH]; simpl; constructor; [by right|done].
  - intros [(i & l & Hi & ->)|[_ ->]]; [|done]. clear Hrefl Hi. revert i. induction ts as [|t ts IH]; intros [|i]; try done.
    + constructor; [by right|]. apply Forall_Forall2_diag, Forall_forall. intros. by left.
    + constructor; [by left|apply IH].
Qed.

Lemma maybe_notified_sum f ts ts' : (forall t, f (notify t) = f t) -> Forall2 maybe_notified ts ts' -> sum_of f ts' = sum_of f ts.
Proof. intros Hf. induction 1 as [|t t' ts ts' [->| ->] _ IH]; simpl; rewrite ?Hf; lia. Qed.

Lemma maybe_notified_elem ts ts' t c : Forall2 maybe_notified ts ts' -> t ∈ ts -> will_report c t -> t ∈ ts'.
Proof.
  induction 1 as [|x x' ts ts' Hx _ IH]; intros Ht Hr; [by apply elem_of_nil in Ht|]. apply elem_of_cons in Ht as [->|Ht]; [|right; by apply IH].
  destruct Hx as [->| ->]; [by left|]. destruct x; [by left|by left|done|by left].
Qed.

Lemma thread_ok_more q ad ad' t : ad ⊆ ad' -> thread_ok q ad t -> thread_ok q ad' t.
Proof.
  intros Hs. assert (Ho : forall e, origin ad e -> origin ad' e) by (intros e (c & Hc & E); exists c; auto).
  destruct t as [|l|l b|l]; simpl; [done| |done|].
  - intros (H1 & H2 & H3). split_and!; [done|done|]. intros e He. destruct (H3 e He); auto.
  - intros (H1 & H2 & H3 & H4). split_and!; try done. by transitivity ad.
Qed.

Lemma inv_add q ts ts' ad checks all :
  inv 0 q ts ad -> ts !! 0%nat = Some outside -> Z.of_nat (length ad + length checks) < 2 ^ 32 -> notified_by all ts ts' ->
  inv 0 (Add q checks) ts' (ad ++ checks).
Proof.
  intros [I1 I2 I3 I4 I5 I6 I7 I8 I9] H0 Hb Hn. pose proof (notified_by_maybe _ _ _ Hn) as Hm.
  assert (Hp : 0 <= sum_of pending ts) by (apply sum_of_nonneg; by eapply pending_nonneg). unfold Add.
  assert (Hsub : ad ⊆ ad ++ checks) by (intros x Hx; apply elem_of_app; by left).
  split; cbn [queue nIdle nTotal m_result nTodo]; rewrite ?(maybe_notified_sum _ ts ts') by (done || by intros []); try done; try (rewrite ?length_app; lia).
  - rewrite wrap_small by (split; lia). rewrite length_app. lia.
  - rewrite wrap_small by (split; lia). rewrite length_app. lia.
  - clear -I5 Hm Hsub. induction Hm as [|t t' ts ts' Ht _ IH]; [apply Forall_nil_2|]. apply Forall_cons_1 in I5 as [H1 H2].
    apply Forall_cons_2; [|by apply IH]. apply (thread_ok_result q); [done|]. apply (thread_ok_more _ ad); [done|].
    destruct Ht as [->| ->]; [done|by apply thread_ok_notify].
  - intros x Hx. apply elem_of_app in Hx as [Hx|Hx]; apply elem_of_app; [left; auto|by right].
  - intros e He. destruct (I7 e He) as (c & Hc & E). exists c. split; [by apply Hsub|done].
  - intros c Hc Hf. apply elem_of_app in Hc as [Hc|Hc]; [|left; apply elem_of_app; by right].
    destruct (I8 c Hc Hf) as [?|[?|(t & Ht & Hr)]]; [left; apply elem_of_app; by left|by right; left|]. right. right. exists t. split; [|done].
    by eapply maybe_notified_elem.
  - intros l Hl. destruct Hm as [|t t' ts ts' [->| ->] _]; [done| |]; simpl in *; simplify_eq; done.
Qed.

Lemma inv_owner s s' : inv 0 (shared s) (threads s) (added s) -> owner_step s s' -> inv 0 (shared s') (threads s') (added s').
Proof.
  intros I [checks ts H0 _ Hb Hn|H0|i l Hi]; cbn [shared threads added].
  - by eapply inv_add.
  - destruct I as [I1 I2 I3 I4 I5 I6 I7 I8 I9]. split; rewrite ?(sum_of_insert _ _ _ _ (at_lock new_locals) H0); cbn [pending idle entered nNow new_locals]; try done; try (simpl; lia).
    + by apply Forall_insert.
    + intros c Hc Hf. destruct (I8 c Hc Hf) as [?|[?|Hr]]; [by left|by right; left|]. right. right. eapply found_without; [done|by intros []|done].
    + intros l. by rewrite list_lookup_insert_eq by (by eapply lookup_lt_Some).
  - destruct I as [I1 I2 I3 I4 I5 I6 I7 I8 I9]. split; rewrite ?(sum_of_insert _ _ _ _ (waiting l true) Hi); cbn [pending idle entered]; try done; try lia.
    + by apply Forall_insert.
    + intros c Hc Hf. destruct (I8 c Hc Hf) as [?|[?|Hr]]; [by left|by right; left|]. right. right. eapply found_without; [done|by intros []|done].
    + intros l0. destruct i as [|i]; [by rewrite list_lookup_insert_eq by (by eapply lookup_lt_Some)|]. rewrite list_lookup_insert_ne by done. apply I9.
Qed.

(** ** What the threads do *)

(** A bound on the steps that are left without new work. *)
Definition weight (t : thread) : Z :=
  match t with
  | outside | waiting _ false => 0
  | waiting _ true => 1
  | at_lock l => if nNow l =? 0 then 1 else 2
  | working _ => 3
  end.
Definition measure (s : system) : Z := 4 * Z.of_nat (length (queue (shared s))) + sum_of weight (threads s).

Lemma weight_nonneg ts : Forall (fun t => 0 <= weight t) ts.
Proof. apply Forall_forall. intros [|l|l []|l] _; simpl; try lia. destruct (_ =? 0); lia. Qed.

Lemma weight_notify ts i : sum_of weight (alter notify i ts) <= sum_of weight ts + 1.
Proof.
  revert i. induction ts as [|t ts IH]; intros [|i].
  - change (0 <= 0 + 1). lia.
  - change (0 <= 0 + 1). lia.
  - change (weight (notify t) + sum_of weight ts <= weight t + sum_of weight ts + 1). destruct t as [|l|l []|l]; simpl; lia.
  - change (weight t + sum_of weight (alter notify i ts) <= weight t + sum_of weight ts + 1). specialize (IH i). lia.
Qed.

(** A thread in a critical section, of weight at least [w] before it. *)
Lemma settle_ok s i l q ts w :
  inv 1 q (<[i := outside]> ts) (added s) -> (i < length ts)%nat -> 1 <= w ->
  4 * Z.of_nat (length (queue q)) + sum_of weight (<[i := outside]> ts) + w <= measure s ->
  exists x s' r, select (is_master i) q l = Some x /\ settle s i ts x = (s', r) /\
    inv 0 (shared s') (threads s') (added s') /\ 0 <= measure s' < measure s /\
    match r with
    | Some v => is_master i = true /\ verdict_of (added s) v
    | None => added s' = added s
    end.
Proof.
  intros I Hi Hw Hm. assert (Ho : <[i := outside]> ts !! i = Some outside) by (by apply list_lookup_insert_eq).
  destruct (inv_select q _ (added s) i l I Ho) as (q' & x & E & Hx). pose proof (sum_of_nonneg _ _ (weight_nonneg (<[i := outside]> ts))) as Hn.
  assert (Hq : match x with inl _ => queue q' = [] | inr t => 4 * Z.of_nat (length (queue q')) + weight t < 4 * Z.of_nat (length (queue q)) + w end).
  { unfold select in E. destruct (queue q) as [|c cs] eqn:Eq; [destruct (_ && _); injection E as <- <-; simpl; (done || lia)|].
    pose proof (batch_size_range q _ _ I ltac:(by rewrite Eq)) as Hb. rewrite <- Eq in *. destruct (0 <=? _); [|done]. injection E as <- <-.
    cbn [queue weight]. rewrite length_take. lia. }
  destruct x as [v|t].
  - destruct Hx as (Hm' & Hv & Hi'). eexists _, _, _. split; [exact E|]. split; [reflexivity|]. unfold measure in *. cbn [shared threads added].
    rewrite Hq. cbn [length]. split_and!; try done; lia.
  - eexists _, _, _. split; [exact E|]. split; [reflexivity|]. unfold measure in *. cbn [shared threads added].
    rewrite list_insert_insert_eq in Hx. pose proof (sum_of_insert weight _ _ _ t Ho) as S. rewrite list_insert_insert_eq in S. cbn [weight] in S.
    pose proof (sum_of_nonneg _ _ (weight_nonneg (<[i := t]> ts))). split_and!; try done; lia.
Qed.

(** Every step a thread can take: it succeeds, keeps the invariant and lowers the bound. *)
Definition step_ok (s s' : system) (r : option (option R)) : Prop :=
  inv 0 (shared s') (threads s') (added s') /\ 0 <= measure s' < measure s /\ forall v, r = Some v -> verdict_of (added s) v.

Lemma lock_ok s i l q l' wake :
  inv 0 (shared s) (threads s) (added s) -> threads s !! i = Some (at_lock l) -> clean_up (is_master i) (shared s) l = (q, l', wake) ->
  exists x s' r, select (is_master i) q l' = Some x /\
    settle s i (if wake then alter notify 0%nat (threads s) else threads s) x = (s', r) /\ step_ok s s' r.
Proof.
  intros I Hi Ec. pose proof (inv_clean_up _ _ _ _ _ _ _ _ _ I Hi eq_refl Ec) as I1.
  set (ts := if wake then alter notify 0%nat (threads s) else threads s) in *.
  assert (Hlen : (i < length ts)%nat) by (subst ts; destruct wake; rewrite ?length_alter; by eapply lookup_lt_Some).
  assert (Hq : queue q = queue (shared s)) by (unfold clean_up in Ec; destruct (negb _); injection Ec as <- <- <-; done).
  assert (Hm : 4 * Z.of_nat (length (queue q)) + sum_of weight (<[i := outside]> ts) + 1 <= measure s).
  { unfold measure. rewrite Hq. subst ts. destruct wake.
    - assert (E0 : nNow l <> 0 /\ i <> 0%nat).
      { unfold clean_up in Ec. destruct (Z.eqb_spec (nNow l) 0); cbn [negb] in Ec; injection Ec as _ _ Ew; [done|]. split; [done|]. intros ->. simpl in Ew. by rewrite andb_false_r in Ew. }
      destruct E0 as [E0 Ei]. rewrite (sum_of_insert _ _ _ (at_lock l)) by (by rewrite list_lookup_alter_ne). cbn [weight].
      rewrite (proj2 (Z.eqb_neq _ _) E0). pose proof (weight_notify (threads s) 0). lia.
    - rewrite (sum_of_insert _ _ _ _ _ Hi). cbn [weight]. destruct (_ =? 0); lia. }
  destruct (settle_ok s i l' q ts 1 I1 Hlen ltac:(lia) Hm) as (x & s' & r & E1 & E2 & D1 & D2 & D3). exists x, s', r. split_and!; try done.
  split_and!; try done; [lia..|]. intros v ->. apply D3.
Qed.

Lemma wake_ok s i l :
  inv 0 (shared s) (threads s) (added s) -> threads s !! i = Some (waiting l true) ->
  exists x s' r, select (is_master i) {| queue := queue (shared s); nIdle := nIdle (shared s) - 1; nTotal := nTotal (shared s);
                                          m_result := m_result (shared s); nTodo := nTodo (shared s) |} l = Some x /\
    settle s i (threads s) x = (s', r) /\ step_ok s s' r.
Proof.
  intros I Hi. pose proof (inv_wake _ _ _ _ _ I Hi) as I1.
  destruct (settle_ok s i l _ (threads s) 1 I1) as (x & s' & r & E1 & E2 & D1 & D2 & D3).
  - by eapply lookup_lt_Some.
  - lia.
  - unfold measure. rewrite (sum_of_insert _ _ _ _ _ Hi). cbn [weight queue]. lia.
  - exists x, s', r. split_and!; try done. split_and!; try done; [lia..|]. intros v ->. apply D3.
Qed.

Lemma thread_step_ok s s' r : inv 0 (shared s) (threads s) (added s) -> thread_step s s' r -> step_ok s s' r.
Proof.
  intros I [i l q l' wake x s1 r1 Hi Ec Es Et|i l x s1 r1 Hi Es Et|i l Hi].
  - destruct (lock_ok s i l q l' wake I Hi Ec) as (x' & s2 & r2 & E1 & E2 & D). rewrite Es in E1. injection E1 as <-. rewrite Et in E2. by injection E2 as <- <-.
  - destruct (wake_ok s i l I Hi) as (x' & s2 & r2 & E1 & E2 & D). rewrite Es in E1. injection E1 as <-. rewrite Et in E2. by injection E2 as <- <-.
  - split_and!; [by apply inv_execute| | |done]; unfold measure; cbn [shared threads]; rewrite (sum_of_insert _ _ _ _ _ Hi); cbn [weight execute nNow].
    + pose proof (sum_of_nonneg _ _ (weight_nonneg (<[i := outside]> (threads s)))) as Hn. rewrite (sum_of_insert _ _ _ _ _ Hi) in Hn. cbn [weight] in Hn. destruct (_ =? 0); lia.
    + destruct (_ =? 0); lia.
Qed.

Lemma reachable_inv n s : reachable n s -> inv 0 (shared s) (threads s) (added s).
Proof.
  induction 1 as [|s s' r _ IH Hs|s s' _ IH Hs]; [|by eapply thread_step_ok|by eapply inv_owner].
  assert (Hz : forall f, f outside = 0 -> f (at_lock new_locals) = 0 -> sum_of f (outside :: replicate n (at_lock new_locals)) = 0).
  { intros f H1 H2. simpl. rewrite H1. clear H1. induction n as [|n IH]; simpl; [done|]. rewrite H2. lia. }
  split; cbn [start shared threads added new_queue queue nIdle nTotal m_result nTodo length]; rewrite ?Hz by done; try done.
  - apply Forall_cons_2; [done|]. apply Forall_replicate. simpl. split_and!; [lia|done|done].
  - intros c Hc. by apply elem_of_nil in Hc.
Qed.

(** While the master is inside, some thread can move. *)
Lemma can_move s :
  inv 0 (shared s) (threads s) (added s) -> threads s !! 0%nat <> Some outside -> (0 < length (threads s))%nat ->
  exists s' r, thread_step s s' r.
Proof.
  intros I H0 Hl. pose proof I as [I1 I2 I3 I4 I5 I6 I7 I8 I9].
  assert (Hlock : forall i l, threads s !! i = Some (at_lock l) -> exists s' r, thread_step s s' r).
  { intros i l Hi. destruct (clean_up (is_master i) (shared s) l) as [[q l'] wake] eqn:Ec.
    destruct (lock_ok s i l q l' wake I Hi Ec) as (x & s2 & r2 & E1 & E2 & _). exists s2, r2. by eapply step_lock. }
  assert (Hwork : forall i l, threads s !! i = Some (working l) -> exists s' r, thread_step s s' r).
  { intros i l Hi. eexists _, _. by apply (step_execute s i l). }
  destruct (lookup_lt_is_Some_2 (threads s) 0 Hl) as [t Ht]. destruct t as [|l|l [|]|l]; [done|by eapply Hlock| | |by eapply Hwork].
  - destruct (wake_ok s 0 l I Ht) as (x & s2 & r2 & E1 & E2 & _). exists s2, r2. by eapply step_wake.
  - destruct (I9 l Ht) as [Hq Hn]. rewrite Hq in I1. cbn [length] in I1.
    assert (Hex : exists i t, threads s !! i = Some t /\ pending t <> 0).
    { assert (Hs : sum_of pending (threads s) <> 0) by lia. clear -Hs. induction (threads s) as [|t ts IH]; [done|]. simpl in Hs.
      destruct (decide (pending t = 0)) as [E|E]; [|by exists 0%nat, t]. destruct IH as (i & t' & Hi & Hp); [lia|]. by exists (S i), t'. }
    destruct Hex as (i & t & Hi & Hp). destruct t as [|l0|l0 b|l0]; simpl in Hp; [done|by eapply Hlock|done|by eapply Hwork].
Qed.

Definition master_inside (s : system) : Prop := exists t, threads s !! 0%nat = Some t /\ t <> outside.

Lemma select_thread fMaster q l q' t : select fMaster q l = Some (q', inr t) -> t <> outside.
Proof.
  unfold select. destruct (queue q); [destruct (_ && _)|destruct (0 <=? _)]; intros E; try discriminate E; injection E as <- <-; discriminate.
Qed.

Lemma inside_insert (ts : list thread) i t0 t : ts !! 0%nat = Some t0 -> t0 <> outside -> t <> outside ->
  exists t', <[i := t]> ts !! 0%nat = Some t' /\ t' <> outside.
Proof.
  intros H0 Hn Ht. destruct i as [|i]; [|exists t0; by rewrite list_lookup_insert_ne].
  exists t. split; [|done]. apply list_lookup_insert_eq. by eapply lookup_lt_Some.
Qed.

(** The master leaves the loop with a result only. *)
Lemma master_stays s s' : thread_step s s' None -> master_inside s -> master_inside s' /\ added s' = added s.
Proof.
  intros Hs (t0 & H0 & Hne).
  assert (Hset : forall i (ts : list thread) t fM q l x, ts !! 0%nat = Some t -> t <> outside -> select fM q l = Some x ->
    settle s i ts x = (s', None) -> master_inside s' /\ added s' = added s).
  { intros i ts t fM q l [q' [r|t']] Ht Hn Es Et; [discriminate Et|]. injection Et as <-. split; [|done]. apply select_thread in Es.
    by apply (inside_insert ts i t t'). }
  inversion Hs as [i l q l' wake x s1 r1 Hi Ec Es Et|i l x s1 r1 Hi Es Et|i l Hi]; subst.
  - destruct wake; [|by eapply Hset]. apply (Hset i _ (notify t0) _ _ _ _ ltac:(rewrite list_lookup_alter_eq, H0; done) ltac:(by destruct t0) Es Et).
  - by eapply Hset.
  - split; [|done]. by apply (inside_insert (threads s) i t0).
Qed.

(** Whatever thread moves next, and next, the master returns the verdict on the checks [ad]. *)
Inductive completes (ad : list T) (s : system) : Prop :=
| completes_by :
    (exists s' r, thread_step s s' r) ->
    (forall s' v, thread_step s s' (Some v) -> verdict_of ad v) ->
    (forall s', thread_step s s' None -> completes ad s') -> completes ad s.

Lemma inv_completes s :
  inv 0 (shared s) (threads s) (added s) -> master_inside s -> completes (added s) s.
Proof.
  remember (Z.to_nat (measure s)) as m eqn:Em. revert s Em. induction m as [m IH] using lt_wf_ind. intros s -> I Hin.
  pose proof Hin as (t0 & H0 & Hne). split.
  - apply can_move; [done|congruence|by eapply lookup_lt_Some].
  - intros s' v Hs. destruct (thread_step_ok s s' _ I Hs) as (_ & _ & Hv). by apply Hv.
  - intros s' Hs. destruct (thread_step_ok s s' _ I Hs) as (I' & Hm & _). destruct (master_stays s s' Hs Hin) as [Hin' <-].
    by apply (IH (Z.to_nat (measure s'))); [lia|..].
Qed.

(** C6: The check queue is correct for every number of workers and every interleaving: once the owner
    has called [Complete], some thread can always move, every schedule ends with the return of the
    owner, and what it returns is no error exactly when every check added since the last call
    passes, and otherwise the error of one of these checks.  No wake-up is lost, and no result of an
    earlier round is reported. *)
Theorem check_queue_completes n s :
  reachable n s -> master_inside s -> completes (added s) s.
Proof. intros Hr. apply inv_completes. by eapply reachable_inv. Qed.
End Threads.

(** Two workers and two checks, one of which fails, after the owner has called [Complete]. *)
Definition failing_check (n : Z) : option Z := if n =? 7 then Some n else None.
Definition example_queue : system (T := Z) (R := Z) :=
  {| shared := Add new_queue [3; 7]; threads := [at_lock new_locals; at_lock new_locals; at_lock new_locals]; added := [3; 7] |}.

Lemma check_queue_completes_witness : completes failing_check 128 [3; 7] example_queue.
Proof.
  apply (check_queue_completes failing_check 128 2 example_queue).
  - set (s1 := {| shared := Add new_queue [3; 7]; threads := threads (start 2); added := [3; 7] |} : system (T := Z) (R := Z)).
    apply (reach_owner _ _ _ s1); [apply (reach_owner _ _ _ (start 2)); [apply reach_start|]|].
    + apply (step_add (start 2) [3; 7] (threads (start 2))); [reflexivity|discriminate|reflexivity|reflexivity].
    + apply (step_complete s1). reflexivity.
  - exists (at_lock new_locals). split; [reflexivity|discriminate].
Defined.
End Queue.
