(* ===== verification/Connect.v ===== *)
(** The connection of a block: [GetBlockScriptFlags], [IsBIP30Repeat] and [Chainstate::ConnectBlock]
    of [src/src/validation.cpp], with [WriteBlockUndo] of [src/src/node/blockstorage.cpp].

    The interpreter, the check of a signet solution, the outcome of the parallel check queue and the
    success of file writes are arguments.  The undo files are a map from blocks to their records. *)

From stdpp Require Import gmap strings.
From S2P Require Import Prelude ArithUint Version Primitives Sha256 Merkle Serialize Block Script Chain AuxPow Subsidy.
From S2P Require Import CoinsMap Coins Headers AssumeValid TxCheck Undo SigOps BlockCheck ScriptChecks.
From S2P Require Import Params.

#[local] Open Scope Z_scope.
#[local] Open Scope qbit_scope.

Abbreviation BLOCK_VALID_SCRIPTS := 5.
Abbreviation BLOCK_HAVE_UNDO := 16.
Abbreviation BLOCK_OPT_WITNESS_PRUNED := 512.
Abbreviation BIP34_IMPLIES_BIP30_LIMIT := 1983702.

Definition DeploymentActiveAt (b : CBlockIndex) (params : Params) (dep : BuriedDeployment) : bool :=
  DeploymentHeight params dep <=? nHeight b.

Definition GetBlockScriptFlags (params : Params) (block_index : ptr) (b : CBlockIndex) : Z :=
  let flags := Z.lor (Z.lor SCRIPT_VERIFY_P2SH SCRIPT_VERIFY_WITNESS) SCRIPT_VERIFY_TAPROOT in
  let flags :=
    (if P2MRHeight params <=? nHeight b then
       let flags := Z.lor flags SCRIPT_VERIFY_P2MR_RULES in
       if negb (P2MRValidationWeightV2ActiveAtHeight params (nHeight b))
       then Z.lor flags SCRIPT_VERIFY_P2MR_LEGACY_VALIDATION_WEIGHT else flags
     else flags) in
  let flags :=
    match List.find (fun x => bool_decide (fst x = block_index)) (script_flag_exceptions params) with
    | Some x => snd x
    | None => flags
    end in
  let add (flags : Z) (x : BuriedDeployment * Z) := if DeploymentActiveAt b params (fst x) then Z.lor flags (snd x) else flags in
  foldl add flags [(DEPLOYMENT_DERSIG, SCRIPT_VERIFY_DERSIG); (DEPLOYMENT_CLTV, SCRIPT_VERIFY_CHECKLOCKTIMEVERIFY);
                   (DEPLOYMENT_CSV, SCRIPT_VERIFY_CHECKSEQUENCEVERIFY); (DEPLOYMENT_SEGWIT, SCRIPT_VERIFY_NULLDUMMY)].

Definition IsBIP30Repeat (block_index : ptr) (b : CBlockIndex) : bool :=
  ((nHeight b =? 91842) && bool_decide (block_index = uint256_hex 0x00000000000a4d0a398161ffc163c503763b1f4360639393e0e4c8e300e0caec)) ||
  ((nHeight b =? 91880) && bool_decide (block_index = uint256_hex 0x00000000000743f190a18c5577a3c2d2a1f610ae9601ac046a38084ccb7cd721)).

(** [CBlockIndex::IsValid] on [nStatus]. *)
Definition IsValid (status nUpTo : Z) : bool :=
  if negb (Z.land status BLOCK_FAILED_MASK =? 0) then false else nUpTo <=? Z.land status BLOCK_VALID_MASK.

(** An entry with another status and undo position. *)
Definition with_status (b : CBlockIndex) (status undo : Z) : CBlockIndex := {|
  pprev := pprev b; pskip := pskip b; pprev_permissionless := pprev_permissionless b; pprev_auxpow := pprev_auxpow b;
  nHeight := nHeight b; nFile := nFile b; nDataPos := nDataPos b; nUndoPos := undo; nChainWork := nChainWork b;
  nTx := nTx b; m_chain_tx_count := m_chain_tx_count b; nAuxPow := nAuxPow b; nStatus := status;
  bi_header := bi_header b; nSequenceId := nSequenceId b; nTimeMax := nTimeMax b |}.

(** Stores an entry and marks it for the next write of the index. *)
Definition store_entry (bm : BlockManager) (p : ptr) (b : CBlockIndex) : BlockManager :=
  {| m_block_index := <[p := b]> (m_block_index bm); m_dirty_blockindex := {[p]} ∪ m_dirty_blockindex bm |}.

(** What [ConnectBlock] changes beside the view and the block. *)
Record Chainstate (C : Type) := {
  m_chainman : ChainstateManager;
  undo_files : gmap (list Z) CBlockUndo;
  m_validation_cache : ValidationCache C }.
Arguments m_chainman {C} _.
Arguments undo_files {C} _.
Arguments m_validation_cache {C} _.
Arguments Build_Chainstate {C} _ _ _.

Inductive connect_result :=
| connected
| rejected (result : BlockValidationResult) (reason : string)
| fatal (message : string).

(** [position] is where the record was written, or the message of the failure. *)
Definition WriteBlockUndo {C} (position : string + Z) (blockundo : CBlockUndo) (cs : Chainstate C) (p : ptr)
  : option (Chainstate C * option string) :=
  let s := m_chainman cs in
  let! b := m_block_index (m_blockman s) !! p in
  if negb (Z.land (nStatus b) BLOCK_HAVE_UNDO =? 0) && negb (nFile b =? -1) then Some (cs, None)
  else
    match position with
    | inl message => Some (cs, Some message)
    | inr pos =>
        let bm := store_entry (m_blockman s) p (with_status b (Z.lor (nStatus b) BLOCK_HAVE_UNDO) pos) in
        Some (Build_Chainstate {| m_blockman := bm; m_best_header := m_best_header s |}
                (<[p := blockundo]> (undo_files cs)) (m_validation_cache cs), None)
    end.

Section Connect.
Context {V C : Type} `{CCoinsView V} `{ScriptExecutionCache C} `{MultiWay}.
Context (VerifyScript : CScript -> CScript -> list (list Z) -> Z -> CTransaction * nat * Z * list CTxOut -> option string).
Context (signet_solution : CBlock -> bool).
(** What the check queue returns for the checks it was given. *)
Context (Complete : list CScriptCheck -> option string).
Context (fuzz : bool) (params : Params) (AssumedValidBlock : uint256) (MinimumChainWork : base_uint).
Context (HasThreads : bool).

(** ** One transaction *)

(** The variables of the loop over the transactions. *)
Record connecting := {
  c_view : CCoinsViewCache V;
  c_cache : ValidationCache C;
  nFees : Z;
  nSigOpsCost : Z;
  c_checks : list CScriptCheck;
  c_undo : list CTxUndo }.

Definition with_view (s : connecting) (view : CCoinsViewCache V) (fees : Z) : connecting := {|
  c_view := view; c_cache := c_cache s; nFees := fees; nSigOpsCost := nSigOpsCost s;
  c_checks := c_checks s; c_undo := c_undo s |}.

Fixpoint prevheights (view : CCoinsViewCache V) (ins : list CTxIn) : option (CCoinsViewCache V * list Z) :=
  match ins with
  | [] => Some (view, [])
  | txin :: ins =>
      let! '(view, coin) := AccessCoin view (prevout txin) in
      let! '(view, heights) := prevheights view ins in
      Some (view, coin_nHeight coin :: heights)
  end.

Section Block.
Context (idx : BlockMap) (pindex : ptr) (b : CBlockIndex) (nLockTimeFlags flags : Z) (fScriptChecks fJustCheck : bool).

(** The inputs of a transaction that is not a coinbase. *)
Definition connect_inputs (s : connecting) (tx : CTransaction) : option (connecting * verdict) :=
  let! '(view, r) := CheckTxInputs tx (c_view s) (nHeight b) in
  match r with
  | inl (_, reason) => Some (with_view s view (nFees s), Some (BLOCK_CONSENSUS, reason))
  | inr txfee =>
      let! fees := sarith 64 (nFees s + txfee) in
      if negb (MoneyRange fees)
      then Some (with_view s view fees, Some (BLOCK_CONSENSUS, "bad-txns-accumulated-fee-outofrange"%string))
      else
        let! '(view, heights) := prevheights view (vin tx) in
        let! final := SequenceLocks idx tx nLockTimeFlags heights pindex in
        Some (with_view s view fees,
              if negb final then Some (BLOCK_CONSENSUS, "bad-txns-nonfinal"%string) else None)
  end.

(** The scripts of a transaction, run here or given to the queue. *)
Definition connect_scripts (s : connecting) (tx : CTransaction) : option (connecting * verdict) :=
  if negb (IsCoinBase tx) && fScriptChecks then
    let! '(view, vc, r) := CheckInputScripts VerifyScript tx (c_view s) flags fJustCheck None (c_cache s) HasThreads in
    let s := {| c_view := view; c_cache := vc; nFees := nFees s; nSigOpsCost := nSigOpsCost s;
                c_checks := c_checks s ++ match r with inr checks => checks | inl _ => [] end; c_undo := c_undo s |} in
    Some (s, match r with inl (_, reason) => Some (BLOCK_CONSENSUS, reason) | inr _ => None end)
  else Some (s, None).

(** The body of the loop; [first] is [i == 0]. *)
Definition connect_tx (s : connecting) (first : bool) (tx : CTransaction) : option (connecting * verdict) :=
  let! restricted := (if fRestrictedOutputMode params then HasOnlyRestrictedOutputModeOutputs tx params (nHeight b) else Some true) in
  if negb restricted then Some (s, Some (BLOCK_CONSENSUS, "bad-txns-output-not-p2mr"%string))
  else
    let! '(s, v) := (if negb (IsCoinBase tx) then connect_inputs s tx else Some (s, None)) in
    match v with
    | Some v => Some (s, Some v)
    | None =>
        let! '(view, cost) := GetTransactionSigOpCost tx (c_view s) flags in
        let! cost := sarith 64 (nSigOpsCost s + cost) in
        let s := {| c_view := view; c_cache := c_cache s; nFees := nFees s; nSigOpsCost := cost;
                    c_checks := c_checks s; c_undo := c_undo s |} in
        if MAX_BLOCK_SIGOPS_COST <? cost then Some (s, Some (BLOCK_CONSENSUS, "bad-blk-sigops"%string))
        else
          let! '(s, v) := connect_scripts s tx in
          match v with
          | Some v => Some (s, Some v)
          | None =>
              let! '(view, undo) := UpdateCoins tx (c_view s) {| vprevout := [] |} (nHeight b) in
              Some ({| c_view := view; c_cache := c_cache s; nFees := nFees s; nSigOpsCost := nSigOpsCost s;
                       c_checks := c_checks s; c_undo := c_undo s ++ (if first then [] else [undo]) |}, None)
          end
    end.

Fixpoint connect_txs (s : connecting) (first : bool) (txs : list CTransaction) : option (connecting * verdict) :=
  match txs with
  | [] => Some (s, None)
  | tx :: txs =>
      let! '(s, v) := connect_tx s first tx in
      match v with
      | Some v => Some (s, Some v)
      | None => connect_txs s false txs
      end
  end.
End Block.

(** ** BIP 30 *)

(** Whether the view has one of the outputs of [txid] from index [o] on. *)
Fixpoint have_outputs (view : CCoinsViewCache V) (txid : uint256) (outs : list CTxOut) (o : Z) (found : bool)
  : option (CCoinsViewCache V * bool) :=
  match outs with
  | [] => Some (view, found)
  | _ :: outs =>
      let! '(view, have) := Cache_HaveCoin view {| op_hash := txid; op_n := wrap 32 o |} in
      have_outputs view txid outs (o + 1) (found || have)
  end.

Fixpoint overwrites (view : CCoinsViewCache V) (txs : list CTransaction) (found : bool) : option (CCoinsViewCache V * bool) :=
  match txs with
  | [] => Some (view, found)
  | tx :: txs =>
      let! '(view, found) := have_outputs view (GetHash tx) (vout tx) 0 found in
      overwrites view txs found
  end.

Definition enforce_bip30 (idx : BlockMap) (pindex : ptr) (b : CBlockIndex) (prev : ptr) : option bool :=
  let! pindexBIP34height := GetAncestor idx prev (BIP34Height params) in
  let known := match pindexBIP34height with Some a => bool_decide (a = BIP34Hash params) | None => false end in
  Some ((negb (IsBIP30Repeat pindex b) && negb known) || (BIP34_IMPLIES_BIP30_LIMIT <=? nHeight b)).

(** ** [ConnectBlock] *)

(** The two flags about the witness of a block; [height] is that of the block. *)
Definition block_missing_witness (block : CBlock) (height : Z) : bool :=
  DeploymentActiveAfter height params DEPLOYMENT_SEGWIT &&
  negb (GetWitnessCommitmentIndex block =? NO_WITNESS_COMMITMENT) && negb (HasAnyWitnessData block).

Definition witness_unavailable (block : CBlock) (b : CBlockIndex) (height : Z) : bool :=
  block_missing_witness block height || (negb (Z.land (nStatus b) BLOCK_OPT_WITNESS_PRUNED =? 0) && negb (HasAnyWitnessData block)).

(** From the BIP 30 check to the verdict; the view, the caches and the undo records. *)
Definition connect_contents (idx : BlockMap) (pindex : ptr) (b : CBlockIndex) (prev : ptr) (vc : ValidationCache C)
    (block : CBlock) (view : CCoinsViewCache V) (fScriptChecks fJustCheck : bool) : option (connecting * verdict) :=
  let! bip30 := enforce_bip30 idx pindex b prev in
  let! '(view, repeated) := (if (bip30 : bool) then overwrites view (vtx block) false else Some (view, false)) in
  let nLockTimeFlags := (if DeploymentActiveAt b params DEPLOYMENT_CSV then LOCKTIME_VERIFY_SEQUENCE else 0) in
  let flags := GetBlockScriptFlags params pindex b in
  let s := {| c_view := view; c_cache := vc; nFees := 0; nSigOpsCost := 0; c_checks := []; c_undo := [] |} in
  let! '(s, v) :=
    (if repeated then Some (s, Some (BLOCK_CONSENSUS, "bad-txns-BIP30"%string))
     else connect_txs idx pindex b nLockTimeFlags flags fScriptChecks fJustCheck s true (vtx block)) in
  let! blockReward := sarith 64 (nFees s + GetBlockSubsidy (nHeight b) params) in
  let! coinbase := head (vtx block) in
  let! value := GetValueOut coinbase in
  let v := match v with
           | Some v => Some v
           | None => if blockReward <? value then Some (BLOCK_CONSENSUS, "bad-cb-amount"%string) else None
           end in
  let v := match v with
           | Some v => Some v
           | None =>
               if HasThreads && fScriptChecks then
                 match Complete (c_checks s) with
                 | Some error => Some (BLOCK_CONSENSUS, ("block-script-verify-flag-failed (" +:+ error +:+ ")")%string)
                 | None => None
                 end
               else None
           end in
  Some (s, v).

(** After the checks: the undo record, the status of the entry, the best block of the view. *)
Definition finish_connect (cs : Chainstate C) (pindex : ptr) (position : string + Z) (s : connecting)
  : option (Chainstate C * CCoinsViewCache V * connect_result) :=
  let cs := Build_Chainstate (m_chainman cs) (undo_files cs) (c_cache s) in
  let! '(cs, failure) := WriteBlockUndo position {| vtxundo := c_undo s |} cs pindex in
  match failure with
  | Some message => Some (cs, c_view s, fatal message)
  | None =>
      let m := m_chainman cs in
      let! b := m_block_index (m_blockman m) !! pindex in
      let bm :=
        (if negb (IsValid (nStatus b) BLOCK_VALID_SCRIPTS)
         then store_entry (m_blockman m) pindex (with_status b (RaiseValidity (nStatus b) BLOCK_VALID_SCRIPTS) (nUndoPos b))
         else m_blockman m) in
      Some (Build_Chainstate {| m_blockman := bm; m_best_header := m_best_header m |} (undo_files cs) (m_validation_cache cs),
            SetBestBlock (c_view s) pindex, connected)
  end.

(** The state, the flags of the block, the view and the result. *)
Definition ConnectBlock (cs : Chainstate C) (f : block_flags) (block : CBlock) (pindex : ptr) (view : CCoinsViewCache V)
    (position : string + Z) (fJustCheck : bool) : option (Chainstate C * block_flags * CCoinsViewCache V * connect_result) :=
  let idx := m_block_index (m_blockman (m_chainman cs)) in
  let! b := idx !! pindex in
  assert! bool_decide (pindex = HeaderGetHash (pure (header block)));
  let! '(f, v) := CheckBlock fuzz signet_solution params f block (negb fJustCheck) (negb fJustCheck) in
  match v with
  | Some (BLOCK_MUTATED, _) =>
      Some (cs, f, view, fatal "Corrupt block found indicating potential hardware failure."%string)
  | Some (r, reason) => Some (cs, f, view, rejected r reason)
  | None =>
      let '(view, best) := Cache_GetBestBlock view in
      assert! bool_decide (default (replicate 32 0) (pprev b) = best);
      if bool_decide (pindex = hashGenesisBlock params) then
        Some (cs, f, if fJustCheck then view else SetBestBlock view pindex, connected)
      else
        let! height := (match pprev b with Some p => let! pb := idx !! p in sarith 32 (nHeight pb + 1) | None => Some 0 end) in
        let! heavy := (if negb (block_missing_witness block height) then CheckBlockWeight block else Some None) in
        match heavy with
        | Some (r, reason) => Some (cs, f, view, rejected r reason)
        | None =>
            let! skip := CanSkipScriptChecks AssumedValidBlock MinimumChainWork (m_chainman cs) pindex (witness_unavailable block b height) in
            let! prev := pprev b in
            let! '(s, v) := connect_contents idx pindex b prev (m_validation_cache cs) block view (negb skip) fJustCheck in
            match v with
            | Some (r, reason) =>
                Some (Build_Chainstate (m_chainman cs) (undo_files cs) (c_cache s), f, c_view s, rejected r reason)
            | None =>
                if fJustCheck
                then Some (Build_Chainstate (m_chainman cs) (undo_files cs) (c_cache s), f, c_view s, connected)
                else
                  let! '(cs, view, r) := finish_connect cs pindex position s in Some (cs, f, view, r)
            end
        end
  end.
End Connect.
