(* ===== verification/ConnectOk.v ===== *)
(** What [ConnectBlock] accepts and what it does to the coins.

    The rules of a block on top of a set of coins are stated on maps ([block_spends],
    [scripts_verified], [connects]); the theorems say that the code of [Connect] decides exactly
    these rules, never fails an assertion, and leaves the coins and undo records they describe. *)

From stdpp Require Import gmap strings sorting.
From S2P Require Import Prelude ArithUint Version Primitives Sha256 Merkle Serialize Block Script Chain AuxPow Subsidy.
From S2P Require Import CoinsMap Coins Headers AssumeValid TxCheck Undo SigOps BlockCheck ScriptChecks CheckQueue Connect.
From S2P Require Import Params.

#[local] Open Scope Z_scope.
#[local] Open Scope qbit_scope.
#[local] Opaque Hash Hash2 SHA256D64 HashWriter_GetHash GetHash GetWitnessHash.

(** ** Sizes of transactions *)

Lemma ser_list_length {A} (f : format A) l : (forall x, (1 <= length (Ser f x))%nat) -> (length l <= length (ser_list f l))%nat.
Proof. intros Hf. induction l as [|x l IH]; simpl; [lia|]. rewrite length_app. specialize (Hf x). lia. Qed.

Lemma CTxIn_bytes i : (1 <= length (Ser CTxIn_fmt i))%nat.
Proof. simpl. rewrite !length_app. simpl. lia. Qed.

Lemma CTxOut_bytes o : (1 <= length (Ser CTxOut_fmt o))%nat.
Proof. simpl. rewrite !length_app. simpl. lia. Qed.

Lemma tx_counts tx : Z.of_nat (length (vin tx)) <= size_no_witness tx /\ Z.of_nat (length (vout tx)) <= size_no_witness tx.
Proof.
  unfold size_no_witness, SerializeTransaction. cbn [andb]. rewrite !length_app. unfold vin_fmt, vout_fmt. cbn [Ser vector_fmt].
  rewrite !length_app. pose proof (ser_list_length CTxIn_fmt (vin tx) CTxIn_bytes). pose proof (ser_list_length CTxOut_fmt (vout tx) CTxOut_bytes). lia.
Qed.

(** ** Lock times *)

Lemma land_mask_range x : 0 <= Z.land x SEQUENCE_LOCKTIME_MASK < 2 ^ 16.
Proof. change SEQUENCE_LOCKTIME_MASK with (Z.ones 16). rewrite Z.land_ones by lia. apply Z.mod_pos_bound. lia. Qed.

Section Locks.
Context (idx : BlockMap) (Hok : idx_ok idx) (Hdata : forall q b, idx !! q = Some b -> data_ok idx b).

Lemma sequence_locks_total p b ins hs mh mt :
  idx !! p = Some b -> nHeight b < 2 ^ 31 - 2 ^ 16 -> length hs = length ins -> Forall (fun h => 0 <= h <= nHeight b) hs ->
  exists r, sequence_locks_loop idx p ins hs mh mt = Some r.
Proof.
  intros Hp Hh. revert hs mh mt. induction ins as [|i ins IH]; intros [|h hs] mh mt Hl Hf; simpl; try done; [by eexists|].
  apply Forall_cons_1 in Hf as [Hr Hf]. simpl in Hl. injection Hl as Hl. pose proof (land_mask_range (nSequence i)) as Hm.
  assert (IH' : forall mh mt, exists r, sequence_locks_loop idx p ins hs mh mt = Some r) by (intros; by apply IH). clear IH.
  destruct (negb (Z.land (nSequence i) SEQUENCE_LOCKTIME_DISABLE_FLAG =? 0)); [destruct (IH' mh mt) as [[? ?] ->]; by eexists|].
  destruct (negb _).
  - rewrite (sarith_ok 32 (h - 1)) by (split; simpl; lia).
    destruct (GetAncestor_anc idx p b (Z.max (h - 1) 0) Hok Hp ltac:(lia)) as (a & ba & -> & Ha & _).
    destruct (GetMedianTimePast_total idx a Hok ltac:(eauto)) as [m Em]. pose proof (GetMedianTimePast_range idx a m Hdata Em) as Rm. rewrite Em.
    pose proof (wrap32_range (Z.shiftl (Z.land (nSequence i) SEQUENCE_LOCKTIME_MASK) SEQUENCE_LOCKTIME_GRANULARITY)) as Rw.
    unfold in_u in *. rewrite !sarith_ok by (split; simpl; lia). destruct (IH' mh (Z.max mt (m + wrap 32 (Z.shiftl (Z.land (nSequence i) SEQUENCE_LOCKTIME_MASK) SEQUENCE_LOCKTIME_GRANULARITY) - 1))) as [[? ?] ->]. by eexists.
  - rewrite !sarith_ok by (split; simpl; lia). destruct (IH' (Z.max mh (h + Z.land (nSequence i) SEQUENCE_LOCKTIME_MASK - 1)) mt) as [[? ?] ->]. by eexists.
Qed.

Lemma SequenceLocks_total p b q tx flags hs :
  idx !! p = Some b -> pprev b = Some q -> nHeight b < 2 ^ 31 - 2 ^ 16 -> length hs = length (vin tx) ->
  Forall (fun h => 0 <= h <= nHeight b) hs -> exists r, SequenceLocks idx tx flags hs p = Some r.
Proof.
  intros Hp Hq Hh Hl Hf. unfold SequenceLocks, CalculateSequenceLocks. rewrite Hl, Nat.eqb_refl.
  assert (Heval : forall locks, exists r, EvaluateSequenceLocks idx p locks = Some r).
  { intros locks. unfold EvaluateSequenceLocks. rewrite Hp, Hq. destruct (Hok p b Hp) as (_ & Hlink & _). rewrite Hq in Hlink.
    destruct Hlink as (bq & Hbq & _). destruct (GetMedianTimePast_total idx q Hok ltac:(eauto)) as [m ->]. by eexists. }
  destruct (negb _); [apply Heval|].
  destruct (sequence_locks_total p b (vin tx) hs (-1) (-1) Hp Hh Hl Hf) as [[? locks] ->]. apply Heval.
Qed.
End Locks.

(** ** The rules *)

Definition tx_fee (u : gmap COutPoint Coin) (tx : CTransaction) : Z :=
  if IsCoinBase tx then 0 else value_in u (vin tx) - sum_out (vout tx).

(** Coins as blocks up to height [h] leave them. *)
Record coins_good (h : Z) (u : gmap COutPoint Coin) : Prop := {
  good_sane : coins_sane u;
  good_live : coins_live u;
  good_height : map_Forall (fun _ c => coin_nHeight c <= h) u }.

Section Rules.
Context (params : Params) (idx : BlockMap) (pindex : ptr) (h nLockTimeFlags flags : Z).
Context (VerifyScript : CScript -> CScript -> list (list Z) -> Z -> CTransaction * nat * Z * list CTxOut -> option string).

Definition outputs_allowed (tx : CTransaction) : Prop :=
  fRestrictedOutputMode params = true -> HasOnlyRestrictedOutputModeOutputs tx params h = Some true.

(** The inputs exist and are mature, their value covers the outputs, and the relative locks have expired. *)
Definition inputs_allowed (u : gmap COutPoint Coin) (fees : Z) (tx : CTransaction) : Prop :=
  pays u h tx (tx_fee u tx) /\ fees + tx_fee u tx <= MAX_MONEY /\
  SequenceLocks idx tx nLockTimeFlags (map coin_nHeight (spent_coins u (vin tx))) pindex = Some true.

Definition tx_spends (u : gmap COutPoint Coin) (fees cost : Z) (tx : CTransaction) : Prop :=
  outputs_allowed tx /\ (IsCoinBase tx = false -> inputs_allowed u fees tx) /\
  cost + sigop_cost u flags tx <= MAX_BLOCK_SIGOPS_COST.

(** All transactions in order, each on the coins the earlier ones leave. *)
Fixpoint block_spends (u : gmap COutPoint Coin) (fees cost : Z) (txs : list CTransaction) : Prop :=
  match txs with
  | [] => True
  | tx :: txs => tx_spends u fees cost tx /\
      block_spends (apply_tx u tx h) (fees + tx_fee u tx) (cost + sigop_cost u flags tx) txs
  end.

Fixpoint total_fees (u : gmap COutPoint Coin) (txs : list CTransaction) : Z :=
  match txs with [] => 0 | tx :: txs => tx_fee u tx + total_fees (apply_tx u tx h) txs end.

Definition tx_verified (u : gmap COutPoint Coin) (tx : CTransaction) : Prop :=
  IsCoinBase tx = false -> verified VerifyScript tx flags (map out (spent_coins u (vin tx))).

Fixpoint scripts_verified (u : gmap COutPoint Coin) (txs : list CTransaction) : Prop :=
  match txs with [] => True | tx :: txs => tx_verified u tx /\ scripts_verified (apply_tx u tx h) txs end.

Definition inputs_present (u : gmap COutPoint Coin) (tx : CTransaction) : Prop :=
  IsCoinBase tx = false -> Forall (spendable u h) (vin tx).

(** No transaction that can be applied repeats the identifier of a coin; a coinbase may. *)
Fixpoint identifiers_new (u : gmap COutPoint Coin) (txs : list CTransaction) : Prop :=
  match txs with
  | [] => True
  | tx :: txs => inputs_present u tx -> (IsCoinBase tx = false -> fresh u tx) /\ identifiers_new (apply_tx u tx h) txs
  end.

(** The script cache holds no entry of a transaction whose scripts fail. *)
Fixpoint cache_true {C} `{ScriptExecutionCacheLaws C} (vc : ValidationCache C) (u : gmap COutPoint Coin) (txs : list CTransaction) : Prop :=
  match txs with
  | [] => True
  | tx :: txs => inputs_present u tx ->
      (stored (m_script_execution_cache vc) (hashCacheEntry vc tx flags) -> tx_verified u tx) /\ cache_true vc (apply_tx u tx h) txs
  end.
End Rules.

Lemma coins_good_apply h u tx : 0 < h < 2 ^ 31 -> tx_ok tx -> coins_good h u -> coins_good h (apply_tx u tx h).
Proof.
  intros Hh Htx [H1 H2 H3]. split.
  - apply apply_tx_forall; [done|]. destruct (tx_ok_amounts _ Htx) as [Ha _]. eapply Forall_impl; [exact Ha|].
    intros o Ho _. split; [done|]. apply wrap_range. lia.
  - by apply apply_tx_live.
  - apply apply_tx_forall; [done|]. apply Forall_forall. intros o _ _. simpl. rewrite wrap_small by (split; lia). lia.
Qed.

Lemma tx_applies u tx h :
  tx_ok tx -> (IsCoinBase tx = false -> Forall (spendable u h) (vin tx)) -> (IsCoinBase tx = false -> fresh u tx) -> applies u tx.
Proof.
  intros Htx Hin Hf. split; [| |intros Hcb; split|done].
  - destruct (tx_ok_amounts _ Htx) as [Ha _]. eapply Forall_impl; [exact Ha|]. intros o Ho E. simpl in *. lia.
  - pose proof (tx_counts tx). pose proof (tx_ok_size _ Htx). unfold MAX_BLOCK_WEIGHT in *. lia.
  - apply Htx.
  - eapply Forall_impl; [by apply Hin|]. intros i (c & -> & _). by eexists.
Qed.

(** ** Scripts *)

Section Scripts.
Context {V C : Type} `{CoinsViewLaws V} `{ScriptExecutionCacheLaws C}.
Context (VerifyScript : CScript -> CScript -> list (list Z) -> Z -> CTransaction * nat * Z * list CTxOut -> option string).

(** The cache [vc'] is [vc] after lookups. *)
Definition cache_less (vc' vc : ValidationCache C) : Prop :=
  m_script_execution_cache_hasher vc' = m_script_execution_cache_hasher vc /\
  forall e, stored (m_script_execution_cache vc') e -> stored (m_script_execution_cache vc) e.

#[global] Instance cache_less_preorder : PreOrder cache_less.
Proof. split; [done|]. intros a b c [A1 A2] [B1 B2]. split; [congruence|auto]. Qed.

Lemma hashCacheEntry_less vc' vc tx flags : cache_less vc' vc -> hashCacheEntry vc' tx flags = hashCacheEntry vc tx flags.
Proof. intros [E _]. unfold hashCacheEntry. by rewrite E. Qed.

Lemma cache_true_less h flags vc vc' u txs :
  cache_less vc' vc -> cache_true h flags VerifyScript vc u txs -> cache_true h flags VerifyScript vc' u txs.
Proof.
  intros Hl. revert u. induction txs as [|tx txs IH]; intros u; simpl; [done|]. intros Hin Hpr. destruct (Hin Hpr) as [Htx Htxs]. split; [|auto].
  intros Hs. apply Htx. rewrite <- (hashCacheEntry_less vc' vc) by done. by apply Hl.
Qed.

Definition passes (check : CScriptCheck) : Prop := run_check VerifyScript check = Some None.

(** The cache [vc'] is [vc] after lookups and, where the scripts verify, perhaps with the entry [e]. *)
Definition cache_after (vc' vc : ValidationCache C) (e : uint256) (verified : Prop) : Prop :=
  m_script_execution_cache_hasher vc' = m_script_execution_cache_hasher vc /\
  forall x, stored (m_script_execution_cache vc') x -> stored (m_script_execution_cache vc) x \/ (x = e /\ verified).

Lemma CheckInputScripts_any inputs tx flags store vc pv :
  cache_ok inputs -> IsCoinBase tx = false -> Forall (fun i => is_Some (coins_of inputs !! prevout i)) (vin tx) ->
  (stored (m_script_execution_cache vc) (hashCacheEntry vc tx flags) -> tx_verified flags VerifyScript (coins_of inputs) tx) ->
  exists inputs' vc' r, CheckInputScripts VerifyScript tx inputs flags store None vc pv = Some (inputs', vc', r) /\
    reads inputs inputs' /\ cache_after vc' vc (hashCacheEntry vc tx flags) (store = true /\ tx_verified flags VerifyScript (coins_of inputs) tx) /\
    match r with
    | inl _ => pv = false /\ ~ tx_verified flags VerifyScript (coins_of inputs) tx
    | inr checks => if pv then Forall passes checks <-> tx_verified flags VerifyScript (coins_of inputs) tx
                    else checks = [] /\ tx_verified flags VerifyScript (coins_of inputs) tx
    end.
Proof.
  intros Hok Hcb Hin Hs. unfold CheckInputScripts. rewrite Hcb. set (e := hashCacheEntry vc tx flags) in *.
  pose proof (contains_stored (m_script_execution_cache vc) e (negb store)) as Hhit.
  pose proof (contains_keeps (m_script_execution_cache vc) e (negb store)) as Hkeep.
  destruct (contains (m_script_execution_cache vc) e (negb store)) as [c hit]. cbn [fst snd] in *.
  assert (Hless : forall P, cache_after (with_execution_cache vc c) vc e P) by (split; [reflexivity|intros x Hx; left; by apply Hkeep]).
  destruct hit.
  { specialize (Hs (Hhit eq_refl)). exists inputs, (with_execution_cache vc c), (inr []). split; [reflexivity|]. split_and!; try done; try apply Hless.
    destruct pv; [|done]. split; [done|]. intros _. apply Forall_nil_2. }
  destruct (spent_outputs_ok inputs (vin tx) Hok Hin) as (in1 & -> & R). unfold spent_coins at 1. rewrite !length_map, Nat.eqb_refl.
  assert (Hv : tx_verified flags VerifyScript (coins_of inputs) tx <->
    Forall passes (script_checks tx flags (map out (spent_coins (coins_of inputs) (vin tx))))) by (unfold tx_verified, verified, passes; tauto).
  destruct pv.
  { eexists in1, (with_execution_cache vc c), (inr _). split; [reflexivity|]. split_and!; [done|apply Hless|done]. }
  destruct (run_inline_ok VerifyScript (script_checks tx flags (map out (spent_coins (coins_of inputs) (vin tx)))) flags) as (r & -> & Hr).
  { apply script_checks_inputs. unfold spent_coins. by rewrite !length_map. }
  destruct r as [reason|].
  - exists in1, (with_execution_cache vc c), (inl reason). split; [reflexivity|]. split_and!; [done|apply Hless|done|].
    destruct Hr as (ch & error & Hch & E & _). rewrite Hv, Forall_forall. intros Hall. specialize (Hall ch Hch). unfold passes in Hall. congruence.
  - eexists in1, _, (inr []). split; [reflexivity|]. split_and!; [done| |done|by rewrite Hv]. destruct store; [|apply Hless].
    split; [reflexivity|]. intros x Hx. simpl in Hx. apply insert_stored in Hx as [->|Hx]; [right|left; by apply Hkeep]. by rewrite Hv.
Qed.

Lemma CheckInputScripts_ok inputs tx flags vc pv :
  cache_ok inputs -> IsCoinBase tx = false -> Forall (fun i => is_Some (coins_of inputs !! prevout i)) (vin tx) ->
  (stored (m_script_execution_cache vc) (hashCacheEntry vc tx flags) -> tx_verified flags VerifyScript (coins_of inputs) tx) ->
  exists inputs' vc' r, CheckInputScripts VerifyScript tx inputs flags false None vc pv = Some (inputs', vc', r) /\
    reads inputs inputs' /\ cache_less vc' vc /\
    match r with
    | inl _ => pv = false /\ ~ tx_verified flags VerifyScript (coins_of inputs) tx
    | inr checks => if pv then Forall passes checks <-> tx_verified flags VerifyScript (coins_of inputs) tx
                    else checks = [] /\ tx_verified flags VerifyScript (coins_of inputs) tx
    end.
Proof.
  intros Hok Hcb Hin Hs. destruct (CheckInputScripts_any inputs tx flags false vc pv Hok Hcb Hin Hs) as (in1 & vc' & r & E & R & [Ha Hb] & Hr).
  exists in1, vc', r. split_and!; try done. split; [done|]. intros x Hx. by destruct (Hb x Hx) as [?|[_ [? _]]].
Qed.

Lemma prevheights_ok inputs ins :
  cache_ok inputs -> Forall (fun i => is_Some (coins_of inputs !! prevout i)) ins ->
  exists inputs', prevheights inputs ins = Some (inputs', map coin_nHeight (spent_coins (coins_of inputs) ins)) /\ reads inputs inputs'.
Proof.
  revert inputs. induction ins as [|i ins IH]; intros inputs Hok Hin; simpl; [by exists inputs|].
  apply Forall_cons_1 in Hin as [[c Hc] Hin].
  destruct (AccessCoin_ok inputs (prevout i) Hok) as (in1 & c' & -> & Hok1 & Hc1 & Hb1 & Hr). rewrite Hc in Hr. subst c'.
  destruct (IH in1 Hok1) as (in2 & -> & R2); [by rewrite Hc1|]. rewrite Hc1, Hc. exists in2. split; [done|]. by apply (reads_trans _ in1).
Qed.
End Scripts.

(** ** One transaction *)

Section Transactions.
Context {V C : Type} `{CoinsViewLaws V} `{ScriptExecutionCacheLaws C}.
Context (VerifyScript : CScript -> CScript -> list (list Z) -> Z -> CTransaction * nat * Z * list CTxOut -> option string).
Context (params : Params) (HasThreads : bool).
Context (idx : BlockMap) (pindex : ptr) (b : CBlockIndex) (prev : ptr) (nLockTimeFlags flags : Z) (fScriptChecks : bool).
Context (Hok : idx_ok idx) (Hdata : forall q b, idx !! q = Some b -> data_ok idx b).
Context (Hpindex : idx !! pindex = Some b) (Hprev : pprev b = Some prev).
Context (Hheight : nHeight b < 2 ^ 31 - 2 ^ 16) (Hflags : flags_consistent flags).
Implicit Types s : @connecting V C.

#[local] Abbreviation h := (nHeight b).
#[local] Abbreviation coins s := (coins_of (c_view s)).
#[local] Abbreviation inputs_allowed := (inputs_allowed idx pindex h nLockTimeFlags).
#[local] Abbreviation tx_spends := (tx_spends params idx pindex h nLockTimeFlags flags).
#[local] Abbreviation tx_verified := (tx_verified flags VerifyScript).
#[local] Abbreviation connect_tx := (connect_tx VerifyScript params HasThreads idx pindex b nLockTimeFlags flags fScriptChecks false).

Lemma height_positive : 0 < h < 2 ^ 31.
Proof.
  destruct (Hok pindex b Hpindex) as (Hr & Hl & _). rewrite Hprev in Hl. destruct Hl as (pb & Hpb & E & _).
  destruct (Hok prev pb Hpb) as (Hr' & _). lia.
Qed.

Lemma spendable_inputs u tx : Forall (spendable u h) (vin tx) -> Forall (fun i => is_Some (u !! prevout i)) (vin tx).
Proof. intros Hs. eapply Forall_impl; [exact Hs|]. intros i (c & -> & _). by eexists. Qed.

Lemma spent_heights u ins :
  coins_good h u -> Forall (fun i => is_Some (u !! prevout i)) ins ->
  Forall (fun x => 0 <= x <= h) (map coin_nHeight (spent_coins u ins)).
Proof.
  intros [_ Hlive Hle] Hin. induction Hin as [|i ins [c Hc] _ IH]; simpl; [apply Forall_nil_2|]. apply Forall_cons_2; [|done].
  rewrite Hc. destruct (Hlive _ _ Hc) as [Hl _]. pose proof (Hle _ _ Hc). simpl in *. lia.
Qed.

Lemma connect_inputs_ok s tx :
  cache_ok (c_view s) -> coins_good h (coins s) -> tx_ok tx -> IsCoinBase tx = false -> 0 <= nFees s <= MAX_MONEY ->
  exists view fees v, connect_inputs idx pindex b nLockTimeFlags s tx = Some (with_view s view fees, v) /\
    reads (c_view s) view /\ 0 <= fees <= 2 * MAX_MONEY /\
    match v with
    | None => inputs_allowed (coins s) (nFees s) tx /\ fees = nFees s + tx_fee (coins s) tx /\ fees <= MAX_MONEY
    | Some (r, _) => r = BLOCK_CONSENSUS /\ ~ inputs_allowed (coins s) (nFees s) tx
    end.
Proof.
  intros Hc Hg Htx Hcb Hfees. pose proof height_positive as Hh. unfold connect_inputs, inputs_allowed.
  destruct (CheckTxInputs_ok (c_view s) tx h Hc (good_sane _ _ Hg) ltac:(lia) Htx Hcb) as (v1 & r & -> & R1 & Hr).
  assert (Hfee : tx_fee (coins s) tx = value_in (coins s) (vin tx) - sum_out (vout tx)) by (unfold tx_fee; by rewrite Hcb).
  destruct r as [[r reason]|fee].
  { eexists v1, _, _. split; [reflexivity|]. split_and!; [done|lia|lia|done|]. intros (Hp & _). by apply (Hr _ Hp). }
  destruct Hr as (Hs & Ef & Hf0 & Hmax). rewrite <- Ef in Hfee.
  destruct (tx_ok_amounts _ Htx) as [Hpos _]. pose proof (sum_out_nonneg _ Hpos).
  rewrite money_add_no_overflow by lia. destruct (MoneyRange (nFees s + fee)) eqn:Em; cbn [negb].
  2: { eexists v1, _, _. split; [reflexivity|]. split_and!; [done|lia|lia|done|]. intros (_ & Hle & _). apply not_true_iff_false in Em.
       apply Em, MoneyRange_spec. lia. }
  apply MoneyRange_spec in Em. pose proof (spendable_inputs _ _ Hs) as Hin. pose proof R1 as (Hok1 & Hc1 & _).
  destruct (prevheights_ok v1 (vin tx) Hok1) as (v2 & -> & R2); [by rewrite Hc1|]. rewrite Hc1.
  destruct (SequenceLocks_total idx Hok Hdata pindex b prev tx nLockTimeFlags (map coin_nHeight (spent_coins (coins s) (vin tx)))
    Hpindex Hprev Hheight) as [final Ef']; [unfold spent_coins; by rewrite !length_map|by apply spent_heights|]. rewrite Ef'.
  eexists v2, _, _. split; [reflexivity|]. split_and!; [by apply (reads_trans _ v1)|lia|lia|].
  destruct final; cbn [negb].
  - split_and!; [|lia|done|lia|lia]. split_and!; [done|lia|lia|done].
  - split; [done|]. by intros (_ & _ & ?).
Qed.

(** Scripts are run here, or left to the queue. *)
Lemma connect_scripts_ok s tx :
  cache_ok (c_view s) -> (IsCoinBase tx = false -> Forall (fun i => is_Some (coins s !! prevout i)) (vin tx)) ->
  (stored (m_script_execution_cache (c_cache s)) (hashCacheEntry (c_cache s) tx flags) -> tx_verified (coins s) tx) ->
  exists view vc checks v, connect_scripts VerifyScript HasThreads flags fScriptChecks false s tx =
      Some ({| c_view := view; c_cache := vc; nFees := nFees s; nSigOpsCost := nSigOpsCost s;
               c_checks := c_checks s ++ checks; c_undo := c_undo s |}, v) /\
    reads (c_view s) view /\ cache_less vc (c_cache s) /\
    match v with
    | None => fScriptChecks = true -> if HasThreads then Forall (passes VerifyScript) checks <-> tx_verified (coins s) tx else tx_verified (coins s) tx
    | Some (r, _) => r = BLOCK_CONSENSUS /\ HasThreads = false /\ fScriptChecks = true /\ ~ tx_verified (coins s) tx
    end.
Proof.
  intros Hc Hin Hs. unfold connect_scripts. destruct (IsCoinBase tx) eqn:Ecb; [|destruct fScriptChecks]; cbn [negb andb].
  - exists (c_view s), (c_cache s), [], None. rewrite app_nil_r. destruct s. split; [reflexivity|]. split_and!; try done.
    intros _. assert (Ht : forall u, tx_verified u tx) by (intros u E; congruence). destruct HasThreads; [|apply Ht].
    split; [intros _; apply Ht|intros _; apply Forall_nil_2].
  - destruct (CheckInputScripts_ok VerifyScript (c_view s) tx flags (c_cache s) HasThreads Hc Ecb (Hin eq_refl) Hs)
      as (v1 & vc & r & -> & R & Hl & Hr).
    destruct r as [[r reason]|checks].
    + destruct Hr as [Ht Hn]. eexists v1, vc, [], _. split; [reflexivity|]. by split_and!.
    + eexists v1, vc, checks, _. split; [reflexivity|]. split_and!; [done..|]. intros _. destruct HasThreads; [done|apply Hr].
  - exists (c_view s), (c_cache s), [], None. rewrite app_nil_r. destruct s. split; [reflexivity|]. by split_and!.
Qed.

(** The transaction has been applied; the checks it leaves to the queue decide its scripts. *)
Record tx_done s s' (first : bool) (tx : CTransaction) : Prop := {
  done_cache : cache_ok (c_view s');
  done_coins : coins s' = apply_tx (coins s) tx h;
  done_fees : nFees s' = nFees s + tx_fee (coins s) tx /\ nFees s' <= MAX_MONEY;
  done_cost : nSigOpsCost s' = nSigOpsCost s + sigop_cost (coins s) flags tx /\ nSigOpsCost s' <= MAX_BLOCK_SIGOPS_COST;
  done_undo : c_undo s' = c_undo s ++ (if first then [] else [undo_of (coins s) tx]);
  done_checks : exists checks, c_checks s' = c_checks s ++ checks /\
    (fScriptChecks = true -> HasThreads = true -> Forall (passes VerifyScript) checks <-> tx_verified (coins s) tx) }.

(** Scripts count here when no thread checks them later. *)
Definition checked_here (P : Prop) : Prop := fScriptChecks = true -> HasThreads = false -> P.

(** The state between two transactions. *)
Record state_good s : Prop := {
  st_cache : cache_ok (c_view s);
  st_coins : coins_good h (coins s);
  st_fees : 0 <= nFees s <= MAX_MONEY;
  st_cost : 0 <= nSigOpsCost s <= MAX_BLOCK_SIGOPS_COST }.

Lemma restricted_ok tx :
  exists r, (if fRestrictedOutputMode params then HasOnlyRestrictedOutputModeOutputs tx params h else Some true) = Some r /\
    (r = true <-> outputs_allowed params h tx).
Proof.
  unfold outputs_allowed. destruct (fRestrictedOutputMode params); [|by exists true].
  unfold HasOnlyRestrictedOutputModeOutputs. destruct (all_restricted_total (vout tx) params h) as [r ->]. exists r. split; [done|].
  split; [by intros -> _|]. intros E. by injection (E eq_refl).
Qed.

(** The step before the signature operations, for either kind of transaction. *)
Lemma connect_inputs_any s tx :
  state_good s -> tx_ok tx ->
  exists view fees v, (if negb (IsCoinBase tx) then connect_inputs idx pindex b nLockTimeFlags s tx else Some (s, None)) =
      Some (with_view s view fees, v) /\
    reads (c_view s) view /\ 0 <= fees <= 2 * MAX_MONEY /\
    match v with
    | None => (IsCoinBase tx = false -> inputs_allowed (coins s) (nFees s) tx) /\ fees = nFees s + tx_fee (coins s) tx /\ fees <= MAX_MONEY
    | Some (r, _) => r = BLOCK_CONSENSUS /\ ~ (IsCoinBase tx = false -> inputs_allowed (coins s) (nFees s) tx)
    end.
Proof.
  intros [Hc Hg Hfees _] Htx. destruct (IsCoinBase tx) eqn:Ecb; cbn [negb].
  - exists (c_view s), (nFees s), None. unfold with_view, tx_fee. rewrite Ecb. destruct s. split; [reflexivity|]. simpl in *.
    split_and!; try done; lia.
  - destruct (connect_inputs_ok s tx Hc Hg Htx Ecb Hfees) as (view & fees & v & -> & R & Hf & Hv).
    exists view, fees, v. split_and!; try done; try lia. destruct v as [[r reason]|]; [|naive_solver].
    destruct Hv as [-> Hn]. split; [done|]. intros Hall. by apply Hn, Hall.
Qed.

Lemma connect_tx_ok s first tx :
  state_good s -> tx_ok tx -> (inputs_present h (coins s) tx -> IsCoinBase tx = false -> fresh (coins s) tx) ->
  (inputs_present h (coins s) tx ->
   stored (m_script_execution_cache (c_cache s)) (hashCacheEntry (c_cache s) tx flags) -> tx_verified (coins s) tx) ->
  exists s' v, connect_tx s first tx = Some (s', v) /\ cache_ok (c_view s') /\ same_base (c_view s) (c_view s') /\ cache_less (c_cache s') (c_cache s) /\
    0 <= nFees s' <= 2 * MAX_MONEY /\
    match v with
    | None => tx_spends (coins s) (nFees s) (nSigOpsCost s) tx /\ checked_here (tx_verified (coins s) tx) /\ tx_done s s' first tx
    | Some (r, _) => r = BLOCK_CONSENSUS /\
        ~ (tx_spends (coins s) (nFees s) (nSigOpsCost s) tx /\ checked_here (tx_verified (coins s) tx))
    end.
Proof.
  intros Hst Htx Hfresh Hs. pose proof Hst as [Hc Hg Hfees Hcost]. unfold Connect.connect_tx, tx_spends.
  destruct (restricted_ok tx) as (restricted & -> & Hres). destruct restricted; cbn [negb].
  2: { exists s, (Some (BLOCK_CONSENSUS, "bad-txns-output-not-p2mr"%string)). split; [reflexivity|]. split_and!; try done; try lia.
       intros [(Ho & _) _]. by apply Hres in Ho. }
  destruct (connect_inputs_any s tx Hst Htx) as (view & fees & v & -> & (Hc1 & Hcoins1 & Hb1) & Hf & Hv).
  destruct v as [[r reason]|].
  { destruct Hv as [-> Hn]. eexists _, _. split; [reflexivity|]. split_and!; try done; try (simpl; lia). by intros [(_ & Hi & _) _]. }
  destruct Hv as (Hi & Ef & Hmax). cbn [c_view with_view].
  pose proof (tx_counts tx) as [Hnin _]. pose proof (tx_ok_size _ Htx) as Hsize. unfold MAX_BLOCK_WEIGHT in Hsize.
  assert (Hpr : inputs_present h (coins s) tx) by (intros E; apply (Hi E)).
  assert (Hin : IsCoinBase tx = false -> Forall (fun i => is_Some (coins s !! prevout i)) (vin tx)).
  { intros E. destruct (Hi E) as ((Hsp & _) & _). by apply spendable_inputs. }
  destruct (GetTransactionSigOpCost_ok view tx flags Hc1 Hflags) as (v2 & -> & (Hc2 & Hcoins2 & Hb2)); [lia|by rewrite Hcoins1|].
  rewrite Hcoins1. pose proof (sigop_cost_range (coins s) flags tx Hflags) as Hr. cbn [nSigOpsCost with_view].
  unfold MAX_BLOCK_SIGOPS_COST in Hcost. rewrite sarith_ok by (split; simpl; lia).
  destruct (Z.ltb_spec MAX_BLOCK_SIGOPS_COST (nSigOpsCost s + sigop_cost (coins s) flags tx)) as [Hbig|Hsmall].
  { eexists _, _. split; [reflexivity|]. cbn [c_view c_cache nFees with_view].
    split_and!; [done|by transitivity view|done|lia|lia|done|]. intros [(_ & _ & ?) _]. lia. }
  cbn [c_cache nFees c_checks c_undo with_view].
  edestruct (connect_scripts_ok {| c_view := v2; c_cache := c_cache s; nFees := fees; nSigOpsCost := nSigOpsCost s + sigop_cost (coins s) flags tx;
    c_checks := c_checks s; c_undo := c_undo s |} tx) as (v3 & vc & checks & v & -> & (Hc3 & Hcoins3 & Hb3) & Hless & Hv);
    cbn [c_view c_cache] in *; [done|by rewrite Hcoins2, Hcoins1|rewrite Hcoins2, Hcoins1; auto|]. rewrite Hcoins2, Hcoins1 in *.
  assert (Hbase : same_base (c_view s) v3) by (transitivity view; [done|]; by transitivity v2).
  destruct v as [[r reason]|].
  { destruct Hv as (-> & Ht & Hfs & Hn). eexists _, _. split; [reflexivity|]. cbn [c_view c_cache nFees]. split_and!; try done; try lia.
    intros [_ Hh]. by apply Hn, Hh. }
  destruct (UpdateCoins_ok v3 tx h Hc3) as (v4 & -> & (Hc4 & Hcoins4 & Hb4)).
  { rewrite Hcoins3. apply (tx_applies _ tx h); auto. }
  rewrite Hcoins3 in *. eexists _, _. split; [reflexivity|]. cbn [c_view c_cache nFees c_undo].
  split_and!; [done|by transitivity v3|done|lia|lia|by apply Hres|done|done| |].
  - intros Hfs Ht. specialize (Hv Hfs). by rewrite Ht in Hv.
  - split; cbn [c_view nFees nSigOpsCost c_undo c_checks]; try done. exists checks. split; [done|]. intros Hfs Ht. specialize (Hv Hfs). by rewrite Ht in Hv.
Qed.

Lemma state_good_next s s' first tx :
  state_good s -> tx_ok tx -> 0 <= nFees s' -> tx_done s s' first tx -> state_good s'.
Proof.
  intros [Hc Hg Hf Hk] Htx Hf' [D1 D2 D3 D4 _ _]. pose proof (sigop_cost_range (coins s) flags tx Hflags).
  split; [done| |lia|lia]. rewrite D2. apply coins_good_apply; [apply height_positive|done|done].
Qed.

#[local] Abbreviation block_spends := (block_spends params idx pindex h nLockTimeFlags flags).
#[local] Abbreviation scripts_verified := (scripts_verified h flags VerifyScript).
#[local] Abbreviation connect_txs := (connect_txs VerifyScript params HasThreads idx pindex b nLockTimeFlags flags fScriptChecks false).

(** All transactions have been applied. *)
Record txs_done s s' (first : bool) (txs : list CTransaction) : Prop := {
  all_cache : cache_ok (c_view s');
  all_coins : coins s' = apply_txs (coins s) txs h;
  all_good : coins_good h (coins s');
  all_fees : nFees s' = nFees s + total_fees h (coins s) txs /\ nFees s' <= MAX_MONEY;
  all_undo : c_undo s' = c_undo s ++ (if first then tail (undos_of (coins s) txs h) else undos_of (coins s) txs h);
  all_checks : exists checks, c_checks s' = c_checks s ++ checks /\
    (fScriptChecks = true -> HasThreads = true -> Forall (passes VerifyScript) checks <-> scripts_verified (coins s) txs) }.

Lemma txs_done_cons s s1 s' first tx txs :
  tx_done s s1 first tx -> txs_done s1 s' false txs -> txs_done s s' first (tx :: txs).
Proof.
  intros [D1 D2 [D3 _] _ D5 (c1 & D6 & D7)] [A1 A2 A3 [A4 A5] A6 (c2 & A7 & A8)]. rewrite D2 in *. split; try done.
  - split; [|done]. simpl. lia.
  - rewrite A6, D5, <- app_assoc. by destruct first.
  - exists (c1 ++ c2). rewrite A7, D6, <- app_assoc. split; [done|]. intros Hfs Ht. simpl. rewrite Forall_app, D7, A8 by done. done.
Qed.

Lemma connect_txs_ok s first txs :
  state_good s -> Forall tx_ok txs -> identifiers_new h (coins s) txs -> cache_true h flags VerifyScript (c_cache s) (coins s) txs ->
  exists s' v, connect_txs s first txs = Some (s', v) /\ cache_ok (c_view s') /\
    same_base (c_view s) (c_view s') /\ cache_less (c_cache s') (c_cache s) /\ 0 <= nFees s' <= 2 * MAX_MONEY /\
    match v with
    | None => block_spends (coins s) (nFees s) (nSigOpsCost s) txs /\ checked_here (scripts_verified (coins s) txs) /\ txs_done s s' first txs
    | Some (r, _) => r = BLOCK_CONSENSUS /\
        ~ (block_spends (coins s) (nFees s) (nSigOpsCost s) txs /\ checked_here (scripts_verified (coins s) txs))
    end.
Proof.
  revert s first. induction txs as [|tx txs IH]; intros s first Hst Htx Hid Hct; simpl.
  { pose proof Hst as [S1 S2 S3 S4]. exists s, None. split_and!; try done; try lia. split; try done; simpl; [lia| |].
    - destruct first; by rewrite app_nil_r.
    - exists []. rewrite app_nil_r. split; [done|]. intros _ _. split; [done|]. intros _. apply Forall_nil_2. }
  apply Forall_cons_1 in Htx as [Htx Htxs].
  destruct (connect_tx_ok s first tx Hst Htx ltac:(intros E; apply (Hid E)) ltac:(intros E; apply (Hct E))) as (s1 & v & -> & Hc1 & Hb1 & Hl1 & Hf1 & Hv).
  destruct v as [[r reason]|].
  { destruct Hv as [-> Hn]. eexists _, _. split; [reflexivity|]. split_and!; try done; try lia. intros [[Hsp _] Hck]. apply Hn. split; [done|].
    intros E1 E2. by apply (Hck E1 E2). }
  destruct Hv as (Hsp & Hck & Hd). assert (Hst1 : state_good s1) by (apply (state_good_next s s1 first tx); (done || lia)).
  pose proof Hd as [D1 D2 [D3 _] [D4 _] _ _]. assert (Hpr : inputs_present h (coins s) tx) by (intros E; apply Hsp, E).
  destruct (Hid Hpr) as [_ Hids]. destruct (Hct Hpr) as [_ Hcts].
  destruct (IH s1 false Hst1 Htxs) as (s2 & v & -> & Hc2 & Hb2 & Hl2 & Hf2 & Hv); [by rewrite D2|rewrite D2; by apply (cache_true_less VerifyScript _ _ (c_cache s))|].
  rewrite D2, D3, D4 in Hv. eexists _, _. split; [reflexivity|]. split; [done|]. split; [by transitivity (c_view s1)|].
  split; [by transitivity (c_cache s1)|]. split; [done|].
  destruct v as [[r reason]|].
  - destruct Hv as [-> Hn]. split; [done|]. intros [[_ Hsps] Hck']. apply Hn. split; [done|]. intros E1 E2. by apply (Hck' E1 E2).
  - destruct Hv as (Hsps & Hcks & Hds). split_and!; [done|done| |by apply (txs_done_cons s s1)].
    intros E1 E2. split; [by apply Hck|by apply Hcks].
Qed.
End Transactions.

(** ** The contents of a checked block *)

Lemma check_transactions_ok txs next : check_transactions txs next = Some None -> Forall tx_ok txs.
Proof.
  induction txs as [|tx txs IH]; simpl; [intros _; apply Forall_nil_2|].
  destruct (CheckTransaction_cases tx) as [[-> Htx]|(reason & -> & _)]; [|done]. intros E. apply Forall_cons_2; auto.
Qed.

Lemma check_contents_ok block :
  check_contents block = Some None ->
  exists coinbase txs, vtx block = coinbase :: txs /\ IsCoinBase coinbase = true /\ Forall (fun tx => IsCoinBase tx = false) txs /\
    Forall tx_ok (vtx block).
Proof.
  unfold check_contents. destruct (if _ : bool then Some true else _) as [[]|]; [done| |done].
  destruct (vtx block) as [|coinbase txs]; [done|]. destruct (IsCoinBase coinbase) eqn:Ecb; [|done]. cbn [negb tail].
  destruct (existsb IsCoinBase txs) eqn:Ex; [done|]. intros E. exists coinbase, txs. split_and!; [done|done| |by eapply check_transactions_ok].
  apply Forall_forall. intros tx Htx. destruct (IsCoinBase tx) eqn:E'; [|done].
  assert (existsb IsCoinBase txs = true) by (apply existsb_exists; exists tx; split; [by apply list_elem_of_In|done]). congruence.
Qed.

(** What the flag [fChecked] of a block remembers. *)
Definition flags_true (f : block_flags) (block : CBlock) : Prop := fChecked f = true -> check_contents block = Some None.

Lemma CheckBlock_contents `{MultiWay} fuzz signet params f f' block pow root :
  flags_true f block -> CheckBlock fuzz signet params f block pow root = Some (f', None) -> check_contents block = Some None.
Proof.
  intros Hf. unfold CheckBlock. destruct (fChecked f) eqn:Ef; [intros _; by apply Hf|].
  destruct (CheckBlockHeader _ _ _ _); [done|]. destruct (_ && _); [done|].
  destruct (if root : bool then _ else _) as [[f1 [v|]]|]; [done| |done].
  destruct (check_contents block) as [[v|]|]; done.
Qed.

(** ** Flags of the scripts *)

Lemma flags_consistent_lor f g : Z.land g SCRIPT_VERIFY_WITNESS = 0 -> flags_consistent f -> flags_consistent (Z.lor f g).
Proof.
  unfold flags_consistent. rewrite !Z.land_lor_distr_l. intros ->. rewrite Z.lor_0_r. intros Hf Hw E.
  apply Z.lor_eq_0_iff in E as [E _]. by apply Hf.
Qed.

Lemma GetBlockScriptFlags_consistent params p b :
  Forall (fun x => flags_consistent (snd x)) (script_flag_exceptions params) -> flags_consistent (GetBlockScriptFlags params p b).
Proof.
  intros Hex. unfold GetBlockScriptFlags.
  match goal with |- context [foldl ?add ?init _] => set (a := add); set (i := init) end.
  assert (Hi : flags_consistent i).
  { subst i. destruct (List.find _ _) as [x|] eqn:E; [|].
    - apply List.find_some in E as [E _]. rewrite Forall_forall in Hex. apply Hex. by apply list_elem_of_In.
    - destruct (_ <=? _); [destruct (negb _)|]; by vm_compute. }
  assert (Ha : forall f x, Z.land (snd x) SCRIPT_VERIFY_WITNESS = 0 -> flags_consistent f -> flags_consistent (a f x)).
  { intros f x Hx Hf. unfold a. destruct (DeploymentActiveAt _ _ _); [by apply flags_consistent_lor|done]. }
  cbn [foldl]. do 4 (apply Ha; [reflexivity|]). exact Hi.
Qed.

(** ** BIP 30 *)

(** An output of the transaction exists already. *)
Definition repeats (u : gmap COutPoint Coin) (tx : CTransaction) : Prop :=
  exists n, 0 <= n < Z.of_nat (length (vout tx)) /\ is_Some (u !! {| op_hash := GetHash tx; op_n := n |}).

Section Bip30.
Context {V : Type} `{CoinsViewLaws V}.
Implicit Types view : CCoinsViewCache V.

Lemma have_outputs_ok view txid outs i found :
  cache_ok view -> 0 <= i -> i + Z.of_nat (length outs) <= 2 ^ 32 ->
  exists view' r, have_outputs view txid outs i found = Some (view', r) /\ reads view view' /\
    (r = true <-> found = true \/ exists n, i <= n < i + Z.of_nat (length outs) /\ is_Some (coins_of view !! {| op_hash := txid; op_n := n |})).
Proof.
  revert view i found. induction outs as [|o outs IH]; intros view i found Hok Hi Hl; simpl in *.
  { exists view, found. split_and!; try done. split; [by left|]. intros [?|(n & Hn & _)]; [done|lia]. }
  destruct (Cache_HaveCoin_ok view {| op_hash := txid; op_n := wrap 32 i |} Hok) as (v1 & -> & Hok1 & Hc1 & Hb1).
  destruct (IH v1 (i + 1) (found || bool_decide (is_Some (coins_of view !! {| op_hash := txid; op_n := wrap 32 i |}))) Hok1)
    as (v2 & r & -> & R2 & Hr); [lia|lia|].
  exists v2, r. split; [done|]. split; [by apply (reads_trans _ v1)|]. rewrite Hr, Hc1, orb_true_iff, bool_decide_eq_true.
  rewrite wrap_small by (split; lia). split.
  - intros [[?|Hs]|(n & Hn & Hs)]; [by left|right; exists i; split; [lia|done]|right; exists n; split; [lia|done]].
  - intros [?|(n & Hn & Hs)]; [by left; left|]. destruct (decide (n = i)) as [->|Hne]; [by left; right|]. right. exists n. split; [lia|done].
Qed.

Lemma overwrites_ok view txs found :
  cache_ok view -> Forall tx_ok txs ->
  exists view' r, overwrites view txs found = Some (view', r) /\ reads view view' /\
    (r = true <-> found = true \/ Exists (repeats (coins_of view)) txs).
Proof.
  intros Hok Htx. revert view found Hok. induction Htx as [|tx txs Htx _ IH]; intros view found Hok; simpl.
  { exists view, found. split_and!; try done. rewrite Exists_nil. tauto. }
  pose proof (tx_counts tx) as [_ Hn]. pose proof (tx_ok_size _ Htx) as Hs. unfold MAX_BLOCK_WEIGHT in Hs.
  destruct (have_outputs_ok view (GetHash tx) (vout tx) 0 found Hok) as (v1 & r1 & -> & R1 & Hr1); [lia|lia|].
  pose proof R1 as (Hok1 & Hc1 & _). destruct (IH v1 r1 Hok1) as (v2 & r & -> & R2 & Hr). exists v2, r. split; [done|].
  split; [by apply (reads_trans _ v1)|]. rewrite Hr, Hr1, Hc1, Exists_cons. unfold repeats at 3. rewrite Z.add_0_l. tauto.
Qed.
End Bip30.

(** ** The block *)

Section Blocks.
Context {V C : Type} `{CoinsViewLaws V} `{ScriptExecutionCacheLaws C} `{MultiWay}.
Context (VerifyScript : CScript -> CScript -> list (list Z) -> Z -> CTransaction * nat * Z * list CTxOut -> option string).
Context (signet_solution : CBlock -> bool) (Complete : list CScriptCheck -> option string).
Context (fuzz : bool) (params : Params) (AssumedValidBlock : uint256) (MinimumChainWork : base_uint) (HasThreads : bool).

(** What a check reports to the queue. *)
Definition check_error (check : CScriptCheck) : option string := default (Some EmptyString) (run_check VerifyScript check).

(** The queue returns the verdict on its checks, as [CheckQueue] proves of every schedule. *)
Definition queue_correct : Prop := forall checks, Queue.verdict_of check_error checks (Complete checks).

Lemma queue_decides checks : queue_correct -> Complete checks = None <-> Forall (passes VerifyScript) checks.
Proof.
  intros Hq. specialize (Hq checks). unfold Queue.verdict_of in Hq.
  assert (Hp : forall c, passes VerifyScript c <-> check_error c = None).
  { intros c. unfold passes, check_error. destruct (run_check VerifyScript c) as [[]|]; simpl; split; congruence. }
  destruct (Complete checks) as [e|].
  - split; [done|]. intros Hall. destruct Hq as (c & Hc & E). rewrite Forall_forall in Hall. apply Hall, Hp in Hc. congruence.
  - split; [|done]. intros _. eapply Forall_impl; [exact Hq|]. intros c. apply Hp.
Qed.

Definition lock_flags (b : CBlockIndex) : Z := if DeploymentActiveAt b params DEPLOYMENT_CSV then LOCKTIME_VERIFY_SEQUENCE else 0.

(** The block can be connected on top of the coins [u]. *)
Record connects (idx : BlockMap) (p : ptr) (b : CBlockIndex) (prev : ptr) (scripts : Prop) (u : gmap COutPoint Coin) (block : CBlock) : Prop := {
  con_bip30 : enforce_bip30 params idx p b prev = Some true -> Forall (fun tx => ~ repeats u tx) (vtx block);
  con_spends : block_spends params idx p (nHeight b) (lock_flags b) (GetBlockScriptFlags params p b) u 0 0 (vtx block);
  con_scripts : scripts -> scripts_verified (nHeight b) (GetBlockScriptFlags params p b) VerifyScript u (vtx block);
  con_reward : sum_out (from_option vout [] (head (vtx block))) <= total_fees (nHeight b) u (vtx block) + GetBlockSubsidy (nHeight b) params }.

Context (Hqueue : queue_correct).
Context (Hexceptions : Forall (fun x => flags_consistent (snd x)) (script_flag_exceptions params)).

Lemma enforce_bip30_total idx p b prev pb :
  idx_ok idx -> idx !! prev = Some pb -> exists r, enforce_bip30 params idx p b prev = Some r.
Proof. intros Hok Hp. unfold enforce_bip30. rewrite (GetAncestor_spec idx prev pb _ Hok Hp). by eexists. Qed.

Lemma bip30_ok idx p b prev block view e :
  enforce_bip30 params idx p b prev = Some e -> cache_ok view -> Forall tx_ok (vtx block) ->
  exists view' repeated, (if e then overwrites view (vtx block) false else Some (view, false)) = Some (view', repeated) /\ reads view view' /\
    (repeated = false <-> (enforce_bip30 params idx p b prev = Some true -> Forall (fun tx => ~ repeats (coins_of view) tx) (vtx block))).
Proof.
  intros He Hc Htx. rewrite He. destruct e; [|by exists view, false].
  destruct (overwrites_ok view (vtx block) false Hc Htx) as (v1 & r & -> & R & Hr).
  exists v1, r. split_and!; try done. rewrite <- not_true_iff_false, Hr, Forall_Exists_neg. naive_solver.
Qed.

Lemma connect_contents_ok idx p b prev vc block view scripts coinbase txs :
  idx_ok idx -> (forall q b, idx !! q = Some b -> data_ok idx b) -> idx !! p = Some b -> pprev b = Some prev -> nHeight b < 2 ^ 31 - 2 ^ 16 ->
  vtx block = coinbase :: txs -> Forall tx_ok (vtx block) -> cache_ok view -> coins_good (nHeight b) (coins_of view) ->
  identifiers_new (nHeight b) (coins_of view) (vtx block) ->
  cache_true (nHeight b) (GetBlockScriptFlags params p b) VerifyScript vc (coins_of view) (vtx block) ->
  exists s v, connect_contents VerifyScript Complete params HasThreads idx p b prev vc block view scripts false = Some (s, v) /\
    cache_ok (c_view s) /\ same_base view (c_view s) /\ cache_less (c_cache s) vc /\
    match v with
    | None => connects idx p b prev (scripts = true) (coins_of view) block /\
        coins_of (c_view s) = apply_txs (coins_of view) (vtx block) (nHeight b) /\ coins_good (nHeight b) (coins_of (c_view s)) /\
        c_undo s = undos_of (apply_tx (coins_of view) coinbase (nHeight b)) txs (nHeight b)
    | Some (r, _) => r = BLOCK_CONSENSUS /\ ~ connects idx p b prev (scripts = true) (coins_of view) block
    end.
Proof.
  intros Hok Hdata Hp Hprev Hh Evtx Htx Hc Hg Hid Hct. unfold connect_contents. pose proof (Hok p b Hp) as (_ & Hlink & _).
  rewrite Hprev in Hlink. destruct Hlink as (pb & Hpb & _). destruct (enforce_bip30_total idx p b prev pb Hok Hpb) as [e He]. rewrite He.
  destruct (bip30_ok idx p b prev block view e He Hc Htx) as (v1 & repeated & -> & (Hc1 & Hcoins1 & Hb1) & Hrep).
  assert (Hcb : tx_ok coinbase) by (rewrite Evtx in Htx; by apply Forall_cons_1 in Htx as [? _]).
  pose proof (GetBlockSubsidy_in_range params (nHeight b)) as Hsub.
  assert (Hsum : forall f, 0 <= f <= 2 * MAX_MONEY -> sarith 64 (f + GetBlockSubsidy (nHeight b) params) = Some (f + GetBlockSubsidy (nHeight b) params)).
  { unfold MAX_MONEY, COIN in *. intros f Hf. apply sarith_ok. split; simpl; lia. }
  destruct repeated.
  { cbn [nFees]. rewrite Hsum, Evtx by (unfold MAX_MONEY, COIN; lia). cbn [head]. rewrite (GetValueOut_ok _ Hcb). eexists _, _. split; [reflexivity|].
    split_and!; try done. intros [Hno _ _ _]. by apply Hrep in Hno. }
  set (s := {| c_view := v1; c_cache := vc; nFees := 0; nSigOpsCost := 0; c_checks := []; c_undo := [] |}).
  assert (Hst : state_good b s).
  { split; simpl; [done|by rewrite Hcoins1|unfold MAX_MONEY, COIN; lia|unfold MAX_BLOCK_SIGOPS_COST; lia]. }
  destruct (connect_txs_ok VerifyScript params HasThreads idx p b prev (lock_flags b) (GetBlockScriptFlags params p b) scripts Hok Hdata Hp Hprev Hh
    (GetBlockScriptFlags_consistent _ _ _ Hexceptions) s true (vtx block) Hst Htx) as (s' & v & E & Hc' & Hb' & Hl' & Hf' & Hv);
    [simpl; by rewrite Hcoins1|simpl; by rewrite Hcoins1|].
  unfold lock_flags in E. rewrite E, Hsum, Evtx by done. cbn [head]. rewrite (GetValueOut_ok _ Hcb), <- Evtx. eexists _, _. split; [reflexivity|].
  split; [done|]. split; [by transitivity v1|]. split; [done|]. simpl (coins_of (c_view s)) in Hv. simpl (nFees s) in Hv. simpl (nSigOpsCost s) in Hv. rewrite Hcoins1 in Hv.
  destruct v as [[r reason]|].
  { destruct Hv as [-> Hn]. split; [done|]. intros [_ Hs1 Hs2 _]. apply Hn. split; [done|]. intros E1 _. by apply Hs2. }
  destruct Hv as (Hs1 & Hs2 & [A1 A2 A3 [A4 A5] A6 (checks & A7 & A8)]). simpl in A2, A4, A6, A7, A8. rewrite Hcoins1 in *. rewrite A4, Z.add_0_l.
  replace (from_option vout [] (head (vtx block))) with (vout coinbase) in * by (by rewrite Evtx).
  destruct (Z.ltb_spec (total_fees (nHeight b) (coins_of view) (vtx block) + GetBlockSubsidy (nHeight b) params) (sum_out (vout coinbase))); cbv iota.
  { split; [done|]. intros [_ _ _ Hrw]. rewrite Evtx in Hrw at 1. simpl in Hrw. lia. }
  assert (Hdone : (scripts = true -> scripts_verified (nHeight b) (GetBlockScriptFlags params p b) VerifyScript (coins_of view) (vtx block)) ->
    connects idx p b prev (scripts = true) (coins_of view) block).
  { intros Hsc. split; try done; [by apply Hrep|]. rewrite Evtx at 1. simpl. lia. }
  assert (Hres : coins_of (c_view s') = apply_txs (coins_of view) (vtx block) (nHeight b) /\
    coins_good (nHeight b) (coins_of (c_view s')) /\ c_undo s' = undos_of (apply_tx (coins_of view) coinbase (nHeight b)) txs (nHeight b)).
  { split_and!; try done. rewrite A6, Evtx. done. }
  destruct HasThreads; cbn [andb]; [|split; [apply Hdone; intros E1; by apply Hs2|done]].
  destruct scripts; [|split; [by apply Hdone|done]].
  destruct (Complete (c_checks s')) eqn:Ec.
  - split; [done|]. intros [_ _ Hsc _]. assert (Complete (c_checks s') = None) by (apply queue_decides; [exact Hqueue|]; rewrite A7; simpl; apply A8; auto). congruence.
  - split; [|done]. apply Hdone. intros _. apply A8; [done|done|]. apply queue_decides in Ec; [|exact Hqueue]. by rewrite A7 in Ec.
Qed.

(** ** After the checks *)

(** [GetUndoPos] is not null. *)
Definition has_undo (b : CBlockIndex) : bool := negb (Z.land (nStatus b) BLOCK_HAVE_UNDO =? 0) && negb (nFile b =? -1).

Lemma store_entry_ok (m : ChainstateManager) p b status undo :
  headers_reachable params m -> m_block_index (m_blockman m) !! p = Some b ->
  let m' := {| m_blockman := store_entry (m_blockman m) p (with_status b status undo); m_best_header := m_best_header m |} in
  headers_reachable params m' /\ extends (m_block_index (m_blockman m)) (m_block_index (m_blockman m')).
Proof.
  intros Hr Hp m'. destruct (headers_reachable_inv params m Hr) as (Hi & _). destruct (index_reachable_inv _ _ _ Hi) as (_ & _ & _ & Hd).
  split.
  - apply (hdr_mark params m p b); [done|done|done|]. apply union_subseteq. split; [|done]. apply singleton_subseteq_l, elem_of_dom. by eexists.
  - by apply (mark_extends _ p b).
Qed.

Lemma finish_connect_ok (cs : Chainstate C) p b pos (s : @connecting V C) :
  headers_reachable params (m_chainman cs) -> m_block_index (m_blockman (m_chainman cs)) !! p = Some b ->
  exists cs', finish_connect cs p (inr pos) s = Some (cs', SetBestBlock (c_view s) p, connected) /\
    headers_reachable params (m_chainman cs') /\
    extends (m_block_index (m_blockman (m_chainman cs))) (m_block_index (m_blockman (m_chainman cs'))) /\
    (forall q, q <> p -> m_block_index (m_blockman (m_chainman cs')) !! q = m_block_index (m_blockman (m_chainman cs)) !! q) /\
    m_validation_cache cs' = c_cache s /\
    undo_files cs' = (if has_undo b then undo_files cs else <[p := {| vtxundo := c_undo s |}]> (undo_files cs)).
Proof.
  intros Hr Hp. unfold finish_connect, WriteBlockUndo. cbn [m_chainman]. rewrite Hp. fold (has_undo b).
  destruct (has_undo b) eqn:Eu; cbn [m_chainman m_blockman m_block_index store_entry undo_files m_validation_cache m_best_header].
  - rewrite Hp. destruct (negb _).
    + destruct (store_entry_ok (m_chainman cs) p b (RaiseValidity (nStatus b) BLOCK_VALID_SCRIPTS) (nUndoPos b) Hr Hp) as [H1' H2'].
      eexists. split; [reflexivity|]. split_and!; try done. intros x Hx. simpl. by rewrite lookup_insert_ne.
    + eexists. split; [reflexivity|]. split_and!; try done. by destruct (m_chainman cs).
  - rewrite lookup_insert_eq. set (b1 := with_status b _ pos).
    destruct (store_entry_ok (m_chainman cs) p b (Z.lor (nStatus b) BLOCK_HAVE_UNDO) pos Hr Hp) as [H1' H2']. fold b1 in H1', H2'. destruct (negb _).
    + edestruct (store_entry_ok _ p b1 (RaiseValidity (nStatus b1) BLOCK_VALID_SCRIPTS) (nUndoPos b1) H1') as [H3' H4']; [apply lookup_insert_eq|].
      eexists. split; [reflexivity|]. split_and!; try done; [by etransitivity; [exact H2'|]|]. intros x Hx. simpl. by rewrite !lookup_insert_ne.
    + eexists. split; [reflexivity|]. split_and!; try done. intros x Hx. simpl. by rewrite lookup_insert_ne.
Qed.

(** ** [ConnectBlock] *)

(** The state a block is connected in: its entry is a child of the best block of the view, and the
    flags of the block are true. *)
Record ready (cs : Chainstate C) (f : block_flags) (block : CBlock) (p : ptr) (b : CBlockIndex) (prev : ptr)
    (view : CCoinsViewCache V) : Prop := {
  rdy_headers : headers_reachable params (m_chainman cs);
  rdy_entry : m_block_index (m_blockman (m_chainman cs)) !! p = Some b;
  rdy_prev : pprev b = Some prev;
  rdy_genesis : p <> hashGenesisBlock params;
  rdy_hash : p = HeaderGetHash (pure (header block));
  rdy_height : nHeight b < 2 ^ 31 - 2 ^ 16;
  rdy_cache : cache_ok view;
  rdy_best : cache_best view = prev;
  rdy_coins : coins_good (nHeight b) (coins_of view);
  rdy_flags : flags_true f block }.

#[local] Abbreviation scripts_needed cs p block b :=
  (~ may_skip (m_chainman cs) AssumedValidBlock MinimumChainWork p (witness_unavailable params block b (nHeight b))).

(** What a connected block leaves behind. *)
Record block_connected (cs cs' : Chainstate C) (block : CBlock) (p : ptr) (b : CBlockIndex) (view view' : CCoinsViewCache V) : Prop := {
  bc_coins : coins_of view' = apply_txs (coins_of view) (vtx block) (nHeight b);
  bc_good : coins_good (nHeight b) (coins_of view');
  bc_best : hashBlock view' = p;
  bc_headers : headers_reachable params (m_chainman cs');
  bc_index : extends (m_block_index (m_blockman (m_chainman cs))) (m_block_index (m_blockman (m_chainman cs')));
  bc_others : forall q, q <> p -> m_block_index (m_blockman (m_chainman cs')) !! q = m_block_index (m_blockman (m_chainman cs)) !! q;
  bc_undo : undo_files cs' = if has_undo b then undo_files cs else
    <[p := {| vtxundo := tail (undos_of (coins_of view) (vtx block) (nHeight b)) |}]> (undo_files cs) }.

Lemma connects_scripts idx p b prev (P Q : Prop) u block :
  (P <-> Q) -> connects idx p b prev P u block <-> connects idx p b prev Q u block.
Proof. intros HPQ. split; intros [? ? ? ?]; split; tauto. Qed.

Lemma ConnectBlock_ok cs f f' block p b prev view pos :
  ready cs f block p b prev view -> wf W256 MinimumChainWork ->
  identifiers_new (nHeight b) (coins_of view) (vtx block) ->
  cache_true (nHeight b) (GetBlockScriptFlags params p b) VerifyScript (m_validation_cache cs) (coins_of view) (vtx block) ->
  CheckBlock fuzz signet_solution params f block true true = Some (f', None) -> CheckBlockWeight block = Some None ->
  exists cs' view' r, ConnectBlock VerifyScript signet_solution Complete fuzz params AssumedValidBlock MinimumChainWork HasThreads
      cs f block p view (inr pos) false = Some (cs', f', view', r) /\
    cache_ok view' /\ utxo (base view') = utxo (base view) /\ best_block (base view') = best_block (base view) /\
    cache_less (m_validation_cache cs') (m_validation_cache cs) /\
    let rules := connects (m_block_index (m_blockman (m_chainman cs))) p b prev (scripts_needed cs p block b) (coins_of view) block in
    (r = connected /\ rules /\ block_connected cs cs' block p b view view' \/
     (exists reason, r = rejected BLOCK_CONSENSUS reason) /\ ~ rules /\
     m_chainman cs' = m_chainman cs /\ undo_files cs' = undo_files cs).
Proof.
  intros [Hr Hp Hprev Hgen Hhash Hh Hc Hbest Hg Hf] Hmin Hid Hct Hcheck Hweight. unfold ConnectBlock. cbn [negb].
  rewrite Hp, (bool_decide_true _ Hhash), Hcheck.
  destruct (Cache_GetBestBlock_ok view Hc) as (v1 & -> & Hc1 & Hcoins1 & Hu1 & Hb1 & _). rewrite Hprev. cbn [from_option id].
  rewrite (bool_decide_true _ (eq_sym Hbest)), (bool_decide_false _ Hgen).
  destruct (headers_reachable_inv params _ Hr) as (Hi & _). destruct (index_reachable_inv _ _ _ Hi) as (Hok & Hdata & _).
  destruct (Hok p b Hp) as (Hrange & Hlink & _). rewrite Hprev in Hlink. destruct Hlink as (pb & Hpb & Ehb & _). rewrite Hpb.
  rewrite sarith_ok by (split; simpl; lia). rewrite <- Ehb.
  assert (Hw : (if negb (block_missing_witness params block (nHeight b)) then CheckBlockWeight block else Some None) = Some None) by (by destruct (negb _)).
  rewrite Hw.
  destruct (CanSkipScriptChecks_ok params (m_chainman cs) AssumedValidBlock MinimumChainWork p (witness_unavailable params block b (nHeight b)) Hr Hmin
    ltac:(eauto)) as (skip & -> & Hskip).
  destruct (check_contents_ok block (CheckBlock_contents _ _ _ _ _ _ _ _ Hf Hcheck)) as (coinbase & txs & Evtx & Hcb & Hncb & Htx).
  destruct (connect_contents_ok _ p b prev (m_validation_cache cs) block v1 (negb skip) coinbase txs Hok Hdata Hp Hprev Hh Evtx Htx Hc1)
    as (s & v & -> & Hc2 & (Hb2 & Hb3 & _) & Hl2 & Hv); [by rewrite Hcoins1..|]. rewrite Hcoins1 in Hv.
  assert (Hneed : negb skip = true <-> scripts_needed cs p block b) by (rewrite negb_true_iff, <- Hskip; by destruct skip).
  pose proof (fun idx q u => connects_scripts idx p b q _ _ u block Hneed) as Hiff.
  destruct v as [[r reason]|].
  { destruct Hv as [-> Hn]. rewrite Hiff in Hn. eexists _, _, _. split; [reflexivity|]. split_and!; [done|congruence|congruence|done|]. right. split_and!; by try eexists. }
  destruct Hv as (Hcon & Hcoins2 & Hg2 & Hundo). rewrite Hiff in Hcon.
  destruct (finish_connect_ok cs p b pos s Hr Hp) as (cs' & -> & Hr' & Hext & Hoth & Hvc & Hun). eexists _, _, _. split; [reflexivity|].
  assert (Hc3 : cache_ok (SetBestBlock (c_view s) p)) by (destruct Hc2; by split).
  split_and!; [done|simpl; congruence|simpl; congruence|by rewrite Hvc|]. left. split_and!; try done. split; try done.
  rewrite Hun, Hundo, Evtx. done.
Qed.
End Blocks.
