(* ===== verification/Ledger.v ===== *)
(** The ledger a chain of blocks defines, and what the rules of [ConnectBlock] keep true of it: the
    identifiers of transactions are unique, so that skipping the check of BIP 30 is safe, every coin
    is the output of a transaction of the chain, and no value is created beyond the subsidies. *)

From stdpp Require Import gmap strings.
From S2P Require Import Prelude ArithUint Version Primitives Sha256 Merkle Serialize Block Script Chain AuxPow Subsidy.
From S2P Require Import CoinsMap Coins Headers TxCheck Undo SigOps BlockCheck ScriptChecks Connect ConnectOk.
From S2P Require Import Params.

#[local] Open Scope Z_scope.
#[local] Open Scope qbit_scope.
#[local] Opaque Hash Hash2 SHA256D64 HashWriter_GetHash GetHash GetWitnessHash.

(** ** The value of all coins *)

Definition total (u : gmap COutPoint Coin) : Z := map_fold (fun _ c s => nValue (out c) + s) 0 u.

Lemma total_insert_new (u : gmap COutPoint Coin) o c : u !! o = None -> total (<[o := c]> u) = nValue (out c) + total u.
Proof. intros Ho. apply (map_fold_insert_L (fun _ c s => nValue (out c) + s)); [|done]. intros. lia. Qed.

Lemma total_delete (u : gmap COutPoint Coin) o c : u !! o = Some c -> total u = nValue (out c) + total (delete o u).
Proof. intros Ho. apply (map_fold_delete_L (fun _ c s => nValue (out c) + s)); [|done]. intros. lia. Qed.

Lemma total_insert u o c : coins_sane u -> total (<[o := c]> u) <= nValue (out c) + total u.
Proof.
  intros Hu. destruct (u !! o) as [c'|] eqn:Ho.
  - rewrite <- insert_delete_eq, total_insert_new by apply lookup_delete_eq. rewrite (total_delete u o c' Ho).
    destruct (Hu _ _ Ho) as [Hv _]. lia.
  - rewrite total_insert_new by done. lia.
Qed.

Lemma total_delete_all u ins :
  NoDup (map prevout ins) -> Forall (fun i => is_Some (u !! prevout i)) ins ->
  total (delete_all (map prevout ins) u) = total u - value_in u ins.
Proof.
  intros Hnd Hin. induction ins as [|i ins IH]; simpl; [lia|].
  simpl in Hnd. apply list.NoDup_cons in Hnd as [Hi Hnd]. apply Forall_cons_1 in Hin as [[c Hc] Hin].
  assert (Hd : delete_all (map prevout ins) u !! prevout i = Some c) by (rewrite delete_all_lookup, decide_False; done).
  pose proof (total_delete _ _ _ Hd). specialize (IH Hnd Hin). unfold value_at. rewrite Hc. simpl. lia.
Qed.

Lemma total_new_coins txid outs i h cb u :
  coins_sane u -> Forall (fun o => 0 <= nValue o <= MAX_MONEY) outs ->
  total (insert_all (new_coins txid outs i h cb) u) <= total u + sum_out outs /\ coins_sane (insert_all (new_coins txid outs i h cb) u).
Proof.
  intros Hu Ho. revert i. induction Ho as [|o outs Ho _ IH]; intros i; simpl; [split; [lia|done]|].
  destruct (IH (i + 1)) as [Ht Hs]. destruct (IsUnspendable (scriptPubKey o)); simpl; [split; [lia|done]|]. split.
  - pose proof (total_insert _ {| op_hash := txid; op_n := wrap 32 i |} (make_Coin o h cb) Hs). simpl in *. lia.
  - apply map_Forall_insert_2; [|done]. split; [done|]. apply wrap_range. lia.
Qed.

Lemma without_inputs_sane u tx : coins_sane u -> coins_sane (without_inputs u tx).
Proof. intros Hu. unfold without_inputs. destruct (IsCoinBase tx); [done|]. intros o c. rewrite delete_all_lookup. case_decide; [done|apply Hu]. Qed.

(** Value a transaction may create: all its outputs for a coinbase, nothing otherwise. *)
Definition created (tx : CTransaction) : Z := if IsCoinBase tx then sum_out (vout tx) else 0.

Lemma total_apply u tx h :
  coins_sane u -> tx_ok tx -> inputs_present h u tx -> total (apply_tx u tx h) <= total u - tx_fee u tx + created tx.
Proof.
  intros Hu Htx Hin. destruct (tx_ok_amounts _ Htx) as [Ha _]. unfold apply_tx, tx_fee, created.
  destruct (total_new_coins (GetHash tx) (vout tx) 0 h (IsCoinBase tx) _ (without_inputs_sane u tx Hu) Ha) as [Ht _].
  unfold without_inputs in *. destruct (IsCoinBase tx) eqn:Ecb; [lia|].
  rewrite total_delete_all in Ht; [lia|apply Htx|]. eapply Forall_impl; [by apply Hin|]. intros i (c & -> & _). by eexists.
Qed.

(** Every transaction finds its inputs on the coins the earlier ones leave. *)
Fixpoint all_present (h : Z) (u : gmap COutPoint Coin) (txs : list CTransaction) : Prop :=
  match txs with [] => True | tx :: txs => inputs_present h u tx /\ all_present h (apply_tx u tx h) txs end.

Definition sum_created (txs : list CTransaction) : Z := foldr (fun tx s => created tx + s) 0 txs.

Lemma total_apply_txs u txs h :
  0 < h < 2 ^ 31 -> coins_good h u -> Forall tx_ok txs -> all_present h u txs ->
  total (apply_txs u txs h) <= total u - total_fees h u txs + sum_created txs.
Proof.
  intros Hh Hu Htx. revert u Hu. induction Htx as [|tx txs Htx _ IH]; intros u Hu Hin; simpl; [lia|].
  destruct Hin as [Hin Hins]. pose proof (total_apply u tx h (good_sane _ _ Hu) Htx Hin).
  specialize (IH (apply_tx u tx h) (coins_good_apply h u tx Hh Htx Hu) Hins). unfold apply_txs in *. lia.
Qed.

(** ** Heights in coinbases *)

Lemma GetScriptOp_small h rest : 1 <= h <= 16 -> GetScriptOp ((h + 80) :: rest) = Some (h + 80, [], rest).
Proof.
  intros Hh. unfold GetScriptOp. by rewrite (proj2 (Z.leb_gt _ _)) by lia.
Qed.

Lemma height_prefix h sig :
  0 < h < 2 ^ 31 -> take (length (push_int64 [] h)) sig = push_int64 [] h ->
  exists op data rest, GetScriptOp sig = Some (op, data, rest) /\
    (if h <=? 16 then op = h + 80 else op <= OP_PUSHDATA4 /\ CScriptNum data false 8 = Some h).
Proof.
  intros Hh E. rewrite <- (take_drop (length (push_int64 [] h)) sig), E. generalize (drop (length (push_int64 [] h)) sig). intros rest.
  unfold push_int64. rewrite (proj2 (Z.eqb_neq h (-1))), (proj2 (Z.eqb_neq h 0)), (proj2 (Z.leb_le 1 h)) by lia. cbn [orb andb].
  destruct (Z.leb_spec h 16).
  - replace (h + (0x51 - 1)) with (h + 80) by lia. rewrite wrap_small by (split; lia). simpl app.
    eexists _, _, _. split; [apply GetScriptOp_small; lia|done].
  - destruct (serialize_accepted h ltac:(lia)) as (_ & Hlen & Hacc).
    destruct (GetScriptOp_push [] (CScriptNum_serialize h) rest) as (op & Eop & Hop); [lia|]. simpl drop in Eop.
    eexists _, _, _. split; [exact Eop|]. split; [lia|]. apply Hacc. lia.
Qed.

Lemma height_prefix_inj h1 h2 sig :
  0 < h1 < 2 ^ 31 -> 0 < h2 < 2 ^ 31 -> take (length (push_int64 [] h1)) sig = push_int64 [] h1 ->
  take (length (push_int64 [] h2)) sig = push_int64 [] h2 -> h1 = h2.
Proof.
  intros H1 H2 E1 E2. destruct (height_prefix h1 sig H1 E1) as (op & data & rest & G1 & K1).
  destruct (height_prefix h2 sig H2 E2) as (op' & data' & rest' & G2 & K2). rewrite G1 in G2. injection G2 as <- <- <-.
  destruct (Z.leb_spec h1 16), (Z.leb_spec h2 16); try lia. destruct K1 as [_ K1], K2 as [_ K2]. congruence.
Qed.

(** ** What an identifier commits to *)

Lemma map_strip {A} (f : CTxIn -> A) ins : (forall i w, f (set_witness i w) = f i) -> map f (map strip ins) = map f ins.
Proof. intros Hf. rewrite map_map. apply map_ext. intros i. apply Hf. Qed.

Lemma IsCoinBase_strip tx : IsCoinBase (strip_tx tx) = IsCoinBase tx.
Proof. destruct tx as [[|i [|]] ?]; done. Qed.

Section Universe.
(** The transactions that occur, in a chain or elsewhere. *)
Context (U : CTransaction -> Prop).

(** They can be serialised, and no two of them have colliding hashes. *)
Record identified : Prop := {
  id_valid : forall t, U t -> valid (tx_fmt false) (strip_tx t);
  id_distinct : forall t t', U t -> U t' -> no_collision [SerializeTransaction false t] [SerializeTransaction false t'] }.

Context (HU : identified).

Lemma same_txid t t' : U t -> U t' -> GetHash t = GetHash t' -> strip_tx t = strip_tx t'.
Proof.
  intros Ht Ht' E. assert (Hm : map strip_tx [t] = map strip_tx [t']); [|exact (f_equal (hd t) Hm)].
  apply txids_inj; [by apply Forall_singleton, (id_valid HU)|by apply Forall_singleton, (id_valid HU)|by apply (id_distinct HU)|].
  simpl. by rewrite E.
Qed.

Lemma same_txid_fields t t' :
  U t -> U t' -> GetHash t = GetHash t' ->
  map prevout (vin t) = map prevout (vin t') /\ map scriptSig (vin t) = map scriptSig (vin t') /\ vout t = vout t' /\ IsCoinBase t = IsCoinBase t'.
Proof.
  intros Ht Ht' E. pose proof (same_txid t t' Ht Ht' E) as Es.
  pose proof (f_equal IsCoinBase Es) as Ec. rewrite !IsCoinBase_strip in Ec. pose proof (f_equal vin Es) as Ev. simpl in Ev.
  split_and!; [| |by pose proof (f_equal vout Es)|done].
  - rewrite <- (map_strip prevout (vin t)), <- (map_strip prevout (vin t')), Ev by done. done.
  - rewrite <- (map_strip scriptSig (vin t)), <- (map_strip scriptSig (vin t')), Ev by done. done.
Qed.

(** ** The invariant of the ledger *)

(** The first input of a coinbase starts with the height. *)
Definition coinbase_height (h : Z) (tx : CTransaction) : Prop :=
  exists sig, head (map scriptSig (vin tx)) = Some sig /\ take (length (push_int64 [] h)) sig = push_int64 [] h.

(** [done] are the transactions of the chain up to height [h], [u] the coins they leave. *)
Record ledger_inv (h : Z) (done : list CTransaction) (u : gmap COutPoint Coin) : Prop := {
  li_seen : Forall U done;
  li_unique : NoDup (map GetHash done);
  li_origin : forall o c, u !! o = Some c ->
    exists t, t ∈ done /\ GetHash t = op_hash o /\ 0 <= op_n o /\ vout t !! Z.to_nat (op_n o) = Some (out c);
  li_spent : forall t i, t ∈ done -> IsCoinBase t = false -> i ∈ map prevout (vin t) ->
    u !! i = None /\ op_hash i ∈ map GetHash done;
  li_heights : forall t, t ∈ done -> IsCoinBase t = true -> exists k, 0 < k <= h /\ coinbase_height k t }.

Lemma ledger_inv_empty : ledger_inv 0 [] ∅.
Proof.
  split; try (by intros ? ?%elem_of_nil).
  - apply Forall_nil_2.
  - apply NoDup_nil_2.
  - intros o c. by rewrite lookup_empty.
  - intros t i Ht. by apply elem_of_nil in Ht.
Qed.

(** A transaction that can be applied is not in the chain already. *)
Lemma identifier_new h k done u tx :
  ledger_inv h done u -> U tx -> tx_ok tx -> inputs_present k u tx -> 0 < k < 2 ^ 31 ->
  (IsCoinBase tx = true -> h < k /\ coinbase_height k tx) -> GetHash tx ∉ map GetHash done.
Proof.
  intros [L1 _ _ L4 L5] HUtx Htx Hin Hk Hcb Hex. apply list_elem_of_fmap in Hex as (t & E & Ht).
  rewrite Forall_forall in L1. destruct (same_txid_fields tx t HUtx (L1 t Ht) E) as (F1 & F2 & F3 & F4).
  destruct (IsCoinBase tx) eqn:Ecb.
  - destruct (Hcb eq_refl) as (Hlt & sig & S1 & S2). destruct (L5 t Ht (eq_sym F4)) as (k' & Hk' & sig' & S1' & S2').
    rewrite F2, S1' in S1. injection S1 as ->. pose proof (height_prefix_inj k k' sig Hk ltac:(lia) S2 S2'). lia.
  - clear E. pose proof (tx_ok_vin _ Htx) as Hne. specialize (Hin Ecb). destruct (vin tx) as [|i ins]; [done|].
    apply Forall_cons_1 in Hin as [(c & Hc & _) _]. destruct (L4 t (prevout i) Ht (eq_sym F4)) as [Hn _]; [rewrite <- F1; by left|congruence].
Qed.

Lemma new_coins_lookup txid outs i h cb (u : gmap COutPoint Coin) o c :
  0 <= i -> i + Z.of_nat (length outs) <= 2 ^ 32 -> insert_all (new_coins txid outs i h cb) u !! o = Some c ->
  (op_hash o = txid /\ i <= op_n o /\ outs !! Z.to_nat (op_n o - i) = Some (out c)) \/ u !! o = Some c.
Proof.
  revert i. induction outs as [|x outs IH]; intros i Hi Hl Ho; simpl in *; [by right|].
  assert (Hstep : insert_all (new_coins txid outs (i + 1) h cb) u !! o = Some c ->
    (op_hash o = txid /\ i <= op_n o /\ (x :: outs) !! Z.to_nat (op_n o - i) = Some (out c)) \/ u !! o = Some c).
  { intros Ho'. destruct (IH (i + 1)) as [(E1 & E2 & E3)|?]; [lia|lia|done| |by right]. left. split_and!; [done|lia|].
    replace (Z.to_nat (op_n o - i)) with (S (Z.to_nat (op_n o - (i + 1)))) by lia. done. }
  destruct (IsUnspendable (scriptPubKey x)); [auto|]. simpl in Ho.
  apply lookup_insert_Some in Ho as [[<- <-]|[_ Ho]]; [|auto]. left. simpl. rewrite wrap_small by (split; lia).
  split_and!; [done|lia|]. by rewrite Z.sub_diag.
Qed.

Lemma without_inputs_lookup u tx o c : without_inputs u tx !! o = Some c -> u !! o = Some c.
Proof. unfold without_inputs. destruct (IsCoinBase tx); [done|]. rewrite delete_all_lookup. by case_decide. Qed.

Lemma ledger_inv_tx h k done u tx :
  ledger_inv h done u -> h <= k -> U tx -> tx_ok tx -> inputs_present k u tx -> GetHash tx ∉ map GetHash done ->
  (IsCoinBase tx = true -> 0 < k /\ coinbase_height k tx) -> ledger_inv k (done ++ [tx]) (apply_tx u tx k).
Proof.
  intros [L1 L2 L3 L4 L5] Hk HUtx Htx Hin Hnew Hcb. pose proof (tx_counts tx) as [_ Hn]. pose proof (tx_ok_size _ Htx) as Hsz. unfold MAX_BLOCK_WEIGHT in Hsz.
  assert (Hold : forall o, op_hash o ∈ map GetHash done -> without_inputs u tx !! o = None -> apply_tx u tx k !! o = None).
  { intros o Ho Hw. destruct (apply_tx u tx k !! o) as [c|] eqn:E; [|done]. unfold apply_tx in E.
    apply new_coins_lookup in E as [(E & _)|E]; [congruence|congruence|lia|lia]. }
  assert (Hsub : forall x, x ∈ map GetHash done -> x ∈ map GetHash (done ++ [tx])) by (intros x Hx; rewrite map_app; apply elem_of_app; by left).
  split.
  - apply Forall_app. split; [done|]. by apply Forall_singleton.
  - rewrite map_app. apply NoDup_app. split_and!; [done| |apply NoDup_singleton]. intros x Hx Hx'%list_elem_of_singleton. by subst.
  - intros o c Ho. unfold apply_tx in Ho. apply new_coins_lookup in Ho as [(E1 & E2 & E3)|Ho]; [| |lia|lia].
    + exists tx. rewrite Z.sub_0_r in E3. split_and!; try done. apply elem_of_app. right. by left.
    + apply without_inputs_lookup, L3 in Ho as (t & Ht & ?). exists t. split; [apply elem_of_app; by left|done].
  - intros t i Ht Ecb Hi. apply elem_of_app in Ht as [Ht|Ht%list_elem_of_singleton].
    + destruct (L4 t i Ht Ecb Hi) as [Hi1 Hi2]. split; [|by apply Hsub]. apply Hold; [done|].
      destruct (without_inputs u tx !! i) eqn:E; [|done]. apply without_inputs_lookup in E. congruence.
    + subst t. specialize (Hin Ecb). apply list_elem_of_fmap in Hi as (j & -> & Hj). rewrite Forall_forall in Hin.
      destruct (Hin j Hj) as (c & Hc & _). destruct (L3 _ _ Hc) as (t & Ht & E & _).
      assert (Hmem : op_hash (prevout j) ∈ map GetHash done) by (rewrite <- E; by apply (list_elem_of_fmap_2 GetHash)).
      split; [|by apply Hsub]. apply Hold; [done|]. unfold without_inputs. rewrite Ecb, delete_all_lookup, decide_True; [done|].
      by apply (list_elem_of_fmap_2 prevout).
  - intros t Ht Ecb. apply elem_of_app in Ht as [Ht|Ht%list_elem_of_singleton].
    + destruct (L5 t Ht Ecb) as (k' & Hk' & ?). exists k'. split; [lia|done].
    + subst t. destruct (Hcb Ecb) as [Hp Hh]. exists k. split; [lia|done].
Qed.

(** ** Blocks *)

(** What [CheckBlock] and [ContextualCheckBlock] guarantee of a block at height [h]. *)
Record block_shape (h : Z) (block : CBlock) : Prop := {
  sh_vtx : exists coinbase txs, vtx block = coinbase :: txs /\ IsCoinBase coinbase = true /\ coinbase_height h coinbase /\
    Forall (fun tx => IsCoinBase tx = false) txs;
  sh_ok : Forall tx_ok (vtx block);
  sh_seen : Forall U (vtx block) }.

Lemma fresh_of_new h done u tx : ledger_inv h done u -> GetHash tx ∉ map GetHash done -> fresh u tx.
Proof.
  intros L Hn n. destruct (u !! _) as [c|] eqn:E; [|done]. destruct (li_origin _ _ _ L _ _ E) as (t & Ht & Et & _).
  simpl in Et. destruct Hn. rewrite <- Et. by apply (list_elem_of_fmap_2 GetHash).
Qed.

(** One transaction of a block at height [k]. *)
Lemma ledger_tx h k done u tx :
  ledger_inv h done u -> h <= k -> 0 < k < 2 ^ 31 -> U tx -> tx_ok tx -> inputs_present k u tx ->
  (IsCoinBase tx = true -> h < k /\ coinbase_height k tx) ->
  fresh u tx /\ applies u tx /\ ledger_inv k (done ++ [tx]) (apply_tx u tx k).
Proof.
  intros L Hk Hr HUtx Htx Hin Hcb. pose proof (identifier_new h k done u tx L HUtx Htx Hin Hr Hcb) as Hnew.
  pose proof (fresh_of_new _ _ _ _ L Hnew) as Hf. split_and!; [done|by apply (tx_applies u tx k)|].
  apply (ledger_inv_tx h k); try done. intros E. split; [lia|apply (Hcb E)].
Qed.

Lemma ledger_txs k done u txs :
  ledger_inv k done u -> 0 < k < 2 ^ 31 -> Forall U txs -> Forall tx_ok txs -> Forall (fun tx => IsCoinBase tx = false) txs ->
  identifiers_new k u txs /\
  (all_present k u txs -> applies_all u txs k /\ ledger_inv k (done ++ txs) (apply_txs u txs k)).
Proof.
  intros L Hk HUs Htx Hncb. revert done u L. induction txs as [|tx txs IH]; intros done u L; simpl.
  { split; [done|]. intros _. by rewrite app_nil_r. }
  apply Forall_cons_1 in HUs as [HU1 HUs], Htx as [Ht1 Htx], Hncb as [Hc1 Hncb].
  assert (Hstep : inputs_present k u tx -> fresh u tx /\ applies u tx /\ ledger_inv k (done ++ [tx]) (apply_tx u tx k)).
  { intros Hin. apply (ledger_tx k k); try done. congruence. }
  split.
  - intros Hin. destruct (Hstep Hin) as (Hf & _ & L'). split; [done|]. apply (IH HUs Htx Hncb _ _ L').
  - intros [Hin Hall]. destruct (Hstep Hin) as (Hf & Ha & L'). destruct (IH HUs Htx Hncb _ _ L') as [_ H]. destruct (H Hall) as [H1 H2].
    split; [done|]. by rewrite <- app_assoc in H2.
Qed.

(** A block on top of a chain: identifiers are new, and the invariant holds again. *)
Lemma ledger_block_inv h done u block :
  ledger_inv h done u -> 0 <= h -> h + 1 < 2 ^ 31 -> block_shape (h + 1) block ->
  identifiers_new (h + 1) u (vtx block) /\
  (all_present (h + 1) u (vtx block) ->
   applies_all u (vtx block) (h + 1) /\ ledger_inv (h + 1) (done ++ vtx block) (apply_txs u (vtx block) (h + 1))).
Proof.
  intros L Hh Hm [(coinbase & txs & -> & Hcb & Hch & Hncb) Htx HUs]. apply Forall_cons_1 in Htx as [Ht1 Htx], HUs as [HU1 HUs].
  assert (Hin : inputs_present (h + 1) u coinbase) by (intros E; congruence).
  destruct (ledger_tx h (h + 1) done u coinbase L) as (Hf & Ha & L'); try done; [lia|lia|intros _; split; [lia|done]|].
  destruct (ledger_txs (h + 1) _ _ txs L') as [H1 H2]; try done; [lia|]. split.
  - intros _. split; [congruence|done].
  - intros [_ Hall]. destruct (H2 Hall) as [H3 H4]. split; [done|]. by rewrite <- app_assoc in H4.
Qed.

(** ** Chains *)

Context (params : Params) (blocks : ptr -> CBlock).

(** The transactions and the coins of the chain that ends in an entry of the index. *)
Inductive ledger (idx : BlockMap) : ptr -> Z -> list CTransaction -> gmap COutPoint Coin -> Prop :=
| ledger_genesis g : idx !! hashGenesisBlock params = Some g -> nHeight g = 0 -> ledger idx (hashGenesisBlock params) 0 [] ∅
| ledger_block p b q h done u :
    ledger idx q h done u -> p <> hashGenesisBlock params -> idx !! p = Some b -> pprev b = Some q -> nHeight b = h + 1 -> h + 1 < 2 ^ 31 ->
    block_shape (h + 1) (blocks p) -> all_present (h + 1) u (vtx (blocks p)) ->
    sum_out (from_option vout [] (head (vtx (blocks p)))) <= total_fees (h + 1) u (vtx (blocks p)) + GetBlockSubsidy (h + 1) params ->
    ledger idx p (h + 1) (done ++ vtx (blocks p)) (apply_txs u (vtx (blocks p)) (h + 1)).

Lemma ledger_extends idx idx' p h done u : extends idx idx' -> ledger idx p h done u -> ledger idx' p h done u.
Proof.
  intros He. induction 1 as [g Hg Hg0|p b q h done u _ IH Hg Hp Hq Hh Hm Hs Ha Hr].
  { destruct (He _ g Hg) as (g' & Hg' & (_ & _ & _ & _ & L5 & _)%links_eq). apply (ledger_genesis idx' g'); congruence. }
  destruct (He p b Hp) as (b' & Hp' & (L1 & _ & _ & _ & L5 & _)%links_eq). apply (ledger_block idx' p b' q); try done; congruence.
Qed.

Lemma ledger_functional idx p h done u h' done' u' :
  ledger idx p h done u -> ledger idx p h' done' u' -> h = h' /\ done = done' /\ u = u'.
Proof.
  intros L. revert h' done' u'. induction L as [g Hg Hg0|p b q h done u _ IH Hg Hp Hq Hh Hm Hs Ha Hr]; intros h' done' u' L'.
  - inversion L'; subst; [done|congruence].
  - inversion L' as [|p' b' q' h1 done1 u1 L1 Hg1 Hp1 Hq1 Hh1]; subst; [congruence|].
    assert (b' = b) as -> by congruence. assert (q' = q) as -> by congruence. destruct (IH _ _ _ L1) as (-> & -> & ->). done.
Qed.

Lemma ledger_height idx p h done u : ledger idx p h done u -> 0 <= h < 2 ^ 31.
Proof. induction 1; lia. Qed.

Lemma ledger_entry idx p h done u : ledger idx p h done u -> exists b, idx !! p = Some b /\ nHeight b = h.
Proof. induction 1; eauto. Qed.

Lemma sum_created_block block h : block_shape h block -> sum_created (vtx block) = sum_out (from_option vout [] (head (vtx block))).
Proof.
  intros [(coinbase & txs & -> & Hcb & _ & Hncb) _ _]. simpl. unfold created at 1. rewrite Hcb.
  enough (sum_created txs = 0) as E by (unfold sum_created in *; lia).
  induction Hncb as [|tx txs Htx _ IH]; simpl; [done|]. unfold created at 1. rewrite Htx. lia.
Qed.

Lemma coins_good_later h k u : h <= k -> coins_good h u -> coins_good k u.
Proof. intros Hk [H1 H2 H3]. split; try done. intros o c Ho. pose proof (H3 o c Ho). simpl in *. lia. Qed.

Lemma coins_good_apply_txs h u txs : 0 < h < 2 ^ 31 -> Forall tx_ok txs -> coins_good h u -> coins_good h (apply_txs u txs h).
Proof.
  intros Hh Htx. revert u. induction Htx as [|tx txs Htx _ IH]; intros u Hu; simpl; [done|]. apply IH. by apply coins_good_apply.
Qed.

(** The invariant, the state of the coins, and the value of all of them. *)
Lemma ledger_ok idx p h done u :
  ledger idx p h done u ->
  ledger_inv h done u /\ coins_good h u /\ total u <= emission params (S (Z.to_nat h)) - GetBlockSubsidy 0 params.
Proof.
  induction 1 as [g Hg Hg0|p b q h done u L (I1 & I2 & I3) Hg Hp Hq Hh Hm Hs Ha Hr].
  - split_and!; [apply ledger_inv_empty|split; apply map_Forall_empty|]. unfold total. rewrite map_fold_empty.
    change (emission params (S (Z.to_nat 0))) with (0 + GetBlockSubsidy 0 params). lia.
  - pose proof (ledger_height _ _ _ _ _ L) as Hr0.
    destruct (ledger_block_inv h done u (blocks p) I1) as [_ H]; try done; [lia|]. destruct (H Ha) as [_ I1'].
    assert (I2' : coins_good (h + 1) u) by (apply (coins_good_later h); [lia|done]). split_and!; [done|apply coins_good_apply_txs; [lia|apply Hs|done]|].
    pose proof (total_apply_txs u (vtx (blocks p)) (h + 1) ltac:(lia) I2' (sh_ok _ _ Hs) Ha) as Ht. rewrite (sum_created_block _ _ Hs) in Ht.
    replace (Z.to_nat (h + 1)) with (S (Z.to_nat h)) by lia. change (emission params (S (S (Z.to_nat h)))) with
      (emission params (S (Z.to_nat h)) + GetBlockSubsidy (Z.of_nat (S (Z.to_nat h))) params).
    replace (Z.of_nat (S (Z.to_nat h))) with (h + 1) by lia. lia.
Qed.
End Universe.
