(* ===== verification/History.v ===== *)
(** A node over time: blocks are connected on top of the coins cache and flushed into it, rejected or
    disconnected, in any order, while headers arrive and scripts are checked.

    The parent cache ([CoinsTip]) holds the coins of the active chain; [ConnectBlock] and
    [DisconnectBlock] work on a child cache that is flushed when they succeed and dropped when they
    fail, as in [ConnectTip] and [DisconnectTip] of [src/src/validation.cpp].  The blocks are read
    from the block files by the identifier of their entry. *)

From stdpp Require Import gmap strings sorting.
From S2P Require Import Prelude ArithUint Version Primitives Sha256 Merkle Serialize Block Script Chain AuxPow Subsidy.
From S2P Require Import CoinsMap Coins Headers AssumeValid TxCheck Undo SigOps BlockCheck ScriptChecks Connect ConnectOk Ledger.
From S2P Require Import Params.

#[local] Open Scope Z_scope.
#[local] Open Scope qbit_scope.
#[local] Opaque Hash Hash2 SHA256D64 HashWriter_GetHash GetHash GetWitnessHash HeaderGetHash hashCacheEntry.

(** ** From the rules to the ledger *)

Lemma block_spends_present params idx p h lf flags u fees cost txs :
  block_spends params idx p h lf flags u fees cost txs -> all_present h u txs.
Proof.
  revert u fees cost. induction txs as [|tx txs IH]; intros u fees cost; simpl; [done|]. intros [(_ & Hin & _) Hrest].
  split; [|by eapply IH]. intros E. apply (Hin E).
Qed.

Lemma contextual_height `{MultiWay} idx params f f' block prev pb pindex stripped coinbase txs :
  BIP34Height params <= 1 -> idx !! prev = Some pb -> 0 <= nHeight pb < 2 ^ 31 - 1 -> vtx block = coinbase :: txs ->
  ContextualCheckBlock idx params f block (Some prev) pindex stripped = Some (f', None) -> coinbase_height (nHeight pb + 1) coinbase.
Proof.
  intros Hb Hp Hh Ev. unfold ContextualCheckBlock. rewrite Hp, sarith_ok by (split; simpl; lia).
  destruct (if DeploymentActiveAfter _ params DEPLOYMENT_CSV then _ else _) as [cutoff|]; [|done]. destruct (negb _); [done|].
  unfold DeploymentActiveAfter at 1. cbn [DeploymentHeight]. rewrite (proj2 (Z.leb_le _ _)), Ev by lia. cbn [head]. unfold coinbase_height.
  destruct (vin coinbase) as [|i ins]; [done|]. cbn [head map].
  destruct (bool_decide (take (length (push_int64 [] (nHeight pb + 1))) (scriptSig i) = push_int64 [] (nHeight pb + 1))) eqn:E; [|done].
  apply bool_decide_eq_true_1 in E. intros _. by exists (scriptSig i).
Qed.

(** ** The cache of verified transactions *)

Section ScriptCache.
Context {V C : Type} `{CoinsViewLaws V} `{ScriptExecutionCacheLaws C}.
Context (VerifyScript : CScript -> CScript -> list (list Z) -> Z -> CTransaction * nat * Z * list CTxOut -> option string).
(** The transactions that occur, and the flags they are checked with. *)
Context (U : CTransaction -> Prop) (W : CTransaction -> Z -> Prop).
Context (HU : identified U).

(** [x] is the output [o] of a transaction that occurs. *)
Definition output_of (o : COutPoint) (x : CTxOut) : Prop :=
  exists t, U t /\ GetHash t = op_hash o /\ 0 <= op_n o /\ vout t !! Z.to_nat (op_n o) = Some x.

Definition funded (t : CTransaction) (outs : list CTxOut) : Prop := Forall2 output_of (map prevout (vin t)) outs.

Lemma output_of_unique o x y : output_of o x -> output_of o y -> x = y.
Proof.
  intros (t & Ht & E & _ & Hx) (t' & Ht' & E' & _ & Hy). rewrite <- E' in E.
  destruct (same_txid_fields U HU t t' Ht Ht' E) as (_ & _ & Ev & _). clear E E'. congruence.
Qed.

Lemma funded_unique t outs outs' : funded t outs -> funded t outs' -> outs = outs'.
Proof.
  unfold funded. intros H1'. revert outs'. induction H1' as [|o x os outs Hx _ IH]; intros outs' H2'.
  - by apply Forall2_nil_inv_l in H2'.
  - apply Forall2_cons_inv_l in H2' as (y & outs2 & Hy & Houts & ->). rewrite (output_of_unique o x y), (IH outs2) by done. done.
Qed.

(** No two checks share an entry, and none has the null one, which a new table holds. *)
Definition entries_distinct (vc : ValidationCache C) : Prop :=
  (forall t f, W t f -> hashCacheEntry vc t f <> uint256_zero) /\
  (forall t f t' f', W t f -> W t' f' -> hashCacheEntry vc t f = hashCacheEntry vc t' f' -> t = t' /\ f = f').

(** Every entry stands for scripts that verify. *)
Definition cache_sound (vc : ValidationCache C) : Prop :=
  forall t f outs, W t f -> IsCoinBase t = false -> stored (m_script_execution_cache vc) (hashCacheEntry vc t f) -> funded t outs ->
    verified VerifyScript t f outs.

Lemma cache_sound_less vc' vc : cache_less vc' vc -> cache_sound vc -> cache_sound vc'.
Proof.
  intros Hl Hs t f outs Hw Hcb Hst. apply (Hs t f outs Hw Hcb). rewrite <- (hashCacheEntry_less vc' vc t f Hl). by apply Hl.
Qed.

Lemma funded_ledger h done u tx :
  ledger_inv U h done u -> Forall (fun i => is_Some (u !! prevout i)) (vin tx) -> funded tx (map out (spent_coins u (vin tx))).
Proof.
  intros [L1 _ L3 _ _] Hin. unfold funded. induction Hin as [|i ins [c Hc] _ IH]; simpl; [done|]. constructor; [|done].
  rewrite Hc. destruct (L3 _ _ Hc) as (t & Ht & E & Hn & Hv). exists t. split_and!; try done. rewrite Forall_forall in L1. by apply L1.
Qed.

Lemma cache_sound_tx vc h k done u tx flags :
  cache_sound vc -> ledger_inv U h done u -> (IsCoinBase tx = false -> W tx flags) -> inputs_present k u tx ->
  stored (m_script_execution_cache vc) (hashCacheEntry vc tx flags) -> tx_verified flags VerifyScript u tx.
Proof.
  intros Hs L Hw Hin Hst Hcb. apply Hs; [by apply Hw|done|done|]. apply (funded_ledger h done); [done|].
  eapply Forall_impl; [by apply Hin|]. intros i (c & -> & _). by eexists.
Qed.

Lemma cache_sound_txs vc k done u txs flags :
  cache_sound vc -> ledger_inv U k done u -> 0 < k < 2 ^ 31 -> Forall U txs -> Forall tx_ok txs ->
  Forall (fun tx => IsCoinBase tx = false) txs -> Forall (fun tx => IsCoinBase tx = false -> W tx flags) txs ->
  cache_true k flags VerifyScript vc u txs.
Proof.
  intros Hs L Hk HUs Htx Hncb Hw. revert done u L. induction txs as [|tx txs IH]; [done|]; intros d u L; simpl.
  apply Forall_cons_1 in HUs as [HU1 HUs], Htx as [Ht1 Htx], Hncb as [Hc1 Hncb], Hw as [Hw1 Hw]. intros Hin. split.
  - by apply (cache_sound_tx vc k k d).
  - destruct (ledger_tx U HU k k d u tx) as (_ & _ & L'); try done; [congruence|]. by apply (IH HUs Htx Hncb Hw (d ++ [tx])).
Qed.

Lemma cache_sound_block vc h done u block flags :
  cache_sound vc -> ledger_inv U h done u -> 0 <= h -> h + 1 < 2 ^ 31 -> block_shape U (h + 1) block ->
  Forall (fun tx => IsCoinBase tx = false -> W tx flags) (vtx block) -> cache_true (h + 1) flags VerifyScript vc u (vtx block).
Proof.
  intros Hs L Hh Hm [(coinbase & txs & -> & Hcb & Hch & Hncb) Htx HUs] Hw.
  apply Forall_cons_1 in Htx as [Ht1 Htx], HUs as [HU1 HUs], Hw as [Hw1 Hw]. intros Hin. split.
  - by apply (cache_sound_tx vc h (h + 1) done).
  - destruct (ledger_tx U HU h (h + 1) done u coinbase L) as (_ & _ & L'); try done; [lia|lia|intros _; split; [lia|done]|].
    exact (cache_sound_txs vc (h + 1) _ _ txs flags Hs L' ltac:(lia) HUs Htx Hncb Hw).
Qed.

(** The coins of a view are outputs of transactions that occur. *)
Definition view_funded (view : CCoinsViewCache V) : Prop := forall o c, coins_of view !! o = Some c -> output_of o (out c).

Lemma view_funded_tx view tx :
  view_funded view -> Forall (fun i => is_Some (coins_of view !! prevout i)) (vin tx) ->
  funded tx (map out (spent_coins (coins_of view) (vin tx))).
Proof.
  intros Hf Hin. unfold funded. induction Hin as [|i ins [c Hc] _ IH]; simpl; [done|]. constructor; [|done]. rewrite Hc. by apply Hf.
Qed.

Lemma CheckInputScripts_sound view tx flags store vc pv :
  cache_ok view -> view_funded view -> IsCoinBase tx = false -> Forall (fun i => is_Some (coins_of view !! prevout i)) (vin tx) ->
  W tx flags -> cache_sound vc -> entries_distinct vc ->
  exists view' vc' r, CheckInputScripts VerifyScript tx view flags store None vc pv = Some (view', vc', r) /\
    reads view view' /\ cache_sound vc' /\ m_script_execution_cache_hasher vc' = m_script_execution_cache_hasher vc /\
    match r with
    | inl _ => pv = false /\ ~ tx_verified flags VerifyScript (coins_of view) tx
    | inr checks => if pv then Forall (passes VerifyScript) checks <-> tx_verified flags VerifyScript (coins_of view) tx
                    else checks = [] /\ tx_verified flags VerifyScript (coins_of view) tx
    end.
Proof.
  intros Hok Hf Hcb Hin Hw Hs Hd. pose proof (view_funded_tx view tx Hf Hin) as Hfund.
  assert (Hv : stored (m_script_execution_cache vc) (hashCacheEntry vc tx flags) -> tx_verified flags VerifyScript (coins_of view) tx).
  { intros Hst _. by apply Hs. }
  destruct (CheckInputScripts_any VerifyScript view tx flags store vc pv Hok Hcb Hin Hv) as (v1 & vc' & r & E & R & [Ha Hb] & Hr).
  exists v1, vc', r. split_and!; try assumption. intros t f outs Hwt Hct Hst Hft.
  assert (Ee : hashCacheEntry vc' t f = hashCacheEntry vc t f) by (with_strategy transparent [hashCacheEntry] unfold hashCacheEntry; by rewrite Ha).
  rewrite Ee in Hst. destruct (Hb _ Hst) as [Hst'|[Eq [_ Hver]]]; [by apply Hs|].
  destruct (proj2 Hd t f tx flags Hwt Hw Eq) as [-> ->]. rewrite (funded_unique tx outs _ Hft Hfund). by apply Hver.
Qed.
End ScriptCache.

(** ** The node *)

Section Node.
Context {V C : Type} `{CoinsViewLaws V} `{ScriptExecutionCacheLaws C} `{MultiWay}.
Context (VerifyScript : CScript -> CScript -> list (list Z) -> Z -> CTransaction * nat * Z * list CTxOut -> option string).
Context (signet_solution : CBlock -> bool) (Complete : list CScriptCheck -> option string).
Context (fuzz : bool) (params : Params) (AssumedValidBlock : uint256) (MinimumChainWork : base_uint) (HasThreads : bool).
Context (blocks : ptr -> CBlock) (U : CTransaction -> Prop) (W : CTransaction -> Z -> Prop).

Record node := { n_chain : Chainstate C; n_coins : CCoinsViewCache V }.

#[local] Abbreviation index n := (m_block_index (m_blockman (m_chainman (n_chain n)))).
#[local] Abbreviation tip n := (cache_best (n_coins n)).

(** The child cache is flushed into its parent, or dropped. *)
Definition close_view (keep : bool) (view : CCoinsViewCache (CCoinsViewCache V)) : option (CCoinsViewCache V) :=
  if keep then let! '(view, _) := Flush view in Some (base view) else Some (base view).

Definition is_connected (r : connect_result) : bool := match r with connected => true | _ => false end.
Definition is_clean (r : DisconnectResult) : bool := match r with DISCONNECT_OK => true | _ => false end.

(** A child of the best block that has passed the checks before [ConnectBlock]. *)
Record offered (n : node) (f f' : block_flags) (p : ptr) (b : CBlockIndex) : Prop := {
  off_entry : index n !! p = Some b;
  off_prev : pprev b = Some (tip n);
  off_genesis : p <> hashGenesisBlock params;
  off_null : uint256_IsNull p = false;
  off_hash : p = HeaderGetHash (pure (header (blocks p)));
  off_height : nHeight b < 2 ^ 31 - 2 ^ 16;
  off_flags : flags_true f (blocks p);
  off_check : CheckBlock fuzz signet_solution params f (blocks p) true true = Some (f', None);
  off_weight : CheckBlockWeight (blocks p) = Some None;
  off_context : exists g g' stripped, ContextualCheckBlock (index n) params g (blocks p) (Some (tip n)) (Some (nHeight b)) stripped = Some (g', None);
  off_seen : Forall U (vtx (blocks p));
  off_checked : Forall (fun tx => IsCoinBase tx = false -> W tx (GetBlockScriptFlags params p b)) (vtx (blocks p)) }.

#[local] Abbreviation ConnectBlock := (ConnectBlock (V := CCoinsViewCache V) (C := C) VerifyScript signet_solution Complete fuzz params AssumedValidBlock MinimumChainWork HasThreads).

(** The index after headers were accepted or entries were marked. *)
Record new_headers (n : node) (m : ChainstateManager) : Prop := {
  hdr_reachable : headers_reachable params m;
  hdr_extends : extends (index n) (m_block_index (m_blockman m));
  hdr_undo : forall (p : ptr) (b : CBlockIndex), m_block_index (m_blockman m) !! p = Some b -> has_undo b = true -> is_Some (undo_files (n_chain n) !! p) }.

(** What can happen to a node, with the values the environment chooses. *)
Inductive event :=
| ev_connect (f f' : block_flags) (p : ptr) (b : CBlockIndex) (pos : Z)
| ev_disconnect
| ev_headers (m : ChainstateManager)
| ev_scripts (tx : CTransaction) (flags : Z) (store pv : bool) (view : CCoinsViewCache V).

(** One event leads from [n] to [n']. *)
Definition node_step (n : node) (e : event) (n' : node) : Prop :=
  match e with
  | ev_connect f f' p b pos =>
      offered n f f' p b /\
      exists cs (view : CCoinsViewCache (CCoinsViewCache V)) r coins,
        ConnectBlock (n_chain n) f (blocks p) p (new_cache (n_coins n)) (inr pos) false = Some (cs, f', view, r) /\
        close_view (is_connected r) view = Some coins /\ n' = {| n_chain := cs; n_coins := coins |}
  | ev_disconnect =>
      tip n <> hashGenesisBlock params /\
      exists (view : CCoinsViewCache (CCoinsViewCache V)) r coins,
        DisconnectBlock (V := CCoinsViewCache V) (index n) (undo_files (n_chain n) !! tip n) (blocks (tip n)) (tip n) (new_cache (n_coins n)) =
          Some (view, r) /\
        close_view (is_clean r) view = Some coins /\ n' = {| n_chain := n_chain n; n_coins := coins |}
  | ev_headers m =>
      new_headers n m /\
      n' = {| n_chain := Build_Chainstate m (undo_files (n_chain n)) (m_validation_cache (n_chain n)); n_coins := n_coins n |}
  | ev_scripts tx flags store pv view =>
      cache_ok view /\ view_funded U view /\ IsCoinBase tx = false /\ Forall (fun i => is_Some (coins_of view !! prevout i)) (vin tx) /\ W tx flags /\
      exists view' vc r, CheckInputScripts VerifyScript tx view flags store None (m_validation_cache (n_chain n)) pv = Some (view', vc, r) /\
        n' = {| n_chain := Build_Chainstate (m_chainman (n_chain n)) (undo_files (n_chain n)) vc; n_coins := n_coins n |}
  end.

(** A history: the events in order. *)
Fixpoint node_run (n : node) (events : list event) (n' : node) : Prop :=
  match events with
  | [] => n' = n
  | e :: events => exists n1, node_step n e n1 /\ node_run n1 events n'
  end.

Lemma node_run_app n events1 n1 events2 n2 : node_run n events1 n1 -> node_run n1 events2 n2 -> node_run n (events1 ++ events2) n2.
Proof.
  revert n. induction events1 as [|e events1 IH]; intros n; simpl; [by intros ->|]. intros (n0 & Hs & Hr) Hr2. exists n0. auto.
Qed.

Lemma node_run_one n e n' : node_step n e n' -> node_run n [e] n'.
Proof. intros Hs. by exists n'. Qed.

(** A node that has connected the genesis block only. *)
Record fresh_node (n : node) : Prop := {
  start_headers : headers_reachable params (m_chainman (n_chain n));
  start_genesis : exists g, index n !! hashGenesisBlock params = Some g /\ nHeight g = 0 /\ pprev g = None;
  start_null : uint256_IsNull (hashGenesisBlock params) = false;
  start_cache : cache_ok (n_coins n);
  start_coins : coins_of (n_coins n) = ∅;
  start_tip : tip n = hashGenesisBlock params;
  start_undo : undo_files (n_chain n) = ∅;
  start_status : forall (p : ptr) (b : CBlockIndex), index n !! p = Some b -> has_undo b = false;
  start_distinct : entries_distinct W (m_validation_cache (n_chain n));
  start_scripts : forall e, stored (m_script_execution_cache (m_validation_cache (n_chain n))) e -> e = uint256_zero }.


(** ** The invariant *)

Context (HU : identified U) (Hqueue : queue_correct VerifyScript Complete).
Context (Hexceptions : Forall (fun x => flags_consistent (snd x)) (script_flag_exceptions params)).
Context (Hmin : wf W256 MinimumChainWork) (Hbip34 : BIP34Height params <= 1).

#[local] Abbreviation ledger := (ledger U params blocks).

Record node_inv (n : node) : Prop := {
  ni_headers : headers_reachable params (m_chainman (n_chain n));
  ni_genesis : exists g, index n !! hashGenesisBlock params = Some g /\ pprev g = None;
  ni_cache : cache_ok (n_coins n);
  ni_ledger : exists h txs, ledger (index n) (tip n) h txs (coins_of (n_coins n));
  ni_chain : forall x, anc (index n) x (tip n) ->
    uint256_IsNull x = false /\ (x <> hashGenesisBlock params -> is_Some (undo_files (n_chain n) !! x));
  ni_undo : forall p r, undo_files (n_chain n) !! p = Some r -> exists b q h txs u,
    index n !! p = Some b /\ pprev b = Some q /\ ledger (index n) q h txs u /\
    r = {| vtxundo := tail (undos_of u (vtx (blocks p)) (h + 1)) |};
  ni_status : forall p b, index n !! p = Some b -> has_undo b = true -> is_Some (undo_files (n_chain n) !! p);
  ni_scripts : cache_sound VerifyScript U W (m_validation_cache (n_chain n));
  ni_distinct : entries_distinct W (m_validation_cache (n_chain n)) }.

Lemma new_cache_facts (view : CCoinsViewCache V) :
  cache_ok view -> cache_ok (new_cache view) /\ coins_of (new_cache view) = coins_of view /\ cache_best (new_cache view) = cache_best view /\
    utxo (base (new_cache view)) = coins_of view.
Proof.
  intros Hc. assert (Hv : view_ok (V := CCoinsViewCache V) view) by exact Hc. destruct (new_cache_ok view Hv) as [Hok Hm]. split_and!; try done. exact (f_equal s_coins Hm).
Qed.

Lemma idx_ok_reachable m : headers_reachable params m -> idx_ok (m_block_index (m_blockman m)).
Proof. intros Hr. destruct (headers_reachable_inv params _ Hr) as (Hi & _). by destruct (index_reachable_inv _ _ _ Hi). Qed.

Lemma offered_height n f f' p b h txs u :
  headers_reachable params (m_chainman (n_chain n)) -> offered n f f' p b -> ledger (index n) (tip n) h txs u -> nHeight b = h + 1.
Proof.
  intros Hr [Hp Hq _ _ _ _ _ _ _ _ _ _] L. destruct (ledger_entry _ _ _ _ _ _ _ _ L) as (bq & Hbq & <-).
  destruct (idx_ok_reachable _ Hr p b Hp) as (_ & Hl & _). rewrite Hq in Hl. destruct Hl as (bq' & Hbq' & E & _). simplify_eq. done.
Qed.

Lemma offered_shape n f f' p b h txs u :
  headers_reachable params (m_chainman (n_chain n)) -> offered n f f' p b -> ledger (index n) (tip n) h txs u ->
  block_shape U (h + 1) (blocks p).
Proof.
  intros Hr Hoff L. pose proof (offered_height _ _ _ _ _ _ _ _ Hr Hoff L) as Eh. pose proof (ledger_height _ _ _ _ _ _ _ _ L) as Hh.
  destruct Hoff as [Hp Hq _ _ _ Hm Hf Hcheck _ (g & g' & stripped & Hctx) HUs _].
  destruct (ledger_entry _ _ _ _ _ _ _ _ L) as (bq & Hbq & Ebq).
  destruct (check_contents_ok _ (CheckBlock_contents _ _ _ _ _ _ _ _ Hf Hcheck)) as (cb & rest & Ev & Hcb & Hncb & Htx).
  split; [|done|done]. exists cb, rest. split_and!; try done. rewrite <- Ebq.
  apply (contextual_height _ params g g' (blocks p) (tip n) bq (Some (nHeight b)) stripped cb rest Hbip34 Hbq); [lia|done|done].
Qed.

Lemma close_view_ok keep (view : CCoinsViewCache (CCoinsViewCache V)) :
  cache_ok view -> (keep = true -> uint256_IsNull (hashBlock view) = false) ->
  exists coins, close_view keep view = Some coins /\ cache_ok coins /\
    coins_of coins = (if keep then coins_of view else utxo (base view)) /\
    cache_best coins = (if keep then hashBlock view else best_block (base view)).
Proof.
  intros Hc Hn. unfold close_view. destruct keep.
  - destruct (Flush_ok view Hc (Hn eq_refl)) as (view' & -> & Hc' & _ & _ & _ & Hu & Hb). exists (base view'). split_and!; [done|apply Hc'|done|done].
  - exists (base view). split_and!; [done|apply Hc|done|done].
Qed.

(** Entries may be added and the caches may change, as long as the coins stay. *)
Lemma node_inv_frame n cs coins :
  node_inv n -> headers_reachable params (m_chainman cs) ->
  extends (index n) (m_block_index (m_blockman (m_chainman cs))) -> undo_files cs = undo_files (n_chain n) ->
  (forall p b, m_block_index (m_blockman (m_chainman cs)) !! p = Some b -> has_undo b = true -> is_Some (undo_files cs !! p)) ->
  cache_sound VerifyScript U W (m_validation_cache cs) -> entries_distinct W (m_validation_cache cs) ->
  cache_ok coins -> coins_of coins = coins_of (n_coins n) -> cache_best coins = tip n -> node_inv {| n_chain := cs; n_coins := coins |}.
Proof.
  intros [I1 (g & Hg & Hg0) I3 (h & txs & L) I5 I6 I7 I8 I9] Hr He Hu Hst Hs Hd Hc Ec Eb.
  destruct (ledger_entry _ _ _ _ _ _ _ _ L) as (bt & Hbt & _).
  split; cbn [n_chain n_coins]; rewrite ?Ec, ?Eb, ?Hu; try done.
  - destruct (He _ _ Hg) as (g' & Hg' & (E & _)%links_eq). exists g'. split; [done|congruence].
  - exists h, txs. by apply (ledger_extends _ _ _ (index n)).
  - intros x [k Hx]. rewrite (back_mono (index n)) in Hx by (eauto using idx_ok_reachable). apply I5. by exists k.
  - intros p r Hp. destruct (I6 p r Hp) as (b & q & h' & txs' & u & Hb & Hq & L' & Er).
    destruct (He _ _ Hb) as (b' & Hb' & (E & _)%links_eq). exists b', q, h', txs', u. split_and!; [done|congruence|by eapply ledger_extends|done].
  - by rewrite <- Hu.
Qed.

Lemma entries_distinct_hasher (vc vc' : ValidationCache C) :
  m_script_execution_cache_hasher vc' = m_script_execution_cache_hasher vc -> entries_distinct W vc -> entries_distinct W vc'.
Proof.
  intros E [Hz Hd]. assert (Ee : forall t f, hashCacheEntry vc' t f = hashCacheEntry vc t f)
    by (intros; with_strategy transparent [hashCacheEntry] unfold hashCacheEntry; by rewrite E).
  split; [intros t f Hw; rewrite Ee; by apply Hz|]. intros t f t' f' Hw Hw' Eq. apply (Hd t f t' f' Hw Hw'). by rewrite <- !Ee.
Qed.

(** What [ConnectBlock] does with an offered block. *)
Lemma offered_outcome n f f' p b pos h txs :
  node_inv n -> offered n f f' p b -> ledger (index n) (tip n) h txs (coins_of (n_coins n)) ->
  exists cs (view : CCoinsViewCache (CCoinsViewCache V)) r,
    ConnectBlock (n_chain n) f (blocks p) p (new_cache (n_coins n)) (inr pos) false = Some (cs, f', view, r) /\
    cache_ok view /\ utxo (base view) = coins_of (n_coins n) /\ best_block (base view) = tip n /\
    cache_less (m_validation_cache cs) (m_validation_cache (n_chain n)) /\
    (r = connected /\
     connects VerifyScript params (index n) p b (tip n)
       (~ may_skip (m_chainman (n_chain n)) AssumedValidBlock MinimumChainWork p (witness_unavailable params (blocks p) b (nHeight b)))
       (coins_of (n_coins n)) (blocks p) /\
     block_connected params (n_chain n) cs (blocks p) p b (new_cache (n_coins n)) view \/
     (exists reason, r = rejected BLOCK_CONSENSUS reason) /\
     ~ connects VerifyScript params (index n) p b (tip n)
       (~ may_skip (m_chainman (n_chain n)) AssumedValidBlock MinimumChainWork p (witness_unavailable params (blocks p) b (nHeight b)))
       (coins_of (n_coins n)) (blocks p) /\
     m_chainman cs = m_chainman (n_chain n) /\ undo_files cs = undo_files (n_chain n)).
Proof.
  intros [I1 _ I3 _ _ _ _ I8 _] Hoff L. pose proof (offered_height _ _ _ _ _ _ _ _ I1 Hoff L) as Eh.
  pose proof (offered_shape _ _ _ _ _ _ _ _ I1 Hoff L) as Hshape. pose proof (ledger_height _ _ _ _ _ _ _ _ L) as Hh.
  destruct Hoff as [Hp Hq Hg Hnull Hhash Hm Hf Hcheck Hweight _ _ Hw].
  destruct (ledger_ok U HU params blocks _ _ _ _ _ L) as (Linv & Lgood & _).
  destruct (new_cache_facts (n_coins n) I3) as (C1 & C2 & C3 & C4).
  destruct (ConnectBlock_ok VerifyScript signet_solution Complete fuzz params AssumedValidBlock MinimumChainWork HasThreads Hqueue Hexceptions
    (n_chain n) f f' (blocks p) p b (tip n) (new_cache (n_coins n)) pos) as (cs & view & r & E & D1 & D2 & D3 & D4 & D5).
  - split; try done. rewrite C2. apply (coins_good_later h); [lia|done].
  - done.
  - rewrite C2, Eh. by apply (ledger_block_inv U HU h txs); try done; lia.
  - rewrite C2, Eh. apply (cache_sound_block VerifyScript U W HU _ h txs); try done; try lia.
  - done.
  - done.
  - rewrite C2 in D5. exists cs, view, r. split; [exact E|]. split_and!; try done.
Qed.

(** The undo records after a connected block. *)
Lemma connected_undo n cs view p b x :
  node_inv n -> index n !! p = Some b -> block_connected params (n_chain n) cs (blocks p) p b (new_cache (n_coins n)) view ->
  (x = p \/ is_Some (undo_files (n_chain n) !! x)) -> is_Some (undo_files cs !! x).
Proof.
  intros I Hp Hbc Hx. rewrite (bc_undo _ _ _ _ _ _ _ _ Hbc). destruct (has_undo b) eqn:Eu.
  - destruct Hx as [->|Hx]; [by apply (ni_status _ I _ _ Hp)|done].
  - destruct (decide (p = x)) as [->|Hne]; [by rewrite lookup_insert_eq|]. rewrite lookup_insert_ne by done. by destruct Hx.
Qed.

Lemma node_inv_connected n f f' p b h txs cs (view : CCoinsViewCache (CCoinsViewCache V)) coins scripts :
  node_inv n -> offered n f f' p b -> ledger (index n) (tip n) h txs (coins_of (n_coins n)) ->
  connects VerifyScript params (index n) p b (tip n) scripts (coins_of (n_coins n)) (blocks p) ->
  block_connected params (n_chain n) cs (blocks p) p b (new_cache (n_coins n)) view ->
  cache_less (m_validation_cache cs) (m_validation_cache (n_chain n)) ->
  cache_ok coins -> coins_of coins = coins_of view -> cache_best coins = p -> node_inv {| n_chain := cs; n_coins := coins |}.
Proof.
  intros I Hoff L Hcon Hbc Hless Hc Ec Eb. pose proof I as [I1 (g & Hg & Hg0) I3 _ I5 I6 I7 I8 I9].
  pose proof (offered_height _ _ _ _ _ _ _ _ I1 Hoff L) as Eh. pose proof (offered_shape _ _ _ _ _ _ _ _ I1 Hoff L) as Hshape.
  destruct (new_cache_facts (n_coins n) I3) as (_ & C2 & _). destruct (ledger_entry _ _ _ _ _ _ _ _ L) as (bt & Hbt & _).
  pose proof Hoff as [Hp Hq Hgen Hnull _ Hm _ _ _ _ _ _]. pose proof Hbc as [B1 B2 B3 B4 B5 B6 B7]. rewrite C2 in *.
  destruct (B5 p b Hp) as (b' & Hp' & (Eq' & _ & _ & _ & Eh' & _)%links_eq).
  pose proof (connected_undo n cs view p b) as Hundo. destruct Hcon as [_ Hsp _ Hrew]. rewrite Eh in Hsp, Hrew, B1.
  split; cbn [n_chain n_coins]; rewrite ?Ec, ?Eb; try done.
  - destruct (B5 _ _ Hg) as (g' & Hg' & (E & _)%links_eq). exists g'. split; [done|congruence].
  - exists (h + 1), (txs ++ vtx (blocks p)). rewrite B1. apply (ledger_block _ _ _ _ p b' (tip n)); try done; try congruence; try lia.
    + by apply (ledger_extends _ _ _ (index n)).
    + by eapply block_spends_present.
  - intros x Hx. apply (anc_cases _ _ _ _ Hp') in Hx as [->|(q & Hqx & k & Hx)].
    { split; [done|]. intros _. apply Hundo; auto. }
    rewrite Eq', Hq in Hqx. injection Hqx as <-. rewrite (back_mono (index n)) in Hx by (eauto using idx_ok_reachable).
    destruct (I5 x ltac:(by exists k)) as [Hx1 Hx2]. split; [done|]. intros Hne. apply Hundo; auto.
  - intros x r Hx. rewrite B7 in Hx. assert (Hold : undo_files (n_chain n) !! x = Some r \/ (x = p /\ r = {| vtxundo := tail (undos_of (coins_of (n_coins n)) (vtx (blocks p)) (nHeight b)) |})).
    { destruct (has_undo b); [by left|]. apply lookup_insert_Some in Hx as [[<- <-]|[_ Hx]]; [by right|by left]. }
    destruct Hold as [Hold|[-> ->]].
    + destruct (I6 x r Hold) as (bx & q & h' & txs' & u & Hbx & Hqx & L' & Er). destruct (B5 _ _ Hbx) as (bx' & Hbx' & (E & _)%links_eq).
      exists bx', q, h', txs', u. split_and!; [done|congruence|by eapply ledger_extends|done].
    + exists b', (tip n), h, txs, (coins_of (n_coins n)). rewrite Eh. split_and!; [done|congruence|by eapply ledger_extends|done].
  - intros x bx Hx Hux. apply Hundo; try done. destruct (decide (x = p)) as [->|Hne]; [by left|right]. rewrite B6 in Hx by done. by apply (I7 x bx).
  - by apply (cache_sound_less _ _ _ _ (m_validation_cache (n_chain n))).
  - apply (entries_distinct_hasher (m_validation_cache (n_chain n))); [apply Hless|done].
Qed.

Lemma sane_unspent u : coins_sane u -> coins_unspent_all u.
Proof. intros Hu o c Ho. destruct (Hu o c Ho) as [Hv _]. apply Z.eqb_neq. lia. Qed.

(** Disconnecting the best block always succeeds, and gives the coins of its parent. *)
Lemma disconnect_outcome n :
  node_inv n -> tip n <> hashGenesisBlock params ->
  exists (view : CCoinsViewCache (CCoinsViewCache V)) q h txs u b,
    DisconnectBlock (V := CCoinsViewCache V) (index n) (undo_files (n_chain n) !! tip n) (blocks (tip n)) (tip n) (new_cache (n_coins n)) =
      Some (view, DISCONNECT_OK) /\
    index n !! tip n = Some b /\ pprev b = Some q /\ ledger (index n) q h txs u /\
    cache_ok view /\ coins_of view = u /\ hashBlock view = q.
Proof.
  intros [I1 _ I3 (h0 & txs0 & L) I5 I6 _ _ _] Hg. remember (tip n) as p eqn:Ep. remember (coins_of (n_coins n)) as u0 eqn:Eu.
  destruct L as [|p b q h txs u L _ Hp Hq Hh Hm Hs Ha _]; [done|].
  destruct (I5 p (anc_refl _ _)) as [_ Hun]. destruct (Hun Hg) as [r Hr]. rewrite Hr.
  destruct (I6 p r Hr) as (b' & q' & h' & txs' & u' & Hb' & Hq' & L' & ->). simplify_eq.
  destruct (ledger_functional _ _ _ _ _ _ _ _ _ _ _ L L') as (<- & <- & <-).
  destruct (ledger_ok U HU params blocks _ _ _ _ _ L) as (Linv & [G1 G2 G3] & _). pose proof (ledger_height _ _ _ _ _ _ _ _ L) as Hr0.
  destruct (ledger_block_inv U HU h txs u (blocks (tip n)) Linv) as [_ Happ]; [lia|lia|done|]. destruct (Happ Ha) as [Happs _].
  destruct (sh_vtx _ _ _ Hs) as (cb & rest & Ev & Hcb & _ & Hncb). destruct (new_cache_facts (n_coins n) I3) as (C1 & C2 & _).
  destruct (DisconnectBlock_ok (index n) (new_cache (n_coins n)) u (blocks (tip n)) cb rest (tip n) b q) as (view & E & D1 & D2 & D3 & _);
    try done; rewrite ?Hh; try done; try lia; [by rewrite C2|by apply sane_unspent|].
  exists view, q, h, txs, u, b. rewrite Ev. cbn [undos_of tail]. rewrite Hh in E. split; [exact E|]. by split_and!.
Qed.

Lemma node_inv_start n : fresh_node n -> node_inv n.
Proof.
  intros [S1 (g & Hg & Hg0 & Hgp) S3 S4 S5 S6 S7 S8 S9 S10]. split; try done; rewrite ?S5, ?S6, ?S7.
  - by exists g.
  - exists 0, []. by apply (ledger_genesis _ _ _ _ g).
  - intros x Hx. apply (anc_cases _ _ _ _ Hg) in Hx as [->|(q & Hq & _)]; [done|congruence].
  - intros p r. by rewrite lookup_empty.
  - intros p b Hp Hu. rewrite (S8 p b Hp) in Hu. done.
  - intros t f outs Hw _ Hst. by apply S10, (proj1 S9 t f Hw) in Hst.
Qed.

Lemma node_inv_step n e n' : node_inv n -> node_step n e n' -> node_inv n' /\ extends (index n) (index n').
Proof.
  intros I Hstep. pose proof I as [I1 _ I3 (h & txs & L) I5 _ I7 I8 I9]. destruct e as [f f' p b pos| |m|tx flags store pv view]; simpl in Hstep.
  - destruct Hstep as (Hoff & cs & view & r & coins & E & Hcl & ->).
    destruct (offered_outcome n f f' p b pos h txs I Hoff L) as (cs' & view' & r' & E' & D1 & D2 & D3 & D4 & D5). rewrite E in E'. injection E' as <- <- <-.
    destruct D5 as [(-> & Hcon & Hbc)|([reason ->] & _ & Em & Eu)].
    + destruct (close_view_ok true view D1) as (coins' & Ecl & C1 & C2 & C3).
      { intros _. rewrite (bc_best _ _ _ _ _ _ _ _ Hbc). apply Hoff. }
      cbn [is_connected is_clean] in Hcl. rewrite Ecl in Hcl. injection Hcl as <-. rewrite (bc_best _ _ _ _ _ _ _ _ Hbc) in C3. split; [by eapply node_inv_connected|apply Hbc].
    + destruct (close_view_ok false view D1) as (coins' & Ecl & C1 & C2 & C3); [done|]. cbn [is_connected is_clean] in Hcl. rewrite Ecl in Hcl. injection Hcl as <-.
      split; [|simpl; by rewrite Em]. apply (node_inv_frame n); rewrite ?Em, ?Eu; try done; try congruence.
      * by apply (cache_sound_less _ _ _ _ (m_validation_cache (n_chain n))).
      * apply (entries_distinct_hasher (m_validation_cache (n_chain n))); [apply D4|done].
  - destruct Hstep as (Hg & view & r & coins & E & Hcl & ->). split; [|done].
    destruct (disconnect_outcome n I Hg) as (view' & q & h' & txs' & u & b & E' & Hb & Hq & L' & D1 & D2 & D3). rewrite E in E'. injection E' as <- ->.
    assert (Hsub : forall x, anc (index n) x q -> anc (index n) x (tip n)) by (intros x Hx; apply (anc_cases _ _ _ _ Hb); right; by exists q).
    destruct (close_view_ok true view D1) as (coins' & Ecl & C1 & C2 & C3).
    { intros _. rewrite D3. apply I5, Hsub, anc_refl. }
    cbn [is_connected is_clean] in Hcl. rewrite Ecl in Hcl. injection Hcl as <-. destruct I. split; cbn [n_chain n_coins]; rewrite ?C2, ?C3, ?D2, ?D3; try done.
    + by exists h', txs'.
    + intros x Hx. by apply I5, Hsub.
  - destruct Hstep as ([Hr He Hu] & ->). split; [|done]. by apply (node_inv_frame n).
  - destruct Hstep as (Hc & Hf & Hcb & Hin & Hw & view' & vc & r & E & ->). split; [|done].
    destruct (CheckInputScripts_sound VerifyScript U W HU view tx flags store _ pv Hc Hf Hcb Hin Hw I8 I9) as (v1 & vc' & r' & E' & _ & Hs & Hh & _).
    rewrite E in E'. injection E' as <- <- <-. apply (node_inv_frame n); try done. by apply (entries_distinct_hasher (m_validation_cache (n_chain n))).
Qed.

Lemma node_inv_run n events n' : node_inv n -> node_run n events n' -> node_inv n' /\ extends (index n) (index n').
Proof.
  revert n. induction events as [|e events IH]; intros n I; simpl; [by intros ->|]. intros (n1 & Hs & Hr).
  destruct (node_inv_step n e n1 I Hs) as [I1 E1]. destruct (IH n1 I1 Hr) as [I2 E2]. split; [done|by transitivity (index n1)].
Qed.

(** ** What a node keeps true *)

Section Histories.
Context (start n : node) (events : list event) (Hstart : fresh_node start) (Hrun : node_run start events n).

Lemma run_inv : node_inv n.
Proof. by apply (node_inv_run start events n), Hrun; apply node_inv_start. Qed.

(** C1: [ConnectBlock] decides exactly the rules, at every node that can arise: for a child of the best
    block that passed the earlier checks it never fails an assertion, throws or overflows; it accepts
    the block exactly when every transaction finds mature inputs whose value covers its outputs, whose
    relative locks have expired and whose scripts verify (unless they may be skipped), and the limits
    on signature operations, fees and the reward hold; the new coins are those of the block applied in
    order.  Cached script results and the threads of the check queue do not change the verdict. *)
Theorem connect_block_exact f f' p b pos :
  offered n f f' p b ->
  let rules := connects VerifyScript params (index n) p b (tip n)
    (~ may_skip (m_chainman (n_chain n)) AssumedValidBlock MinimumChainWork p (witness_unavailable params (blocks p) b (nHeight b)))
    (coins_of (n_coins n)) (blocks p) in
  exists cs (view : CCoinsViewCache (CCoinsViewCache V)) r,
    ConnectBlock (n_chain n) f (blocks p) p (new_cache (n_coins n)) (inr pos) false = Some (cs, f', view, r) /\
    (r = connected /\ rules /\ coins_of view = apply_txs (coins_of (n_coins n)) (vtx (blocks p)) (nHeight b) /\ hashBlock view = p \/
     (exists reason, r = rejected BLOCK_CONSENSUS reason) /\ ~ rules).
Proof.
  intros Hoff rules. pose proof run_inv as I. destruct (ni_ledger _ I) as (h & txs & L).
  destruct (offered_outcome n f f' p b pos h txs I Hoff L) as (cs & view & r & E & _ & _ & _ & _ & D). exists cs, view, r. split; [exact E|].
  destruct (new_cache_facts (n_coins n) (ni_cache _ I)) as (_ & C2 & _).
  destruct D as [(Hr & Hcon & Hbc)|(Hr & Hn & _)]; [left|by right]. pose proof (bc_coins _ _ _ _ _ _ _ _ Hbc) as Ec. rewrite C2 in Ec.
  split_and!; try done. apply Hbc.
Qed.

(** C3: The coins depend on the best block alone.  Whatever a node does between two moments at which it
    has the same best block (blocks connected, rejected and disconnected, branches switched, headers
    accepted, scripts cached), the coins are the same. *)
Theorem same_tip_same_coins later n' :
  node_run n later n' -> tip n' = tip n -> coins_of (n_coins n') = coins_of (n_coins n).
Proof.
  intros Hrun' Et. pose proof run_inv as I. destruct (node_inv_run n later n' I Hrun') as [I' He].
  destruct (ni_ledger _ I) as (h & txs & L). destruct (ni_ledger _ I') as (h' & txs' & L'). rewrite Et in L'.
  apply (ledger_extends _ _ _ _ (index n')) in L; [|done]. by destruct (ledger_functional _ _ _ _ _ _ _ _ _ _ _ L L') as (_ & _ & ->).
Qed.

(** C4: A node can always go back: the best block can be disconnected cleanly from the undo record
    written when it was connected, down to the genesis block, and what is flushed is the parent as
    best block with exactly the coins of the chain up to it. *)
Theorem best_block_disconnects :
  tip n <> hashGenesisBlock params ->
  exists (view : CCoinsViewCache (CCoinsViewCache V)) coins b q h txs u,
    DisconnectBlock (V := CCoinsViewCache V) (index n) (undo_files (n_chain n) !! tip n) (blocks (tip n)) (tip n) (new_cache (n_coins n)) =
      Some (view, DISCONNECT_OK) /\
    close_view true view = Some coins /\ index n !! tip n = Some b /\ pprev b = Some q /\ cache_best coins = q /\
    ledger (index n) q h txs u /\ coins_of coins = u.
Proof.
  intros Hg. pose proof run_inv as I. destruct (disconnect_outcome n I Hg) as (view & q & h & txs & u & b & E & Hb & Hq & L & D1 & D2 & D3).
  destruct (close_view_ok true view D1) as (coins & Ecl & _ & C2 & C3).
  { intros _. rewrite D3. apply (ni_chain _ I), (anc_cases _ _ _ _ Hb). right. exists q. split; [done|apply anc_refl]. }
  exists view, coins, b, q, h, txs, u. rewrite D2 in C2. rewrite D3 in C3. by split_and!.
Qed.

(** C2: No value is created beyond the subsidies: the coins of a node are together worth at most the
    subsidies of the blocks after the genesis block, whose own output is not a coin; on the main
    network never more than 209,999,997.618768 QBT. *)
Theorem supply_bounded :
  exists h b, index n !! tip n = Some b /\ nHeight b = Z.of_nat h /\
    total (coins_of (n_coins n)) <= emission params (S h) - GetBlockSubsidy 0 params /\
    (params = MainParams -> total (coins_of (n_coins n)) <= 20999999761876800).
Proof.
  pose proof run_inv as I. destruct (ni_ledger _ I) as (h & txs & L). destruct (ledger_entry _ _ _ _ _ _ _ _ L) as (b & Hb & Eh).
  destruct (ledger_ok U HU params blocks _ _ _ _ _ L) as (_ & _ & Ht). pose proof (ledger_height _ _ _ _ _ _ _ _ L) as Hh.
  exists (Z.to_nat h), b. split_and!; try done; [lia|]. intros E. pose proof (mainnet_emission_bound (S (Z.to_nat h))) as Hm. rewrite E in Ht.
  pose proof (GetBlockSubsidy_in_range MainParams 0). lia.
Qed.

(** C5: Transaction identifiers are unique in the chain, so that a block may skip the search for
    repeated outputs (BIP 30): the coinbases differ by their heights (BIP 34), the others spend
    coins that existed once only.  Every coin is an output of one transaction of the chain. *)
Theorem transaction_ids_unique :
  exists h txs, ledger (index n) (tip n) h txs (coins_of (n_coins n)) /\ NoDup (map GetHash txs) /\
    forall o c, coins_of (n_coins n) !! o = Some c -> exists t, t ∈ txs /\ GetHash t = op_hash o /\ vout t !! Z.to_nat (op_n o) = Some (out c).
Proof.
  pose proof run_inv as I. destruct (ni_ledger _ I) as (h & txs & L). destruct (ledger_ok U HU params blocks _ _ _ _ _ L) as (Linv & _).
  exists h, txs. split; [exact L|]. split; [apply Linv|]. intros o c Ho. destruct (li_origin _ _ _ _ Linv o c Ho) as (t & Ht & E & _ & Hv).
  exists t. by split_and!.
Qed.

End Histories.
End Node.
