(* ===== verification/Regtest.v ===== *)
(** A regression-test node that connects a mined block and disconnects it: the instances of the
    theorems of [History]. *)

From stdpp Require Import gmap strings sorting.
From S2P Require Import Prelude ArithUint Version Primitives Sha256 Merkle Serialize Block Script Chain AuxPow Subsidy Networks.
From S2P Require Import CoinsMap Coins CoinsDB Headers AssumeValid TxCheck Undo SigOps BlockCheck ScriptChecks CuckooCache ScriptCache CheckQueue Connect ConnectOk Ledger History.
From S2P Require Import Params.

#[local] Open Scope Z_scope.
#[local] Open Scope qbit_scope.

(** ** The environment *)

(** Scripts verify when the input has a witness. *)
Definition has_witness_stack (sig key : CScript) (witness : list (list Z)) (flags : Z) (context : CTransaction * nat * Z * list CTxOut) : option string :=
  match witness with [] => Some "Witness program was passed an empty witness"%string | _ => None end.

(** A queue that runs its checks one after the other. *)
Fixpoint run_all (checks : list CScriptCheck) : option string :=
  match checks with
  | [] => None
  | c :: checks => match check_error has_witness_stack c with Some e => Some e | None => run_all checks end
  end.

Lemma run_all_correct : queue_correct has_witness_stack run_all.
Proof.
  intros checks. induction checks as [|c checks IH]; simpl; [apply Forall_nil_2|].
  destruct (check_error has_witness_stack c) as [e|] eqn:E; [exists c; split; [by left|done]|]. unfold Queue.verdict_of in *.
  destruct (run_all checks) as [e|]; [|by apply Forall_cons_2]. destruct IH as (c' & Hc' & E'). exists c'. split; [by right|done].
Qed.

(** ** The block *)

Definition chain_params : Params := RegTestParams example_options.

Definition first_coinbase : CTransaction := {|
  vin := [{| prevout := {| op_hash := uint256_zero; op_n := NULL_INDEX |}; scriptSig := [0x51; 0x00]; nSequence := SEQUENCE_FINAL; scriptWitness := [] |}];
  vout := [{| nValue := 1000; scriptPubKey := 0x52 :: 0x20 :: replicate 32 7 |}];
  tx_version := 2; nLockTime := 0 |}.

Definition first_block : CBlock := {|
  header := {| pure := {| nVersion := 0x20000000; hashPrevBlock := hashGenesisBlock chain_params; hashMerkleRoot := GetHash first_coinbase;
                          nTime := 1738713677; nBits := 0x207fffff; nNonce := 2 |}; auxpow := None |};
  vtx := [first_coinbase] |}.

Definition first_hash : ptr := HeaderGetHash (pure (header first_block)).

Definition node_headers : ChainstateManager :=
  processed (ProcessNewBlockHeaders false 1 chain_params node_start [(1738713700, header first_block)] true None).

Lemma node_headers_reachable : headers_reachable chain_params node_headers.
Proof.
  unfold node_headers. set (hs := [_]).
  destruct (defined_some (ProcessNewBlockHeaders false 1 chain_params node_start hs true None)) as ([[s v] r] & E); [vm_compute; reflexivity|].
  rewrite E. apply (hdr_process _ node_start 1 hs true None s v r); [exact node_start_reachable| |exact E].
  apply Forall_cons_2; [|apply Forall_nil_2]; repeat split; vm_compute; congruence.
Qed.

(** A transaction that spends the first coinbase. *)
Definition spender : CTransaction := {|
  vin := [{| prevout := {| op_hash := GetHash first_coinbase; op_n := 0 |}; scriptSig := []; nSequence := SEQUENCE_FINAL; scriptWitness := [[1]] |}];
  vout := [{| nValue := 900; scriptPubKey := 0x52 :: 0x20 :: replicate 32 8 |}];
  tx_version := 2; nLockTime := 0 |}.

Definition seen_txs (t : CTransaction) : Prop := t ∈ [first_coinbase; spender].
Definition checked_txs (t : CTransaction) (flags : Z) : Prop := t = spender /\ flags = 2049.
Definition block_files (p : ptr) : CBlock := first_block.

Lemma output_valid v key : in_s 64 v -> limbs 8 key -> Z.of_nat (length key) <= MAX_SIZE -> valid CTxOut_fmt {| nValue := v; scriptPubKey := key |}.
Proof. intros Hv Hk Hl. split; [|reflexivity]. cbn [fst snd]. split; [exact Hv|]. split; [exact Hk|exact Hl]. Qed.

Lemma input_valid o sig seq :
  length (op_hash o) = 32%nat -> limbs 8 (op_hash o) -> in_u 32 (op_n o) -> limbs 8 sig -> Z.of_nat (length sig) <= MAX_SIZE -> in_u 32 seq ->
  valid CTxIn_fmt {| prevout := o; scriptSig := sig; nSequence := seq; scriptWitness := [] |}.
Proof.
  intros H1 H2 H3 H4 H5 H6. destruct o as [h i]. split; [|reflexivity]. cbn [fst snd].
  split; [split; [split; [split; [exact H1|exact H2]|exact H3]|reflexivity]|]. split; [split; [exact H4|exact H5]|exact H6].
Qed.

Lemma one_in_one_out i o :
  valid CTxIn_fmt i -> valid CTxOut_fmt o -> valid (tx_fmt false) {| vin := [i]; vout := [o]; tx_version := 2; nLockTime := 0 |}.
Proof.
  intros Hi Ho. split; [cbn; unfold in_u; lia|]. split; [cbn; unfold in_u; lia|].
  assert (H1 : forall {A} (f : format A) x, valid f x -> valid (vector_fmt f) [x]).
  { intros A f x Hx. split; [apply Forall_cons_2; [exact Hx|apply Forall_nil_2]|unfold MAX_SIZE; cbn; lia]. }
  assert (Es : strip i = i) by exact (proj2 Hi). split; [apply H1; rewrite Es; exact Hi|]. split; [apply H1; exact Ho|].
  cbn. rewrite <- Es. reflexivity.
Qed.

Lemma seen_identified : identified seen_txs.
Proof.
  split.
  - intros t Ht. apply elem_of_cons in Ht as [->|Ht]; [|apply list_elem_of_singleton in Ht as ->];
      (apply one_in_one_out; [apply input_valid|apply output_valid]);
      try (apply limbs_check; vm_compute; reflexivity); try (vm_compute; reflexivity); try (vm_compute; split; congruence);
      vm_compute; congruence.
  - intros t t' Ht Ht'. assert (Hall : no_collision (map (SerializeTransaction false) [first_coinbase; spender])
      (map (SerializeTransaction false) [first_coinbase; spender])) by (apply no_collision_distinct; vm_compute; reflexivity).
    intros x y Hx Hy. apply Hall.
    + destruct Hx as [<-|[]]. apply in_map, list_elem_of_In. exact Ht.
    + destruct Hy as [<-|[]]. apply in_map, list_elem_of_In. exact Ht'.
Qed.

(** ** The node *)

Definition coins_store : CCoinsViewCache (CCoinsViewDB db_contents) :=
  SetBestBlock (new_cache (memory_view nDefaultDbBatchSize)) (hashGenesisBlock chain_params).

Definition node0 : node (V := CCoinsViewDB db_contents) (C := Cuckoo.cache uint256) :=
  {| n_chain := Build_Chainstate node_headers ∅ (new_ValidationCache (replicate 64 0) (replicate 32 3) (new_script_cache Z.log2 1024)); n_coins := coins_store |}.

Lemma coins_store_ok : cache_ok coins_store /\ coins_of coins_store = ∅ /\ cache_best coins_store = hashGenesisBlock chain_params.
Proof.
  destruct (new_cache_ok (memory_view nDefaultDbBatchSize) (memory_view_ok _)) as [[K1 K2 K3] Hm].
  split; [split; [exact K1|exact K2|exact K3]|]. split; [exact (f_equal s_coins Hm)|]. vm_compute. reflexivity.
Qed.

Lemma node0_fresh : fresh_node chain_params checked_txs node0.
Proof.
  destruct coins_store_ok as (K1 & K2 & K3). split.
  - exact node_headers_reachable.
  - assert (Hg : match m_block_index (m_blockman node_headers) !! hashGenesisBlock chain_params with
      | Some g => (nHeight g =? 0) && negb (defined (pprev g)) | None => false end = true) by (vm_compute; reflexivity).
    destruct (m_block_index (m_blockman node_headers) !! hashGenesisBlock chain_params) as [g|] eqn:E; [|discriminate Hg].
    exists g. split; [exact E|]. apply andb_prop in Hg as [H1 H2]. split; [apply Z.eqb_eq; exact H1|].
    destruct (pprev g); [discriminate H2|reflexivity].
  - vm_compute. reflexivity.
  - exact K1.
  - exact K2.
  - exact K3.
  - reflexivity.
  - assert (Hs : bool_decide (map_Forall (fun (_ : ptr) b => has_undo b = false) (m_block_index (m_blockman node_headers))) = true)
      by (vm_compute; reflexivity).
    apply bool_decide_eq_true_1 in Hs. exact Hs.
  - split; [|intros t f t' f' [-> ->] [-> ->] _; split; reflexivity]. intros t f [-> ->]. apply (bool_decide_eq_false_1 (_ = _)). vm_compute. reflexivity.
  - intros e. apply new_script_cache_empty.
Qed.

Definition checked_flags : block_flags := {| fChecked := true; m_checked_witness_commitment := false; m_checked_merkle_root := true |}.

Lemma first_offered :
  exists b, nHeight b = 1 /\ offered (fun _ => true) false chain_params block_files seen_txs checked_txs node0 no_flags checked_flags first_hash b.
Proof.
  assert (Hb : match m_block_index (m_blockman node_headers) !! first_hash with
    | Some b => (nHeight b =? 1) && bool_decide (pprev b = Some (hashGenesisBlock chain_params)) | None => false end = true) by (vm_compute; reflexivity).
  destruct (m_block_index (m_blockman node_headers) !! first_hash) as [b|] eqn:E; [|discriminate Hb].
  apply andb_prop in Hb as [H1 H2]. apply Z.eqb_eq in H1. apply bool_decide_eq_true_1 in H2. destruct coins_store_ok as (_ & _ & K3).
  exists b. split; [exact H1|]. split.
  - exact E.
  - rewrite H2. change (cache_best (n_coins node0)) with (cache_best coins_store). rewrite K3. reflexivity.
  - apply (bool_decide_eq_false_1 (_ = _)). vm_compute. reflexivity.
  - vm_compute. reflexivity.
  - reflexivity.
  - rewrite H1. reflexivity.
  - intros Hf. discriminate Hf.
  - vm_compute. reflexivity.
  - vm_compute. reflexivity.
  - exists no_flags, no_flags, false. rewrite H1. change (cache_best (n_coins node0)) with (cache_best coins_store). rewrite K3. vm_compute. reflexivity.
  - apply Forall_cons_2; [|apply Forall_nil_2]. apply elem_of_cons. left. reflexivity.
  - apply Forall_cons_2; [|apply Forall_nil_2]. intros Hcb. discriminate Hcb.
Qed.

Abbreviation example_run := (node_run has_witness_stack (fun _ => true) run_all false chain_params uint256_zero (arith_uint256 0) true
  block_files seen_txs checked_txs) (only parsing).
Abbreviation example_connect := (ConnectBlock has_witness_stack (fun _ => true) run_all false chain_params uint256_zero (arith_uint256 0) true
  (n_chain node0) no_flags first_block first_hash (new_cache (n_coins node0)) (inr 8) false) (only parsing).

Lemma min_work_ok : wf W256 (arith_uint256 0).
Proof. apply wf_arith. split; lia. Qed.

Lemma no_exceptions : Forall (fun x => flags_consistent (snd x)) (script_flag_exceptions chain_params).
Proof. apply Forall_nil_2. Qed.

Lemma bip34_active : BIP34Height chain_params <= 1.
Proof. apply Z.leb_le. vm_compute. reflexivity. Qed.

(** The block is connected. *)
Lemma first_connected :
  exists b n1, example_run node0 [ev_connect no_flags checked_flags first_hash b 8] n1 /\ cache_best (n_coins n1) = first_hash.
Proof.
  destruct first_offered as (b & Hh & Hoff). pose proof (node_inv_start has_witness_stack chain_params block_files seen_txs checked_txs node0 node0_fresh) as I.
  destruct (ni_ledger _ _ _ _ _ _ I) as (h & txs & L).
  destruct (offered_outcome has_witness_stack (fun _ => true) run_all false chain_params uint256_zero (arith_uint256 0) true block_files seen_txs
    checked_txs seen_identified run_all_correct no_exceptions min_work_ok bip34_active node0 no_flags checked_flags first_hash b 8 h txs I Hoff L)
    as (cs & view & r & E & D1 & _ & _ & _ & D5).
  assert (Hr : is_connected r = true).
  { assert (Hc : match example_connect with Some (_, _, _, r) => is_connected r | None => false end = true) by (vm_compute; reflexivity).
    change (block_files first_hash) with first_block in E. rewrite E in Hc. exact Hc. }
  destruct r as [| |]; [|discriminate Hr..]. destruct D5 as [(_ & _ & Hbc)|([? D5] & _)]; [|discriminate D5].
  destruct (close_view_ok true view D1) as (coins & Ecl & _ & _ & Cb).
  { intros _. rewrite (bc_best _ _ _ _ _ _ _ _ Hbc). apply Hoff. }
  rewrite (bc_best _ _ _ _ _ _ _ _ Hbc) in Cb. exists b, {| n_chain := cs; n_coins := coins |}. split; [|exact Cb].
  apply node_run_one. split; [exact Hoff|]. exists cs, view, connected, coins. split; [exact E|]. split; [exact Ecl|reflexivity].
Qed.

Lemma connect_block_exact_witness :
  exists b cs (view : CCoinsViewCache (CCoinsViewCache (CCoinsViewDB db_contents))),
    example_connect = Some (cs, checked_flags, view, connected) /\ nHeight b = 1 /\
    coins_of view = apply_txs ∅ (vtx first_block) 1.
Proof.
  destruct first_offered as (b & Hh & Hoff).
  destruct (connect_block_exact has_witness_stack (fun _ => true) run_all false chain_params uint256_zero (arith_uint256 0) true block_files seen_txs
    checked_txs seen_identified run_all_correct no_exceptions min_work_ok bip34_active node0 node0 [] node0_fresh eq_refl
    no_flags checked_flags first_hash b 8 Hoff) as (cs & view & r & E & D).
  change (block_files first_hash) with first_block in E.
  assert (Hc : match example_connect with Some (_, _, _, r) => is_connected r | None => false end = true) by (vm_compute; reflexivity).
  rewrite E in Hc. destruct r as [| |]; [|discriminate Hc..].
  destruct D as [(_ & _ & D & _)|([? D] & _)]; [|discriminate D]. rewrite Hh in D.
  exists b, cs, view. split; [exact E|]. split; [exact Hh|]. rewrite D. reflexivity.
Defined.

(** Connected and disconnected again: the coins are the ones from before. *)
Lemma same_tip_same_coins_witness :
  exists b n2, example_run node0 [ev_connect no_flags checked_flags first_hash b 8; ev_disconnect] n2 /\ coins_of (n_coins n2) = ∅.
Proof.
  destruct first_connected as (b & n1 & Hrun & Ht).
  destruct (node_inv_run has_witness_stack (fun _ => true) run_all false chain_params uint256_zero (arith_uint256 0) true block_files seen_txs
    checked_txs seen_identified run_all_correct no_exceptions min_work_ok bip34_active node0 _ n1
    (node_inv_start _ _ _ _ _ node0 node0_fresh) Hrun) as [I1 He].
  assert (Hg : cache_best (n_coins n1) <> hashGenesisBlock chain_params)
    by (rewrite Ht; apply (bool_decide_eq_false_1 (_ = _)); vm_compute; reflexivity).
  destruct (disconnect_outcome has_witness_stack chain_params block_files seen_txs checked_txs seen_identified n1 I1 Hg)
    as (view & q & h & txs & u & bt & E & Hb & Hq & L & D1 & D2 & D3).
  assert (Eq : q = hashGenesisBlock chain_params).
  { destruct first_offered as (b0 & _ & Hoff). destruct (He first_hash b0 (off_entry _ _ _ _ _ _ _ _ _ _ _ Hoff)) as (b1 & Hb1 & (Ep & _)%links_eq).
    rewrite Ht, Hb1 in Hb. injection Hb as <-. rewrite Ep, (off_prev _ _ _ _ _ _ _ _ _ _ _ Hoff) in Hq. apply (inj Some) in Hq. rewrite <- Hq. apply coins_store_ok. }
  destruct (close_view_ok true view D1) as (coins & Ecl & _ & _ & Cb); [intros _; rewrite D3, Eq; vm_compute; reflexivity|].
  set (n2 := {| n_chain := n_chain n1; n_coins := coins |}).
  assert (Hrun2 : example_run node0 [ev_connect no_flags checked_flags first_hash b 8; ev_disconnect] n2).
  { apply (node_run_app _ _ _ _ _ _ _ _ _ _ _ node0 [ev_connect no_flags checked_flags first_hash b 8] n1 [ev_disconnect] n2 Hrun).
    apply node_run_one. split; [exact Hg|]. exists view, DISCONNECT_OK, coins. split; [exact E|]. split; [exact Ecl|reflexivity]. }
  exists b, n2. split; [exact Hrun2|]. transitivity (coins_of (n_coins node0)); [|reflexivity].
  apply (same_tip_same_coins has_witness_stack (fun _ => true) run_all false chain_params uint256_zero (arith_uint256 0) true block_files seen_txs
    checked_txs seen_identified run_all_correct no_exceptions min_work_ok bip34_active node0 node0 [] node0_fresh eq_refl _ n2 Hrun2).
  change (n_coins n2) with coins. rewrite Cb, D3, Eq. symmetry. apply coins_store_ok.
Defined.

Lemma best_block_disconnects_witness :
  exists b n1 (view : CCoinsViewCache (CCoinsViewCache (CCoinsViewDB db_contents))),
    example_run node0 [ev_connect no_flags checked_flags first_hash b 8] n1 /\
    DisconnectBlock (m_block_index (m_blockman (m_chainman (n_chain n1)))) (undo_files (n_chain n1) !! cache_best (n_coins n1)) first_block
      (cache_best (n_coins n1)) (new_cache (n_coins n1)) = Some (view, DISCONNECT_OK).
Proof.
  destruct first_connected as (b & n1 & Hrun & Ht).
  destruct (best_block_disconnects has_witness_stack (fun _ => true) run_all false chain_params uint256_zero (arith_uint256 0) true block_files seen_txs
    checked_txs seen_identified run_all_correct no_exceptions min_work_ok bip34_active node0 n1 _ node0_fresh Hrun) as (view & _ & _ & _ & _ & _ & _ & E & _).
  - rewrite Ht. apply (bool_decide_eq_false_1 (_ = _)). vm_compute. reflexivity.
  - exists b, n1, view. split; [exact Hrun|exact E].
Defined.

Lemma supply_bounded_witness :
  exists b n1, example_run node0 [ev_connect no_flags checked_flags first_hash b 8] n1 /\ total (coins_of (n_coins n1)) <= emission chain_params 2.
Proof.
  destruct first_connected as (b & n1 & Hrun & Ht). exists b, n1. split; [exact Hrun|].
  destruct (supply_bounded has_witness_stack (fun _ => true) run_all false chain_params uint256_zero (arith_uint256 0) true block_files seen_txs
    checked_txs seen_identified run_all_correct no_exceptions min_work_ok bip34_active node0 n1 _ node0_fresh Hrun) as (h & bt & Hbt & Eh & Hle & _).
  destruct (node_inv_run has_witness_stack (fun _ => true) run_all false chain_params uint256_zero (arith_uint256 0) true block_files seen_txs
    checked_txs seen_identified run_all_correct no_exceptions min_work_ok bip34_active node0 _ n1
    (node_inv_start _ _ _ _ _ node0 node0_fresh) Hrun) as [_ He].
  destruct first_offered as (b0 & Eh0 & Hoff). destruct (He first_hash b0 (off_entry _ _ _ _ _ _ _ _ _ _ _ Hoff)) as (b1 & Hb1 & L%links_eq).
  destruct L as (_ & _ & _ & _ & L & _). rewrite Ht, Hb1 in Hbt. injection Hbt as <-. rewrite L, Eh0 in Eh.
  assert (h = 1%nat) as -> by lia. pose proof (GetBlockSubsidy_in_range chain_params 0). lia.
Defined.

Lemma transaction_ids_unique_witness :
  exists b n1 txs, example_run node0 [ev_connect no_flags checked_flags first_hash b 8] n1 /\ NoDup (map GetHash txs).
Proof.
  destruct first_connected as (b & n1 & Hrun & Ht).
  destruct (transaction_ids_unique has_witness_stack (fun _ => true) run_all false chain_params uint256_zero (arith_uint256 0) true block_files seen_txs
    checked_txs seen_identified run_all_correct no_exceptions min_work_ok bip34_active node0 n1 _ node0_fresh Hrun) as (h & txs & _ & Hnd & _).
  exists b, n1, txs. split; [exact Hrun|exact Hnd].
Defined.

Definition first_outpoint : COutPoint := {| op_hash := GetHash first_coinbase; op_n := 0 |}.
Definition first_coin : Coin := make_Coin {| nValue := 1000; scriptPubKey := 0x52 :: 0x20 :: replicate 32 7 |} 1 true.

