(* ===== verification/RpcDocs.v ===== *)
(** The filter of the RPC reference pages, [src/doc/rpc/assets/rpcdocs.js].

    The script shares mutable DOM elements between the handlers it installs, so the document is a
    store of elements keyed by node, in tree order, and the arrays the script keeps are lists of
    nodes.  Of an element the script sees its class list, its [data-changed] attribute and its
    [checked] property.  The browser is the environment: it delivers [DOMContentLoaded] once, and
    then, for each control the reader operates, sets the control's [checked] property and
    dispatches a [change] event along the path from the control to the root. *)

From stdpp Require Import gmap strings.
From S2P Require Import Prelude.

(** ** The document *)

Abbreviation node := nat (only parsing).

Record Element := { classList : gset string; dataset_changed : option string; checked : bool }.

Record Document := { nodes : gmap nat Element; tree_order : list nat }.

Definition has_class (d : Document) (cls : string) (n : node) : bool :=
  match nodes d !! n with Some e => bool_decide (cls ∈ classList e) | None => false end.

(** [Array.from(document.querySelectorAll("." + cls))]: the matching nodes, in tree order. *)
Definition querySelectorAll (d : Document) (cls : string) : list node :=
  List.filter (has_class d cls) (tree_order d).

(** [element.classList.toggle(token, force)]. *)
Definition classList_toggle (token : string) (force : bool) (e : Element) : Element :=
  {| classList := if force then {[token]} ∪ classList e else classList e ∖ {[token]};
     dataset_changed := dataset_changed e; checked := checked e |}.

Definition set_checked (v : bool) (e : Element) : Element :=
  {| classList := classList e; dataset_changed := dataset_changed e; checked := v |}.

Definition isChanged (e : Element) : bool := bool_decide (dataset_changed e = Some "true"%string).

(** ** The script *)

Definition applyFilter (cards toggles : list node) (showChangedOnly : bool) (m : gmap nat Element)
  : gmap nat Element :=
  let m := foldl (fun m card =>
             alter (fun e => classList_toggle "is-hidden" (showChangedOnly && negb (isChanged e)) e) card m) m cards in
  foldl (fun m toggle => alter (set_checked showChangedOnly) toggle m) m toggles.

(** The page: its elements, and the handlers installed for [change] as the node they listen on with
    the arrays their closure captured. *)
Record Page := { page_nodes : gmap nat Element; listeners : list (nat * (list nat * list nat)) }.

Definition DOMContentLoaded (d : Document) : Page :=
  let cards := querySelectorAll d "rpc-method-card" in
  if (length cards =? 0)%nat then {| page_nodes := nodes d; listeners := [] |}
  else
    let toggles := querySelectorAll d "rpc-show-changed-only" in
    {| page_nodes := applyFilter cards toggles false (nodes d);
       listeners := map (fun toggle => (toggle, (cards, toggles))) toggles |}.

(** The handler: [applyFilter(event.target.checked)]. *)
Definition onchange (target : node) (captured : list nat * list nat) (m : gmap nat Element) : gmap nat Element :=
  match m !! target with
  | Some e => applyFilter (fst captured) (snd captured) (checked e) m
  | None => m
  end.

(** Dispatch along the path: every listener of every node on it, in order. *)
Definition dispatch_change (target : node) (path : list node) (p : Page) : Page :=
  {| page_nodes := foldl (fun m n =>
       foldl (fun m h => if (fst h =? n)%nat then onchange target (snd h) m else m) m (listeners p))
       (page_nodes p) path;
     listeners := listeners p |}.

(** The reader sets control [target], whose ancestors are [ancestors], to [v]. *)
Definition user_change (target : node) (ancestors : list node) (v : bool) (p : Page) : Page :=
  dispatch_change target (target :: ancestors)
    {| page_nodes := alter (set_checked v) target (page_nodes p); listeners := listeners p |}.

(** ** What the page promises *)

(** One switch for the whole page. *)
Definition filter_shown (m0 m : gmap nat Element) (cards toggles : list node) (v : bool) : Prop :=
  (forall card e0, card ∈ cards -> m0 !! card = Some e0 ->
     exists e, m !! card = Some e /\ dataset_changed e = dataset_changed e0 /\
       ("is-hidden"%string ∈ classList e <-> v = true /\ dataset_changed e0 <> Some "true"%string)) /\
  (forall toggle e, toggle ∈ toggles -> m !! toggle = Some e -> checked e = v).

(** An abstract change of the switch: only events that pass a toggle count. *)
Definition spec_change (toggles : list node) (path : list node) (v shown : bool) : bool :=
  if existsb (fun n => bool_decide (n ∈ toggles)) path then v else shown.

(** ** Folds over nodes *)

Lemma foldl_alter_lookup {A} (f : A -> A) (l : list nat) (m : gmap nat A) n :
  (forall x, f (f x) = f x) ->
  foldl (fun m k => alter f k m) m l !! n = if bool_decide (n ∈ l) then f <$> m !! n else m !! n.
Proof.
  intros Hf; revert m; induction l as [|k l IH]; intros m; cbn [foldl]; [reflexivity|].
  rewrite IH; destruct (decide (k = n)) as [->|Hne].
  - rewrite lookup_alter_eq, (bool_decide_eq_true_2 (n ∈ n :: l)) by left.
    case_bool_decide; [destruct (m !! n); cbn; rewrite ?Hf; reflexivity | reflexivity].
  - rewrite lookup_alter_ne by congruence.
    replace (bool_decide (n ∈ k :: l)) with (bool_decide (n ∈ l)); [reflexivity|].
    apply bool_decide_ext; rewrite elem_of_cons; split; [auto | intros [->|]; [congruence | assumption]].
Qed.

Definition hide (show : bool) (e : Element) : Element := classList_toggle "is-hidden" (show && negb (isChanged e)) e.

Lemma hide_idem show e : hide show (hide show e) = hide show e.
Proof.
  unfold hide, classList_toggle, isChanged; cbn; destruct e as [c d k]; cbn; f_equal.
  destruct (show && _); set_solver.
Qed.

Lemma applyFilter_lookup cards toggles show m n :
  applyFilter cards toggles show m !! n =
  (fun e => (if bool_decide (n ∈ toggles) then set_checked show else id)
              ((if bool_decide (n ∈ cards) then hide show else id) e)) <$> m !! n.
Proof.
  unfold applyFilter; rewrite foldl_alter_lookup by reflexivity.
  change (fun e => classList_toggle "is-hidden" (show && negb (isChanged e)) e) with (hide show).
  rewrite foldl_alter_lookup by apply hide_idem.
  destruct (m !! n); repeat case_bool_decide; reflexivity.
Qed.

Lemma applyFilter_idem cards toggles show m :
  applyFilter cards toggles show (applyFilter cards toggles show m) = applyFilter cards toggles show m.
Proof.
  apply map_eq; intros n; rewrite !applyFilter_lookup; destruct (m !! n) as [e|]; [|reflexivity].
  cbn; f_equal; case_bool_decide; case_bool_decide; unfold id; try reflexivity; try apply hide_idem.
  change (set_checked show (hide show (set_checked show (hide show e))) = set_checked show (hide show e)).
  rewrite <- (hide_idem show e) at 2; reflexivity.
Qed.

Lemma applyFilter_shown m0 m cards toggles show :
  (forall n, dataset_changed <$> m !! n = dataset_changed <$> m0 !! n) ->
  filter_shown m0 (applyFilter cards toggles show m) cards toggles show.
Proof.
  intros Hd; split.
  - intros card e0 Hc H0; specialize (Hd card); rewrite H0 in Hd; destruct (m !! card) as [e|] eqn:E; [|discriminate].
    cbn in Hd; injection Hd as Hd; rewrite applyFilter_lookup, E, (bool_decide_eq_true_2 (card ∈ cards)) by exact Hc.
    eexists; split; [reflexivity|].
    assert (Hh : dataset_changed (hide show e) = dataset_changed e0 /\
      ("is-hidden"%string ∈ classList (hide show e) <-> show = true /\ dataset_changed e0 <> Some "true"%string)).
    { split; [exact Hd|]; unfold hide, classList_toggle, isChanged; cbn [classList]; rewrite Hd.
      destruct show; cbn [andb]; [|split; [set_solver | intros [? _]; discriminate]].
      case_bool_decide as Hx; cbn [negb]; set_solver. }
    case_bool_decide; exact Hh.
  - intros t e Ht; rewrite applyFilter_lookup, (bool_decide_eq_true_2 (t ∈ toggles)) by exact Ht.
    destruct (m !! t); [|discriminate]; cbn; intros [= <-]; reflexivity.
Qed.

(** ** Dispatch *)

Definition target_is (target : node) (v : bool) (m : gmap nat Element) : Prop :=
  exists e, m !! target = Some e /\ checked e = v.

Lemma target_is_applyFilter cards toggles target v m :
  target_is target v m -> target_is target v (applyFilter cards toggles v m).
Proof.
  intros (e & E & Hv); unfold target_is; rewrite applyFilter_lookup, E; eexists; split; [reflexivity|].
  repeat case_bool_decide; cbn; auto.
Qed.

Section Dispatch.
Context (cards toggles : list nat) (target : nat) (v : bool).

Lemma onchange_eq m : target_is target v m -> onchange target (cards, toggles) m = applyFilter cards toggles v m.
Proof. intros (e & E & <-); unfold onchange; rewrite E; reflexivity. Qed.

Definition run_handlers (n : nat) (l : list nat) (m : gmap nat Element) : gmap nat Element :=
  foldl (fun m h => if (fst h =? n)%nat then onchange target (snd h) m else m) m
    (map (fun toggle => (toggle, (cards, toggles))) l).

Lemma run_handlers_eq n l m :
  target_is target v m ->
  run_handlers n l m = if bool_decide (n ∈ l) then applyFilter cards toggles v m else m.
Proof.
  unfold run_handlers; revert m; induction l as [|t l IH]; intros m Ht; cbn [map foldl fst snd]; [reflexivity|].
  destruct (Nat.eqb_spec t n) as [->|Hne].
  - rewrite onchange_eq, IH, (bool_decide_eq_true_2 (n ∈ n :: l)) by (auto using target_is_applyFilter; left).
    case_bool_decide; [apply applyFilter_idem | reflexivity].
  - rewrite IH by exact Ht.
    replace (bool_decide (n ∈ t :: l)) with (bool_decide (n ∈ l)); [reflexivity|].
    apply bool_decide_ext; rewrite elem_of_cons; split; [auto | intros [->|]; [congruence | assumption]].
Qed.

Lemma dispatch_eq path m :
  target_is target v m ->
  foldl (fun m n => run_handlers n toggles m) m path =
  if existsb (fun n => bool_decide (n ∈ toggles)) path then applyFilter cards toggles v m else m.
Proof.
  revert m; induction path as [|n path IH]; intros m Ht; cbn [foldl existsb]; [reflexivity|].
  rewrite run_handlers_eq by exact Ht; case_bool_decide; cbn [orb].
  - rewrite IH by (apply target_is_applyFilter, Ht); case_match; [apply applyFilter_idem | reflexivity].
  - apply IH, Ht.
Qed.
End Dispatch.

(** ** Runs of a page *)

Section Runs.
Context (d : Document).

Definition page_cards : list nat := querySelectorAll d "rpc-method-card".
Definition page_toggles : list nat := querySelectorAll d "rpc-show-changed-only".

(** The pages reachable from the document by operating its controls, with the position of the one
    switch the reader sees. *)
Inductive page_run : Page -> bool -> Prop :=
| run_load : page_run (DOMContentLoaded d) false
| run_change p shown target ancestors v :
    page_run p shown -> is_Some (page_nodes p !! target) ->
    page_run (user_change target ancestors v p) (spec_change page_toggles (target :: ancestors) v shown).

(** Of an element only [checked] and the class [is-hidden] ever change. *)
Definition same_but_filter (e0 e : Element) : Prop :=
  dataset_changed e = dataset_changed e0 /\
  forall cls, cls <> "is-hidden"%string -> cls ∈ classList e <-> cls ∈ classList e0.

Definition nodes_related (m0 m : gmap nat Element) : Prop := forall n, option_Forall2 same_but_filter (m0 !! n) (m !! n).

Lemma nodes_related_refl m : nodes_related m m.
Proof. intros n; destruct (m !! n); constructor; split; auto. Qed.

Lemma same_set_checked v e0 e : same_but_filter e0 e -> same_but_filter e0 (set_checked v e).
Proof. intros H; exact H. Qed.

Lemma same_hide v e0 e : same_but_filter e0 e -> same_but_filter e0 (hide v e).
Proof.
  intros [H1 H2]; split; [exact H1|]; intros cls Hne; rewrite <- (H2 cls Hne); unfold hide, classList_toggle; cbn.
  case_match; [rewrite elem_of_union, elem_of_singleton | rewrite elem_of_difference, elem_of_singleton]; tauto.
Qed.

Lemma nodes_related_alter m0 m n v : nodes_related m0 m -> nodes_related m0 (alter (set_checked v) n m).
Proof.
  intros H k; specialize (H k); destruct (decide (n = k)) as [->|Hne]; [|rewrite lookup_alter_ne by exact Hne; exact H].
  rewrite lookup_alter_eq; destruct H; constructor; auto using same_set_checked.
Qed.

Lemma nodes_related_applyFilter m0 m cards toggles v :
  nodes_related m0 m -> nodes_related m0 (applyFilter cards toggles v m).
Proof.
  intros H k; specialize (H k); rewrite applyFilter_lookup; destruct H; constructor.
  repeat case_bool_decide; unfold id; auto using same_set_checked, same_hide.
Qed.

Lemma nodes_related_changed m0 m n :
  nodes_related m0 m -> dataset_changed <$> m !! n = dataset_changed <$> m0 !! n.
Proof. intros H; specialize (H n); destruct H as [e0 e [H _]|]; [cbn; congruence | reflexivity]. Qed.

Definition page_inv (p : Page) (shown : bool) : Prop :=
  listeners p = map (fun toggle => (toggle, (page_cards, page_toggles))) page_toggles /\
  nodes_related (nodes d) (page_nodes p) /\
  filter_shown (nodes d) (page_nodes p) page_cards page_toggles shown.

Lemma user_change_eq p shown target ancestors v :
  page_inv p shown -> is_Some (page_nodes p !! target) ->
  page_nodes (user_change target ancestors v p) =
  (if existsb (fun n => bool_decide (n ∈ page_toggles)) (target :: ancestors)
   then applyFilter page_cards page_toggles v else id) (alter (set_checked v) target (page_nodes p)).
Proof.
  intros (Hl & _) [e He]; unfold user_change, dispatch_change; cbn [page_nodes listeners]; rewrite Hl.
  etransitivity; [apply (dispatch_eq page_cards page_toggles target v) | case_match; reflexivity].
  unfold target_is; rewrite lookup_alter_eq, He; eexists; split; reflexivity.
Qed.

Lemma page_inv_change p shown target ancestors v :
  page_inv p shown -> is_Some (page_nodes p !! target) ->
  page_inv (user_change target ancestors v p) (spec_change page_toggles (target :: ancestors) v shown).
Proof.
  intros Hinv He; pose proof Hinv as (Hl & Hrel & Hf); split; [exact Hl|].
  rewrite (user_change_eq p shown target ancestors v Hinv He); unfold spec_change.
  destruct (existsb _ _) eqn:Ex.
  - split; [auto using nodes_related_applyFilter, nodes_related_alter|].
    apply applyFilter_shown; intros n; apply nodes_related_changed, nodes_related_alter, Hrel.
  - split; [apply nodes_related_alter, Hrel|]; cbn in Ex; apply orb_false_iff in Ex as [Ht _].
    apply bool_decide_eq_false in Ht; destruct Hf as [Hc Htog]; split; unfold id.
    + intros card e0 Hin H0; destruct (Hc card e0 Hin H0) as (e & E & HH).
      destruct (decide (target = card)) as [->|Hne]; [|rewrite lookup_alter_ne by exact Hne; eauto].
      rewrite lookup_alter_eq, E; eexists; split; [reflexivity | exact HH].
    + intros t e Hin; rewrite lookup_alter_ne by (intros ->; contradiction); eauto.
Qed.

Lemma page_inv_load : page_cards <> [] -> page_inv (DOMContentLoaded d) false.
Proof.
  intros Hne; unfold DOMContentLoaded; fold page_cards page_toggles.
  destruct (Nat.eqb_spec (length page_cards) 0) as [E|_]; [apply nil_length_inv in E; contradiction|].
  split; [reflexivity|]; split; [apply nodes_related_applyFilter, nodes_related_refl | apply applyFilter_shown; reflexivity].
Qed.

Lemma page_run_inv p shown : page_cards <> [] -> page_run p shown -> page_inv p shown.
Proof. intros Hne; induction 1; [apply page_inv_load, Hne | apply page_inv_change; assumption]. Qed.

(** Without method cards nothing is installed. *)
Lemma page_run_no_cards p shown : page_cards = [] -> page_run p shown -> listeners p = [].
Proof.
  intros E; induction 1 as [|p shown target ancestors v _ IH _]; [|exact IH].
  unfold DOMContentLoaded; fold page_cards; rewrite E; reflexivity.
Qed.
End Runs.

(** ** A small page for the witnesses *)

Definition example_document : Document := {|
  nodes := list_to_map
    [ (1%nat, {| classList := {["rpc-show-changed-only"%string]}; dataset_changed := None; checked := true |});
      (2%nat, {| classList := {["rpc-method-card"%string]}; dataset_changed := Some "true"%string; checked := false |});
      (3%nat, {| classList := {["rpc-method-card"%string]}; dataset_changed := Some "false"%string; checked := false |});
      (4%nat, {| classList := {["rpc-show-changed-only"%string]}; dataset_changed := None; checked := false |}) ];
  tree_order := [1; 2; 3; 4]%nat |}.

(** ** Properties *)

(** C37: The page refines a single switch.  Whatever state the browser restored, after loading and
    after any sequence of changes, every toggle shows the position of the switch and a method card
    is hidden exactly when the switch is on and the card is not marked changed. *)
Theorem page_refines_switch d p shown :
  page_cards d <> [] -> page_run d p shown ->
  filter_shown (nodes d) (page_nodes p) (page_cards d) (page_toggles d) shown.
Proof. intros Hne Hr; apply (page_run_inv d p shown Hne Hr). Qed.

Lemma page_refines_switch_witness :
  filter_shown (nodes example_document) (page_nodes (user_change 4 [] true (DOMContentLoaded example_document)))
    [2; 3]%nat [1; 4]%nat true.
Proof.
  apply (page_refines_switch example_document
    (user_change 4 [] true (DOMContentLoaded example_document)) true).
  - vm_compute; discriminate.
  - apply (run_change example_document (DOMContentLoaded example_document) false 4%nat [] true (run_load _)).
    vm_compute; eexists; reflexivity.
Defined.

(** The script touches nothing else: in every run the elements of the page stay the same, with
    the same [data-changed] and the same classes apart from [is-hidden]; and on a page without
    method cards no handler is installed and a change only sets the control the reader operated. *)
Theorem page_frame d p shown :
  page_run d p shown ->
  (page_cards d <> [] -> nodes_related (nodes d) (page_nodes p)) /\
  (page_cards d = [] -> listeners p = [] /\
     forall target ancestors v, page_nodes (user_change target ancestors v p) = alter (set_checked v) target (page_nodes p)).
Proof.
  intros Hr; split; [intros Hne; apply (page_run_inv d p shown Hne Hr)|].
  intros E; pose proof (page_run_no_cards d p shown E Hr) as Hl; split; [exact Hl|]; intros target ancestors v.
  unfold user_change, dispatch_change; cbn [page_nodes listeners]; rewrite Hl; cbn [foldl].
  induction ancestors as [|a ancestors IH]; [reflexivity | exact IH].
Qed.

Lemma page_frame_witness :
  nodes_related (nodes example_document) (page_nodes (DOMContentLoaded example_document)).
Proof.
  apply (page_frame example_document (DOMContentLoaded example_document) false (run_load _)).
  vm_compute; discriminate.
Defined.
